(** * Flowee hub: the block storage engine of [libs/server/BlocksDB.cpp]

    A shallow embedding of the header tree ([Blocks::DB::appendHeader]),
    the header index ([Blocks::Index]), the memory-mapped block files
    ([Blocks::DBPrivate::mapFile], [loadBlock], [writeBlock]) and the
    reindex scanner ([LoadExternalBlockFile]), followed by the properties
    the specification states about them.

    Conventions.  A [CBlockIndex*] is an address into a heap of records
    ([ptr]); a null pointer is [None].  C++ integers are [Z]; where the
    code computes in a 32-bit unsigned type the wrap-around is written out
    with [u32].  An operation that can hit a failing [assert] or dereference
    a null pointer returns [option]; an operation that throws returns
    [result]. *)

From Stdlib Require Import ZArith Lia.
From Stdlib.Strings Require Import Byte.
From stdpp Require Import base decidable option list numbers strings gmap sorting.

Open Scope Z_scope.

(** ** Machine integers and bytes *)

Definition u32 (x : Z) : Z := x mod 2 ^ 32.

Definition byte_of_Z (x : Z) : byte :=
  match Byte.of_N (Z.to_N (x mod 256)) with
  | Some b => b
  | None => x00
  end.

Definition Z_of_byte (b : byte) : Z := Z.of_N (Byte.to_N b).

#[export] Instance byte_eq_dec : EqDecision byte := Byte.byte_eq_dec.

(** [htole32] followed by a 4-byte [memcpy]. *)
Definition htole32 (x : Z) : list byte :=
  [byte_of_Z x; byte_of_Z (x / 256); byte_of_Z (x / 65536); byte_of_Z (x / 16777216)].

(** [le32toh(*((uint32_t*) p))] on the four bytes at [p]. *)
Definition le32toh (bs : list byte) : Z :=
  match bs with
  | [b0; b1; b2; b3] =>
      Z_of_byte b0 + 256 * Z_of_byte b1 + 65536 * Z_of_byte b2 + 16777216 * Z_of_byte b3
  | _ => 0
  end.

(** The [len] bytes at offset [off] of a buffer. *)
Definition slice (off len : Z) (bytes : list byte) : list byte :=
  take (Z.to_nat len) (drop (Z.to_nat off) bytes).

(** The buffer after [data] was copied to offset [off]. *)
Definition splice (off : Z) (data bytes : list byte) : list byte :=
  take (Z.to_nat off) bytes ++ data ++ drop (Z.to_nat off + length data) bytes.

(** ** Header records *)

(** Modelled from the spec: the status flags of a header record (section 3,
    [FAILED_MASK = FAILED_VALID | FAILED_CHILD]).  The enumeration lives in
    chain.h; the numeric values are the ones of [enum BlockStatus]. *)
Definition BLOCK_VALID_TRANSACTIONS : Z := 3.
Definition BLOCK_VALID_MASK : Z := 7.
Definition BLOCK_HAVE_DATA : Z := 8.
Definition BLOCK_HAVE_UNDO : Z := 16.
Definition BLOCK_FAILED_VALID : Z := 32.
Definition BLOCK_FAILED_CHILD : Z := 64.
Definition BLOCK_FAILED_MASK : Z := Z.lor BLOCK_FAILED_VALID BLOCK_FAILED_CHILD.

(** A [uint256] is the number its 32 bytes spell. *)
Abbreviation uint256 := Z (only parsing).

(** The address of a [CBlockIndex] on the heap. *)
Abbreviation ptr := nat (only parsing).

(** [phashBlock] points at the key stored in a node of the index map; the
    node is named by its position in the node store.  The skip pointer is
    left out: it only accelerates [GetAncestor]. *)
Record CBlockIndex := mkBlockIndex {
  phashBlock : option nat;
  pprev : option ptr;
  nHeight : Z;
  nFile : Z;
  nDataPos : Z;
  nUndoPos : Z;
  nChainWork : Z;
  nTx : Z;
  nStatus : Z;
  nVersion : Z;
  hashMerkleRoot : uint256;
  nTime : Z;
  nBits : Z;
  nNonce : Z
}.

(** [new CBlockIndex()] *)
Definition newBlockIndex : CBlockIndex :=
  mkBlockIndex None None 0 0 0 0 0 0 0 0 0 0 0 0.

Definition set_nStatus (st : Z) (r : CBlockIndex) : CBlockIndex :=
  mkBlockIndex (phashBlock r) (pprev r) (nHeight r) (nFile r) (nDataPos r)
    (nUndoPos r) (nChainWork r) (nTx r) st (nVersion r) (hashMerkleRoot r)
    (nTime r) (nBits r) (nNonce r).

Definition set_phashBlock (a : option nat) (r : CBlockIndex) : CBlockIndex :=
  mkBlockIndex a (pprev r) (nHeight r) (nFile r) (nDataPos r)
    (nUndoPos r) (nChainWork r) (nTx r) (nStatus r) (nVersion r)
    (hashMerkleRoot r) (nTime r) (nBits r) (nNonce r).

Abbreviation Heap := (list CBlockIndex) (only parsing).

(** [nStatus & BLOCK_FAILED_MASK] as a truth value. *)
Definition isFailed (r : CBlockIndex) : bool :=
  negb (Z.land (nStatus r) BLOCK_FAILED_MASK =? 0).

(** Modelled from the spec: [CBlockIndex::IsValid] of chain.h, with its
    default argument: a record carrying a failure flag is not valid, and
    otherwise its validity level has to reach VALID_TRANSACTIONS. *)
Definition IsValid (r : CBlockIndex) : bool :=
  if isFailed r then false
  else BLOCK_VALID_TRANSACTIONS <=? Z.land (nStatus r) BLOCK_VALID_MASK.

(** [n] steps along [pprev]. *)
Fixpoint walkPrev (heap : Heap) (n : nat) (p : ptr) : option ptr :=
  match n with
  | O => Some p
  | S n' => r ← heap !! p; q ← pprev r; walkPrev heap n' q
  end.

(** Modelled from the spec: [CBlockIndex::GetAncestor] of chain.cpp (P2:
    the ancestor of a record at a given height).  Null above the record's
    own height and below zero; otherwise the record reached after
    [nHeight - height] parent steps. *)
Definition GetAncestor (heap : Heap) (p : ptr) (height : Z) : option ptr :=
  r ← heap !! p;
  if bool_decide (height > nHeight r ∨ height < 0) then None
  else walkPrev heap (Z.to_nat (nHeight r - height)) p.

(** ** ChainSet: the header tips and the main chain *)

(** Modelled from the spec: [CChain] of chain.h (section 4.5: the main chain
    is the set of ancestors of [mainTip], reachable via [prev]).  The chain
    is kept as its tip; [SetTip] replaces it, [Height] is -1 when empty and
    [Contains] asks whether the chain's entry at the record's height is the
    record. *)
Definition CChain := option ptr.

Definition Chain_Tip (c : CChain) : option ptr := c.

Definition Chain_SetTip (p : ptr) : CChain := Some p.

Definition Chain_Height (heap : Heap) (c : CChain) : option Z :=
  match c with
  | None => Some (-1)
  | Some t => nHeight <$> heap !! t
  end.

Definition Chain_at (heap : Heap) (c : CChain) (h : Z) : option ptr :=
  t ← c; GetAncestor heap t h.

Definition Chain_Contains (heap : Heap) (c : CChain) (p : ptr) : bool :=
  match heap !! p with
  | Some r => bool_decide (Chain_at heap c (nHeight r) = Some p)
  | None => false
  end.

Record ChainSet := mkChainSet {
  headerChainTips : list ptr;
  headersChain : CChain;
  pindexBestHeader : option ptr
}.

Definition emptyChainSet : ChainSet := mkChainSet [] None None.

(** [while (validPrev->nStatus & BLOCK_FAILED_MASK) validPrev = validPrev->pprev;]
    The walk ends at the first record without a failure flag; running into
    a null parent is a null dereference.  A parent chain on a heap of [n]
    records is exhausted after [n] steps. *)
Fixpoint skipFailed (heap : Heap) (fuel : nat) (p : ptr) : option ptr :=
  r ← heap !! p;
  if isFailed r then
    match fuel with
    | O => None
    | S fuel' => q ← pprev r; skipFailed heap fuel' q
    end
  else Some p.

(** The first loop of [appendHeader]: the position of the first tip that is
    the ancestor of [block] at the tip's height. *)
Fixpoint findExtendedTip (heap : Heap) (block : ptr) (tips : list ptr) (i : nat)
  : option (option (nat * ptr)) :=
  match tips with
  | [] => Some None
  | tip :: rest =>
      t ← heap !! tip;
      if bool_decide (GetAncestor heap block (nHeight t) = Some tip)
      then Some (Some (i, tip))
      else findExtendedTip heap block rest (S i)
  end.

(** The locals of the second loop. *)
Record TipScan := mkTipScan {
  ts_kept : list ptr;
  ts_validPrev : ptr;
  ts_modified : bool;
  ts_alreadyContains : bool;
  ts_chain : CChain;
  ts_modifyingMainChain : bool
}.

Inductive ScanOutcome :=
| ScanReturnFalse (tips : list ptr) (chain : CChain)
| ScanDone (acc : TipScan).

(** The second loop of [appendHeader], over the tips not yet visited;
    [ts_kept] holds the visited tips that were not erased. *)
Fixpoint scanTips (heap : Heap) (block : ptr) (bHeight : Z) (valid : bool)
  (tips : list ptr) (acc : TipScan) : option ScanOutcome :=
  match tips with
  | [] => Some (ScanDone acc)
  | tip :: rest =>
      if bool_decide (GetAncestor heap tip bHeight = Some block) then
        if valid then Some (ScanReturnFalse (ts_kept acc ++ tip :: rest) (ts_chain acc))
        else
          let mainChain := Chain_Contains heap (ts_chain acc) tip in
          scanTips heap block bHeight valid rest
            (mkTipScan (ts_kept acc) (ts_validPrev acc) true (ts_alreadyContains acc)
               (if mainChain then Chain_SetTip (ts_validPrev acc) else ts_chain acc)
               (ts_modifyingMainChain acc || mainChain))
      else
        vp ← heap !! ts_validPrev acc;
        if bool_decide (GetAncestor heap tip (nHeight vp) = Some (ts_validPrev acc)) then
          t ← heap !! tip;
          scanTips heap block bHeight valid rest
            (mkTipScan (ts_kept acc ++ [tip])
               (if nChainWork vp <? nChainWork t then tip else ts_validPrev acc)
               (ts_modified acc) true (ts_chain acc) (ts_modifyingMainChain acc))
        else
          scanTips heap block bHeight valid rest
            (mkTipScan (ts_kept acc ++ [tip]) (ts_validPrev acc) (ts_modified acc)
               (ts_alreadyContains acc) (ts_chain acc) (ts_modifyingMainChain acc))
  end.

(** The tail of [appendHeader] after the tips were updated: the work
    comparison that may move the main chain. *)
Definition electMainChain (heap : Heap) (tips : list ptr) (chain : CChain)
  (best : option ptr) (validPrev block : ptr) (modifyingMainChain : bool)
  : option (ChainSet * bool) :=
  tip ← Chain_Tip chain;
  t ← heap !! tip;
  vp ← heap !! validPrev;
  if nChainWork t <? nChainWork vp
  then Some (mkChainSet tips (Chain_SetTip validPrev) (Some block), true)
  else Some (mkChainSet tips chain best, modifyingMainChain).

(** [Blocks::DB::appendHeader].  [None] stands for a failed assertion or a
    null dereference. *)
Definition appendHeader (heap : Heap) (d : ChainSet) (block : ptr)
  : option (ChainSet * bool) :=
  b ← heap !! block;
  _ ← phashBlock b;
  let valid := negb (isFailed b) in
  if negb valid && bool_decide (pprev b = None) then None
  else if valid && Chain_Contains heap (headersChain d) block then Some (d, false)
  else
    start ← (if valid then Some block else pprev b);
    validPrev ← skipFailed heap (length heap) start;
    found ← findExtendedTip heap block (headerChainTips d) 0;
    match found with
    | Some (i, tip) =>
        let tips := delete i (headerChainTips d) ++ [validPrev] in
        if bool_decide (Some tip = Chain_Tip (headersChain d))
        then Some (mkChainSet tips (Chain_SetTip validPrev) (Some validPrev), true)
        else electMainChain heap tips (headersChain d) (pindexBestHeader d)
               validPrev block false
    | None =>
        out ← scanTips heap block (nHeight b) valid (headerChainTips d)
                (mkTipScan [] validPrev false false (headersChain d) false);
        match out with
        | ScanReturnFalse tips chain =>
            Some (mkChainSet tips chain (pindexBestHeader d), false)
        | ScanDone acc =>
            let tips1 :=
              if ts_modified acc && negb (ts_alreadyContains acc)
              then ts_kept acc ++ [ts_validPrev acc] else ts_kept acc in
            let tips2 := if valid then tips1 ++ [block] else tips1 in
            h ← Chain_Height heap (ts_chain acc);
            if valid && (h =? -1)
            then Some (mkChainSet tips2 (Chain_SetTip block) (Some block), true)
            else electMainChain heap tips2 (ts_chain acc) (pindexBestHeader d)
                   (ts_validPrev acc) block (ts_modifyingMainChain acc)
        end
    end.

(** A run of [appendHeader] calls on one heap. *)
Fixpoint appendHeaders (heap : Heap) (d : ChainSet) (blocks : list ptr)
  : option ChainSet :=
  match blocks with
  | [] => Some d
  | b :: rest => r ← appendHeader heap d b; appendHeaders heap r.1 rest
  end.

(** ** HeaderIndex: the map from block hashes to header records

    [indexMap] is an unordered map from [uint256] to [CBlockIndex*].  Its
    nodes are kept in a node store; a node never moves, so the address of
    the key stored in a node is the node's position.  The order of the
    store stands for the (unspecified) iteration order of the map. *)

Record Index := mkIndex {
  ix_heap : Heap;
  indexMap : list (uint256 * ptr);
  setDirtyBlockIndex : gset ptr
}.

Definition emptyIndex : Index := mkIndex [] [] ∅.

(** [indexMap.find(hash)]: the node holding [hash] and its position. *)
Fixpoint findNode (m : list (uint256 * ptr)) (hash : uint256) (i : nat)
  : option (nat * ptr) :=
  match m with
  | [] => None
  | (k, v) :: rest =>
      if bool_decide (k = hash) then Some (i, v) else findNode rest hash (S i)
  end.

(** [Blocks::Index::insert]: [indexMap.insert(std::make_pair(hash, index)).first],
    and the address of the key of the node the iterator designates. *)
Definition Index_insert (m : list (uint256 * ptr)) (hash : uint256) (index : ptr)
  : list (uint256 * ptr) * nat :=
  match findNode m hash 0 with
  | Some (i, _) => (m, i)
  | None => (m ++ [(hash, index)], length m)
  end.

(** [Blocks::Index::get] *)
Definition Index_get (m : list (uint256 * ptr)) (hash : uint256) : option ptr :=
  snd <$> findNode m hash 0.

(** [Blocks::Index::exists] *)
Definition Index_exists (m : list (uint256 * ptr)) (hash : uint256) : bool :=
  bool_decide (is_Some (findNode m hash 0)).

(** [Blocks::Index::size] *)
Definition Index_size (m : list (uint256 * ptr)) : Z := Z.of_nat (length m).

(** [Blocks::Index::empty] *)
Definition Index_empty (m : list (uint256 * ptr)) : bool :=
  bool_decide (m = []).

(** [InsertBlockIndex]: null for the null hash, the existing record when the
    hash is known, otherwise a fresh record whose [phashBlock] points at the
    key of its node. *)
Definition InsertBlockIndex (ix : Index) (hash : uint256) : Index * option ptr :=
  if hash =? 0 then (ix, None)
  else
    match Index_get (indexMap ix) hash with
    | Some p => (ix, Some p)
    | None =>
        let pindexNew := length (ix_heap ix) in
        let '(m, a) := Index_insert (indexMap ix) hash pindexNew in
        (mkIndex (ix_heap ix ++ [set_phashBlock (Some a) newBlockIndex]) m
           (setDirtyBlockIndex ix), Some pindexNew)
    end.

(** [nStatus &= ~BLOCK_FAILED_MASK] *)
Definition clearFailed (r : CBlockIndex) : CBlockIndex :=
  set_nStatus (Z.land (nStatus r) (Z.lnot BLOCK_FAILED_MASK)) r.

(** The first loop of [reconsiderBlock], over the nodes of the index map.
    [MarkIndexUnsaved] (main.cpp) is modelled from the spec: the record is
    added to the set of records to persist again. *)
Fixpoint reconsiderDescendants (nodes : list (uint256 * ptr)) (pindex : ptr)
  (height : Z) (heap : Heap) (dirty : gset ptr) : option (Heap * gset ptr) :=
  match nodes with
  | [] => Some (heap, dirty)
  | (_, p) :: rest =>
      r ← heap !! p;
      if negb (IsValid r) && bool_decide (GetAncestor heap p height = Some pindex)
      then reconsiderDescendants rest pindex height
             (<[p := clearFailed r]> heap) ({[p]} ∪ dirty)
      else reconsiderDescendants rest pindex height heap dirty
  end.

(** The second loop of [reconsiderBlock]: [while (pindex != NULL)].  A
    parent chain without a cycle visits every record of the heap at most
    once, which bounds the number of iterations. *)
Fixpoint reconsiderAncestors (fuel : nat) (pindex : option ptr)
  (heap : Heap) (dirty : gset ptr) : option (Heap * gset ptr) :=
  match pindex with
  | None => Some (heap, dirty)
  | Some p =>
      match fuel with
      | O => None
      | S fuel' =>
          r ← heap !! p;
          if isFailed r
          then reconsiderAncestors fuel' (pprev r)
                 (<[p := clearFailed r]> heap) ({[p]} ∪ dirty)
          else reconsiderAncestors fuel' (pprev r) heap dirty
      end
  end.

(** [Blocks::Index::reconsiderBlock] *)
Definition reconsiderBlock (ix : Index) (pindex : ptr) : option (Index * bool) :=
  r ← ix_heap ix !! pindex;
  '(heap1, dirty1) ← reconsiderDescendants (indexMap ix) pindex (nHeight r)
                       (ix_heap ix) (setDirtyBlockIndex ix);
  '(heap2, dirty2) ← reconsiderAncestors (length heap1) (Some pindex) heap1 dirty1;
  Some (mkIndex heap2 (indexMap ix) dirty2, true).

(** ** Block files on disk *)

(** Modelled from the spec: the constants of section 6 (declared in main.h). *)
Definition MAX_BLOCKFILE_SIZE : Z := 134217728.
Definition BLOCKFILE_CHUNK_SIZE : Z := 16777216.
Definition UNDOFILE_CHUNK_SIZE : Z := 1048576.

Inductive BlockType := ForwardBlock | RevertBlock.

#[export] Instance BlockType_eq_dec : EqDecision BlockType.
Proof. solve_decision. Defined.

Record CDiskBlockPos := mkPos { pos_nFile : Z; pos_nPos : Z }.

(** Modelled from the spec: the FileInfo of section 3, restricted to the
    fields the block store updates; [AddBlock] counts one more block. *)
Record CBlockFileInfo := mkFileInfo { nBlocks : Z; nSize : Z; nUndoSize : Z }.

Definition newFileInfo : CBlockFileInfo := mkFileInfo 0 0 0.

Definition AddBlock (info : CBlockFileInfo) : CBlockFileInfo :=
  mkFileInfo (nBlocks info + 1) (nSize info) (nUndoSize info).

(** What the block store takes from its collaborators: the network magic
    of the chain parameters ([Params().MessageStart()], four bytes), the
    double SHA-256 of [CHashWriter], and the default value of the
    [fFindHarder] argument of [getFilepathForIndex], which is declared in
    the header. *)
Record Env := mkEnv {
  pchMessageStart : byte * byte * byte * byte;
  Hash256 : list byte → uint256;
  fFindHarderDefault : bool
}.

Definition MessageStart (env : Env) : list byte :=
  let '(m0, m1, m2, m3) := pchMessageStart env in [m0; m1; m2; m3].

(** The 32 bytes of a [uint256] in memory. *)
Definition uint256_bytes (x : uint256) : list byte :=
  (λ i : nat, byte_of_Z (x / 256 ^ Z.of_nat i)) <$> seq 0 32.

(** What can go wrong: the exceptions the code throws, in the order of
    their [throw] statements, then [vector::at], the filesystem library, a
    failed [assert], an access outside a mapping, and [OutOfFuel] for a
    loop of the model that was cut off. *)
Inductive Failure :=
| DatabaseCorruption
| FailedToMemmap
| PositionOutsideOfFile
| BlockBiggerThanFile
| ChecksumMismatch
| FailedToOpenFile
| FileNotWritable
| FailedToOpenResizedFile
| ResizedFileNotWritable
| OutOfRange
| FilesystemError
| AssertionFailure
| MemoryFault
| OutOfFuel.

#[export] Instance Failure_eq_dec : EqDecision Failure.
Proof. solve_decision. Defined.

Inductive result (T : Type) :=
| Ok (a : T)
| Err (e : Failure).

Arguments Ok {T} a.
Arguments Err {T} e.

#[export] Instance result_ret : MRet result := λ T a, Ok a.

#[export] Instance result_bind : MBind result := λ T U f m,
  match m with
  | Ok a => f a
  | Err e => Err e
  end.

(** Directories: the data directory and the directories given with
    [-blockdatadir]. *)
Inductive Dir := DataDir | BlockDataDir (name : string).

#[export] Instance Dir_eq_dec : EqDecision Dir.
Proof. solve_decision. Defined.

(** [dir / "blocks" / strprintf("%s%05u.dat", prefix, fileIndex)] *)
Record Path := mkPath { p_dir : Dir; p_prefix : BlockType; p_index : Z }.

#[export] Instance Path_eq_dec : EqDecision Path.
Proof. solve_decision. Defined.

Record DiskFile := mkDiskFile { f_bytes : list byte; f_readonly : bool }.

Definition Disk := Path → option DiskFile.

Definition noFiles : Disk := λ _, None.

Definition disk_set (d : Disk) (p : Path) (f : DiskFile) : Disk :=
  λ q, if decide (q = p) then Some f else d q.

Definition fileExists (d : Disk) (p : Path) : bool :=
  match d p with Some _ => true | None => false end.

(** [df->file.size()] *)
Definition fileLength (f : DiskFile) : Z := Z.of_nat (length (f_bytes f)).

(** [Blocks::getFilepathForIndex] *)
Definition getFilepathForIndex (d : Disk) (blocksDataDirs : list string)
  (fileIndex : Z) (prefix : BlockType) (fFindHarder : bool) : Path :=
  let path := mkPath DataDir prefix fileIndex in
  if fFindHarder && negb (fileExists d path) then
    match list_find (λ dir, fileExists d (mkPath (BlockDataDir dir) prefix fileIndex) = true)
            blocksDataDirs with
    | Some (_, dir) => mkPath (BlockDataDir dir) prefix fileIndex
    | None => path
    end
  else path.

(** A live mapping of a data file: the [DataFile] a slot of the mapper
    points at while its buffer is alive.  The cleanup of a buffer resets
    its slot, so a slot that is not null designates a live mapping.  The
    mapped bytes are those of the file.  [df_id] tells the objects that
    [new DataFile()] creates apart, as their addresses do. *)
Record DataFile := mkDataFile {
  df_path : Path;
  df_filesize : Z;
  df_writable : bool;
  df_id : nat
}.

#[export] Instance DataFile_eq_dec : EqDecision DataFile.
Proof. solve_decision. Defined.

(** [Blocks::DBPrivate], the part that serves the block files.  The
    buffer of a mapping is shared between the history of the mapper and
    the [Streaming::ConstBuffer]s handed out to the callers; [inUse] tells
    of a mapping whether such a buffer of a caller still refers to it. *)
Record FileStore := mkFileStore {
  disk : Disk;
  blocksDataDirs : list string;
  datafiles : list (option DataFile);
  revertDatafiles : list (option DataFile);
  fileHistory : list DataFile;
  vinfoBlockFile : list CBlockFileInfo;
  nLastBlockFile : Z;
  setDirtyFileInfo : gset Z;
  inUse : DataFile → bool
}.

Definition emptyStore : FileStore := mkFileStore noFiles [] [] [] [] [] 0 ∅ (λ _, false).

Definition slots (s : FileStore) (type : BlockType) : list (option DataFile) :=
  match type with
  | ForwardBlock => datafiles s
  | RevertBlock => revertDatafiles s
  end.

Definition set_slots (type : BlockType) (l : list (option DataFile)) (s : FileStore)
  : FileStore :=
  match type with
  | ForwardBlock =>
      mkFileStore (disk s) (blocksDataDirs s) l (revertDatafiles s) (fileHistory s)
        (vinfoBlockFile s) (nLastBlockFile s) (setDirtyFileInfo s) (inUse s)
  | RevertBlock =>
      mkFileStore (disk s) (blocksDataDirs s) (datafiles s) l (fileHistory s)
        (vinfoBlockFile s) (nLastBlockFile s) (setDirtyFileInfo s) (inUse s)
  end.

Definition set_disk (d : Disk) (s : FileStore) : FileStore :=
  mkFileStore d (blocksDataDirs s) (datafiles s) (revertDatafiles s) (fileHistory s)
    (vinfoBlockFile s) (nLastBlockFile s) (setDirtyFileInfo s) (inUse s).

Definition set_fileHistory (h : list DataFile) (s : FileStore) : FileStore :=
  mkFileStore (disk s) (blocksDataDirs s) (datafiles s) (revertDatafiles s) h
    (vinfoBlockFile s) (nLastBlockFile s) (setDirtyFileInfo s) (inUse s).

Definition set_vinfo (v : list CBlockFileInfo) (last : Z) (s : FileStore) : FileStore :=
  mkFileStore (disk s) (blocksDataDirs s) (datafiles s) (revertDatafiles s)
    (fileHistory s) v last (setDirtyFileInfo s) (inUse s).

Definition set_dirty (g : gset Z) (s : FileStore) : FileStore :=
  mkFileStore (disk s) (blocksDataDirs s) (datafiles s) (revertDatafiles s)
    (fileHistory s) (vinfoBlockFile s) (nLastBlockFile s) g (inUse s).

(** The mappings the mapper refers to, from its history and its slots. *)
Definition mappingsOf (s : FileStore) : list DataFile :=
  fileHistory s ++ omap id (datafiles s) ++ omap id (revertDatafiles s).

(** The identity of the object of the next [new DataFile()]: it differs
    from all the objects the mapper refers to. *)
Definition freshId (s : FileStore) : nat := S (max_list (df_id <$> mappingsOf s)).

(** [cleanupLambda], the deleter of the buffer of a mapping, which runs
    when the last owner of the buffer lets go of it.  It captured [useBlk],
    [fileIndex] and [df] when the file was mapped; the first two are those
    of the path of the mapping.  The slot of the file is reset when it
    still points at this mapping. *)
Definition cleanupLambda (df : DataFile) (s : FileStore) : result FileStore :=
  let type := p_prefix (df_path df) in
  let fileIndex := p_index (df_path df) in
  let list := slots s type in
  if negb ((0 <=? fileIndex) && (fileIndex <? Z.of_nat (length list)))
  then Err AssertionFailure
  else if bool_decide (list !! Z.to_nat fileIndex = Some (Some df))
       then Ok (set_slots type (<[Z.to_nat fileIndex := None]> list) s)
       else Ok s.

(** [fileHistory.push_back(buf); if (fileHistory.size() > 10) fileHistory.erase(fileHistory.begin());]
    The erased entry was the reference of the history to the buffer of the
    oldest mapping.  When neither the history nor a caller refers to that
    buffer any more, it is destroyed and its deleter runs. *)
Definition pushHistory (df : DataFile) (s : FileStore) : result FileStore :=
  let h1 := fileHistory s ++ [df] in
  if (10 <? length h1)%nat then
    match h1 with
    | oldest :: rest =>
        if inUse s oldest || bool_decide (oldest ∈ rest)
        then Ok (set_fileHistory rest s)
        else cleanupLambda oldest (set_fileHistory rest s)
    | [] => Ok (set_fileHistory h1 s)
    end
  else Ok (set_fileHistory h1 s).

(** [Blocks::DBPrivate::mapFile].  The result is the mapping, null when the
    file cannot be opened; [size_out] and [isWritable] are read off the
    mapping.  Opening read-write falls back to read-only. *)
Definition mapFile (s : FileStore) (fileIndex : Z) (type : BlockType)
  : result (FileStore * option DataFile) :=
  let useBlk := bool_decide (type = ForwardBlock) in
  let list := slots s type in
  let list1 :=
    if Z.of_nat (length list) <=? fileIndex
    then resize (Z.to_nat (fileIndex + 10)) None list else list in
  if fileIndex <? 0 then Err OutOfRange
  else
    match list1 !! Z.to_nat fileIndex with
    | None => Err OutOfRange
    | Some (Some df) => Ok (set_slots type list1 s, Some df)
    | Some None =>
        let path := getFilepathForIndex (disk s) (blocksDataDirs s) fileIndex type true in
        let readWrite := negb (useBlk && negb (fileIndex =? nLastBlockFile s)) in
        match disk s path with
        | Some f =>
            let df := mkDataFile path (fileLength f) (readWrite && negb (f_readonly f))
                        (freshId s) in
            s1 ← pushHistory df (set_slots type (<[Z.to_nat fileIndex := Some df]> list1) s);
            Ok (s1, Some df)
        | None => Ok (set_slots type list1 s, None)
        end
    end.

(** [fileHasGrown] and [revertFileHasGrown] *)
Definition fileHasGrown (s : FileStore) (type : BlockType) (fileIndex : Z)
  : result FileStore :=
  if (0 <=? fileIndex) && (fileIndex <? Z.of_nat (length (slots s type)))
  then Ok (set_slots type (<[Z.to_nat fileIndex := None]> (slots s type)) s)
  else Err AssertionFailure.

(** Reading [len] bytes at offset [off] of a mapping. *)
Definition peek (d : Disk) (df : DataFile) (off len : Z) : result (list byte) :=
  match d (df_path df) with
  | Some f =>
      if (0 <=? off) && (0 <=? len) && (off + len <=? df_filesize df)
         && (off + len <=? fileLength f)
      then Ok (slice off len (f_bytes f))
      else Err MemoryFault
  | None => Err MemoryFault
  end.

(** Modelled from the platform: the memory of a mapping comes in pages of
    4096 bytes. *)
Definition PAGE_SIZE : Z := 4096.

(** The size of the pages that hold a file of [n] bytes. *)
Definition mappedSize (n : Z) : Z := (n + PAGE_SIZE - 1) / PAGE_SIZE * PAGE_SIZE.

(** A read of [len] bytes at offset [off] through a pointer into a mapping,
    without a test against the size of the file: behind the last byte of
    the file the last page of the mapping holds zero bytes, and a read
    that leaves the pages of the mapping faults. *)
Definition readMapped (d : Disk) (df : DataFile) (off len : Z) : result (list byte) :=
  match d (df_path df) with
  | Some f =>
      let mapped := mappedSize (df_filesize df) in
      if (0 <=? off) && (0 <=? len) && (off + len <=? mapped)
      then Ok (slice off len (resize (Z.to_nat mapped) x00 (f_bytes f)))
      else Err MemoryFault
  | None => Err MemoryFault
  end.

(** [memcpy] of [data] to offset [off] of a mapping. *)
Definition poke (d : Disk) (df : DataFile) (off : Z) (data : list byte) : result Disk :=
  match d (df_path df) with
  | Some f =>
      if (0 <=? off) && (off + Z.of_nat (length data) <=? df_filesize df)
         && (off + Z.of_nat (length data) <=? fileLength f)
      then Ok (disk_set d (df_path df)
                 (mkDiskFile (splice off data (f_bytes f)) (f_readonly f)))
      else Err MemoryFault
  | None => Err MemoryFault
  end.

(** [Streaming::ConstBuffer]: a shared mapping and a range of offsets in it. *)
Record ConstBuffer := mkConstBuffer {
  cb_buffer : option DataFile;
  cb_begin : Z;
  cb_end : Z
}.

Definition emptyBuffer : ConstBuffer := mkConstBuffer None 0 0.

(** Modelled from the spec: [ConstBuffer::isValid], a view is valid when it
    holds a mapping (a pruned file gives the empty view). *)
Definition isValid (b : ConstBuffer) : bool :=
  match cb_buffer b with Some _ => true | None => false end.

(** The bytes a view shows. *)
Definition viewBytes (d : Disk) (b : ConstBuffer) : option (list byte) :=
  df ← cb_buffer b;
  f ← d (df_path df);
  if (0 <=? cb_begin b) && (cb_begin b <=? cb_end b) && (cb_end b <=? fileLength f)
  then Some (slice (cb_begin b) (cb_end b - cb_begin b) (f_bytes f))
  else None.

(** [Blocks::DBPrivate::loadBlock] *)
Definition loadBlock (env : Env) (s : FileStore) (pos : CDiskBlockPos)
  (type : BlockType) (blockHash : option uint256) : result (FileStore * ConstBuffer) :=
  if pos_nPos pos <? 4 then Err DatabaseCorruption
  else
    '(s1, buf) ← mapFile s (pos_nFile pos) type;
    match buf with
    | None => Err FailedToMemmap
    | Some df =>
        let fileSize := df_filesize df in
        if fileSize <=? pos_nPos pos then Err PositionOutsideOfFile
        else
          size ← peek (disk s1) df (pos_nPos pos - 4) 4;
          let blockSize := le32toh size in
          if fileSize <? u32 (pos_nPos pos + blockSize + match blockHash with Some _ => 32 | None => 0 end)
          then Err BlockBiggerThanFile
          else
            match blockHash with
            | Some h =>
                if negb (bool_decide (type = RevertBlock)) then Err AssertionFailure
                else
                  payload ← peek (disk s1) df (pos_nPos pos) blockSize;
                  hashChecksum ← peek (disk s1) df (pos_nPos pos + blockSize) 32;
                  if bool_decide
                       (hashChecksum ≠ uint256_bytes (Hash256 env (uint256_bytes h ++ payload)))
                  then Err ChecksumMismatch
                  else Ok (s1, mkConstBuffer (Some df) (pos_nPos pos) (pos_nPos pos + blockSize))
            | None =>
                Ok (s1, mkConstBuffer (Some df) (pos_nPos pos) (pos_nPos pos + blockSize))
            end
    end.

(** [Blocks::DB::loadBlockFile] *)
Definition loadBlockFile (s : FileStore) (fileIndex : Z)
  : result (FileStore * ConstBuffer) :=
  '(s1, buf) ← mapFile s fileIndex ForwardBlock;
  match buf with
  | None => Ok (s1, emptyBuffer)
  | Some df => Ok (s1, mkConstBuffer (Some df) 0 (df_filesize df - 1))
  end.

(** ** Writing blocks and undo blocks *)

(** [vinfoBlockFile[i]]; an index outside the vector is an invalid access. *)
Definition fileInfoAt (v : list CBlockFileInfo) (i : Z) : result CBlockFileInfo :=
  if i <? 0 then Err MemoryFault
  else match v !! Z.to_nat i with
       | Some info => Ok info
       | None => Err MemoryFault
       end.

(** The choice of the file in [writeBlock] (from [bool newFile = false] to the
    two assertions on [pos.nFile]): the updated store, [newFile] and
    [pos.nFile]. *)
Definition selectFile (s : FileStore) (blockSize : Z) (type : BlockType) (posFile : Z)
  : result (FileStore * bool * Z) :=
  let useBlk := bool_decide (type = ForwardBlock) in
  let vinfo := vinfoBlockFile s in
  let last := nLastBlockFile s in
  '(vinfo1, last1, newFile) ←
    (if Z.of_nat (length vinfo) <=? last
     then Ok (resize (Z.to_nat (last + 1)) newFileInfo vinfo, last, true)
     else if useBlk then
       info ← fileInfoAt vinfo last;
       if MAX_BLOCKFILE_SIZE <? u32 (nSize info + blockSize + 8)
       then Ok (resize (Z.to_nat (last + 1 + 1)) newFileInfo vinfo, last + 1, true)
       else Ok (vinfo, last, false)
     else if last <? posFile then
       let last1 := Z.max (last + 1) posFile in
       Ok (resize (Z.to_nat (last1 + 1)) newFileInfo vinfo, last1, true)
     else Ok (vinfo, last, false));
  let nFile := if useBlk then last1 else posFile in
  if negb (nFile <=? last1) then Err AssertionFailure
  else if negb (nFile <? Z.of_nat (length vinfo1)) then Err AssertionFailure
  else Ok (set_vinfo vinfo1 last1 s, newFile, nFile).

Definition chunkSize (type : BlockType) : Z :=
  match type with
  | ForwardBlock => BLOCKFILE_CHUNK_SIZE
  | RevertBlock => UNDOFILE_CHUNK_SIZE
  end.

(** [boost::filesystem::resize_file]: the file is cut or padded with zero
    bytes; it has to exist and to be writable. *)
Definition resize_file (d : Disk) (path : Path) (newSize : Z) : result Disk :=
  match d path with
  | Some f =>
      if f_readonly f then Err FilesystemError
      else Ok (disk_set d path (mkDiskFile (resize (Z.to_nat newSize) x00 (f_bytes f)) false))
  | None => Err FilesystemError
  end.

(** [boost::filesystem::ofstream file(path); file.close(); resize_file(path, newFileSize);]
    The stream creates the file or empties it. *)
Definition createFile (d : Disk) (path : Path) (newFileSize : Z) : result Disk :=
  match d path with
  | Some f =>
      if f_readonly f then Err FilesystemError
      else resize_file (disk_set d path (mkDiskFile [] false)) path newFileSize
  | None => resize_file (disk_set d path (mkDiskFile [] false)) path newFileSize
  end.

(** The loop that grows the file in [writeBlock]; [need] is
    [*posInFile + blockSize + 8 + (useBlk ? 0 : 32)].  The sum is below
    [2 ^ 32] and every turn adds a chunk to the size of the file. *)
Fixpoint growFile (env : Env) (fuel : nat) (s : FileStore) (nFile : Z)
  (type : BlockType) (need : Z) (df : DataFile) : result (FileStore * DataFile) :=
  if df_filesize df <=? need then
    match fuel with
    | O => Err OutOfFuel
    | S fuel' =>
        let path := getFilepathForIndex (disk s) (blocksDataDirs s) nFile type
                      (fFindHarderDefault env) in
        let newFileSize := df_filesize df + chunkSize type in
        s1 ← fileHasGrown s type nFile;
        d ← resize_file (disk s1) path newFileSize;
        '(s2, buf) ← mapFile (set_disk d s1) nFile type;
        match buf with
        | None => Err FailedToOpenResizedFile
        | Some df' =>
            if df_writable df' then growFile env fuel' s2 nFile type need df'
            else Err ResizedFileNotWritable
        end
    end
  else Ok (s, df).

(** The number of turns after which the size of any file exceeds [2 ^ 32]. *)
Definition growFuel : nat := Z.to_nat 4097.

(** The second half of [writeBlock], from the loop that grows the file to
    the return: the frame is copied to [*posInFile] of the mapping and the
    counters of the file are advanced. *)
Definition storeBlock (env : Env) (s3 : FileStore) (nFile : Z) (type : BlockType)
  (info : CBlockFileInfo) (df : DataFile) (block : list byte)
  (blockHash : option uint256) : result (FileStore * CDiskBlockPos * ConstBuffer) :=
  let blockSize := Z.of_nat (length block) in
  let useBlk := bool_decide (type = ForwardBlock) in
  let posInFile := if useBlk then nSize info else nUndoSize info in
  '(s4, df4) ← growFile env growFuel s3 nFile type
                 (u32 (posInFile + blockSize + 8 + (if useBlk then 0 else 32))) df;
  let nPos := u32 (posInFile + 8) in
  d5 ← poke (disk s4) df4 posInFile (MessageStart env);
  d6 ← poke d5 df4 (posInFile + 4) (htole32 blockSize);
  d7 ← poke d6 df4 (posInFile + 4 + 4) block;
  '(d8, info8) ←
    (if useBlk then Ok (d7, AddBlock info)
     else
       match blockHash with
       | None => Err AssertionFailure
       | Some h =>
           d ← poke d7 df4 (posInFile + 4 + 4 + blockSize)
                 (uint256_bytes (Hash256 env (uint256_bytes h ++ block)));
           Ok (d, mkFileInfo (nBlocks info) (nSize info) (u32 (nUndoSize info + 32)))
       end);
  let info9 :=
    if useBlk
    then mkFileInfo (nBlocks info8) (u32 (nSize info8 + blockSize + 8)) (nUndoSize info8)
    else mkFileInfo (nBlocks info8) (nSize info8) (u32 (nUndoSize info8 + blockSize + 8)) in
  Ok (set_dirty ({[nFile]} ∪ setDirtyFileInfo s4)
        (set_vinfo (<[Z.to_nat nFile := info9]> (vinfoBlockFile s4))
           (nLastBlockFile s4) (set_disk d8 s4)),
      mkPos nFile nPos,
      mkConstBuffer (Some df4) (posInFile + 4 + 4) (posInFile + 4 + 4 + blockSize)).

(** [Blocks::DBPrivate::writeBlock]; the result is the store, the position
    assigned to [pos] and the view of the written payload. *)
Definition writeBlock (env : Env) (s : FileStore) (block : list byte)
  (pos : CDiskBlockPos) (type : BlockType) (blockHash : option uint256)
  : result (FileStore * CDiskBlockPos * ConstBuffer) :=
  let blockSize := Z.of_nat (length block) in
  if negb (blockSize <? MAX_BLOCKFILE_SIZE - 8) then Err AssertionFailure
  else
    let useBlk := bool_decide (type = ForwardBlock) in
    '(s1, newFile, nFile) ← selectFile s blockSize type (pos_nFile pos);
    info ← fileInfoAt (vinfoBlockFile s1) nFile;
    d2 ← (if newFile || (negb useBlk && (nUndoSize info =? 0)) then
            createFile (disk s1)
              (getFilepathForIndex (disk s1) (blocksDataDirs s1) nFile type
                 (fFindHarderDefault env))
              (Z.max (blockSize + 8) (chunkSize type))
          else Ok (disk s1));
    '(s3, buf) ← mapFile (set_disk d2 s1) nFile type;
    match buf with
    | None => Err FailedToOpenFile
    | Some df =>
        if negb (df_writable df) then Err FileNotWritable
        else storeBlock env s3 nFile type info df block blockHash
    end.

(** [Blocks::DB::writeUndoBlock]: the undo block goes to the revert file
    with the index of its block file. *)
Definition writeUndoBlock (env : Env) (s : FileStore) (block : list byte)
  (blockHash : uint256) (fileIndex : Z)
  : result (FileStore * CDiskBlockPos * ConstBuffer) :=
  if negb (0 <? Z.of_nat (length block)) then Err AssertionFailure
  else writeBlock env s block (mkPos fileIndex 0) RevertBlock (Some blockHash).

(** [Blocks::DB::loadUndoBlock] *)
Definition loadUndoBlock (env : Env) (s : FileStore) (pos : CDiskBlockPos)
  (origBlockHash : uint256) : result (FileStore * ConstBuffer) :=
  loadBlock env s pos RevertBlock (Some origBlockHash).

(** ** Reindexing: scanning the block files *)

(** [memchr(buf, c, n)]: the offset of the first byte equal to [c] among the
    [n] bytes at [bytes]. *)
Fixpoint memchr (bytes : list byte) (c : byte) (n : nat) : option nat :=
  match n, bytes with
  | S n', b :: rest =>
      if bool_decide (b = c) then Some O else S <$> memchr rest c n'
  | _, _ => None
  end.

(** [(unsigned char) blockHeaderMessage]: the value [memchr] looks for is
    the low byte of the int read from the magic, its first byte on a
    little-endian host. *)
Definition blockHeaderMessageByte (env : Env) : byte :=
  let '(m0, _, _, _) := pchMessageStart env in m0.

(** What [LoadExternalBlockFile] hands to its collaborators: the positions
    passed to [addBlock] and the scanned [CBlockFileInfo]. *)
Record ScanState := mkScanState {
  sc_added : list CDiskBlockPos;
  sc_nBlocks : Z;
  sc_nSize : Z
}.

(** The loop of [LoadExternalBlockFile]; [buf] and [stop] are the offsets
    of [buf] and of [dataFile.end()] from [dataFile.begin()].  Every turn
    moves [buf] forward by at least four bytes.  [memchr] stays inside the
    view; the length is read through the pointer [buf] cast to a 32-bit
    integer, which is not tested against the end of the view. *)
Fixpoint scanBlockFile (env : Env) (d : Disk) (df : DataFile) (nFile : Z)
  (stop : Z) (fuel : nat) (buf : Z) (st : ScanState) : result ScanState :=
  if buf <? stop then
    match fuel with
    | O => Err OutOfFuel
    | S fuel' =>
        window ← peek d df buf ((stop - buf) / 4);
        match memchr window (blockHeaderMessageByte env) (Z.to_nat ((stop - buf) / 4)) with
        | None => Ok st
        | Some k =>
            let buf1 := buf + Z.of_nat k + 4 in
            size ← readMapped d df buf1 4;
            let blockSize := le32toh size in
            if blockSize <? 80 then scanBlockFile env d df nFile stop fuel' buf1 st
            else
              let buf2 := buf1 + 4 in
              let buf3 := buf2 + blockSize in
              scanBlockFile env d df nFile stop fuel' buf3
                (mkScanState (sc_added st ++ [mkPos nFile (u32 buf2)])
                   (sc_nBlocks st + 1) (u32 buf3))
        end
    end
  else Ok st.

(** [Blocks::DBPrivate::foundBlockFile] *)
Definition foundBlockFile (s : FileStore) (index : Z) (blocks size : Z) : result FileStore :=
  let last := if nLastBlockFile s <? index then index else nLastBlockFile s in
  let vinfo :=
    if Z.of_nat (length (vinfoBlockFile s)) <=? last
    then resize (Z.to_nat (last + 1)) newFileInfo (vinfoBlockFile s)
    else vinfoBlockFile s in
  info ← fileInfoAt vinfo index;
  Ok (set_vinfo (<[Z.to_nat index := mkFileInfo blocks size (nUndoSize info)]> vinfo) last s).

(** [LoadExternalBlockFile]: the store, the positions submitted to the
    validation engine with [addBlock], and the returned flag. *)
Definition LoadExternalBlockFile (env : Env) (s : FileStore) (pos : CDiskBlockPos)
  : result (FileStore * list CDiskBlockPos * bool) :=
  '(s1, dataFile) ← loadBlockFile s (pos_nFile pos);
  match cb_buffer dataFile with
  | None => Ok (s1, [], false)
  | Some df =>
      st ← scanBlockFile env (disk s1) df (pos_nFile pos) (cb_end dataFile)
             (S (Z.to_nat (cb_end dataFile))) (cb_begin dataFile) (mkScanState [] 0 0);
      s2 ← (if 0 <? sc_nBlocks st
            then foundBlockFile s1 (pos_nFile pos) (sc_nBlocks st) (sc_nSize st)
            else Ok s1);
      Ok (s2, sc_added st, true)
  end.

Inductive ReindexingState := NoReindex | ScanningFiles | ParsingBlocks.



(** ** Loading the header index at startup *)

(** A row of the block index database under the cursor: the key and the
    value when they can be read.  [dbi_hash] is the value of
    [GetBlockHash()], the hash of the header stored in the row. *)
Record CDiskBlockIndex := mkDiskBlockIndex {
  dbi_hash : uint256;
  dbi_hashPrev : uint256;
  dbi_nHeight : Z;
  dbi_nFile : Z;
  dbi_nDataPos : Z;
  dbi_nUndoPos : Z;
  dbi_nVersion : Z;
  dbi_hashMerkleRoot : uint256;
  dbi_nTime : Z;
  dbi_nBits : Z;
  dbi_nNonce : Z;
  dbi_nStatus : Z;
  dbi_nTx : Z
}.

Record Row := mkRow {
  row_key : option (byte * uint256);
  row_value : option CDiskBlockIndex
}.

Definition DB_BLOCK_INDEX : byte := x62.

(** [Blocks::DB] with its private part. *)
Record DB := mkDB {
  db_index : Index;
  db_chain : ChainSet;
  db_store : FileStore;
  db_reindexing : ReindexingState
}.

(** The assignments to [*pindexNew] in [CacheAllBlockInfos]. *)
Definition loadRecord (old : CBlockIndex) (prev : option ptr) (di : CDiskBlockIndex)
  : CBlockIndex :=
  mkBlockIndex (phashBlock old) prev (dbi_nHeight di) (dbi_nFile di) (dbi_nDataPos di)
    (dbi_nUndoPos di) (nChainWork old) (dbi_nTx di) (dbi_nStatus di) (dbi_nVersion di)
    (dbi_hashMerkleRoot di) (dbi_nTime di) (dbi_nBits di) (dbi_nNonce di).

(** The cursor loop of [CacheAllBlockInfos]: the index, [maxFile], and
    whether every row could be read. *)
Fixpoint loadRows (rows : list Row) (ix : Index) (maxFile : Z)
  : option (Index * Z * bool) :=
  match rows with
  | [] => Some (ix, maxFile, true)
  | row :: rest =>
      match row_key row with
      | Some (c, _) =>
          if bool_decide (c = DB_BLOCK_INDEX) then
            match row_value row with
            | Some di =>
                let '(ix1, pnew) := InsertBlockIndex ix (dbi_hash di) in
                pindexNew ← pnew;
                let '(ix2, prev) := InsertBlockIndex ix1 (dbi_hashPrev di) in
                old ← ix_heap ix2 !! pindexNew;
                loadRows rest
                  (mkIndex (<[pindexNew := loadRecord old prev di]> (ix_heap ix2))
                     (indexMap ix2) (setDirtyBlockIndex ix2))
                  (Z.max (dbi_nFile di) maxFile)
            | None => Some (ix, maxFile, false)
            end
          else Some (ix, maxFile, true)
      | None => Some (ix, maxFile, true)
      end
  end.

(** The last loop of [CacheAllBlockInfos]: [appendHeader] for every node. *)
Fixpoint appendAll (heap : Heap) (nodes : list (uint256 * ptr)) (d : ChainSet)
  : option ChainSet :=
  match nodes with
  | [] => Some d
  | (_, p) :: rest => r ← appendHeader heap d p; appendAll heap rest r.1
  end.

(** [Blocks::DB::CacheAllBlockInfos].  [BuildSkip] only sets the skip
    pointers, which the model leaves out. *)
Definition CacheAllBlockInfos (db : DB) (rows : list Row) : option (DB * bool) :=
  '(ix, maxFile, ok) ← loadRows rows (db_index db) 0;
  if negb ok then Some (mkDB ix (db_chain db) (db_store db) (db_reindexing db), false)
  else
    let store :=
      set_slots RevertBlock (resize (Z.to_nat maxFile) None (revertDatafiles (db_store db)))
        (set_slots ForwardBlock (resize (Z.to_nat maxFile) None (datafiles (db_store db)))
           (db_store db)) in
    chain ← appendAll (ix_heap ix) (indexMap ix) (db_chain db);
    Some (mkDB ix chain store (db_reindexing db), true).

(** [Blocks::Index::fileIndexes]: the loop over the nodes of the index map. *)
Fixpoint collectFileIndexes (heap : Heap) (nodes : list (uint256 * ptr)) (acc : gset Z)
  : option (gset Z) :=
  match nodes with
  | [] => Some acc
  | (_, p) :: rest =>
      r ← heap !! p;
      collectFileIndexes heap rest
        (if negb (Z.land (nStatus r) BLOCK_HAVE_DATA =? 0) then {[nFile r]} ∪ acc else acc)
  end.

Definition fileIndexes (ix : Index) : option (gset Z) :=
  collectFileIndexes (ix_heap ix) (indexMap ix) ∅.

(** [operator<=] on [std::pair<int, CBlockIndex*>]: by height, then by
    address; the position of a record in the heap stands for its address. *)
Definition pair_le (a b : Z * ptr) : Prop :=
  a.1 < b.1 ∨ (a.1 = b.1 ∧ (a.2 ≤ b.2)%nat).

#[export] Instance pair_le_dec : RelDecision pair_le.
Proof. intros a b. unfold pair_le. apply _. Defined.

(** The [push_back] loop of [Blocks::Index::allByHeight]. *)
Fixpoint heightPairs (heap : Heap) (nodes : list (uint256 * ptr))
  : option (list (Z * ptr)) :=
  match nodes with
  | [] => Some []
  | (_, p) :: rest =>
      r ← heap !! p;
      l ← heightPairs heap rest;
      Some ((nHeight r, p) :: l)
  end.

(** [Blocks::Index::allByHeight]: the pairs, sorted with [std::sort].  The
    order on the pairs is total, so the sorted vector does not depend on
    the sorting algorithm. *)
Definition allByHeight (ix : Index) : option (list (Z * ptr)) :=
  merge_sort pair_le <$> heightPairs (ix_heap ix) (indexMap ix).

(** ** The reindexing state and its key in the database *)

#[export] Instance ReindexingState_eq_dec : EqDecision ReindexingState.
Proof. solve_decision. Defined.

(** Modelled from the spec: the entry under the key [R] of the database
    (section 4.3), an integer, or [None] when the key is absent; [Read]
    answers it, [Write] replaces it and [Erase] removes it.

    The constructor of [Blocks::DB]: the reindexing state a starting node
    takes from the entry. *)
Definition DB_reindexing (flag : option Z) : ReindexingState :=
  match flag with
  | Some state => if state =? 1 then ScanningFiles else ParsingBlocks
  | None => NoReindex
  end.

(** [Blocks::DB::setReindexing], on the state in memory and the entry. *)
Definition setReindexing (cur : ReindexingState * option Z) (state : ReindexingState)
  : ReindexingState * option Z :=
  if bool_decide (cur.1 = state) then cur
  else (state,
        match state with
        | NoReindex => None
        | ScanningFiles => Some 1
        | ParsingBlocks => Some 2
        end).

(** * The vocabulary of the statements, and sample states *)

(** A header record with a parent, a height, a chain work and a status. *)
Definition hdr (prev : option ptr) (height work status : Z) : CBlockIndex :=
  mkBlockIndex (Some 0%nat) prev height 0 0 0 work 0 status 0 0 0 0 0.

(** Genesis [G], its children [A] and [B] with the same work, and [C] on
    top of [B]. *)
Definition forkHeap : Heap :=
  [ hdr None 0 1 0; hdr (Some 0%nat) 1 2 0; hdr (Some 0%nat) 1 2 0; hdr (Some 2%nat) 2 3 0 ].

(** P3 for one state: the main tip is a tip, and no tip without a failure
    flag carries more work. *)
Definition mainTipElected (heap : Heap) (d : ChainSet) : Prop :=
  ∃ m rm, headersChain d = Some m ∧ heap !! m = Some rm ∧ m ∈ headerChainTips d
    ∧ ∀ p r, p ∈ headerChainTips d → heap !! p = Some r → isFailed r = false
             → nChainWork r ≤ nChainWork rm.

(** Genesis (work 1), [A] (work 3) and [B] (work 2) on genesis, and [C]
    (work 4) on [B]; [statusC] is the status of [C]. *)
Definition raceHeap (statusC : Z) : Heap :=
  [ hdr None 0 1 0; hdr (Some 0%nat) 1 3 0; hdr (Some 0%nat) 1 2 0;
    hdr (Some 2%nat) 2 4 statusC ].

(** Genesis, [A] and [T] on genesis, [D] on genesis with much work, and [A2]
    on top of [A]; [statusT] is the status of [T]. *)
Definition staleHeap (statusT : Z) : Heap :=
  [ hdr None 0 1 0; hdr (Some 0%nat) 1 2 0; hdr (Some 0%nat) 1 2 statusT;
    hdr (Some 0%nat) 1 100 0; hdr (Some 1%nat) 2 3 0 ].

(** The records the cursor loop of [CacheAllBlockInfos] loads: the values
    of the leading rows whose key carries [DB_BLOCK_INDEX]. *)
Fixpoint blockRows (rows : list Row) : list CDiskBlockIndex :=
  match rows with
  | [] => []
  | row :: rest =>
      match row_key row, row_value row with
      | Some (c, _), Some di =>
          if bool_decide (c = DB_BLOCK_INDEX) then di :: blockRows rest else []
      | _, _ => []
      end
  end.

Definition genesisRow (file : Z) : Row :=
  mkRow (Some (DB_BLOCK_INDEX, 1))
    (Some (mkDiskBlockIndex 1 0 0 file 8 0 1 0 0 0 0 0 1)).

Definition emptyDB : DB := mkDB emptyIndex emptyChainSet emptyStore NoReindex.

Definition blk (n : Z) : Path := mkPath DataDir ForwardBlock n.

(** A data directory that holds the single block file [blk00000.dat]. *)
Definition storeWithBlk0 (bytes : list byte) : FileStore :=
  set_disk (disk_set noFiles (blk 0) (mkDiskFile bytes false)) emptyStore.

(** The magic of the main network of Bitcoin. *)
Definition mainMagic : byte * byte * byte * byte := (xf9, xbe, xb4, xd9).

(** A file without any magic word: the first magic byte, three zero bytes,
    the length 80 and zero bytes. *)
Definition strayByteFile : list byte :=
  [xf9; x00; x00; x00] ++ htole32 80 ++ replicate 84 x00.

(** A file with one well-formed frame that starts at offset 40. *)
Definition lateFrameFile : list byte :=
  replicate 40 x00 ++ [xf9; xbe; xb4; xd9] ++ htole32 80 ++ replicate 80 x00.

(** The path [mapFile] opens for a file, and the file found there. *)
Definition resolved (s : FileStore) (type : BlockType) (fileIndex : Z) : Path :=
  getFilepathForIndex (disk s) (blocksDataDirs s) fileIndex type true.

Definition blockFile (s : FileStore) (type : BlockType) (fileIndex : Z) : option DiskFile :=
  disk s (resolved s type fileIndex).

(** A live mapping in the slot of a file maps the file that [mapFile] would
    open, at its current size. *)
Definition slotConsistent (s : FileStore) (type : BlockType) (fileIndex : Z) : Prop :=
  ∀ df, slots s type !! Z.to_nat fileIndex = Some (Some df) →
    df_path df = resolved s type fileIndex
    ∧ ∃ f, disk s (df_path df) = Some f ∧ df_filesize df = fileLength f.

(** The slot vector of a kind of file as [mapFile] of the file [fileIndex]
    leaves it: a vector that does not reach to the file is resized. *)
Definition grownSlots (s : FileStore) (type : BlockType) (fileIndex : Z)
  : list (option DataFile) :=
  if Z.of_nat (length (slots s type)) <=? fileIndex
  then resize (Z.to_nat (fileIndex + 10)) None (slots s type) else slots s type.

(** The mapping [mapFile] creates for a file that it finds as [f]. *)
Definition freshMapping (s : FileStore) (type : BlockType) (fileIndex : Z)
  (f : DiskFile) : DataFile :=
  mkDataFile (resolved s type fileIndex) (fileLength f)
    (negb (bool_decide (type = ForwardBlock) && negb (fileIndex =? nLastBlockFile s))
     && negb (f_readonly f))
    (freshId s).

(** The mapping that leaves the history when a further mapping is pushed:
    the oldest one of a history of ten. *)
Definition evicted (s : FileStore) : option DataFile :=
  if (10 <=? length (fileHistory s))%nat then head (fileHistory s) else None.

(** That mapping is cleaned up then, unless a caller or a later entry of
    the history still refers to its buffer. *)
Definition cleanedUp (s : FileStore) : option DataFile :=
  E ← evicted s;
  if inUse s E || bool_decide (E ∈ tail (fileHistory s)) then None else Some E.

(** The history after a further mapping was pushed. *)
Definition historyWith (s : FileStore) (df : DataFile) : list DataFile :=
  (if (10 <=? length (fileHistory s))%nat then tail (fileHistory s) else fileHistory s)
  ++ [df].

(** The mappings of the history name slots inside the slot vectors, as
    they do as long as no vector is cut under them; the cleanup of a
    mapping asserts it. *)
Definition historyInRange (s : FileStore) : Prop :=
  ∀ df, df ∈ fileHistory s →
    0 ≤ p_index (df_path df)
        < Z.of_nat (length (slots s (p_prefix (df_path df)))).

(** The store once [mapFile] has grown the slot vector for [fileIndex]. *)
Definition grownStore (s : FileStore) (type : BlockType) (fileIndex : Z) : FileStore :=
  set_slots type (grownSlots s type fileIndex) s.

(** The mapping whose deleter runs in [mapFile s fileIndex type]: none when
    the slot is live or the file is missing, and else the mapping that is
    cleaned up when the new one enters the history. *)
Definition dropped (s : FileStore) (type : BlockType) (fileIndex : Z) : option DataFile :=
  match slots s type !! Z.to_nat fileIndex with
  | Some (Some _) => None
  | _ => match blockFile s type fileIndex with
         | Some _ => cleanedUp s
         | None => None
         end
  end.

(** The slot that the deleter of a mapping looks at. *)
Definition slotOf (df : DataFile) : BlockType * nat :=
  (p_prefix (df_path df), Z.to_nat (p_index (df_path df))).

(** Whether [mapFile s fileIndex type] stops at the assertion of the
    deleter: the mapping that is cleaned up names a slot outside its
    vector. *)
Definition cleanupStops (s : FileStore) (type : BlockType) (fileIndex : Z) : bool :=
  match dropped s type fileIndex with
  | Some E =>
      negb ((0 <=? p_index (df_path E))
            && (p_index (df_path E)
                <? Z.of_nat (length (slots (grownStore s type fileIndex)
                                       (p_prefix (df_path E))))))
  | None => false
  end.

(** A slot once the deleter of [E] has run. *)
Definition slotAfterCleanup (E : option DataFile) (s : FileStore) (t : BlockType) (j : nat)
  : option (option DataFile) :=
  match E with
  | Some E =>
      if decide (slots s t !! j = Some (Some E) ∧ (t, j) = slotOf E)
      then Some None else slots s t !! j
  | None => slots s t !! j
  end.

(** What a read of the block or undo block at [pos] does, by the cause of
    its failure, in the order in which [loadBlock] tests them.  [declared]
    is the length found in the four bytes before the position; an undo read
    ([blockHash] given) also covers the 32 bytes of the checksum.  A read
    that maps the file afresh stops when the deleter of the mapping that
    leaves the history of open files fails its assertion
    ([cleanupStops]). *)
Definition loadBlock_outcome (env : Env) (s : FileStore) (pos : CDiskBlockPos)
  (type : BlockType) (blockHash : option uint256) : Prop :=
  let nPos := pos_nPos pos in
  let csum := match blockHash with Some _ => 32 | None => 0 end in
  let read := loadBlock env s pos type blockHash in
  match blockFile s type (pos_nFile pos) with
  | None =>
      read = Err (if nPos <? 4 then DatabaseCorruption else FailedToMemmap)
      ∧ (type = ForwardBlock → ∃ s1, loadBlockFile s (pos_nFile pos) = Ok (s1, emptyBuffer))
  | Some f =>
      if cleanupStops s type (pos_nFile pos) && (4 <=? nPos)
      then read = Err AssertionFailure
      else
      let declared := le32toh (slice (nPos - 4) 4 (f_bytes f)) in
      let payload := slice nPos declared (f_bytes f) in
      let stored := slice (nPos + declared) 32 (f_bytes f) in
      let mismatch :=
        ∃ h, blockHash = Some h
             ∧ stored ≠ uint256_bytes (Hash256 env (uint256_bytes h ++ payload)) in
      nPos + declared + csum < 2 ^ 32 →
      (nPos < 4 → read = Err DatabaseCorruption)
      ∧ (4 ≤ nPos → fileLength f ≤ nPos → read = Err PositionOutsideOfFile)
      ∧ (4 ≤ nPos < fileLength f → fileLength f < nPos + declared + csum
         → read = Err BlockBiggerThanFile)
      ∧ (4 ≤ nPos < fileLength f → nPos + declared + csum ≤ fileLength f → mismatch
         → read = Err ChecksumMismatch)
      ∧ (4 ≤ nPos < fileLength f → nPos + declared + csum ≤ fileLength f → ¬ mismatch
         → ∃ s1 v, read = Ok (s1, v) ∧ viewBytes (disk s1) v = Some payload)
      ∧ ((∃ e, read = Err e)
         ↔ nPos < 4 ∨ fileLength f ≤ nPos ∨ fileLength f < nPos + declared + csum ∨ mismatch)
  end.

(** A stand-in for the double SHA-256 that depends on every byte. *)
Definition toyHash (bytes : list byte) : uint256 :=
  foldr (λ b acc, (Z_of_byte b + 31 * acc) mod 2 ^ 256) 7 bytes.

Definition plainEnv : Env := mkEnv mainMagic toyHash false.

(** A block file with one frame of 80 bytes. *)
Definition oneFrameFile : list byte :=
  [xf9; xbe; xb4; xd9] ++ htole32 80 ++ replicate 80 x07 ++ replicate 8 x00.

(** No 32-bit counter of a file wraps around when a block of [blockSize]
    bytes, its frame and its checksum are added to it. *)
Definition sizesFit (s : FileStore) (blockSize : Z) : Prop :=
  Forall (λ info, 0 ≤ nSize info ∧ 0 ≤ nUndoSize info
                  ∧ nSize info + blockSize + 40 < 2 ^ 32
                  ∧ nUndoSize info + blockSize + 40 < 2 ^ 32)
    (vinfoBlockFile s).

(** The bytes a file of the given kind has in use. *)
Definition usedSize (type : BlockType) (info : CBlockFileInfo) : Z :=
  match type with
  | ForwardBlock => nSize info
  | RevertBlock => nUndoSize info
  end.

Definition checksumLength (type : BlockType) : Z :=
  match type with
  | ForwardBlock => 0
  | RevertBlock => 32
  end.

(** [SHA256d(blockHash || payload)], the checksum behind an undo block. *)
Definition checksumBytes (env : Env) (type : BlockType) (blockHash : option uint256)
  (block : list byte) : list byte :=
  match type, blockHash with
  | RevertBlock, Some h => uint256_bytes (Hash256 env (uint256_bytes h ++ block))
  | _, _ => []
  end.

(** A data directory with a block file of 200 bytes, none of them used. *)
Definition blkStore : FileStore :=
  mkFileStore (disk_set noFiles (blk 0) (mkDiskFile (replicate 200 x00) false))
    [] [] [] [] [mkFileInfo 0 0 0] 0 ∅ (λ _, false).

(** A data directory with an undo file of 300 bytes, 10 of them used. *)
Definition undoStore : FileStore :=
  mkFileStore
    (disk_set noFiles (mkPath DataDir RevertBlock 0) (mkDiskFile (replicate 300 x00) false))
    [] [] [] [] [mkFileInfo 1 98 10] 0 ∅ (λ _, false).

Definition somePayload : list byte := replicate 90 x07.

Definition someUndo : list byte := replicate 20 x09.

(** The part of the heap that [reconsiderBlock] leaves alone: the parent
    pointers and the heights. *)
Definition shape (heap : Heap) : list (option ptr * Z) :=
  (λ r, (pprev r, nHeight r)) <$> heap.

(** The status without the failure flags. *)
Definition cleared (st : Z) : Z := Z.land st (Z.lnot BLOCK_FAILED_MASK).

(** I1: the parent of a record is a record of the heap, at a lower height. *)
Definition parentsBelow (heap : Heap) : Prop :=
  ∀ p r q, heap !! p = Some r → pprev r = Some q →
    ∃ rq, heap !! q = Some rq ∧ nHeight rq < nHeight r.

(** The number of records at or below a height: it bounds the length of
    the parent chain of a record at that height. *)
Definition below (sh : list (option ptr * Z)) (h : Z) : nat :=
  length (filter (λ x, x.2 ≤ h) sh).

(** The records [reconsiderBlock] is about: the nodes of the index map
    whose ancestor at the height of [r] is [r], and the records on the
    parent chain of [r] ([r] itself included). *)
Definition descendantOf (ix : Index) (r q : ptr) : Prop :=
  (∃ k, (k, q) ∈ indexMap ix)
  ∧ ∃ rec_r, ix_heap ix !! r = Some rec_r
      ∧ GetAncestor (ix_heap ix) q (nHeight rec_r) = Some r.

Definition ancestorOf (ix : Index) (r q : ptr) : Prop :=
  ∃ n, walkPrev (ix_heap ix) n r = Some q.

(** A small index: genesis [0], a failed block [1] on it with a child [2]
    that failed for its parent's sake, and an unrelated failed block [3]
    next to [1]. *)
Definition failedHeap : list CBlockIndex :=
  [ hdr None 0 1 BLOCK_VALID_TRANSACTIONS;
    hdr (Some 0%nat) 1 2 (Z.lor 2 BLOCK_FAILED_VALID);
    hdr (Some 1%nat) 2 3 (Z.lor 2 BLOCK_FAILED_CHILD);
    hdr (Some 0%nat) 1 2 (Z.lor 2 BLOCK_FAILED_VALID) ].

Definition failedIndex : Index :=
  mkIndex failedHeap [(10, 0%nat); (11, 1%nat); (12, 2%nat); (13, 3%nat)] ∅.

(** The header index as [InsertBlockIndex] builds it: the hashes of the
    nodes differ, and the record of a node points back at the key of its
    node. *)
Definition indexWf (ix : Index) : Prop :=
  NoDup (indexMap ix).*1
  ∧ ∀ a k p, indexMap ix !! a = Some (k, p) →
      ∃ r, ix_heap ix !! p = Some r ∧ phashBlock r = Some a.

(** What a call of [appendHeader] that returns leaves behind: a main tip, a
    best header and at least one tip. *)
Definition tipsSettled (d : ChainSet) : Prop :=
  headersChain d ≠ None ∧ pindexBestHeader d ≠ None ∧ headerChainTips d ≠ [].

(** A block file whose only frame declares a length of [2 ^ 32 - 8] bytes. *)
Definition hugeLengthFile : list byte :=
  [xf9; xbe; xb4; xd9; xf8; xff; xff; xff] ++ replicate 8 x00.

(** The positions a scan of the bytes of a block file from offset [lo] may
    submit: each one stands eight bytes behind a byte of the file equal to
    the first byte of the magic, at or after [lo], the four bytes before it
    spell a length of at least 80, and the next one is looked for behind
    that many bytes.  The length is read without a test against the end of
    the file, so up to three of its bytes, and the position itself, may lie
    behind the last byte of the file, where the page of the mapping holds
    zero bytes.  [q] is the offset itself, the position its 32-bit value. *)
Fixpoint framesFrom (env : Env) (bytes : list byte) (nFile : Z) (lo : Z)
  (l : list CDiskBlockPos) : Prop :=
  match l with
  | [] => True
  | p :: rest =>
      ∃ q, pos_nFile p = nFile ∧ pos_nPos p = u32 q
        ∧ lo + 8 ≤ q ≤ Z.of_nat (length bytes) + 3
        ∧ slice (q - 8) 1 bytes = [blockHeaderMessageByte env]
        ∧ 80 ≤ le32toh (slice (q - 4) 4 (bytes ++ replicate 3 x00))
        ∧ framesFrom env bytes nFile
            (q + le32toh (slice (q - 4) 4 (bytes ++ replicate 3 x00))) rest
  end.

(** Every live mapping of a block file maps the file [mapFile] would open,
    at its current size. *)
Definition slotsConsistent (s : FileStore) (type : BlockType) : Prop :=
  ∀ i, 0 ≤ i → slotConsistent s type i.

(** The block store as [writeBlock] keeps it, in a node without additional
    block directories: the file infos reach to the last block file, and a
    live mapping maps a file of the data directory that is in use, at the
    current size of the file. *)
Definition storeInv (s : FileStore) : Prop :=
  blocksDataDirs s = []
  ∧ 0 ≤ nLastBlockFile s
  ∧ (vinfoBlockFile s = []
     ∨ Z.of_nat (length (vinfoBlockFile s)) = nLastBlockFile s + 1)
  ∧ ∀ type (i : nat) df, slots s type !! i = Some (Some df) →
      df_path df = mkPath DataDir type (Z.of_nat i)
      ∧ (∃ f, disk s (df_path df) = Some f ∧ df_filesize df = fileLength f)
      ∧ ∃ info, vinfoBlockFile s !! i = Some info ∧ 0 < usedSize type info.

(** The file info after a block of [blockSize] bytes was added. *)
Definition infoAfterWrite (type : BlockType) (blockSize : Z) (info : CBlockFileInfo)
  : CBlockFileInfo :=
  match type with
  | ForwardBlock =>
      mkFileInfo (nBlocks info + 1) (nSize info + blockSize + 8) (nUndoSize info)
  | RevertBlock =>
      mkFileInfo (nBlocks info) (nSize info) (nUndoSize info + blockSize + 8 + 32)
  end.

(** An index with the hashes 10 and 11, as [InsertBlockIndex] builds it. *)
Definition twoHashes : Index :=
  (InsertBlockIndex (InsertBlockIndex emptyIndex 10).1 11).1.

(** The fork of [forkHeap] after [C] was appended: [C] is the only tip and
    the main tip. *)
Definition tipC : ChainSet := mkChainSet [3%nat] (Some 3%nat) (Some 3%nat).

(** The fork of [forkHeap] with [A] as the only tip. *)
Definition tipA : ChainSet := mkChainSet [1%nat] (Some 1%nat) (Some 1%nat).

(** An undo file with one undo block of 20 bytes for the block hash 5, its
    checksum behind it. *)
Definition undoFrameFile : list byte :=
  [xf9; xbe; xb4; xd9] ++ htole32 20 ++ someUndo
  ++ uint256_bytes (toyHash (uint256_bytes 5 ++ someUndo)) ++ replicate 8 x00.

(** A data directory that holds the single undo file [rev00000.dat]. *)
Definition storeWithRev0 (bytes : list byte) : FileStore :=
  set_disk (disk_set noFiles (mkPath DataDir RevertBlock 0) (mkDiskFile bytes false))
    emptyStore.

(** Two rows of the block index: the block 21 on the block 20, and the
    block 20 without a parent. *)
Definition twoRows : list Row :=
  [ mkRow (Some (DB_BLOCK_INDEX, 21))
      (Some (mkDiskBlockIndex 21 20 1 0 106 0 1 0 0 0 0 0 1));
    mkRow (Some (DB_BLOCK_INDEX, 20))
      (Some (mkDiskBlockIndex 20 0 0 0 8 0 1 0 0 0 0 0 1)) ].

(** [blkStore] with a mapping of its block file that was taken when the
    file had 100 bytes. *)
Definition staleStore : FileStore :=
  set_slots ForwardBlock [Some (mkDataFile (blk 0) 100 true 0)] blkStore.

(** Eleven block files of one byte in the data directory. *)
Definition elevenFiles : Disk :=
  λ p, if bool_decide (p_dir p = DataDir ∧ p_prefix p = ForwardBlock ∧ 0 ≤ p_index p ≤ 10)
       then Some (mkDiskFile [x00] false) else None.

(** The mapping of block file [i] that was made as the [i]-th one. *)
Definition mappingOf (i : nat) : DataFile := mkDataFile (blk (Z.of_nat i)) 1 false i.

(** A store in which the block files 0 to 9 were mapped in turn: every slot
    is live and the history of open files is full. *)
Definition fullHistoryStore : FileStore :=
  mkFileStore elevenFiles [] (Some ∘ mappingOf <$> seq 0 10) [] (mappingOf <$> seq 0 10)
    [] 10 ∅ (λ _, false).

(** A store whose oldest open file is block file 30, mapped before the slot
    vectors were cut down to one slot. *)
Definition strandedStore : FileStore :=
  mkFileStore elevenFiles [] [None] [] (mappingOf <$> 30%nat :: seq 1 9)
    [] 10 ∅ (λ _, false).

(** The block files 0 to 30, of one byte each, in the data directory. *)
Definition manyBlockFiles : Disk :=
  λ p, if bool_decide (p_dir p = DataDir ∧ p_prefix p = ForwardBlock ∧ 0 ≤ p_index p ≤ 30)
       then Some (mkDiskFile [x00] false) else None.

(** [mapFile] of the listed file indexes, one call after the other. *)
Fixpoint mapAll (s : FileStore) (type : BlockType) (files : list Z) : result FileStore :=
  match files with
  | [] => Ok s
  | fileIndex :: rest =>
      match mapFile s fileIndex type with
      | Ok (s1, _) => mapAll s1 type rest
      | Err e => Err e
      end
  end.

(** A block file of six bytes: the first byte of the magic, three zero
    bytes and the first two bytes of a length. *)
Definition shortFrameFile : list byte := [xf9; x00; x00; x00; x50; x00].



(** The header [b] extends the tip: the tip is the ancestor of [b] at the
    height of the tip. *)
Definition extendsTip (heap : Heap) (b tip : ptr) : Prop :=
  ∃ t, heap !! tip = Some t ∧ GetAncestor heap b (nHeight t) = Some tip.

(** The tip at position [i] is the first of the tips that [b] extends. *)
Definition firstExtended (heap : Heap) (b : ptr) (tips : list ptr) (i : nat) (tip : ptr)
  : Prop :=
  tips !! i = Some tip ∧ extendsTip heap b tip
  ∧ ∀ j tip', (j < i)%nat → tips !! j = Some tip' → ¬ extendsTip heap b tip'.

(** The fork of [forkHeap] with the tips [A] and [B] and [A] as the main
    tip. *)
Definition tipsAB : ChainSet := mkChainSet [1%nat; 2%nat] (Some 1%nat) (Some 1%nat).

(** * Properties *)

(** ** The header tree: scenarios of section 8 *)

(** Scenarios 1 to 3: genesis, a linear extension, a fork with equal work
    that keeps the first-seen tip, and the reorganisation to the longer
    branch. *)
Example scenario_bootstrap_extension_reorg :
  appendHeaders forkHeap emptyChainSet [0; 1]%nat = Some (mkChainSet [1%nat] (Some 1%nat) (Some 1%nat))
  ∧ appendHeaders forkHeap emptyChainSet [0; 1; 2]%nat
    = Some (mkChainSet [1; 2]%nat (Some 1%nat) (Some 1%nat))
  ∧ appendHeaders forkHeap emptyChainSet [0; 1; 2; 3]%nat
    = Some (mkChainSet [1; 3]%nat (Some 3%nat) (Some 3%nat)).
Proof. repeat split; vm_compute; reflexivity. Qed.

(** C1 (the code departs from it).  The headers of [raceHeap] are appended
    in the order G, A, B, C, which makes [C] the main tip.  [C] then fails
    validation and is appended again: the branch of [appendHeader] that
    handles a record on top of an existing tip puts the parent [B] in the
    place of [C], makes it the main tip and returns, although the tip [A]
    carries no failure flag and more work than [B]. *)
Theorem appendHeader_failed_main_tip_elects_parent :
  ∃ d1 d2,
    appendHeaders (raceHeap 0) emptyChainSet [0; 1; 2; 3]%nat = Some d1
    ∧ mainTipElected (raceHeap 0) d1
    ∧ appendHeader (raceHeap BLOCK_FAILED_VALID) d1 3%nat = Some (d2, true)
    ∧ headerChainTips d2 = [1; 2]%nat
    ∧ headersChain d2 = Some 2%nat
    ∧ ¬ mainTipElected (raceHeap BLOCK_FAILED_VALID) d2.
Proof.
  exists (mkChainSet [1; 3]%nat (Some 3%nat) (Some 3%nat)).
  exists (mkChainSet [1; 2]%nat (Some 2%nat) (Some 2%nat)).
  split; [vm_compute; reflexivity|].
  split.
  { exists 3%nat, (hdr (Some 2%nat) 2 4 0). simpl.
    split; [done|]. split; [done|]. split; [set_solver|].
    intros p r Hp Hr _.
    apply list_elem_of_lookup in Hp as [i Hi].
    destruct i as [|[|i]]; simpl in Hi; simplify_eq; simpl in Hr; simplify_eq; simpl; lia. }
  split; [vm_compute; reflexivity|].
  split; [done|]. split; [done|].
  intros (m & rm & Hm & Hrm & _ & Hmax). simpl in Hm. simplify_eq.
  simpl in Hrm. simplify_eq.
  specialize (Hmax 1%nat (hdr (Some 0%nat) 1 3 0)).
  simpl in Hmax. specialize (Hmax ltac:(set_solver) eq_refl eq_refl). lia.
Qed.

(** C2 (the code departs from it).  After G, A, T and D were appended, [T]
    fails validation and is appended again, which leaves genesis among the
    tips next to its descendants.  Appending the valid header [A2] then
    replaces the tip [A]; appending [A2] a second time replaces genesis as
    well, so the second call changes the tips. *)
Theorem appendHeader_twice_differs_from_once :
  ∃ d0 d1 d2,
    (r ← appendHeaders (staleHeap 0) emptyChainSet [0; 1; 2; 3]%nat;
     fst <$> appendHeader (staleHeap BLOCK_FAILED_VALID) r 2%nat) = Some d0
    ∧ appendHeader (staleHeap BLOCK_FAILED_VALID) d0 4%nat = Some (d1, false)
    ∧ appendHeader (staleHeap BLOCK_FAILED_VALID) d1 4%nat = Some (d2, false)
    ∧ headerChainTips d0 = [1; 3; 0]%nat
    ∧ headerChainTips d1 = [3; 0; 4]%nat
    ∧ headerChainTips d2 = [3; 4; 4]%nat
    ∧ d2 ≠ d1.
Proof.
  exists (mkChainSet [1; 3; 0]%nat (Some 3%nat) (Some 3%nat)).
  exists (mkChainSet [3; 0; 4]%nat (Some 3%nat) (Some 3%nat)).
  exists (mkChainSet [3; 4; 4]%nat (Some 3%nat) (Some 3%nat)).
  repeat split; try (vm_compute; reflexivity).
  discriminate.
Qed.

(** ** The header index *)

Lemma findNode_lookup (m : list (uint256 * ptr)) (hash : uint256) (i j : nat) (v : ptr) :
  findNode m hash i = Some (j, v) → (i ≤ j)%nat ∧ m !! (j - i)%nat = Some (hash, v).
Proof.
  revert i. induction m as [|[k w] m IH]; intros i; simpl; [done|].
  case_bool_decide as Hk.
  - intros [= <- <-]. subst k. split; [lia|]. by rewrite Nat.sub_diag.
  - intros H. apply IH in H as [Hle Hl]. split; [lia|].
    replace (j - i)%nat with (S (j - S i)) by lia. done.
Qed.

(** C10.  When the index already holds a record for a hash, inserting a
    second record under that hash changes nothing: the map is the same,
    [get] still answers the first record, [size] is unchanged, and the
    returned address is the one of the key stored in the original node.
    [InsertBlockIndex] answers the first record as well. *)
Theorem Index_insert_first_wins (m : list (uint256 * ptr)) (hash : uint256)
  (record1 record2 : ptr) :
  Index_get m hash = Some record1 →
  ∃ a : nat,
    Index_insert m hash record2 = (m, a)
    ∧ m !! a = Some (hash, record1)
    ∧ Index_get (Index_insert m hash record2).1 hash = Some record1
    ∧ Index_size (Index_insert m hash record2).1 = Index_size m
    ∧ ∀ heap dirty, hash ≠ 0 →
        InsertBlockIndex (mkIndex heap m dirty) hash = (mkIndex heap m dirty, Some record1).
Proof.
  unfold Index_get, Index_insert. intros Hget.
  destruct (findNode m hash 0) as [[a v]|] eqn:Hfind; simpl in Hget; [|done].
  simplify_eq. exists a.
  apply findNode_lookup in Hfind as Hnode. destruct Hnode as [_ Hnode].
  rewrite Nat.sub_0_r in Hnode.
  split; [done|]. split; [done|]. simpl. rewrite Hfind. simpl.
  split; [done|]. split; [done|].
  intros heap dirty Hne. unfold InsertBlockIndex, Index_get. simpl.
  destruct (Z.eqb_spec hash 0) as [|_]; [done|].
  by rewrite Hfind.
Qed.

Lemma Index_insert_first_wins_witness :
  ∃ a : nat,
    Index_insert [(7, 0%nat); (9, 1%nat)] 9 5%nat = ([(7, 0%nat); (9, 1%nat)], a)
    ∧ [(7, 0%nat); (9, 1%nat)] !! a = Some (9, 1%nat)
    ∧ Index_get (Index_insert [(7, 0%nat); (9, 1%nat)] 9 5%nat).1 9 = Some 1%nat
    ∧ Index_size (Index_insert [(7, 0%nat); (9, 1%nat)] 9 5%nat).1
      = Index_size [(7, 0%nat); (9, 1%nat)]
    ∧ ∀ heap dirty, 9 ≠ 0 →
        InsertBlockIndex (mkIndex heap [(7, 0%nat); (9, 1%nat)] dirty) 9
        = (mkIndex heap [(7, 0%nat); (9, 1%nat)] dirty, Some 1%nat).
Proof. apply (Index_insert_first_wins [(7, 0%nat); (9, 1%nat)] 9 1%nat 5%nat). reflexivity. Defined.

(** ** The file mapper: slots, the history and the cleanup of a mapping *)

Lemma set_slots_same (s : FileStore) (type : BlockType) :
  set_slots type (slots s type) s = s.
Proof. by destruct s, type. Qed.

Lemma slots_set_slots (s : FileStore) (type : BlockType) (l : list (option DataFile)) :
  slots (set_slots type l s) type = l.
Proof. by destruct type. Qed.

Lemma slots_other (s : FileStore) (type other : BlockType) (l : list (option DataFile)) :
  other ≠ type → slots (set_slots type l s) other = slots s other.
Proof. by destruct type, other. Qed.

Lemma fileHistory_set_slots (s : FileStore) (type : BlockType) (l : list (option DataFile)) :
  fileHistory (set_slots type l s) = fileHistory s
  ∧ vinfoBlockFile (set_slots type l s) = vinfoBlockFile s
  ∧ setDirtyFileInfo (set_slots type l s) = setDirtyFileInfo s.
Proof. by destruct type. Qed.

Lemma getFilepathForIndex_key (d : Disk) (dirs : list string) (fileIndex : Z)
  (prefix : BlockType) (harder : bool) :
  p_prefix (getFilepathForIndex d dirs fileIndex prefix harder) = prefix
  ∧ p_index (getFilepathForIndex d dirs fileIndex prefix harder) = fileIndex.
Proof.
  unfold getFilepathForIndex. destruct (_ && _); [|done].
  by destruct (list_find _ _) as [[? ?]|].
Qed.

Lemma freshId_gt (s : FileStore) (df : DataFile) :
  df ∈ mappingsOf s → (df_id df < freshId s)%nat.
Proof.
  intros Hin. unfold freshId. apply Nat.lt_succ_r, max_list_elem_of_le.
  by apply list_elem_of_fmap_2.
Qed.

(** The slots after the cleanup of the mapping [E]. *)
Lemma cleanupLambda_inv (E : DataFile) (s s1 : FileStore) :
  cleanupLambda E s = Ok s1 →
  0 ≤ p_index (df_path E) < Z.of_nat (length (slots s (p_prefix (df_path E))))
  ∧ disk s1 = disk s ∧ blocksDataDirs s1 = blocksDataDirs s
  ∧ fileHistory s1 = fileHistory s
  ∧ vinfoBlockFile s1 = vinfoBlockFile s ∧ nLastBlockFile s1 = nLastBlockFile s
  ∧ setDirtyFileInfo s1 = setDirtyFileInfo s
  ∧ inUse s1 = inUse s
  ∧ (∀ type, length (slots s1 type) = length (slots s type))
  ∧ ∀ type (j : nat),
      slots s1 type !! j
      = if decide (slots s type !! j = Some (Some E)
                   ∧ type = p_prefix (df_path E) ∧ j = Z.to_nat (p_index (df_path E)))
        then Some None else slots s type !! j.
Proof.
  unfold cleanupLambda.
  destruct (Z.leb_spec 0 (p_index (df_path E))); [|done].
  destruct (Z.ltb_spec (p_index (df_path E))
              (Z.of_nat (length (slots s (p_prefix (df_path E)))))); [|done].
  simpl. case_bool_decide as Hslot; intros [= <-].
  - split; [lia|]. repeat (split; [by destruct (p_prefix (df_path E))|]).
    split. { intros type. destruct (decide (type = p_prefix (df_path E))) as [->|Hne].
             - by rewrite slots_set_slots, length_insert.
             - by rewrite slots_other. }
    intros type j. destruct (decide (type = p_prefix (df_path E))) as [->|Hne].
    + rewrite slots_set_slots.
      destruct (decide (j = Z.to_nat (p_index (df_path E)))) as [->|Hj].
      * rewrite list_lookup_insert_eq by lia. by rewrite decide_True.
      * rewrite list_lookup_insert_ne by done. rewrite decide_False; [done|].
        by intros (_ & _ & ?).
    + rewrite slots_other by done. rewrite decide_False; [done|]. by intros (_ & ? & _).
  - split; [lia|]. repeat (split; [done|]). intros type j.
    rewrite decide_False; [done|]. intros (Hj & -> & ->). by apply Hslot.
Qed.

Lemma cleanupLambda_ok (E : DataFile) (s : FileStore) :
  0 ≤ p_index (df_path E) < Z.of_nat (length (slots s (p_prefix (df_path E)))) →
  ∃ s1, cleanupLambda E s = Ok s1.
Proof.
  intros [Hlo Hhi]. unfold cleanupLambda.
  destruct (Z.leb_spec 0 (p_index (df_path E))); [|lia].
  destruct (Z.ltb_spec (p_index (df_path E))
              (Z.of_nat (length (slots s (p_prefix (df_path E)))))); [|lia].
  simpl. case_bool_decide; eauto.
Qed.

Lemma cleanupLambda_err (E : DataFile) (s : FileStore) (e : Failure) :
  cleanupLambda E s = Err e →
  e = AssertionFailure
  ∧ ¬ (0 ≤ p_index (df_path E) < Z.of_nat (length (slots s (p_prefix (df_path E))))).
Proof.
  unfold cleanupLambda.
  destruct (Z.leb_spec 0 (p_index (df_path E)));
    destruct (Z.ltb_spec (p_index (df_path E))
                (Z.of_nat (length (slots s (p_prefix (df_path E)))))); simpl;
    try (intros [= <-]; split; [done|lia]).
  by case_bool_decide.
Qed.

Lemma lookup_grownSlots (s : FileStore) (type : BlockType) (fileIndex : Z) :
  0 ≤ fileIndex →
  grownSlots s type fileIndex !! Z.to_nat fileIndex
  = Some (default None (slots s type !! Z.to_nat fileIndex)).
Proof.
  intros Hidx. unfold grownSlots.
  destruct (Z.leb_spec (Z.of_nat (length (slots s type))) fileIndex) as [Hle|Hgt].
  - rewrite lookup_resize_new by lia. by rewrite lookup_ge_None_2 by lia.
  - destruct (slots s type !! Z.to_nat fileIndex) eqn:Hl; [done|].
    apply lookup_ge_None in Hl. lia.
Qed.

Lemma lookup_grownSlots_old (s : FileStore) (type : BlockType) (fileIndex : Z) (j : nat) :
  0 ≤ fileIndex → (j < length (slots s type))%nat →
  grownSlots s type fileIndex !! j = slots s type !! j.
Proof.
  intros Hidx Hj. unfold grownSlots.
  destruct (Z.leb_spec (Z.of_nat (length (slots s type))) fileIndex); [|done].
  apply lookup_resize; lia.
Qed.

Lemma lookup_grownSlots_Some (s : FileStore) (type : BlockType) (fileIndex : Z) (j : nat)
  (df : DataFile) :
  grownSlots s type fileIndex !! j = Some (Some df) → slots s type !! j = Some (Some df).
Proof.
  unfold grownSlots.
  destruct (Z.leb_spec (Z.of_nat (length (slots s type))) fileIndex); [|done].
  intros Hl. destruct (decide (j < length (slots s type))%nat).
  - by rewrite lookup_resize in Hl by lia.
  - apply lookup_lt_Some in Hl as Hlt. rewrite length_resize in Hlt.
    by rewrite lookup_resize_new in Hl by lia.
Qed.

Lemma length_grownSlots (s : FileStore) (type : BlockType) (fileIndex : Z) :
  0 ≤ fileIndex →
  (length (slots s type) ≤ length (grownSlots s type fileIndex))%nat
  ∧ fileIndex < Z.of_nat (length (grownSlots s type fileIndex))
  ∧ Z.of_nat (length (grownSlots s type fileIndex))
    = if Z.of_nat (length (slots s type)) <=? fileIndex
      then fileIndex + 10 else Z.of_nat (length (slots s type)).
Proof.
  intros Hidx. unfold grownSlots.
  destruct (Z.leb_spec (Z.of_nat (length (slots s type))) fileIndex);
    rewrite ?length_resize; lia.
Qed.

(** [pushHistory], by the mapping that is cleaned up. *)
Lemma pushHistory_eq (df : DataFile) (s : FileStore) :
  df ∉ fileHistory s →
  pushHistory df s
  = match cleanedUp s with
    | Some E => cleanupLambda E (set_fileHistory (historyWith s df) s)
    | None => Ok (set_fileHistory (historyWith s df) s)
    end.
Proof.
  intros Hnew. unfold pushHistory, cleanedUp, evicted, historyWith.
  rewrite length_app. change (length [df]) with 1%nat.
  destruct (Nat.ltb_spec 10 (length (fileHistory s) + 1));
    destruct (Nat.leb_spec 10 (length (fileHistory s))); try lia; [|done].
  destruct (fileHistory s) as [|E rest] eqn:Hh; [simpl in *; lia|].
  cbn [app head tail mbind option_bind].
  assert (Hin : bool_decide (E ∈ rest ++ [df]) = bool_decide (E ∈ rest)).
  { apply bool_decide_ext. rewrite elem_of_app, list_elem_of_singleton.
    split; [|by left]. intros [?|Heq]; [done|]. subst df. destruct Hnew. by left. }
  rewrite Hin. by destruct (inUse s E || bool_decide (E ∈ rest)).
Qed.

Lemma mapFile_unfold (s : FileStore) (fileIndex : Z) (type : BlockType) :
  mapFile s fileIndex type
  = if fileIndex <? 0 then Err OutOfRange
    else
      match grownSlots s type fileIndex !! Z.to_nat fileIndex with
      | None => Err OutOfRange
      | Some (Some df) => Ok (set_slots type (grownSlots s type fileIndex) s, Some df)
      | Some None =>
          match blockFile s type fileIndex with
          | Some f =>
              s1 ← pushHistory (freshMapping s type fileIndex f)
                     (set_slots type
                        (<[Z.to_nat fileIndex := Some (freshMapping s type fileIndex f)]>
                           (grownSlots s type fileIndex)) s);
              Ok (s1, Some (freshMapping s type fileIndex f))
          | None => Ok (set_slots type (grownSlots s type fileIndex) s, None)
          end
      end.
Proof. reflexivity. Qed.

Lemma mapFile_negative (s : FileStore) (fileIndex : Z) (type : BlockType) :
  fileIndex < 0 → mapFile s fileIndex type = Err OutOfRange.
Proof. intros. rewrite mapFile_unfold. by destruct (Z.ltb_spec fileIndex 0); [|lia]. Qed.

Lemma mapFile_live_eq (s : FileStore) (fileIndex : Z) (type : BlockType) (df : DataFile) :
  0 ≤ fileIndex →
  slots s type !! Z.to_nat fileIndex = Some (Some df) →
  mapFile s fileIndex type = Ok (s, Some df).
Proof.
  intros Hidx Hslot. rewrite mapFile_unfold.
  destruct (Z.ltb_spec fileIndex 0); [lia|].
  rewrite lookup_grownSlots, Hslot by done. simpl.
  apply lookup_lt_Some in Hslot. unfold grownSlots.
  destruct (Z.leb_spec (Z.of_nat (length (slots s type))) fileIndex); [lia|].
  by rewrite set_slots_same.
Qed.

Lemma mapFile_missing_eq (s : FileStore) (fileIndex : Z) (type : BlockType) :
  0 ≤ fileIndex →
  (∀ df, slots s type !! Z.to_nat fileIndex ≠ Some (Some df)) →
  blockFile s type fileIndex = None →
  mapFile s fileIndex type = Ok (set_slots type (grownSlots s type fileIndex) s, None).
Proof.
  intros Hidx Hslot Hf. rewrite mapFile_unfold.
  destruct (Z.ltb_spec fileIndex 0); [lia|].
  rewrite lookup_grownSlots by done.
  destruct (slots s type !! Z.to_nat fileIndex) as [[df|]|] eqn:Hl; simpl;
    [by destruct (Hslot df)|by rewrite Hf..].
Qed.

Lemma cleanedUp_in (s : FileStore) (E : DataFile) :
  cleanedUp s = Some E →
  E ∈ fileHistory s ∧ evicted s = Some E ∧ inUse s E = false
  ∧ (E ∉ tail (fileHistory s)) ∧ (10 ≤ length (fileHistory s))%nat.
Proof.
  unfold cleanedUp, evicted.
  destruct (Nat.leb_spec 10 (length (fileHistory s))); [|done].
  destruct (fileHistory s) as [|E0 rest]; [done|]. cbn [head tail mbind option_bind].
  destruct (inUse s E0) eqn:Huse; [done|]. simpl.
  case_bool_decide; [done|]. intros [= <-]. split; [by left|done].
Qed.

Lemma freshMapping_new (s : FileStore) (type : BlockType) (fileIndex : Z) (f : DiskFile)
  (E : DataFile) :
  E ∈ mappingsOf s → E ≠ freshMapping s type fileIndex f.
Proof. intros Hin%freshId_gt ->. simpl in Hin. lia. Qed.

Lemma mapFile_fresh_eq (s : FileStore) (fileIndex : Z) (type : BlockType) (f : DiskFile) :
  0 ≤ fileIndex →
  (∀ df, slots s type !! Z.to_nat fileIndex ≠ Some (Some df)) →
  blockFile s type fileIndex = Some f →
  mapFile s fileIndex type
  = let df := freshMapping s type fileIndex f in
    let s0 := set_fileHistory (historyWith s df)
                (set_slots type (<[Z.to_nat fileIndex := Some df]>
                                   (grownSlots s type fileIndex)) s) in
    match cleanedUp s with
    | Some E => s1 ← cleanupLambda E s0; Ok (s1, Some df)
    | None => Ok (s0, Some df)
    end.
Proof.
  intros Hidx Hslot Hf. rewrite mapFile_unfold.
  destruct (Z.ltb_spec fileIndex 0); [lia|].
  rewrite lookup_grownSlots by done.
  destruct (slots s type !! Z.to_nat fileIndex) as [[df|]|] eqn:Hl; simpl;
    [by destruct (Hslot df)|rewrite Hf..].
  all: rewrite pushHistory_eq
    by (destruct (fileHistory_set_slots s type
                    (<[Z.to_nat fileIndex := Some (freshMapping s type fileIndex f)]>
                       (grownSlots s type fileIndex))) as [-> _];
        intros Hin; eapply freshMapping_new; [|done];
        unfold mappingsOf; apply elem_of_app; by left).
  all: assert (Hc : cleanedUp (set_slots type
                      (<[Z.to_nat fileIndex := Some (freshMapping s type fileIndex f)]>
                         (grownSlots s type fileIndex)) s) = cleanedUp s)
         by (by destruct type).
  all: assert (Hh : historyWith (set_slots type
                      (<[Z.to_nat fileIndex := Some (freshMapping s type fileIndex f)]>
                         (grownSlots s type fileIndex)) s)
                      (freshMapping s type fileIndex f)
                    = historyWith s (freshMapping s type fileIndex f))
         by (by destruct type).
  all: rewrite Hc, Hh; by destruct (cleanedUp s).
Qed.

(** [mapFile], by the state of the slot and of the file. *)
Lemma mapFile_run (s : FileStore) (fileIndex : Z) (type : BlockType) :
  0 ≤ fileIndex →
  mapFile s fileIndex type
  = match slots s type !! Z.to_nat fileIndex with
    | Some (Some df) => Ok (s, Some df)
    | _ =>
        match blockFile s type fileIndex with
        | None => Ok (grownStore s type fileIndex, None)
        | Some f =>
            let df := freshMapping s type fileIndex f in
            let s0 := set_fileHistory (historyWith s df)
                        (set_slots type (<[Z.to_nat fileIndex := Some df]>
                                           (grownSlots s type fileIndex)) s) in
            match cleanedUp s with
            | Some E => s1 ← cleanupLambda E s0; Ok (s1, Some df)
            | None => Ok (s0, Some df)
            end
        end
    end.
Proof.
  intros Hidx.
  destruct (slots s type !! Z.to_nat fileIndex) as [[df|]|] eqn:Hl.
  - by apply mapFile_live_eq.
  - destruct (blockFile s type fileIndex) as [f|] eqn:Hf.
    + apply mapFile_fresh_eq; [done| |done]. intros df. by rewrite Hl.
    + apply mapFile_missing_eq; [done| |done]. intros df. by rewrite Hl.
  - destruct (blockFile s type fileIndex) as [f|] eqn:Hf.
    + apply mapFile_fresh_eq; [done| |done]. intros df. by rewrite Hl.
    + apply mapFile_missing_eq; [done| |done]. intros df. by rewrite Hl.
Qed.

Lemma mapFile_nonneg (s s1 : FileStore) (fileIndex : Z) (type : BlockType)
  (buf : option DataFile) :
  mapFile s fileIndex type = Ok (s1, buf) → 0 ≤ fileIndex.
Proof.
  intros Hrun. destruct (Z.ltb_spec fileIndex 0) as [Hneg|]; [|done].
  by rewrite mapFile_negative in Hrun.
Qed.

Lemma slots_grownStore (s : FileStore) (type t : BlockType) (fileIndex : Z) :
  slots (grownStore s type fileIndex) t
  = if decide (t = type) then grownSlots s type fileIndex else slots s t.
Proof.
  unfold grownStore. destruct (decide (t = type)) as [->|Hne].
  - by rewrite slots_set_slots.
  - by rewrite slots_other.
Qed.

Lemma length_grownStore (s : FileStore) (type t : BlockType) (fileIndex : Z) :
  0 ≤ fileIndex →
  (length (slots s t) ≤ length (slots (grownStore s type fileIndex) t))%nat.
Proof.
  intros Hidx. rewrite slots_grownStore. destruct (decide (t = type)) as [->|]; [|done].
  by apply length_grownSlots.
Qed.

Lemma slots_grownStore_Some (s : FileStore) (type t : BlockType) (fileIndex : Z) (j : nat)
  (df : DataFile) :
  slots (grownStore s type fileIndex) t !! j = Some (Some df)
  ↔ slots s t !! j = Some (Some df).
Proof.
  rewrite slots_grownStore. destruct (decide (t = type)) as [->|]; [|done].
  split; [apply lookup_grownSlots_Some|].
  intros Hl. unfold grownSlots. destruct (Z.leb_spec (Z.of_nat (length (slots s type))) fileIndex); [|done].
  apply lookup_lt_Some in Hl as Hlt. by rewrite lookup_resize by lia.
Qed.

(** [mapFile] stops exactly when the deleter of the dropped mapping does. *)
Lemma mapFile_stops (s : FileStore) (fileIndex : Z) (type : BlockType) :
  0 ≤ fileIndex →
  cleanupStops s type fileIndex = true →
  mapFile s fileIndex type = Err AssertionFailure.
Proof.
  intros Hidx. rewrite mapFile_run by done. unfold cleanupStops, dropped.
  destruct (slots s type !! Z.to_nat fileIndex) as [[df|]|] eqn:Hl; [done|..];
    (destruct (blockFile s type fileIndex) as [f|]; [|done]);
    (destruct (cleanedUp s) as [E|]; [|done]); cbn zeta; intros Hstop.
  all: unfold cleanupLambda; cbn [fileHistory set_fileHistory].
  all: replace (slots (set_fileHistory _ _) (p_prefix (df_path E)))
         with (slots (set_slots type (<[Z.to_nat fileIndex := Some (freshMapping s type fileIndex f)]>
                        (grownSlots s type fileIndex)) s) (p_prefix (df_path E)))
         by (by destruct type, (p_prefix (df_path E))).
  all: assert (Hlen : length (slots (set_slots type
                        (<[Z.to_nat fileIndex := Some (freshMapping s type fileIndex f)]>
                           (grownSlots s type fileIndex)) s) (p_prefix (df_path E)))
                      = length (slots (grownStore s type fileIndex) (p_prefix (df_path E))))
         by (unfold grownStore; destruct type, (p_prefix (df_path E)); simpl;
             by rewrite ?length_insert).
  all: rewrite Hlen; by rewrite Hstop.
Qed.

Lemma grownStore_in_range (s : FileStore) (type : BlockType) (fileIndex : Z) :
  fileIndex < Z.of_nat (length (slots s type)) → grownStore s type fileIndex = s.
Proof.
  intros Hlt. unfold grownStore, grownSlots.
  destruct (Z.leb_spec (Z.of_nat (length (slots s type))) fileIndex); [lia|].
  apply set_slots_same.
Qed.

Lemma set_slots_frame (s : FileStore) (type : BlockType) (l : list (option DataFile)) :
  disk (set_slots type l s) = disk s
  ∧ blocksDataDirs (set_slots type l s) = blocksDataDirs s
  ∧ fileHistory (set_slots type l s) = fileHistory s
  ∧ vinfoBlockFile (set_slots type l s) = vinfoBlockFile s
  ∧ nLastBlockFile (set_slots type l s) = nLastBlockFile s
  ∧ setDirtyFileInfo (set_slots type l s) = setDirtyFileInfo s
  ∧ inUse (set_slots type l s) = inUse s.
Proof. by destruct type. Qed.

Lemma grownStore_frame (s : FileStore) (type : BlockType) (fileIndex : Z) :
  disk (grownStore s type fileIndex) = disk s
  ∧ blocksDataDirs (grownStore s type fileIndex) = blocksDataDirs s
  ∧ fileHistory (grownStore s type fileIndex) = fileHistory s
  ∧ vinfoBlockFile (grownStore s type fileIndex) = vinfoBlockFile s
  ∧ nLastBlockFile (grownStore s type fileIndex) = nLastBlockFile s
  ∧ setDirtyFileInfo (grownStore s type fileIndex) = setDirtyFileInfo s
  ∧ inUse (grownStore s type fileIndex) = inUse s.
Proof. apply set_slots_frame. Qed.

Lemma slots_mapped (s : FileStore) (type t : BlockType) (fileIndex : Z) (df : DataFile)
  (h : list DataFile) (j : nat) :
  0 ≤ fileIndex →
  slots (set_fileHistory h
           (set_slots type (<[Z.to_nat fileIndex := Some df]> (grownSlots s type fileIndex)) s))
    t !! j
  = if decide ((t, j) = (type, Z.to_nat fileIndex)) then Some (Some df)
    else slots (grownStore s type fileIndex) t !! j.
Proof.
  intros Hidx.
  replace (slots (set_fileHistory h _) t)
    with (slots (set_slots type (<[Z.to_nat fileIndex := Some df]>
                   (grownSlots s type fileIndex)) s) t)
    by (by destruct type, t).
  rewrite slots_grownStore.
  destruct (decide (t = type)) as [->|Hne].
  - rewrite slots_set_slots.
    destruct (decide (j = Z.to_nat fileIndex)) as [->|Hj].
    + rewrite decide_True by done. apply list_lookup_insert_eq.
      pose proof (length_grownSlots s type fileIndex Hidx). lia.
    + rewrite decide_False by congruence. by apply list_lookup_insert_ne.
  - rewrite slots_other by done. rewrite decide_False by congruence. done.
Qed.

Lemma length_slots_mapped (s : FileStore) (type t : BlockType) (fileIndex : Z)
  (df : DataFile) (h : list DataFile) :
  length (slots (set_fileHistory h
           (set_slots type (<[Z.to_nat fileIndex := Some df]> (grownSlots s type fileIndex)) s))
           t)
  = length (slots (grownStore s type fileIndex) t).
Proof. unfold grownStore. destruct type, t; simpl; by rewrite ?length_insert. Qed.

Lemma dropped_in (s : FileStore) (type : BlockType) (fileIndex : Z) (E : DataFile) :
  dropped s type fileIndex = Some E →
  cleanedUp s = Some E
  ∧ (∀ df, slots s type !! Z.to_nat fileIndex ≠ Some (Some df))
  ∧ is_Some (blockFile s type fileIndex).
Proof.
  unfold dropped.
  destruct (slots s type !! Z.to_nat fileIndex) as [[df|]|]; [done|..];
    (destruct (blockFile s type fileIndex) as [f|]; [|done]); intros ->; by eauto.
Qed.

(** What a call of [mapFile] that returns has done. *)
Lemma mapFile_effect (s s1 : FileStore) (fileIndex : Z) (type : BlockType)
  (buf : option DataFile) :
  mapFile s fileIndex type = Ok (s1, buf) →
  0 ≤ fileIndex
  ∧ cleanupStops s type fileIndex = false
  ∧ slots s1 type !! Z.to_nat fileIndex = Some buf
  ∧ disk s1 = disk s ∧ blocksDataDirs s1 = blocksDataDirs s
  ∧ vinfoBlockFile s1 = vinfoBlockFile s ∧ nLastBlockFile s1 = nLastBlockFile s
  ∧ setDirtyFileInfo s1 = setDirtyFileInfo s ∧ inUse s1 = inUse s
  ∧ (∀ t, length (slots s1 t) = length (slots (grownStore s type fileIndex) t))
  ∧ (∀ t j, (t, j) ≠ (type, Z.to_nat fileIndex) →
       slots s1 t !! j
       = slotAfterCleanup (dropped s type fileIndex) (grownStore s type fileIndex) t j)
  ∧ match slots s type !! Z.to_nat fileIndex with
    | Some (Some df) => buf = Some df ∧ s1 = s
    | _ =>
        buf = freshMapping s type fileIndex <$> blockFile s type fileIndex
        ∧ fileHistory s1
          = match blockFile s type fileIndex with
            | Some f => historyWith s (freshMapping s type fileIndex f)
            | None => fileHistory s
            end
    end.
Proof.
  intros Hrun. pose proof (mapFile_nonneg _ _ _ _ _ Hrun) as Hidx.
  split; [done|]. rewrite mapFile_run in Hrun by done.
  unfold cleanupStops, dropped.
  destruct (slots s type !! Z.to_nat fileIndex) as [[df|]|] eqn:Hl.
  { injection Hrun as <- <-. apply lookup_lt_Some in Hl as Hlt.
    rewrite grownStore_in_range by lia. by repeat split. }
  all: destruct (blockFile s type fileIndex) as [f|] eqn:Hf.
  all: try (injection Hrun as <- <-; split; [done|]; split;
            [unfold grownStore; rewrite slots_set_slots, lookup_grownSlots, Hl by done; done|];
            destruct (grownStore_frame s type fileIndex) as (? & ? & Hh & ? & ? & ? & ?);
            by repeat (split; [done|])).
  all: cbn zeta in Hrun.
  all: set (df := freshMapping s type fileIndex f) in *.
  all: set (s0 := set_fileHistory (historyWith s df)
                    (set_slots type (<[Z.to_nat fileIndex := Some df]>
                                       (grownSlots s type fileIndex)) s)) in *.
  all: assert (Hs0 : disk s0 = disk s ∧ blocksDataDirs s0 = blocksDataDirs s
                     ∧ vinfoBlockFile s0 = vinfoBlockFile s
                     ∧ nLastBlockFile s0 = nLastBlockFile s
                     ∧ setDirtyFileInfo s0 = setDirtyFileInfo s ∧ inUse s0 = inUse s
                     ∧ fileHistory s0 = historyWith s df)
         by (by destruct type).
  all: destruct Hs0 as (Hd0 & Hdirs0 & Hv0 & Hn0 & Hdirty0 & Huse0 & Hh0).
  all: destruct (cleanedUp s) as [E|] eqn:HE.
  all: try (injection Hrun as <- <-; split; [done|]; split;
            [unfold s0; rewrite slots_mapped by done; by rewrite decide_True|];
            repeat (split; [done|]); split;
            [intros t; apply length_slots_mapped|]; split;
            [intros t j Hne; unfold s0; rewrite slots_mapped by done;
             by rewrite decide_False|]; done).
  all: destruct (cleanupLambda E s0) as [s2|e] eqn:Hc; simpl in Hrun; [|done].
  all: injection Hrun as <- <-.
  all: apply cleanupLambda_inv in Hc
         as (Hrange & Hd & Hdirs & Hh & Hv & Hn & Hdirty & Huse & Hlen & Hslots).
  all: assert (HEnew : E ≠ df)
         by (apply freshMapping_new; apply cleanedUp_in in HE as (Hin & _);
             unfold mappingsOf; apply elem_of_app; by left).
  all: split;
         [unfold s0 in Hrange; rewrite length_slots_mapped in Hrange;
          destruct (Z.leb_spec 0 (p_index (df_path E))); [|lia];
          destruct (Z.ltb_spec (p_index (df_path E))
                      (Z.of_nat (length (slots (grownStore s type fileIndex)
                                           (p_prefix (df_path E)))))); [done|lia]|].
  all: split;
         [rewrite Hslots; unfold s0; rewrite slots_mapped by done;
          rewrite (decide_True (P := (type, Z.to_nat fileIndex) = (type, Z.to_nat fileIndex)))
            by done;
          rewrite decide_False; [done|]; intros (? & _); congruence|].
  all: split; [congruence|]. all: split; [congruence|]. all: split; [congruence|].
  all: split; [congruence|]. all: split; [congruence|]. all: split; [congruence|].
  all: split; [intros t; rewrite Hlen; apply length_slots_mapped|].
  all: split; [|split; [done|congruence]].
  all: intros t j Hne; rewrite Hslots; unfold s0, slotAfterCleanup, slotOf;
         rewrite slots_mapped by done;
         rewrite (decide_False (P := (t, j) = (type, Z.to_nat fileIndex))) by done.
  all: destruct (decide (slots (grownStore s type fileIndex) t !! j = Some (Some E)
                         ∧ t = p_prefix (df_path E) ∧ j = Z.to_nat (p_index (df_path E))))
         as [(H1 & H2 & H3)|Hno].
  all: try (rewrite decide_True; [done|]; split; [done|]; congruence).
  all: rewrite decide_False; [done|]; intros (H1 & [= H2 H3]); by apply Hno.
Qed.

Lemma mapFile_returns (s : FileStore) (fileIndex : Z) (type : BlockType) :
  0 ≤ fileIndex →
  cleanupStops s type fileIndex = false →
  ∃ s1 buf, mapFile s fileIndex type = Ok (s1, buf).
Proof.
  intros Hidx. rewrite mapFile_run by done. unfold cleanupStops, dropped.
  destruct (slots s type !! Z.to_nat fileIndex) as [[df|]|] eqn:Hl; [by eauto|..];
    (destruct (blockFile s type fileIndex) as [f|]; [|by eauto]);
    (destruct (cleanedUp s) as [E|]; [|by eauto]); cbn zeta; intros Hstop.
  all: apply negb_false_iff, andb_true_iff in Hstop as [H0 Hlt].
  all: apply Z.leb_le in H0; apply Z.ltb_lt in Hlt.
  all: rewrite <- (length_slots_mapped s type (p_prefix (df_path E)) fileIndex
                     (freshMapping s type fileIndex f)
                     (historyWith s (freshMapping s type fileIndex f))) in Hlt.
  all: destruct (cleanupLambda_ok E _ (conj H0 Hlt)) as [s1 ->]; by eauto.
Qed.

Lemma historyInRange_cleanupStops (s : FileStore) (type : BlockType) (fileIndex : Z) :
  historyInRange s → 0 ≤ fileIndex → cleanupStops s type fileIndex = false.
Proof.
  intros Hinv Hidx. unfold cleanupStops.
  destruct (dropped s type fileIndex) as [E|] eqn:HE; [|done].
  apply dropped_in in HE as (HE & _). apply cleanedUp_in in HE as (Hin & _).
  apply Hinv in Hin.
  pose proof (length_grownStore s type (p_prefix (df_path E)) fileIndex Hidx).
  apply negb_false_iff, andb_true_iff. split; [apply Z.leb_le|apply Z.ltb_lt]; lia.
Qed.

Lemma elem_of_historyWith (s : FileStore) (df x : DataFile) :
  x ∈ historyWith s df → x ∈ fileHistory s ∨ x = df.
Proof.
  unfold historyWith. intros [Hin|Hin%list_elem_of_singleton]%elem_of_app; [|by right].
  left. destruct (10 <=? length (fileHistory s))%nat; [|done].
  destruct (fileHistory s); [done|]. by right.
Qed.

Lemma length_historyWith (s : FileStore) (df : DataFile) :
  (length (fileHistory s) ≤ 10)%nat → (length (historyWith s df) ≤ 10)%nat.
Proof.
  intros Hlen. unfold historyWith. rewrite length_app. change (length [df]) with 1%nat.
  destruct (Nat.leb_spec 10 (length (fileHistory s))); [|lia].
  destruct (fileHistory s); simpl in *; lia.
Qed.

Lemma freshMapping_key (s : FileStore) (type : BlockType) (fileIndex : Z) (f : DiskFile) :
  p_prefix (df_path (freshMapping s type fileIndex f)) = type
  ∧ p_index (df_path (freshMapping s type fileIndex f)) = fileIndex.
Proof. apply getFilepathForIndex_key. Qed.

(** [mapFile] keeps the history within the slot vectors and within ten
    entries. *)
Lemma mapFile_history (s s1 : FileStore) (fileIndex : Z) (type : BlockType)
  (buf : option DataFile) :
  mapFile s fileIndex type = Ok (s1, buf) →
  (historyInRange s → historyInRange s1)
  ∧ ((length (fileHistory s) ≤ 10)%nat → (length (fileHistory s1) ≤ 10)%nat).
Proof.
  intros (Hidx & _ & _ & _ & _ & _ & _ & _ & _ & Hlen & _ & Hcase)%mapFile_effect.
  assert (Hh : fileHistory s1 = fileHistory s
               ∨ ∃ f, fileHistory s1 = historyWith s (freshMapping s type fileIndex f)).
  { destruct (slots s type !! Z.to_nat fileIndex) as [[df|]|].
    - destruct Hcase as [_ ->]. by left.
    - destruct Hcase as [_ ->]. destruct (blockFile s type fileIndex); by eauto.
    - destruct Hcase as [_ ->]. destruct (blockFile s type fileIndex); by eauto. }
  split.
  - intros Hinv x Hx. rewrite Hlen.
    pose proof (length_grownStore s type (p_prefix (df_path x)) fileIndex Hidx) as Hge.
    destruct Hh as [Hh|[f Hh]]; rewrite Hh in Hx.
    + apply Hinv in Hx. lia.
    + apply elem_of_historyWith in Hx as [Hx| ->]; [apply Hinv in Hx; lia|].
      destruct (freshMapping_key s type fileIndex f) as [-> ->].
      rewrite slots_grownStore, decide_True by done.
      pose proof (length_grownSlots s type fileIndex Hidx). lia.
  - intros Hle. destruct Hh as [->|[f ->]]; [done|]. by apply length_historyWith.
Qed.

(** A slot that is live after [mapFile], other than the slot of the file,
    held the same mapping before. *)
Lemma mapFile_keeps_live (s s1 : FileStore) (fileIndex : Z) (type t : BlockType)
  (buf : option DataFile) (j : nat) (df : DataFile) :
  mapFile s fileIndex type = Ok (s1, buf) →
  (t, j) ≠ (type, Z.to_nat fileIndex) →
  slots s1 t !! j = Some (Some df) →
  slots s t !! j = Some (Some df).
Proof.
  intros (Hidx & _ & _ & _ & _ & _ & _ & _ & _ & _ & Hslots & _)%mapFile_effect Hne.
  rewrite Hslots by done. unfold slotAfterCleanup.
  destruct (dropped s type fileIndex) as [E|].
  - destruct (decide _); [done|]. apply slots_grownStore_Some.
  - apply slots_grownStore_Some.
Qed.


Lemma mapFile_buf (s s1 : FileStore) (fileIndex : Z) (type : BlockType)
  (buf : option DataFile) :
  mapFile s fileIndex type = Ok (s1, buf) →
  (∃ df, slots s type !! Z.to_nat fileIndex = Some (Some df) ∧ buf = Some df)
  ∨ ((∀ df, slots s type !! Z.to_nat fileIndex ≠ Some (Some df))
     ∧ buf = freshMapping s type fileIndex <$> blockFile s type fileIndex).
Proof.
  intros (_ & _ & _ & _ & _ & _ & _ & _ & _ & _ & _ & Hcase)%mapFile_effect.
  destruct (slots s type !! Z.to_nat fileIndex) as [[df|]|].
  - left. exists df. by destruct Hcase.
  - right. by destruct Hcase.
  - right. by destruct Hcase.
Qed.

Lemma mapFile_inv (s s1 : FileStore) (fileIndex : Z) (type : BlockType) (df : DataFile) :
  mapFile s fileIndex type = Ok (s1, Some df) →
  0 ≤ fileIndex
  ∧ slots s1 type !! Z.to_nat fileIndex = Some (Some df)
  ∧ disk s1 = disk s
  ∧ blocksDataDirs s1 = blocksDataDirs s
  ∧ vinfoBlockFile s1 = vinfoBlockFile s
  ∧ nLastBlockFile s1 = nLastBlockFile s
  ∧ setDirtyFileInfo s1 = setDirtyFileInfo s.
Proof.
  intros (? & _ & ? & ? & ? & ? & ? & ? & _)%mapFile_effect. by repeat split.
Qed.

Lemma mapFile_live (s : FileStore) (fileIndex : Z) (type : BlockType) (df : DataFile) :
  0 ≤ fileIndex →
  slots s type !! Z.to_nat fileIndex = Some (Some df) →
  mapFile s fileIndex type = Ok (s, Some df).
Proof. apply mapFile_live_eq. Qed.

Lemma mapFile_again (s1 : FileStore) (fileIndex : Z) (type : BlockType)
  (buf : option DataFile) :
  0 ≤ fileIndex →
  slots s1 type !! Z.to_nat fileIndex = Some buf →
  (buf = None → blockFile s1 type fileIndex = None) →
  mapFile s1 fileIndex type = Ok (s1, buf).
Proof.
  intros Hidx Hslot Hnone. rewrite mapFile_run, Hslot by done.
  destruct buf as [df|]; [done|]. rewrite Hnone by done.
  apply lookup_lt_Some in Hslot. by rewrite grownStore_in_range by lia.
Qed.

(** The mapping that [mapFile] answers, when the slot is consistent with
    the disk. *)
Lemma mapFile_consistent (s s1 : FileStore) (fileIndex : Z) (type : BlockType)
  (buf : option DataFile) :
  slotConsistent s type fileIndex →
  mapFile s fileIndex type = Ok (s1, buf) →
  disk s1 = disk s
  ∧ match blockFile s type fileIndex with
    | None => buf = None
    | Some f => ∃ df, buf = Some df ∧ df_path df = resolved s type fileIndex
                      ∧ df_filesize df = fileLength f
    end.
Proof.
  intros Hslot (Hidx & _ & _ & Hdisk & _ & _ & _ & _ & _ & _ & _ & Hcase)%mapFile_effect.
  split; [done|].
  destruct (slots s type !! Z.to_nat fileIndex) as [[df|]|] eqn:Hl.
  - destruct Hcase as [-> _]. destruct (Hslot df Hl) as (Hpath & f & Hf & Hsize).
    unfold blockFile. rewrite <- Hpath, Hf. by eauto.
  - destruct Hcase as [-> _]. destruct (blockFile s type fileIndex) as [f|]; [|done].
    by eexists.
  - destruct Hcase as [-> _]. destruct (blockFile s type fileIndex) as [f|]; [|done].
    by eexists.
Qed.

Lemma cleanupStops_missing (s : FileStore) (type : BlockType) (fileIndex : Z) :
  blockFile s type fileIndex = None → cleanupStops s type fileIndex = false.
Proof. intros Hf. unfold cleanupStops, dropped. rewrite Hf. by repeat case_match. Qed.

Lemma mapFile_mapped (s : FileStore) (fileIndex : Z) (type : BlockType) :
  0 ≤ fileIndex →
  slotConsistent s type fileIndex →
  cleanupStops s type fileIndex = false →
  ∃ s1 buf,
    mapFile s fileIndex type = Ok (s1, buf)
    ∧ disk s1 = disk s
    ∧ match blockFile s type fileIndex with
      | None => buf = None
      | Some f => ∃ df, buf = Some df ∧ df_path df = resolved s type fileIndex
                        ∧ df_filesize df = fileLength f
      end.
Proof.
  intros Hidx Hslot Hstop.
  destruct (mapFile_returns s fileIndex type Hidx Hstop) as (s1 & buf & Hrun).
  exists s1, buf. split; [done|]. by apply (mapFile_consistent s s1 fileIndex type buf).
Qed.

(** ** Loading the index and the slots of the file mapper *)

Lemma loadRows_maxFile (rows : list Row) (ix ix' : Index) (m0 m : Z) :
  0 ≤ m0 →
  loadRows rows ix m0 = Some (ix', m, true) →
  m = Z.max m0 (foldr Z.max 0 (dbi_nFile <$> blockRows rows)).
Proof.
  revert ix m0. induction rows as [|row rows IH]; intros ix m0 Hm0; simpl.
  - intros [= _ <-]. lia.
  - destruct (row_key row) as [[c k]|]; [|intros [= _ <-]; simpl; lia].
    case_bool_decide; [|intros [= _ <-]; destruct (row_value row); simpl; lia].
    destruct (row_value row) as [di|]; [|done].
    destruct (InsertBlockIndex ix (dbi_hash di)) as [ix1 [pindexNew|]]; [|done].
    simpl. destruct (InsertBlockIndex ix1 (dbi_hashPrev di)) as [ix2 prev].
    destruct (ix_heap ix2 !! pindexNew) as [old|]; [|done]. simpl.
    intros Hrest. apply IH in Hrest; [|lia]. unfold fmap in *. lia.
Qed.

Lemma maxFile_nonneg (l : list Z) : 0 ≤ foldr Z.max 0 l.
Proof. induction l; simpl; lia. Qed.

Lemma mapFile_grows_short_vector (s : FileStore) (fileIndex : Z) (type : BlockType) :
  0 ≤ fileIndex →
  Z.of_nat (length (slots s type)) ≤ fileIndex →
  if cleanupStops s type fileIndex
  then mapFile s fileIndex type = Err AssertionFailure
  else ∃ s1 buf, mapFile s fileIndex type = Ok (s1, buf)
         ∧ Z.of_nat (length (slots s1 type)) = fileIndex + 10.
Proof.
  intros Hidx Hlen. destruct (cleanupStops s type fileIndex) eqn:Hstop.
  { by apply mapFile_stops. }
  destruct (mapFile_returns s fileIndex type Hidx Hstop) as (s1 & buf & Hrun).
  exists s1, buf. split; [done|].
  apply mapFile_effect in Hrun as (_ & _ & _ & _ & _ & _ & _ & _ & _ & Hl & _).
  rewrite Hl, slots_grownStore, decide_True by done.
  pose proof (length_grownSlots s type fileIndex Hidx) as (_ & _ & ->).
  by destruct (Z.leb_spec (Z.of_nat (length (slots s type))) fileIndex); [|lia].
Qed.

(** C9.  When [CacheAllBlockInfos] completes, the two slot vectors of the
    file mapper have length [maxFile], the largest file index among the
    loaded records, and not [maxFile + 1]: the slot of file [maxFile] does
    not exist, and the next [mapFile] for that file resizes the vector to
    [maxFile + 10].  That [mapFile] returns unless the mapping that it
    pushes out of the history of open files names a slot outside its
    vector, which the resize to [maxFile] can bring about
    ([mapFile_stops_after_CacheAllBlockInfos]): the deleter of that mapping
    then stops at its assertion ([cleanupStops]). *)
Theorem CacheAllBlockInfos_slot_vectors (db db' : DB) (rows : list Row) :
  CacheAllBlockInfos db rows = Some (db', true) →
  let maxFile := foldr Z.max 0 (dbi_nFile <$> blockRows rows) in
  Z.of_nat (length (datafiles (db_store db'))) = maxFile
  ∧ Z.of_nat (length (revertDatafiles (db_store db'))) = maxFile
  ∧ datafiles (db_store db') !! Z.to_nat maxFile = None
  ∧ ∀ type,
      if cleanupStops (db_store db') type maxFile
      then mapFile (db_store db') maxFile type = Err AssertionFailure
      else ∃ s buf,
             mapFile (db_store db') maxFile type = Ok (s, buf)
             ∧ Z.of_nat (length (slots s type)) = maxFile + 10.
Proof.
  intros Hrun maxFile. unfold CacheAllBlockInfos in Hrun.
  destruct (loadRows rows (db_index db) 0) as [[[ix m] ok]|] eqn:Hrows; [|done].
  simpl in Hrun. destruct ok; simpl in Hrun; [|by simplify_eq].
  destruct (appendAll _ _ _) as [chain|]; [|done]. simpl in Hrun.
  injection Hrun as <-.
  apply loadRows_maxFile in Hrows; [|done].
  pose proof (maxFile_nonneg (dbi_nFile <$> blockRows rows)) as Hnn.
  assert (m = maxFile) as -> by (subst maxFile; lia).
  assert (Hblk : Z.of_nat (length (resize (Z.to_nat maxFile) None
                   (datafiles (db_store db)))) = maxFile)
    by (rewrite length_resize; subst maxFile; lia).
  assert (Hrev : Z.of_nat (length (resize (Z.to_nat maxFile) None
                   (revertDatafiles (db_store db)))) = maxFile)
    by (rewrite length_resize; subst maxFile; lia).
  simpl. split; [done|]. split; [done|].
  split; [apply lookup_ge_None; rewrite length_resize; lia|].
  intros type. apply mapFile_grows_short_vector; [subst maxFile; lia|].
  destruct type; simpl; lia.
Qed.

Lemma CacheAllBlockInfos_slot_vectors_witness :
  ∃ db', CacheAllBlockInfos emptyDB [genesisRow 2] = Some (db', true)
    ∧ Z.of_nat (length (datafiles (db_store db'))) = 2
    ∧ Z.of_nat (length (revertDatafiles (db_store db'))) = 2
    ∧ datafiles (db_store db') !! 2%nat = None
    ∧ ∀ type, ∃ s buf,
        mapFile (db_store db') 2 type = Ok (s, buf)
        ∧ Z.of_nat (length (slots s type)) = 2 + 10.
Proof.
  destruct (CacheAllBlockInfos emptyDB [genesisRow 2]) as [[db' ok]|] eqn:Hrun;
    [|vm_compute in Hrun; discriminate].
  assert (ok = true) as -> by (vm_compute in Hrun; congruence).
  exists db'. split; [reflexivity|].
  destruct (CacheAllBlockInfos_slot_vectors emptyDB db' [genesisRow 2] Hrun)
    as (H1 & H2 & H3 & H4).
  split; [exact H1|]. split; [exact H2|]. split; [exact H3|].
  intros type. specialize (H4 type).
  assert (Hhist : fileHistory (db_store db') = [])
    by (vm_compute in Hrun; injection Hrun as <-; reflexivity).
  assert (Hstop : cleanupStops (db_store db') type
                    (foldr Z.max 0 (dbi_nFile <$> blockRows [genesisRow 2])) = false).
  { unfold cleanupStops, dropped, cleanedUp, evicted. rewrite Hhist. simpl.
    by repeat case_match. }
  rewrite Hstop in H4. exact H4.
Defined.

(** The assertion of the deleter is within reach of the calls of the
    program: ten block files are mapped, the first of them file 30, the
    index is loaded with file 9 as its largest file, which cuts the slot
    vectors down to nine slots, and the mapping of file 9 then pushes the
    mapping of file 30 out of the history of open files. *)
Example mapFile_stops_after_CacheAllBlockInfos :
  ∃ s db',
    mapAll (set_disk manyBlockFiles emptyStore) ForwardBlock [30; 0; 1; 2; 3; 4; 5; 6; 7; 8]
      = Ok s
    ∧ CacheAllBlockInfos (mkDB emptyIndex emptyChainSet s NoReindex) [genesisRow 9]
      = Some (db', true)
    ∧ length (datafiles (db_store db')) = 9%nat
    ∧ mapFile (db_store db') 9 ForwardBlock = Err AssertionFailure.
Proof.
  eexists _, _. split; [vm_compute; reflexivity|].
  split; [vm_compute; reflexivity|split; vm_compute; reflexivity].
Qed.

(** ** The reindex scan *)

Lemma no_magic_without_second_byte (env : Env) (bytes : list byte) (m1 : byte) (i : nat) :
  MessageStart env !! 1%nat = Some m1 →
  Forall (λ b, b ≠ m1) bytes →
  take 4 (drop i bytes) ≠ MessageStart env.
Proof.
  intros Hm Hall Heq. rewrite <- Heq in Hm.
  rewrite lookup_take_lt, lookup_drop in Hm by lia.
  apply list_elem_of_lookup_2 in Hm.
  rewrite Forall_forall in Hall. by apply Hall in Hm.
Qed.

(** C7 (the code departs from it).  [memchr] compares single bytes, so the
    scan looks for the first byte of the magic, and only among the first
    quarter of the remaining bytes.  On a file that holds the first magic
    byte but no magic word, the length found behind it is at least 80 and
    the position is submitted; on a file whose only frame starts at offset
    40 of 128, the magic word is never reached and nothing is submitted. *)
Theorem LoadExternalBlockFile_scans_for_one_byte (hash : list byte → uint256) (harder : bool) :
  let env := mkEnv mainMagic hash harder in
  (∃ s, LoadExternalBlockFile env (storeWithBlk0 strayByteFile) (mkPos 0 0)
        = Ok (s, [mkPos 0 8], true))
  ∧ (∀ i, take 4 (drop i strayByteFile) ≠ MessageStart env)
  ∧ (∃ s, LoadExternalBlockFile env (storeWithBlk0 lateFrameFile) (mkPos 0 0)
          = Ok (s, [], true))
  ∧ take 4 (drop 40 lateFrameFile) = MessageStart env
  ∧ le32toh (take 4 (drop 44 lateFrameFile)) = 80.
Proof.
  intros env. split; [eexists; vm_compute; reflexivity|].
  split.
  { intros i. apply (no_magic_without_second_byte env _ xbe); [reflexivity|].
    apply (bool_decide_unpack _). vm_compute. exact I. }
  split; [eexists; vm_compute; reflexivity|].
  split; vm_compute; reflexivity.
Qed.

(** ** Bytes, 32-bit words and buffers *)

Lemma Z_of_byte_range (b : byte) : 0 ≤ Z_of_byte b < 256.
Proof.
  unfold Z_of_byte. pose proof (Byte.to_N_bounded b) as H. lia.
Qed.

Lemma Z_of_byte_of_Z (x : Z) : Z_of_byte (byte_of_Z x) = x mod 256.
Proof.
  unfold Z_of_byte, byte_of_Z.
  pose proof (Z.mod_pos_bound x 256 ltac:(lia)) as Hx.
  destruct (Byte.of_N (Z.to_N (x mod 256))) as [b|] eqn:Hb.
  - apply Byte.to_of_N in Hb. rewrite Hb. lia.
  - apply Byte.of_N_None_iff in Hb. lia.
Qed.

Lemma length_htole32 (x : Z) : length (htole32 x) = 4%nat.
Proof. reflexivity. Qed.

Lemma le32toh_htole32 (x : Z) : 0 ≤ x < 2 ^ 32 → le32toh (htole32 x) = x.
Proof.
  intros Hx. unfold le32toh, htole32. rewrite !Z_of_byte_of_Z.
  change 65536 with (256 * 256). change 16777216 with (256 * 256 * 256).
  rewrite <- !Z.div_div by lia.
  pose proof (Z.div_mod x 256 ltac:(lia)) as H0.
  pose proof (Z.div_mod (x / 256) 256 ltac:(lia)) as H1.
  pose proof (Z.div_mod (x / 256 / 256) 256 ltac:(lia)) as H2.
  assert (0 ≤ x / 256 / 256 / 256 < 256) as H3.
  { split; [repeat apply Z.div_pos; lia|].
    repeat (apply Z.div_lt_upper_bound; [lia|]). lia. }
  rewrite (Z.mod_small (x / 256 / 256 / 256)) by lia. lia.
Qed.

Lemma le32toh_range (bs : list byte) : 0 ≤ le32toh bs < 2 ^ 32.
Proof.
  unfold le32toh.
  destruct bs as [|b0 [|b1 [|b2 [|b3 [|]]]]]; try (change (2 ^ 32) with 4294967296; lia).
  pose proof (Z_of_byte_range b0). pose proof (Z_of_byte_range b1).
  pose proof (Z_of_byte_range b2). pose proof (Z_of_byte_range b3).
  change (2 ^ 32) with 4294967296. lia.
Qed.

Lemma length_uint256_bytes (x : uint256) : length (uint256_bytes x) = 32%nat.
Proof. unfold uint256_bytes. by rewrite length_fmap, length_seq. Qed.

Lemma length_MessageStart (env : Env) : length (MessageStart env) = 4%nat.
Proof. unfold MessageStart. by destruct (pchMessageStart env) as [[[? ?] ?] ?]. Qed.

Lemma u32_small (x : Z) : 0 ≤ x < 2 ^ 32 → u32 x = x.
Proof. intros. unfold u32. by apply Z.mod_small. Qed.

Lemma u32_range (x : Z) : 0 ≤ u32 x < 2 ^ 32.
Proof. unfold u32. apply Z.mod_pos_bound. lia. Qed.

Lemma length_splice (off : Z) (data bytes : list byte) :
  0 ≤ off → off + Z.of_nat (length data) ≤ Z.of_nat (length bytes) →
  length (splice off data bytes) = length bytes.
Proof.
  intros. unfold splice. rewrite !length_app, length_take, length_drop. lia.
Qed.

Lemma slice_splice_same (off : Z) (data bytes : list byte) :
  0 ≤ off → off + Z.of_nat (length data) ≤ Z.of_nat (length bytes) →
  slice off (Z.of_nat (length data)) (splice off data bytes) = data.
Proof.
  intros. unfold slice, splice. rewrite Nat2Z.id.
  rewrite drop_app_length' by (rewrite length_take; lia).
  by rewrite take_app_length.
Qed.

Lemma slice_splice_at (off n : Z) (data bytes : list byte) :
  n = Z.of_nat (length data) →
  0 ≤ off → off + n ≤ Z.of_nat (length bytes) →
  slice off n (splice off data bytes) = data.
Proof. intros -> ? ?. by apply slice_splice_same. Qed.

Lemma slice_splice_before (off o n : Z) (data bytes : list byte) :
  0 ≤ o → 0 ≤ n → o + n ≤ off →
  off + Z.of_nat (length data) ≤ Z.of_nat (length bytes) →
  slice o n (splice off data bytes) = slice o n bytes.
Proof.
  intros. unfold slice, splice. rewrite !take_drop_commute.
  rewrite take_app_le by (rewrite length_take; lia).
  rewrite take_take. f_equal. f_equal. lia.
Qed.

Lemma slice_splice_after (off o n : Z) (data bytes : list byte) :
  0 ≤ off → off + Z.of_nat (length data) ≤ o →
  off + Z.of_nat (length data) ≤ Z.of_nat (length bytes) →
  slice o n (splice off data bytes) = slice o n bytes.
Proof.
  intros. unfold slice, splice. f_equal.
  rewrite drop_app_ge by (rewrite length_take; lia).
  rewrite drop_app_ge by (rewrite length_take; lia).
  rewrite drop_drop, length_take. f_equal. lia.
Qed.

(** ** Mapping a file and reading a block *)

Lemma peek_ok (d : Disk) (df : DataFile) (f : DiskFile) (off len : Z) :
  d (df_path df) = Some f →
  0 ≤ off → 0 ≤ len → off + len ≤ df_filesize df → off + len ≤ fileLength f →
  peek d df off len = Ok (slice off len (f_bytes f)).
Proof.
  intros Hf Hoff Hlen Hmap Hend. unfold peek. rewrite Hf.
  destruct (Z.leb_spec 0 off); [|lia]. destruct (Z.leb_spec 0 len); [|lia].
  destruct (Z.leb_spec (off + len) (df_filesize df)); [|lia].
  destruct (Z.leb_spec (off + len) (fileLength f)); [|lia]. done.
Qed.

Lemma peek_in_file (d : Disk) (df : DataFile) (f : DiskFile) (off len : Z) :
  d (df_path df) = Some f → df_filesize df = fileLength f →
  0 ≤ off → 0 ≤ len → off + len ≤ fileLength f →
  peek d df off len = Ok (slice off len (f_bytes f)).
Proof. intros. apply peek_ok; (done || lia). Qed.

(** C6, as the code has it.  A read of a stored block or undo block fails
    when the position is below 4, when the file cannot be mapped (a missing
    file is an error for [loadBlock]; only the whole-file read
    [loadBlockFile] answers the empty view), when the position is not
    inside the file, when the declared length (plus the checksum of an undo
    block) runs past the end of the file, and when the checksum of an undo
    block differs; in every other case it returns the view of the payload.
    A read at a position of at least 4 that maps the file afresh stops
    instead when the deleter of the mapping that leaves the history of open
    files fails its assertion ([cleanupStops]).  Declared lengths for which
    the 32-bit sum [nPos + length (+ 32)] wraps around are left out. *)
Theorem loadBlock_fails_exactly_when (env : Env) (s : FileStore) (pos : CDiskBlockPos)
  (type : BlockType) (blockHash : option uint256) :
  0 ≤ pos_nFile pos →
  slotConsistent s type (pos_nFile pos) →
  (is_Some blockHash → type = RevertBlock) →
  loadBlock_outcome env s pos type blockHash.
Proof.
  intros Hfile Hslot Hassert. unfold loadBlock_outcome.
  assert (Hlow : pos_nPos pos < 4 → loadBlock env s pos type blockHash = Err DatabaseCorruption).
  { intros Hlt. unfold loadBlock. by destruct (Z.ltb_spec (pos_nPos pos) 4); [|lia]. }
  destruct (blockFile s type (pos_nFile pos)) as [f|] eqn:Hf.
  - destruct (cleanupStops s type (pos_nFile pos)) eqn:Hstop; simpl.
    { destruct (Z.leb_spec 4 (pos_nPos pos)) as [H4|H4].
      - unfold loadBlock. destruct (Z.ltb_spec (pos_nPos pos) 4); [lia|].
        by rewrite mapFile_stops.
      - intros _. split; [done|]. do 4 (split; [intros; lia|]).
        split; [by left|eauto]. }
    destruct (mapFile_returns s (pos_nFile pos) type Hfile Hstop) as (s1 & buf & Hmap).
    destruct (mapFile_consistent s s1 (pos_nFile pos) type buf Hslot Hmap) as (Hdisk & Hbuf).
    rewrite Hf in Hbuf.
    destruct Hbuf as (df & -> & Hpath & Hsize). intros Hwrap.
    unfold blockFile in Hf. rewrite <- Hpath, <- Hdisk in Hf.
    pose proof (le32toh_range (slice (pos_nPos pos - 4) 4 (f_bytes f))) as Hdecl.
    set (declared := le32toh (slice (pos_nPos pos - 4) 4 (f_bytes f))) in *.
    assert (Hout : 4 ≤ pos_nPos pos → fileLength f ≤ pos_nPos pos
                   → loadBlock env s pos type blockHash = Err PositionOutsideOfFile).
    { intros H4 Hge. unfold loadBlock. destruct (Z.ltb_spec (pos_nPos pos) 4); [lia|].
      rewrite Hmap. simpl. rewrite Hsize.
      by destruct (Z.leb_spec (fileLength f) (pos_nPos pos)); [|lia]. }
    assert (Hin : 4 ≤ pos_nPos pos < fileLength f →
      loadBlock env s pos type blockHash =
      if fileLength f <? pos_nPos pos + declared
                         + match blockHash with Some _ => 32 | None => 0 end
      then Err BlockBiggerThanFile
      else match blockHash with
           | Some h =>
               if bool_decide
                    (slice (pos_nPos pos + declared) 32 (f_bytes f)
                     ≠ uint256_bytes (Hash256 env (uint256_bytes h
                                                  ++ slice (pos_nPos pos) declared (f_bytes f))))
               then Err ChecksumMismatch
               else Ok (s1, mkConstBuffer (Some df) (pos_nPos pos) (pos_nPos pos + declared))
           | None => Ok (s1, mkConstBuffer (Some df) (pos_nPos pos) (pos_nPos pos + declared))
           end).
    { intros [H4 Hlt]. unfold loadBlock. destruct (Z.ltb_spec (pos_nPos pos) 4); [lia|].
      rewrite Hmap. simpl. rewrite Hsize.
      destruct (Z.leb_spec (fileLength f) (pos_nPos pos)); [lia|].
      rewrite (peek_in_file _ _ f) by (done || lia). simpl. fold declared.
      rewrite u32_small by (destruct blockHash; lia).
      destruct (Z.ltb_spec (fileLength f)
                  (pos_nPos pos + declared + match blockHash with Some _ => 32 | None => 0 end));
        [done|].
      destruct blockHash as [h|]; [|done].
      rewrite (Hassert ltac:(eauto)). simpl.
      rewrite (peek_in_file _ _ f) by (done || lia). simpl.
      rewrite (peek_in_file _ _ f) by (done || lia). simpl. done. }
    assert (Hbig : 4 ≤ pos_nPos pos < fileLength f →
                   fileLength f < pos_nPos pos + declared
                                  + match blockHash with Some _ => 32 | None => 0 end →
                   loadBlock env s pos type blockHash = Err BlockBiggerThanFile).
    { intros Hr Hgt. rewrite (Hin Hr).
      by destruct (Z.ltb_spec (fileLength f)
                  (pos_nPos pos + declared + match blockHash with Some _ => 32 | None => 0 end));
        [|lia]. }
    assert (Hsum : 4 ≤ pos_nPos pos < fileLength f →
                   pos_nPos pos + declared
                   + match blockHash with Some _ => 32 | None => 0 end ≤ fileLength f →
                   (∃ h, blockHash = Some h
                      ∧ slice (pos_nPos pos + declared) 32 (f_bytes f)
                        ≠ uint256_bytes (Hash256 env (uint256_bytes h
                                           ++ slice (pos_nPos pos) declared (f_bytes f)))) →
                   loadBlock env s pos type blockHash = Err ChecksumMismatch).
    { intros Hr Hle (h & -> & Hne). rewrite (Hin Hr).
      destruct (Z.ltb_spec (fileLength f) (pos_nPos pos + declared + 32)); [lia|].
      by rewrite bool_decide_true. }
    assert (Hok : 4 ≤ pos_nPos pos < fileLength f →
                   pos_nPos pos + declared
                   + match blockHash with Some _ => 32 | None => 0 end ≤ fileLength f →
                   ¬ (∃ h, blockHash = Some h
                      ∧ slice (pos_nPos pos + declared) 32 (f_bytes f)
                        ≠ uint256_bytes (Hash256 env (uint256_bytes h
                                           ++ slice (pos_nPos pos) declared (f_bytes f)))) →
                   ∃ s2 v, loadBlock env s pos type blockHash = Ok (s2, v)
                     ∧ viewBytes (disk s2) v = Some (slice (pos_nPos pos) declared (f_bytes f))).
    { intros Hr Hle Hno. rewrite (Hin Hr).
      destruct (Z.ltb_spec (fileLength f)
                  (pos_nPos pos + declared + match blockHash with Some _ => 32 | None => 0 end));
        [lia|].
      assert (Hview : viewBytes (disk s1)
                (mkConstBuffer (Some df) (pos_nPos pos) (pos_nPos pos + declared))
              = Some (slice (pos_nPos pos) declared (f_bytes f))).
      { unfold viewBytes. simpl. rewrite Hf. simpl.
        destruct (Z.leb_spec 0 (pos_nPos pos)); [|lia].
        destruct (Z.leb_spec (pos_nPos pos) (pos_nPos pos + declared)); [|lia].
        destruct (Z.leb_spec (pos_nPos pos + declared) (fileLength f));
          [|destruct blockHash; lia].
        simpl. do 2 f_equal. lia. }
      destruct blockHash as [h|]; [|eauto].
      case_bool_decide as Hne; [|eauto].
      destruct Hno. eauto. }
    repeat (split; [done|]).
    split.
    + intros [e He].
      destruct (Z.ltb_spec (pos_nPos pos) 4) as [|H4]; [by left|]. right.
      destruct (Z.leb_spec (fileLength f) (pos_nPos pos)) as [|Hlt]; [by left|]. right.
      destruct (Z.ltb_spec (fileLength f)
                  (pos_nPos pos + declared + match blockHash with Some _ => 32 | None => 0 end));
        [by left|]. right.
      rewrite Hin in He by lia.
      destruct (Z.ltb_spec (fileLength f)
                  (pos_nPos pos + declared + match blockHash with Some _ => 32 | None => 0 end));
        [lia|].
      destruct blockHash as [h|]; [|done].
      case_bool_decide; [|done]. eauto.
    + intros [Hc|[Hc|[Hc|Hc]]].
      * eauto.
      * destruct (Z.ltb_spec (pos_nPos pos) 4); eauto.
      * destruct (Z.ltb_spec (pos_nPos pos) 4); [eauto|].
        destruct (Z.leb_spec (fileLength f) (pos_nPos pos)); eauto.
      * destruct (Z.ltb_spec (pos_nPos pos) 4); [eauto|].
        destruct (Z.leb_spec (fileLength f) (pos_nPos pos)); [eauto|].
        destruct (Z.ltb_spec (fileLength f)
                  (pos_nPos pos + declared + match blockHash with Some _ => 32 | None => 0 end));
          eauto.
  - assert (Hstop : cleanupStops s type (pos_nFile pos) = false).
    { unfold cleanupStops, dropped. rewrite Hf. by repeat case_match. }
    destruct (mapFile_returns s (pos_nFile pos) type Hfile Hstop) as (s1 & buf & Hmap).
    destruct (mapFile_consistent s s1 (pos_nFile pos) type buf Hslot Hmap) as (Hdisk & Hbuf).
    rewrite Hf in Hbuf. subst buf. split.
    + unfold loadBlock. destruct (pos_nPos pos <? 4); [done|]. by rewrite Hmap.
    + intros ->. unfold loadBlockFile. rewrite Hmap. eauto.
Qed.

(** C6, counterexample to the claim as stated: the read of a block in a
    missing file is answered with an error, not with an empty view. *)
Lemma loadBlock_missing_file_is_an_error :
  blockFile emptyStore ForwardBlock 0 = None
  ∧ loadBlock plainEnv emptyStore (mkPos 0 8) ForwardBlock None = Err FailedToMemmap
  ∧ ¬ (∃ s v, loadBlock plainEnv emptyStore (mkPos 0 8) ForwardBlock None = Ok (s, v)).
Proof.
  split; [reflexivity|]. split; [reflexivity|].
  intros (s & v & H). vm_compute in H. discriminate H.
Qed.

Lemma loadBlock_fails_exactly_when_witness :
  loadBlock_outcome plainEnv (storeWithBlk0 oneFrameFile) (mkPos 0 8) ForwardBlock None.
Proof.
  apply loadBlock_fails_exactly_when.
  - simpl. lia.
  - intros df Hdf. vm_compute in Hdf. discriminate Hdf.
  - intros [h Hh]. discriminate Hh.
Defined.

(** ** Writing a block *)

Lemma disk_set_same (d : Disk) (p : Path) (f : DiskFile) : disk_set d p f p = Some f.
Proof. unfold disk_set. by rewrite decide_True. Qed.

Lemma disk_set_other (d : Disk) (p q : Path) (f : DiskFile) :
  q ≠ p → disk_set d p f q = d q.
Proof. intros. unfold disk_set. by rewrite decide_False. Qed.

Lemma fileExists_disk_set (d : Disk) (p q : Path) (f : DiskFile) :
  fileExists d p = true → fileExists (disk_set d p f) q = fileExists d q.
Proof.
  unfold fileExists, disk_set. intros Hp.
  destruct (decide (q = p)) as [->|]; [|done].
  by destruct (d p).
Qed.

Lemma getFilepathForIndex_ext (d d' : Disk) (dirs : list string) (fileIndex : Z)
  (prefix : BlockType) (harder : bool) :
  (∀ q, fileExists d' q = fileExists d q) →
  getFilepathForIndex d' dirs fileIndex prefix harder
  = getFilepathForIndex d dirs fileIndex prefix harder.
Proof.
  intros Hext. unfold getFilepathForIndex. rewrite Hext.
  destruct (harder && _); [|done].
  erewrite list_find_ext; [done|].
  intros dir. simpl. by rewrite Hext.
Qed.

(** The path of a file that exists at the place where [writeBlock] creates
    or resizes it is the path [mapFile] opens. *)
Lemma getFilepathForIndex_found (d : Disk) (dirs : list string) (fileIndex : Z)
  (prefix : BlockType) (harder : bool) :
  fileExists d (getFilepathForIndex d dirs fileIndex prefix harder) = true →
  getFilepathForIndex d dirs fileIndex prefix true
  = getFilepathForIndex d dirs fileIndex prefix harder.
Proof.
  destruct harder; [done|]. unfold getFilepathForIndex. simpl. by intros ->.
Qed.

Lemma elem_of_resize_inv {T} (n : nat) (x y : T) (l : list T) :
  y ∈ resize n x l → y ∈ l ∨ y = x.
Proof.
  rewrite resize_spec, elem_of_app. intros [Hy|Hy].
  - left. rewrite <- (take_drop n l). apply elem_of_app. by left.
  - right. by apply elem_of_replicate in Hy as [-> _].
Qed.

Lemma selectFile_asserts (s s1 : FileStore) (v : list CBlockFileInfo)
  (last nFile0 nFile : Z) (nf newFile : bool) :
  (if negb (nFile0 <=? last) then Err AssertionFailure
   else if negb (nFile0 <? Z.of_nat (length v)) then Err AssertionFailure
        else Ok (set_vinfo v last s, nf, nFile0)) = Ok (s1, newFile, nFile) →
  s1 = set_vinfo v last s ∧ newFile = nf ∧ nFile = nFile0
  ∧ nFile0 ≤ last ∧ nFile0 < Z.of_nat (length v).
Proof.
  destruct (Z.leb_spec nFile0 last); [|done]. simpl.
  destruct (Z.ltb_spec nFile0 (Z.of_nat (length v))); [|done]. simpl.
  by intros [= <- <- <-].
Qed.

Lemma selectFile_inv (s s1 : FileStore) (blockSize posFile nFile : Z)
  (type : BlockType) (newFile : bool) :
  selectFile s blockSize type posFile = Ok (s1, newFile, nFile) →
  ∃ v last,
    s1 = set_vinfo v last s
    ∧ nFile ≤ last ∧ nFile < Z.of_nat (length v)
    ∧ (type = ForwardBlock → nFile = last)
    ∧ (type = RevertBlock → nFile = posFile)
    ∧ (v = vinfoBlockFile s ∨ ∃ n, v = resize n newFileInfo (vinfoBlockFile s))
    ∧ (∀ info, info ∈ v → info ∈ vinfoBlockFile s ∨ info = newFileInfo).
Proof.
  unfold selectFile. intros H.
  assert (Hold : ∀ info, info ∈ vinfoBlockFile s → info ∈ vinfoBlockFile s ∨ info = newFileInfo)
    by (by left).
  pose proof (λ n info, elem_of_resize_inv n newFileInfo info (vinfoBlockFile s)) as Hnew.
  destruct (Z.of_nat (length (vinfoBlockFile s)) <=? nLastBlockFile s).
  { destruct type; simpl in H; apply selectFile_asserts in H as (-> & _ & -> & ? & ?);
      eexists _, _; repeat (split; [done|]); eauto. }
  destruct type; simpl in H.
  - destruct (fileInfoAt (vinfoBlockFile s) (nLastBlockFile s)) as [info|]; [|done].
    simpl in H.
    destruct (MAX_BLOCKFILE_SIZE <? u32 (nSize info + blockSize + 8)); simpl in H;
      apply selectFile_asserts in H as (-> & _ & -> & ? & ?);
      eexists _, _; repeat (split; [done|]); eauto.
  - destruct (nLastBlockFile s <? posFile); simpl in H;
      apply selectFile_asserts in H as (-> & _ & -> & ? & ?);
      eexists _, _; repeat (split; [done|]); eauto.
Qed.

Lemma growFile_unfold (env : Env) (fuel : nat) (s : FileStore) (nFile : Z)
  (type : BlockType) (need : Z) (df : DataFile) :
  growFile env fuel s nFile type need df =
  if df_filesize df <=? need then
    match fuel with
    | O => Err OutOfFuel
    | S fuel' =>
        s1 ← fileHasGrown s type nFile;
        d ← resize_file (disk s1)
               (getFilepathForIndex (disk s) (blocksDataDirs s) nFile type
                  (fFindHarderDefault env))
               (df_filesize df + chunkSize type);
        '(s2, buf) ← mapFile (set_disk d s1) nFile type;
        match buf with
        | None => Err FailedToOpenResizedFile
        | Some df' =>
            if df_writable df' then growFile env fuel' s2 nFile type need df'
            else Err ResizedFileNotWritable
        end
    end
  else Ok (s, df).
Proof. by destruct fuel. Qed.

Lemma resize_file_exists (d d' : Disk) (path : Path) (n : Z) :
  resize_file d path n = Ok d' → ∀ q, fileExists d' q = fileExists d q.
Proof.
  unfold resize_file. destruct (d path) as [f|] eqn:Hf; [|done].
  destruct (f_readonly f); [done|]. intros [= <-] q.
  apply fileExists_disk_set. unfold fileExists. by rewrite Hf.
Qed.

Lemma growFile_inv (env : Env) (fuel : nat) (nFile : Z) (type : BlockType) (need : Z) :
  ∀ (s s4 : FileStore) (df df4 : DataFile),
  growFile env fuel s nFile type need df = Ok (s4, df4) →
  slots s type !! Z.to_nat nFile = Some (Some df) →
  slots s4 type !! Z.to_nat nFile = Some (Some df4)
  ∧ need < df_filesize df4
  ∧ vinfoBlockFile s4 = vinfoBlockFile s
  ∧ nLastBlockFile s4 = nLastBlockFile s
  ∧ setDirtyFileInfo s4 = setDirtyFileInfo s
  ∧ ∀ q, fileExists (disk s4) q = fileExists (disk s) q.
Proof.
  induction fuel as [|fuel IH]; intros s s4 df df4; rewrite growFile_unfold;
    destruct (Z.leb_spec (df_filesize df) need); try done;
    try (by intros [= <- <-]).
  unfold fileHasGrown.
  destruct ((0 <=? nFile) && (nFile <? Z.of_nat (length (slots s type)))); [|done].
  simpl. destruct (resize_file _ _ _) as [d|] eqn:Hresize; [|done]. simpl.
  destruct (mapFile _ nFile type) as [[s2 [df'|]]|] eqn:Hmap; [|done|done]. simpl.
  destruct (df_writable df'); [|done].
  intros Hgrow _. apply mapFile_inv in Hmap as (_ & Hslot & Hdisk & _ & Hv & Hl & Hd).
  apply IH in Hgrow as (? & ? & Hv4 & Hl4 & Hd4 & Hex4); [|done].
  rewrite Hv4, Hl4, Hd4, Hv, Hl, Hd.
  repeat (split; [by destruct type|]).
  intros q. rewrite Hex4, Hdisk. simpl.
  rewrite (resize_file_exists _ _ _ _ Hresize). by destruct type.
Qed.

Lemma poke_inv (d d' : Disk) (df : DataFile) (off : Z) (data : list byte) :
  poke d df off data = Ok d' →
  ∃ f, d (df_path df) = Some f
    ∧ 0 ≤ off
    ∧ off + Z.of_nat (length data) ≤ df_filesize df
    ∧ off + Z.of_nat (length data) ≤ fileLength f
    ∧ d' = disk_set d (df_path df) (mkDiskFile (splice off data (f_bytes f)) (f_readonly f)).
Proof.
  unfold poke. destruct (d (df_path df)) as [f|]; [|done].
  destruct (Z.leb_spec 0 off); [|done].
  destruct (Z.leb_spec (off + Z.of_nat (length data)) (df_filesize df)); [|done].
  destruct (Z.leb_spec (off + Z.of_nat (length data)) (fileLength f)); [|done].
  simpl. intros [= <-]. by exists f.
Qed.

#[local] Arguments growFile : simpl never.
#[local] Opaque uint256_bytes.

Lemma fileInfoAt_inv (v : list CBlockFileInfo) (i : Z) (info : CBlockFileInfo) :
  fileInfoAt v i = Ok info → 0 ≤ i ∧ v !! Z.to_nat i = Some info.
Proof.
  unfold fileInfoAt. destruct (Z.ltb_spec i 0); [done|].
  destruct (v !! Z.to_nat i); [|done]. by intros [= ->].
Qed.

Lemma writeBlock_inv (env : Env) (s s' : FileStore) (block : list byte)
  (pos0 pos : CDiskBlockPos) (type : BlockType) (blockHash : option uint256)
  (view : ConstBuffer) :
  sizesFit s (Z.of_nat (length block)) →
  writeBlock env s block pos0 type blockHash = Ok (s', pos, view) →
  ∃ s1 newFile info df f info',
    selectFile s (Z.of_nat (length block)) type (pos_nFile pos0)
      = Ok (s1, newFile, pos_nFile pos)
    ∧ fileInfoAt (vinfoBlockFile s1) (pos_nFile pos) = Ok info
    ∧ 0 ≤ usedSize type info
    ∧ usedSize type info + Z.of_nat (length block) + 40 < 2 ^ 32
    ∧ pos_nPos pos = usedSize type info + 8
    ∧ view = mkConstBuffer (Some df) (usedSize type info + 8)
               (usedSize type info + 8 + Z.of_nat (length block))
    ∧ slots s' type !! Z.to_nat (pos_nFile pos) = Some (Some df)
    ∧ disk s' (df_path df) = Some f
    ∧ usedSize type info + 8 + Z.of_nat (length block) + checksumLength type < df_filesize df
    ∧ usedSize type info + 8 + Z.of_nat (length block) + checksumLength type ≤ fileLength f
    ∧ slice (usedSize type info) 4 (f_bytes f) = MessageStart env
    ∧ slice (usedSize type info + 4) 4 (f_bytes f) = htole32 (Z.of_nat (length block))
    ∧ slice (usedSize type info + 8) (Z.of_nat (length block)) (f_bytes f) = block
    ∧ slice (usedSize type info + 8 + Z.of_nat (length block)) (checksumLength type) (f_bytes f)
      = checksumBytes env type blockHash block
    ∧ (type = RevertBlock → is_Some blockHash)
    ∧ vinfoBlockFile s' !! Z.to_nat (pos_nFile pos) = Some info'
    ∧ usedSize type info'
      = usedSize type info + 8 + Z.of_nat (length block) + checksumLength type
    ∧ nLastBlockFile s' = nLastBlockFile s1
    ∧ ∃ d2,
        (if newFile || negb (bool_decide (type = ForwardBlock)) && (nUndoSize info =? 0)
         then createFile (disk s1)
                (getFilepathForIndex (disk s1) (blocksDataDirs s1) (pos_nFile pos) type
                   (fFindHarderDefault env))
                (Z.max (Z.of_nat (length block) + 8) (chunkSize type))
         else Ok (disk s1)) = Ok d2
        ∧ ∀ q, fileExists (disk s') q = fileExists d2 q.
Proof.
  intros Hfit H. unfold writeBlock, storeBlock in H.
  destruct (Z.ltb_spec (Z.of_nat (length block)) (MAX_BLOCKFILE_SIZE - 8)) as [Hsize|];
    [|done]. simpl in H.
  destruct (selectFile s _ type (pos_nFile pos0)) as [[[s1 newFile] nFile]|] eqn:Hsel;
    [|done]. simpl in H.
  destruct (fileInfoAt (vinfoBlockFile s1) nFile) as [info|] eqn:Hinfo; [|done].
  simpl in H.
  assert (Hp : (if bool_decide (type = ForwardBlock) then nSize info else nUndoSize info)
               = usedSize type info) by (by destruct type).
  assert (Hc : (if bool_decide (type = ForwardBlock) then 0 else 32) = checksumLength type)
    by (by destruct type).
  rewrite !Hp, ?Hc in H. clear Hp Hc.
  set (p := usedSize type info) in *.
  set (bs := Z.of_nat (length block)) in *.
  destruct (if newFile || _ then _ else _) as [d2|] eqn:Hcreate; [|done]. simpl in H.
  destruct (mapFile (set_disk d2 s1) nFile type) as [[s3 [df|]]|] eqn:Hmap; [|done|done].
  simpl in H. destruct (df_writable df); [|done]. simpl in H.
  destruct (growFile env growFuel s3 nFile type _ df) as [[s4 df4]|] eqn:Hgrow; [|done].
  simpl in H.
  apply mapFile_inv in Hmap as (Hfile & Hslot3 & Hdisk3 & _ & Hv3 & Hl3 & _).
  apply growFile_inv in Hgrow as (Hslot4 & Hneed & Hv4 & Hl4 & _ & Hex4); [|done].
  simpl in Hdisk3. rewrite Hdisk3 in Hex4.
  (* the counters of the chosen file do not wrap *)
  apply fileInfoAt_inv in Hinfo as Hlook. destruct Hlook as [_ Hlook].
  apply selectFile_inv in Hsel as Hsel'.
  destruct Hsel' as (v & last & -> & _ & _ & _ & _ & _ & Hv).
  simpl in Hlook, Hv3, Hl3.
  assert (Hb : 0 ≤ nSize info ∧ 0 ≤ nUndoSize info
               ∧ nSize info + bs + 40 < 2 ^ 32 ∧ nUndoSize info + bs + 40 < 2 ^ 32).
  { destruct (Hv info) as [Hin| ->]; [by eapply list_elem_of_lookup_2| |].
    - unfold sizesFit in Hfit. rewrite Forall_forall in Hfit. by apply Hfit.
    - simpl. unfold MAX_BLOCKFILE_SIZE in Hsize. change (2 ^ 32) with 4294967296. lia. }
  assert (Hp0 : 0 ≤ p ∧ p + bs + 40 < 2 ^ 32) by (subst p; destruct type; simpl; lia).
  assert (Hcl : 0 ≤ checksumLength type ≤ 32) by (destruct type; simpl; lia).
  assert (Hbs : 0 ≤ bs) by (subst bs; lia).
  rewrite u32_small in Hneed by lia.
  (* the three copies *)
  destruct (poke (disk s4) df4 p (MessageStart env)) as [d5|] eqn:Hpoke5; [|done].
  simpl in H.
  destruct (poke d5 df4 (p + 4) (htole32 bs)) as [d6|] eqn:Hpoke6; [|done]. simpl in H.
  destruct (poke d6 df4 (p + 4 + 4) block) as [d7|] eqn:Hpoke7; [|done]. simpl in H.
  apply poke_inv in Hpoke5 as (f4 & Hf4 & _ & _ & Hin5 & ->).
  apply poke_inv in Hpoke6 as (f5 & Hf5 & _ & _ & Hin6 & ->).
  apply poke_inv in Hpoke7 as (f6 & Hf6 & _ & _ & Hin7 & ->).
  rewrite disk_set_same in Hf5. injection Hf5 as <-.
  rewrite disk_set_same in Hf6. injection Hf6 as <-.
  unfold fileLength in Hin5, Hin6, Hin7. simpl in Hin6, Hin7, H.
  rewrite length_MessageStart in Hin5.
  rewrite ?length_htole32 in Hin6.
  rewrite length_splice in Hin6 by (rewrite ?length_MessageStart; lia).
  rewrite !length_splice in Hin7
    by (rewrite ?length_splice; rewrite ?length_MessageStart, ?length_htole32; lia).
  set (b5 := splice p (MessageStart env) (f_bytes f4)) in *.
  set (b6 := splice (p + 4) (htole32 bs) b5) in *.
  set (b7 := splice (p + 4 + 4) block b6) in *.
  assert (Hlen5 : length b5 = length (f_bytes f4))
    by (apply length_splice; rewrite ?length_MessageStart; lia).
  assert (Hlen6 : length b6 = length (f_bytes f4))
    by (subst b6; rewrite length_splice; rewrite ?length_htole32; lia).
  assert (Hlen7 : length b7 = length (f_bytes f4))
    by (subst b7; rewrite length_splice; fold bs; lia).
  assert (Hmagic : slice p 4 b7 = MessageStart env).
  { subst b7 b6. rewrite slice_splice_before by (fold bs; lia).
    rewrite slice_splice_before by (rewrite ?length_htole32; lia).
    subst b5. apply slice_splice_at; rewrite ?length_MessageStart; lia. }
  assert (Hsize7 : slice (p + 4) 4 b7 = htole32 bs).
  { subst b7 b6. rewrite slice_splice_before by (fold bs; lia).
    apply slice_splice_at; rewrite ?length_htole32; lia. }
  assert (Hblock7 : slice (p + 8) bs b7 = block).
  { subst b7. replace (p + 8) with (p + 4 + 4) by lia.
    apply slice_splice_at; fold bs; lia. }
  assert (Hnth : (Z.to_nat nFile < length v)%nat) by (by eapply lookup_lt_Some).
  clearbody b7. clearbody b6. clearbody b5.
  destruct type; simpl in H.
  - injection H as <- <- <-. subst p. simpl in *.
    eexists _, newFile, info, df4, _, _.
    split; [reflexivity|]. split; [exact Hinfo|].
    split; [lia|]. split; [lia|]. split; [apply u32_small; lia|].
    split; [f_equal; lia|].
    split; [exact Hslot4|].
    split; [apply disk_set_same|]. simpl.
    split; [lia|]. split; [unfold fileLength; simpl; lia|].
    split; [exact Hmagic|]. split; [exact Hsize7|]. split; [exact Hblock7|].
    split; [reflexivity|]. split; [done|].
    rewrite Hv4, Hv3, Hl4, Hl3.
    split; [by apply list_lookup_insert_eq|].
    split; [simpl; rewrite u32_small; lia|]. split; [done|].
    exists d2. split; [done|]. intros q. rewrite <- Hex4.
    unfold fileExists, disk_set.
    destruct (decide (q = df_path df4)) as [->|]; [by rewrite Hf4|done].
  - destruct blockHash as [h|]; [|done]. simpl in H.
    destruct (poke _ df4 (p + 4 + 4 + bs) _) as [d8|] eqn:Hpoke8; [|done]. simpl in H.
    apply poke_inv in Hpoke8 as (f7 & Hf7 & _ & _ & Hin8 & ->).
    rewrite disk_set_same in Hf7. injection Hf7 as <-.
    unfold fileLength in Hin8. simpl in Hin8.
    rewrite ?length_uint256_bytes in Hin8. rewrite Hlen7 in Hin8.
    injection H as <- <- <-. subst p. simpl in *.
    eexists _, newFile, info, df4, _, _.
    split; [reflexivity|]. split; [exact Hinfo|].
    split; [lia|]. split; [lia|]. split; [apply u32_small; lia|].
    split; [f_equal; lia|].
    split; [exact Hslot4|].
    split; [apply disk_set_same|]. simpl.
    split; [lia|].
    split; [unfold fileLength; simpl; rewrite length_splice;
            rewrite ?length_uint256_bytes; lia|].
    split; [rewrite slice_splice_before by (rewrite ?length_uint256_bytes; lia); done|].
    split; [rewrite slice_splice_before by (rewrite ?length_uint256_bytes; lia); done|].
    split; [rewrite slice_splice_before by (rewrite ?length_uint256_bytes; lia); done|].
    split.
    { replace (nUndoSize info + 8 + bs) with (nUndoSize info + 4 + 4 + bs) by lia.
      apply slice_splice_at; rewrite ?length_uint256_bytes; lia. }
    split; [eauto|].
    rewrite Hv4, Hv3, Hl4, Hl3.
    split; [by apply list_lookup_insert_eq|].
    split; [simpl; rewrite !u32_small; rewrite ?u32_small; lia|]. split; [done|].
    exists d2. split; [done|]. intros q. rewrite <- Hex4.
    unfold fileExists, disk_set.
    destruct (decide (q = df_path df4)) as [->|]; [by rewrite Hf4|done].
Qed.

(** C3.  A block that was written is read back byte for byte at the
    position the write returned, and so is an undo block when it is read
    with the hash of its block: the checksum [SHA256d(blockHash || payload)]
    stands behind the payload and the read accepts it.  The view returned
    by the write shows the same bytes. *)
Theorem loadBlock_after_writeBlock (env : Env) (s s' : FileStore) (block : list byte)
  (pos0 pos : CDiskBlockPos) (type : BlockType) (blockHash : option uint256)
  (view : ConstBuffer) :
  sizesFit s (Z.of_nat (length block)) →
  writeBlock env s block pos0 type blockHash = Ok (s', pos, view) →
  let readHash := match type with ForwardBlock => None | RevertBlock => blockHash end in
  ∃ s'' v f,
    loadBlock env s' pos type readHash = Ok (s'', v)
    ∧ viewBytes (disk s'') v = Some block
    ∧ viewBytes (disk s') view = Some block
    ∧ (df ← cb_buffer v; disk s' (df_path df)) = Some f
    ∧ slice (pos_nPos pos + Z.of_nat (length block)) (checksumLength type) (f_bytes f)
      = checksumBytes env type blockHash block.
Proof.
  intros Hfit Hwrite readHash.
  destruct (writeBlock_inv env s s' block pos0 pos type blockHash view Hfit Hwrite)
    as (s1 & newFile & info & df & f & info' & _ & Hinfo & Hp & Hfits & Hpos & -> & Hslot & Hf
        & Hmap & Hend & Hmagic & Hlen & Hblock & Hsum & Hhash & _).
  apply fileInfoAt_inv in Hinfo as [Hfile _].
  set (p := usedSize type info) in *. set (bs := Z.of_nat (length block)) in *.
  assert (Hbs : 0 ≤ bs < 2 ^ 32).
  { subst bs. split; [lia|]. unfold writeBlock in Hwrite.
    destruct (Z.ltb_spec (Z.of_nat (length block)) (MAX_BLOCKFILE_SIZE - 8)); [|done].
    unfold MAX_BLOCKFILE_SIZE in *. change (2 ^ 32) with 4294967296. lia. }
  clear Hwrite Hfit.
  assert (Hcl : 0 ≤ checksumLength type ≤ 32) by (destruct type; simpl; lia).
  assert (Hview : viewBytes (disk s') (mkConstBuffer (Some df) (p + 8) (p + 8 + bs))
                  = Some block).
  { unfold viewBytes. simpl. rewrite Hf. simpl.
    destruct (Z.leb_spec 0 (p + 8)); [|lia].
    destruct (Z.leb_spec (p + 8) (p + 8 + bs)); [|lia].
    destruct (Z.leb_spec (p + 8 + bs) (fileLength f)); [|lia].
    simpl. f_equal. rewrite <- Hblock. f_equal. lia. }
  assert (Hread : loadBlock env s' pos type readHash
                  = Ok (s', mkConstBuffer (Some df) (p + 8) (p + 8 + bs))).
  { unfold loadBlock. rewrite Hpos.
    destruct (Z.ltb_spec (p + 8) 4); [lia|].
    rewrite (mapFile_live s' (pos_nFile pos) type df Hfile Hslot). simpl.
    destruct (Z.leb_spec (df_filesize df) (p + 8)); [lia|].
    rewrite (peek_ok _ _ f) by (done || lia). simpl.
    replace (p + 8 - 4) with (p + 4) by lia.
    rewrite Hlen, le32toh_htole32 by done.
    assert (Hc : match readHash with Some _ => 32 | None => 0 end = checksumLength type).
    { subst readHash. destruct type; [done|]. by destruct (Hhash eq_refl) as [h ->]. }
    rewrite Hc, u32_small by lia.
    destruct (Z.ltb_spec (df_filesize df) (p + 8 + bs + checksumLength type)); [lia|].
    subst readHash. destruct type; [done|].
    destruct (Hhash eq_refl) as [h ->]. simpl in Hsum, Hmap, Hend, Hcl |- *.
    rewrite (peek_ok _ _ f) by (done || lia). simpl.
    rewrite (peek_ok _ _ f) by (done || lia). simpl.
    rewrite Hblock, Hsum. by rewrite bool_decide_false by (by intros []). }
  exists s', (mkConstBuffer (Some df) (p + 8) (p + 8 + bs)), f.
  split; [exact Hread|]. split; [exact Hview|]. split; [exact Hview|].
  split; [exact Hf|]. rewrite Hpos. exact Hsum.
Qed.

(** ** Writing succeeds when the file can be written *)

Lemma poke_ok (d : Disk) (df : DataFile) (f : DiskFile) (off : Z) (data : list byte) :
  d (df_path df) = Some f →
  0 ≤ off →
  off + Z.of_nat (length data) ≤ df_filesize df →
  off + Z.of_nat (length data) ≤ fileLength f →
  poke d df off data
  = Ok (disk_set d (df_path df) (mkDiskFile (splice off data (f_bytes f)) (f_readonly f))).
Proof.
  intros Hf Hoff Hmap Hend. unfold poke. rewrite Hf.
  destruct (Z.leb_spec 0 off); [|lia].
  destruct (Z.leb_spec (off + Z.of_nat (length data)) (df_filesize df)); [|lia].
  destruct (Z.leb_spec (off + Z.of_nat (length data)) (fileLength f)); [|lia]. done.
Qed.

Lemma getFilepathForIndex_missing (d : Disk) (dirs : list string) (fileIndex : Z)
  (prefix : BlockType) (harder : bool) :
  fileExists d (getFilepathForIndex d dirs fileIndex prefix harder) = false →
  getFilepathForIndex d dirs fileIndex prefix harder = mkPath DataDir prefix fileIndex.
Proof.
  unfold getFilepathForIndex.
  destruct (harder && negb (fileExists d (mkPath DataDir prefix fileIndex))); [|done].
  destruct (list_find _ dirs) as [[i dir]|] eqn:Hfind; [|done].
  apply list_find_Some in Hfind as (_ & Hdir & _). by rewrite Hdir.
Qed.

Lemma getFilepathForIndex_primary (d : Disk) (dirs : list string) (fileIndex : Z)
  (prefix : BlockType) (harder : bool) :
  fileExists d (mkPath DataDir prefix fileIndex) = true →
  getFilepathForIndex d dirs fileIndex prefix harder = mkPath DataDir prefix fileIndex.
Proof.
  unfold getFilepathForIndex. intros ->. by rewrite andb_false_r.
Qed.

(** Once a file stands at the path where [writeBlock] creates or resizes
    it, that path is the one every later lookup of the file yields. *)
Lemma getFilepathForIndex_stable (d : Disk) (dirs : list string) (fileIndex : Z)
  (prefix : BlockType) (harder harder' : bool) (f : DiskFile) :
  harder' = true ∨ harder' = harder →
  let path := getFilepathForIndex d dirs fileIndex prefix harder in
  getFilepathForIndex (disk_set d path f) dirs fileIndex prefix harder' = path.
Proof.
  intros Hh path.
  destruct (fileExists d path) eqn:Hex.
  - rewrite (getFilepathForIndex_ext d) by (intros q; by apply fileExists_disk_set).
    destruct Hh as [-> | ->]; [|done]. by apply getFilepathForIndex_found.
  - apply getFilepathForIndex_missing in Hex. subst path. rewrite Hex.
    apply getFilepathForIndex_primary. unfold fileExists. by rewrite disk_set_same.
Qed.

Lemma disk_set_slots (s : FileStore) (type : BlockType) (l : list (option DataFile)) :
  disk (set_slots type l s) = disk s
  ∧ blocksDataDirs (set_slots type l s) = blocksDataDirs s
  ∧ nLastBlockFile (set_slots type l s) = nLastBlockFile s.
Proof. by destruct type. Qed.

Lemma historyInRange_mono (s s' : FileStore) :
  fileHistory s' = fileHistory s →
  (∀ t, (length (slots s t) ≤ length (slots s' t))%nat) →
  historyInRange s → historyInRange s'.
Proof.
  intros Hh Hlen Hinv x Hx. rewrite Hh in Hx. apply Hinv in Hx.
  specialize (Hlen (p_prefix (df_path x))). lia.
Qed.

Lemma mapFile_open (s : FileStore) (fileIndex : Z) (type : BlockType) (f : DiskFile) :
  0 ≤ fileIndex →
  (slots s type !! Z.to_nat fileIndex = Some None
   ∨ Z.of_nat (length (slots s type)) ≤ fileIndex) →
  disk s (resolved s type fileIndex) = Some f →
  cleanupStops s type fileIndex = false →
  ∃ s1, mapFile s fileIndex type = Ok (s1, Some (freshMapping s type fileIndex f)).
Proof.
  intros Hidx Hslot Hf Hstop.
  destruct (mapFile_returns s fileIndex type Hidx Hstop) as (s1 & buf & Hrun).
  exists s1. rewrite Hrun.
  apply mapFile_effect in Hrun as (_ & _ & _ & _ & _ & _ & _ & _ & _ & _ & _ & Hcase).
  unfold blockFile in Hcase. rewrite Hf in Hcase.
  destruct Hslot as [Hslot|Hslot].
  - rewrite Hslot in Hcase. by destruct Hcase as [-> _].
  - rewrite (proj2 (lookup_ge_None _ _)) in Hcase by lia. by destruct Hcase as [-> _].
Qed.

Lemma growFile_ok (env : Env) (nFile : Z) (type : BlockType) (need : Z) (fuel : nat) :
  ∀ (s : FileStore) (df : DataFile) (f : DiskFile),
  0 ≤ nFile →
  slots s type !! Z.to_nat nFile = Some (Some df) →
  df_path df = getFilepathForIndex (disk s) (blocksDataDirs s) nFile type
                 (fFindHarderDefault env) →
  disk s (df_path df) = Some f →
  f_readonly f = false →
  df_filesize df = fileLength f →
  type = RevertBlock ∨ nFile = nLastBlockFile s →
  need < df_filesize df + Z.of_nat fuel * chunkSize type →
  historyInRange s →
  ∃ s4 df4 f4,
    growFile env fuel s nFile type need df = Ok (s4, df4)
    ∧ disk s4 (df_path df4) = Some f4
    ∧ df_filesize df4 = fileLength f4.
Proof.
  induction fuel as [|fuel IH]; intros s df f Hidx Hslot Hpath Hf Hro Hsize Hrw Hfuel Hhist;
    rewrite growFile_unfold;
    destruct (Z.leb_spec (df_filesize df) need) as [Hgrow|];
    try (by eexists _, _, _; split; [reflexivity|]).
  { exfalso. simpl in Hfuel. lia. }
  apply lookup_lt_Some in Hslot as Hlt.
  unfold fileHasGrown.
  destruct (Z.leb_spec 0 nFile); [|lia].
  destruct (Z.ltb_spec nFile (Z.of_nat (length (slots s type)))); [|lia]. simpl.
  set (s1 := set_slots type (<[Z.to_nat nFile:=None]> (slots s type)) s).
  destruct (disk_set_slots s type (<[Z.to_nat nFile:=None]> (slots s type)))
    as (Hd1 & Hdirs1 & Hlast1). fold s1 in Hd1, Hdirs1, Hlast1.
  unfold resize_file. rewrite Hd1, <- Hpath, Hf, Hro. simpl.
  set (f' := mkDiskFile
               (resize (Z.to_nat (df_filesize df + chunkSize type)) x00 (f_bytes f)) false).
  set (s2 := set_disk (disk_set (disk s) (df_path df) f') s1).
  assert (Hchunk : 0 < chunkSize type) by (by destruct type).
  assert (Hlen' : fileLength f' = df_filesize df + chunkSize type).
  { unfold fileLength, f'. simpl. rewrite length_resize. unfold fileLength in Hsize. lia. }
  assert (Hres : resolved s2 type nFile = df_path df).
  { unfold resolved, s2. simpl. rewrite Hdirs1, Hpath.
    apply getFilepathForIndex_stable. by left. }
  assert (Hhist2 : historyInRange s2).
  { apply (historyInRange_mono s); [by destruct type| |done].
    intros t. unfold s2, s1. destruct type, t; simpl; by rewrite ?length_insert. }
  destruct (mapFile_open s2 nFile type f') as [s3 Hmap];
    [done| |by rewrite Hres; apply disk_set_same|by apply historyInRange_cleanupStops|].
  { left. unfold s2, s1. destruct type; simpl; by rewrite list_lookup_insert_eq. }
  assert (Hw : negb (bool_decide (type = ForwardBlock) && negb (nFile =? nLastBlockFile s1))
               && true = true).
  { rewrite Hlast1. destruct Hrw as [-> | ->]; [done|].
    by rewrite Z.eqb_refl, andb_false_r. }
  rewrite Hmap. simpl. rewrite Hw.
  apply mapFile_history in Hmap as Hhist3. destruct Hhist3 as [Hhist3 _].
  apply mapFile_inv in Hmap as (_ & Hslot3 & Hd3 & Hdirs3 & _ & Hlast3 & _).
  apply (IH s3 _ f'); simpl; try done.
  - rewrite Hres, Hd3, Hdirs3. unfold s2. simpl. rewrite Hdirs1, Hpath. symmetry.
    apply getFilepathForIndex_stable. by right.
  - rewrite Hres, Hd3. unfold s2. simpl. apply disk_set_same.
  - rewrite Hlast3. unfold s2. simpl. by rewrite Hlast1.
  - lia.
  - by apply Hhist3.
Qed.

(** Bounds of copies into a buffer that earlier copies went to. *)
Ltac length_goal :=
  unfold fileLength in *; simpl;
  repeat first
    [ rewrite length_MessageStart | rewrite length_htole32
    | rewrite length_uint256_bytes | rewrite length_splice by length_goal ];
  simpl in *; lia.

Lemma storeBlock_ok (env : Env) (s3 : FileStore) (nFile : Z) (type : BlockType)
  (info : CBlockFileInfo) (df : DataFile) (f : DiskFile) (block : list byte)
  (blockHash : option uint256) :
  0 ≤ nFile →
  slots s3 type !! Z.to_nat nFile = Some (Some df) →
  df_path df = getFilepathForIndex (disk s3) (blocksDataDirs s3) nFile type
                 (fFindHarderDefault env) →
  disk s3 (df_path df) = Some f →
  f_readonly f = false →
  df_filesize df = fileLength f →
  type = RevertBlock ∨ nFile = nLastBlockFile s3 →
  0 ≤ usedSize type info →
  usedSize type info + Z.of_nat (length block) + 40 < 2 ^ 32 →
  (type = RevertBlock → is_Some blockHash) →
  historyInRange s3 →
  ∃ s' view,
    storeBlock env s3 nFile type info df block blockHash
    = Ok (s', mkPos nFile (usedSize type info + 8), view).
Proof.
  intros Hidx Hslot Hpath Hf Hro Hsize Hrw Hp Hfit Hhash Hhist. unfold storeBlock.
  assert (Hpe : (if bool_decide (type = ForwardBlock) then nSize info else nUndoSize info)
               = usedSize type info) by (by destruct type).
  assert (Hce : (if bool_decide (type = ForwardBlock) then 0 else 32) = checksumLength type)
    by (by destruct type).
  rewrite !Hpe, ?Hce. clear Hpe Hce.
  set (p := usedSize type info) in *.
  set (bs := Z.of_nat (length block)) in *.
  assert (Hbs : 0 ≤ bs) by (subst bs; lia).
  assert (Hcl : 0 ≤ checksumLength type ≤ 32) by (destruct type; simpl; lia).
  rewrite (u32_small (p + bs + 8 + checksumLength type)) by lia.
  rewrite (u32_small (p + 8)) by lia.
  destruct (growFile_ok env nFile type (p + bs + 8 + checksumLength type) growFuel s3 df f)
    as (s4 & df4 & f4 & Hgrow & Hf4 & Hsize4); try done.
  { assert (0 ≤ df_filesize df) by (rewrite Hsize; unfold fileLength; lia).
    assert (1048576 ≤ chunkSize type) by (destruct type; simpl;
      unfold BLOCKFILE_CHUNK_SIZE, UNDOFILE_CHUNK_SIZE; lia).
    unfold growFuel. rewrite Z2Nat.id by lia. change (2 ^ 32) with 4294967296 in Hfit. lia. }
  rewrite Hgrow. simpl.
  apply growFile_inv in Hgrow as (_ & Hneed & _); [|done].
  rewrite (poke_ok _ _ f4) by (done || length_goal). simpl.
  erewrite poke_ok; [|apply disk_set_same|length_goal..]. simpl.
  erewrite poke_ok; [|apply disk_set_same|length_goal..]. simpl.
  destruct type; simpl.
  - eauto.
  - destruct (Hhash eq_refl) as [h ->]. simpl.
    erewrite poke_ok; [|apply disk_set_same|length_goal..]. simpl. eauto.
Qed.

Lemma selectFile_info (s s1 : FileStore) (blockSize posFile nFile : Z)
  (type : BlockType) (newFile : bool) (info : CBlockFileInfo) :
  selectFile s blockSize type posFile = Ok (s1, newFile, nFile) →
  fileInfoAt (vinfoBlockFile s1) nFile = Ok info →
  default newFileInfo (vinfoBlockFile s !! Z.to_nat nFile) = info.
Proof.
  intros Hsel Hinfo.
  apply selectFile_inv in Hsel as (v & last & -> & _ & _ & _ & _ & Hv & _).
  apply fileInfoAt_inv in Hinfo as [_ Hlook]. simpl in Hlook.
  destruct Hv as [-> | [n ->]]; [by rewrite Hlook|].
  apply lookup_lt_Some in Hlook as Hlt. rewrite length_resize in Hlt.
  destruct (decide (Z.to_nat nFile < length (vinfoBlockFile s))%nat) as [Hin|Hout].
  - rewrite lookup_resize in Hlook by done. by rewrite Hlook.
  - rewrite lookup_resize_new in Hlook by lia.
    rewrite (proj2 (lookup_ge_None _ _)) by lia. simpl. congruence.
Qed.

(** The first block written into an empty data directory. *)
Lemma writeBlock_fresh (env : Env) (block : list byte) (pos0 : CDiskBlockPos)
  (blockHash : option uint256) :
  Z.of_nat (length block) < MAX_BLOCKFILE_SIZE - 8 →
  ∃ s' view,
    writeBlock env emptyStore block pos0 ForwardBlock blockHash = Ok (s', mkPos 0 8, view).
Proof.
  intros Hsize. unfold writeBlock.
  destruct (Z.ltb_spec (Z.of_nat (length block)) (MAX_BLOCKFILE_SIZE - 8)); [|lia].
  set (bs := Z.of_nat (length block)) in *. simpl.
  set (n := Z.max (bs + 8) BLOCKFILE_CHUNK_SIZE).
  assert (Hpath : getFilepathForIndex noFiles [] 0 ForwardBlock (fFindHarderDefault env)
                  = mkPath DataDir ForwardBlock 0)
    by (by apply getFilepathForIndex_missing).
  rewrite Hpath. unfold createFile, resize_file. simpl.
  set (f := mkDiskFile (resize (Z.to_nat n) x00 []) false).
  set (d2 := disk_set _ (mkPath DataDir ForwardBlock 0) f).
  assert (Hd2 : d2 (mkPath DataDir ForwardBlock 0) = Some f) by apply disk_set_same.
  assert (Hex : fileExists d2 (mkPath DataDir ForwardBlock 0) = true)
    by (unfold fileExists; by rewrite Hd2).
  rewrite !(getFilepathForIndex_primary d2) by done.
  apply (storeBlock_ok env _ 0 ForwardBlock newFileInfo _ f); simpl; try done.
  - by rewrite getFilepathForIndex_primary.
  - by right.
  - fold bs. unfold MAX_BLOCKFILE_SIZE in Hsize. change (2 ^ 32) with 4294967296. lia.
  - intros x Hx. apply list_elem_of_singleton in Hx as ->. simpl. lia.
Qed.

(** C4.  After a successful write the returned position is the offset of
    the first byte of the payload in the written file: the four bytes of
    the network magic stand at [pos - 8], the length of the payload, in
    little-endian, at [pos - 4], and the payload at [pos].  The recorded
    size of the file was [pos - 8] and is now the offset behind the frame
    (behind the checksum for an undo block).  The first block written into
    an empty data directory is written, and gets the position (0, 8). *)
Theorem writeBlock_frame_and_position (env : Env) :
  (∀ (s s' : FileStore) (block : list byte) (pos0 pos : CDiskBlockPos)
     (type : BlockType) (blockHash : option uint256) (view : ConstBuffer),
     sizesFit s (Z.of_nat (length block)) →
     writeBlock env s block pos0 type blockHash = Ok (s', pos, view) →
     ∃ df f info',
       cb_buffer view = Some df
       ∧ cb_begin view = pos_nPos pos
       ∧ disk s' (df_path df) = Some f
       ∧ 8 ≤ pos_nPos pos
       ∧ slice (pos_nPos pos - 8) 4 (f_bytes f) = MessageStart env
       ∧ slice (pos_nPos pos - 4) 4 (f_bytes f) = htole32 (Z.of_nat (length block))
       ∧ le32toh (slice (pos_nPos pos - 4) 4 (f_bytes f)) = Z.of_nat (length block)
       ∧ slice (pos_nPos pos) (Z.of_nat (length block)) (f_bytes f) = block
       ∧ usedSize type (default newFileInfo (vinfoBlockFile s !! Z.to_nat (pos_nFile pos)))
         = pos_nPos pos - 8
       ∧ vinfoBlockFile s' !! Z.to_nat (pos_nFile pos) = Some info'
       ∧ usedSize type info'
         = pos_nPos pos + Z.of_nat (length block) + checksumLength type)
  ∧ (∀ (block : list byte) (pos0 : CDiskBlockPos) (blockHash : option uint256),
       Z.of_nat (length block) < MAX_BLOCKFILE_SIZE - 8 →
       ∃ s' view,
         writeBlock env emptyStore block pos0 ForwardBlock blockHash
         = Ok (s', mkPos 0 8, view)).
Proof.
  split; [|apply writeBlock_fresh].
  intros s s' block pos0 pos type blockHash view Hfit Hwrite.
  destruct (writeBlock_inv env s s' block pos0 pos type blockHash view Hfit Hwrite)
    as (s1 & newFile & info & df & f & info' & Hsel & Hinfo & Hp & Hfits & Hpos & -> & Hslot
        & Hf & Hmap & Hend & Hmagic & Hlen & Hblock & Hsum & Hhash & Hinfo' & Hused & _).
  pose proof (selectFile_info _ _ _ _ _ _ _ _ Hsel Hinfo) as Hold.
  exists df, f, info'. rewrite Hpos, Hold. simpl.
  replace (usedSize type info + 8 - 8) with (usedSize type info) by lia.
  replace (usedSize type info + 8 - 4) with (usedSize type info + 4) by lia.
  repeat (split; [done || lia|]).
  split; [rewrite Hlen; apply le32toh_htole32; change (2 ^ 32) with 4294967296 in *; lia|].
  split; [done|]. split; [done|]. split; [done|]. lia.
Qed.

Lemma sizesFit_blkStore : sizesFit blkStore (Z.of_nat (length somePayload)).
Proof. repeat constructor; simpl; lia. Qed.

Lemma sizesFit_undoStore : sizesFit undoStore (Z.of_nat (length someUndo)).
Proof. repeat constructor; simpl; lia. Qed.

Lemma writeBlock_frame_and_position_witness :
  (∃ s' pos view,
     writeBlock plainEnv blkStore somePayload (mkPos 0 0) ForwardBlock None
     = Ok (s', pos, view)
     ∧ ∃ df f info',
         cb_buffer view = Some df
         ∧ cb_begin view = pos_nPos pos
         ∧ disk s' (df_path df) = Some f
         ∧ 8 ≤ pos_nPos pos
         ∧ slice (pos_nPos pos - 8) 4 (f_bytes f) = MessageStart plainEnv
         ∧ slice (pos_nPos pos - 4) 4 (f_bytes f) = htole32 (Z.of_nat (length somePayload))
         ∧ le32toh (slice (pos_nPos pos - 4) 4 (f_bytes f)) = Z.of_nat (length somePayload)
         ∧ slice (pos_nPos pos) (Z.of_nat (length somePayload)) (f_bytes f) = somePayload
         ∧ usedSize ForwardBlock
             (default newFileInfo (vinfoBlockFile blkStore !! Z.to_nat (pos_nFile pos)))
           = pos_nPos pos - 8
         ∧ vinfoBlockFile s' !! Z.to_nat (pos_nFile pos) = Some info'
         ∧ usedSize ForwardBlock info'
           = pos_nPos pos + Z.of_nat (length somePayload) + checksumLength ForwardBlock)
  ∧ ∃ s' view,
      writeBlock plainEnv emptyStore somePayload (mkPos 0 0) ForwardBlock None
      = Ok (s', mkPos 0 8, view).
Proof.
  split.
  - destruct (writeBlock plainEnv blkStore somePayload (mkPos 0 0) ForwardBlock None)
      as [[[s' pos] view]|e] eqn:Hwrite; [|vm_compute in Hwrite; discriminate Hwrite].
    exists s', pos, view. split; [reflexivity|].
    exact (proj1 (writeBlock_frame_and_position plainEnv) blkStore s' somePayload
             (mkPos 0 0) pos ForwardBlock None view sizesFit_blkStore Hwrite).
  - apply (proj2 (writeBlock_frame_and_position plainEnv)). vm_compute. reflexivity.
Defined.

Lemma loadBlock_after_writeBlock_witness :
  (∃ s' pos view,
     writeBlock plainEnv blkStore somePayload (mkPos 0 0) ForwardBlock None
     = Ok (s', pos, view)
     ∧ ∃ s'' v f,
         loadBlock plainEnv s' pos ForwardBlock None = Ok (s'', v)
         ∧ viewBytes (disk s'') v = Some somePayload
         ∧ viewBytes (disk s') view = Some somePayload
         ∧ (df ← cb_buffer v; disk s' (df_path df)) = Some f
         ∧ slice (pos_nPos pos + Z.of_nat (length somePayload)) (checksumLength ForwardBlock)
             (f_bytes f)
           = checksumBytes plainEnv ForwardBlock None somePayload)
  ∧ ∃ s' pos view,
      writeBlock plainEnv undoStore someUndo (mkPos 0 0) RevertBlock (Some 5)
      = Ok (s', pos, view)
      ∧ ∃ s'' v f,
          loadBlock plainEnv s' pos RevertBlock (Some 5) = Ok (s'', v)
          ∧ viewBytes (disk s'') v = Some someUndo
          ∧ viewBytes (disk s') view = Some someUndo
          ∧ (df ← cb_buffer v; disk s' (df_path df)) = Some f
          ∧ slice (pos_nPos pos + Z.of_nat (length someUndo)) (checksumLength RevertBlock)
              (f_bytes f)
            = checksumBytes plainEnv RevertBlock (Some 5) someUndo.
Proof.
  split.
  - destruct (writeBlock plainEnv blkStore somePayload (mkPos 0 0) ForwardBlock None)
      as [[[s' pos] view]|e] eqn:Hwrite; [|vm_compute in Hwrite; discriminate Hwrite].
    exists s', pos, view. split; [reflexivity|].
    exact (loadBlock_after_writeBlock plainEnv blkStore s' somePayload (mkPos 0 0) pos
             ForwardBlock None view sizesFit_blkStore Hwrite).
  - destruct (writeBlock plainEnv undoStore someUndo (mkPos 0 0) RevertBlock (Some 5))
      as [[[s' pos] view]|e] eqn:Hwrite; [|vm_compute in Hwrite; discriminate Hwrite].
    exists s', pos, view. split; [reflexivity|].
    exact (loadBlock_after_writeBlock plainEnv undoStore s' someUndo (mkPos 0 0) pos
             RevertBlock (Some 5) view sizesFit_undoStore Hwrite).
Defined.

(** ** Reconsidering a block *)

Lemma clear_mask_idemp (x m : Z) :
  Z.land (Z.land x (Z.lnot m)) (Z.lnot m) = Z.land x (Z.lnot m).
Proof. by rewrite <- Z.land_assoc, Z.land_diag. Qed.

Lemma clear_mask_clears (x m : Z) : Z.land (Z.land x (Z.lnot m)) m = 0.
Proof.
  rewrite <- Z.land_assoc, (Z.land_comm (Z.lnot m)), Z.land_lnot_diag. apply Z.land_0_r.
Qed.

Lemma clear_mask_clean (x m : Z) : Z.land x m = 0 → Z.land x (Z.lnot m) = x.
Proof.
  intros Hclean. apply Z.bits_inj'. intros n Hn.
  rewrite Z.land_spec, Z.lnot_spec by done.
  assert (Hbit : Z.testbit (Z.land x m) n = false) by (rewrite Hclean; apply Z.bits_0).
  rewrite Z.land_spec in Hbit.
  by destruct (Z.testbit x n), (Z.testbit m n).
Qed.

Lemma isFailed_false (r : CBlockIndex) :
  isFailed r = false ↔ Z.land (nStatus r) BLOCK_FAILED_MASK = 0.
Proof.
  unfold isFailed. destruct (Z.eqb_spec (Z.land (nStatus r) BLOCK_FAILED_MASK) 0); naive_solver.
Qed.

Lemma IsValid_not_failed (r : CBlockIndex) : IsValid r = true → isFailed r = false.
Proof. unfold IsValid. by destruct (isFailed r). Qed.

Lemma shape_lookup (heap : Heap) (p : ptr) :
  shape heap !! p = (λ r, (pprev r, nHeight r)) <$> heap !! p.
Proof. apply list_lookup_fmap. Qed.

Lemma shape_clearFailed (heap : Heap) (p : ptr) (r : CBlockIndex) :
  heap !! p = Some r → shape (<[p := clearFailed r]> heap) = shape heap.
Proof.
  intros Hp. unfold shape. rewrite list_fmap_insert. simpl.
  apply list_insert_id. by rewrite list_lookup_fmap, Hp.
Qed.

Lemma shape_record (h1 h2 : Heap) (p : ptr) (r1 : CBlockIndex) :
  shape h1 = shape h2 → h1 !! p = Some r1 →
  ∃ r2, h2 !! p = Some r2 ∧ pprev r2 = pprev r1 ∧ nHeight r2 = nHeight r1.
Proof.
  intros Hshape Hp. pose proof (shape_lookup h2 p) as H2.
  rewrite <- Hshape, shape_lookup, Hp in H2. simpl in H2.
  destruct (h2 !! p) as [r2|]; [|done]. simpl in H2. exists r2. by simplify_eq.
Qed.

Lemma walkPrev_shape (h1 h2 : Heap) (n : nat) (p : ptr) :
  shape h1 = shape h2 → walkPrev h1 n p = walkPrev h2 n p.
Proof.
  intros Hshape. revert p. induction n as [|n IH]; intros p; simpl; [done|].
  destruct (h1 !! p) as [r1|] eqn:H1.
  - destruct (shape_record h1 h2 p r1 Hshape H1) as (r2 & -> & Hprev & _). simpl.
    rewrite Hprev. destruct (pprev r1); simpl; [apply IH|done].
  - destruct (h2 !! p) as [r2|] eqn:H2; [|done].
    destruct (shape_record h2 h1 p r2 (eq_sym Hshape) H2) as (r1 & Hr1 & _). congruence.
Qed.

Lemma GetAncestor_shape (h1 h2 : Heap) (p : ptr) (height : Z) :
  shape h1 = shape h2 → GetAncestor h1 p height = GetAncestor h2 p height.
Proof.
  intros Hshape. unfold GetAncestor.
  destruct (h1 !! p) as [r1|] eqn:H1.
  - destruct (shape_record h1 h2 p r1 Hshape H1) as (r2 & -> & _ & Hh). simpl.
    rewrite Hh. case_bool_decide; [done|]. by apply walkPrev_shape.
  - destruct (h2 !! p) as [r2|] eqn:H2; [|done].
    destruct (shape_record h2 h1 p r2 (eq_sym Hshape) H2) as (r1 & Hr1 & _). congruence.
Qed.

Lemma set_nStatus_same (r : CBlockIndex) : set_nStatus (nStatus r) r = r.
Proof. by destruct r. Qed.

Lemma set_nStatus_twice (a b : Z) (r : CBlockIndex) :
  set_nStatus a (set_nStatus b r) = set_nStatus a r.
Proof. done. Qed.

Lemma cleared_idemp (st : Z) : cleared (cleared st) = cleared st.
Proof. apply clear_mask_idemp. Qed.

Lemma cleared_valid (r : CBlockIndex) : isFailed r = false → cleared (nStatus r) = nStatus r.
Proof. intros H. apply clear_mask_clean. by apply isFailed_false. Qed.

(** One assignment [p->nStatus &= ~BLOCK_FAILED_MASK], seen from a record [q]. *)
Lemma clearFailed_lookup (heap : Heap) (p q : ptr) (r rec : CBlockIndex) :
  heap !! p = Some r → heap !! q = Some rec →
  <[p := clearFailed r]> heap !! q
  = Some (set_nStatus (if decide (q = p) then cleared (nStatus rec) else nStatus rec) rec).
Proof.
  intros Hp Hq. destruct (decide (q = p)) as [->|Hne].
  - rewrite list_lookup_insert_eq by (by eapply lookup_lt_Some). by simplify_eq.
  - rewrite list_lookup_insert_ne by done. by rewrite set_nStatus_same.
Qed.

Lemma parentsBelow_shape (h1 h2 : Heap) :
  shape h1 = shape h2 → parentsBelow h1 → parentsBelow h2.
Proof.
  intros Hshape Hwf p r q Hp Hprev.
  destruct (shape_record h2 h1 p r (eq_sym Hshape) Hp) as (r1 & Hr1 & Hprev1 & Hh1).
  destruct (Hwf p r1 q Hr1 ltac:(congruence)) as (rq1 & Hq1 & Hlt).
  destruct (shape_record h1 h2 q rq1 Hshape Hq1) as (rq & Hq & _ & Hhq).
  exists rq. split; [done|]. lia.
Qed.

Lemma below_mono (sh : list (option ptr * Z)) (h h' : Z) :
  h' ≤ h → (below sh h' ≤ below sh h)%nat.
Proof.
  intros Hle. unfold below. induction sh as [|x sh IH]; [done|].
  rewrite !filter_cons.
  destruct (decide (x.2 ≤ h')), (decide (x.2 ≤ h)); simpl; lia.
Qed.

Lemma below_lt (sh : list (option ptr * Z)) (p : nat) (a : option ptr) (h h' : Z) :
  sh !! p = Some (a, h) → h' < h → (below sh h' < below sh h)%nat.
Proof.
  intros Hp Hlt. revert p Hp. unfold below.
  induction sh as [|x sh IH]; intros p Hp; [done|].
  rewrite !filter_cons. destruct p as [|p]; simpl in Hp.
  - simplify_eq. simpl.
    pose proof (below_mono sh h h' ltac:(lia)) as Hmono. unfold below in Hmono.
    destruct (decide (h ≤ h')); [lia|]. destruct (decide (h ≤ h)); [|lia]. simpl. lia.
  - specialize (IH p Hp).
    destruct (decide (x.2 ≤ h')), (decide (x.2 ≤ h)); simpl; lia.
Qed.

Lemma below_le_length (heap : Heap) (h : Z) : (below (shape heap) h ≤ length heap)%nat.
Proof.
  unfold below, shape.
  etransitivity; [apply length_filter|]. by rewrite length_fmap.
Qed.

Lemma reconsiderAncestors_spec (fuel : nat) :
  ∀ (heap : Heap) (dirty : gset ptr) (p : ptr) (r : CBlockIndex),
  parentsBelow heap →
  heap !! p = Some r →
  (below (shape heap) (nHeight r) ≤ fuel)%nat →
  ∃ heap' dirty',
    reconsiderAncestors fuel (Some p) heap dirty = Some (heap', dirty')
    ∧ shape heap' = shape heap
    ∧ dirty ⊆ dirty'
    ∧ ∀ q rec, heap !! q = Some rec →
        ∃ st, heap' !! q = Some (set_nStatus st rec)
          ∧ (st ≠ nStatus rec → q ∈ dirty')
          ∧ (st = nStatus rec ∨ st = cleared (nStatus rec))
          ∧ ((∃ n, walkPrev heap n p = Some q) → st = cleared (nStatus rec))
          ∧ (¬ (∃ n, walkPrev heap n p = Some q) → st = nStatus rec).
Proof.
  induction fuel as [|fuel IH]; intros heap dirty p r Hwf Hp Hfuel.
  { assert (shape heap !! p = Some (pprev r, nHeight r)) as Hs
      by (by rewrite shape_lookup, Hp).
    pose proof (below_lt (shape heap) p _ _ (nHeight r - 1) Hs ltac:(lia)). lia. }
  simpl. rewrite Hp. simpl.
  (* the heap and the dirty set after the visit of [p] *)
  set (heap1 := if isFailed r then <[p := clearFailed r]> heap else heap).
  set (dirty1 := if isFailed r then {[p]} ∪ dirty else dirty).
  assert (Hshape1 : shape heap1 = shape heap)
    by (subst heap1; destruct (isFailed r); [by apply shape_clearFailed|done]).
  assert (Hdirty1 : dirty ⊆ dirty1) by (subst dirty1; destruct (isFailed r); set_solver).
  assert (Hstep : ∀ q rec, heap !! q = Some rec →
    ∃ st, heap1 !! q = Some (set_nStatus st rec)
      ∧ (st ≠ nStatus rec → q ∈ dirty1)
      ∧ (q = p → st = cleared (nStatus rec))
      ∧ (q ≠ p → st = nStatus rec)).
  { intros q rec Hq. subst heap1 dirty1. destruct (isFailed r) eqn:Hfailed.
    - rewrite (clearFailed_lookup heap p q r rec Hp Hq).
      destruct (decide (q = p)) as [->|Hne]; eexists; (split; [done|]);
        repeat split; (done || set_solver).
    - exists (nStatus rec). rewrite set_nStatus_same.
      repeat split; try done. intros ->. simplify_eq. by rewrite cleared_valid. }
  assert (Hgoal : ∃ heap' dirty',
    reconsiderAncestors fuel (pprev r) heap1 dirty1 = Some (heap', dirty')
    ∧ shape heap' = shape heap
    ∧ dirty ⊆ dirty'
    ∧ ∀ q rec, heap !! q = Some rec →
        ∃ st, heap' !! q = Some (set_nStatus st rec)
          ∧ (st ≠ nStatus rec → q ∈ dirty')
          ∧ (st = nStatus rec ∨ st = cleared (nStatus rec))
          ∧ ((∃ n, walkPrev heap n p = Some q) → st = cleared (nStatus rec))
          ∧ (¬ (∃ n, walkPrev heap n p = Some q) → st = nStatus rec)).
  { destruct (pprev r) as [parent|] eqn:Hprev.
    - destruct (Hwf p r parent Hp Hprev) as (rq & Hq & Hlt).
      destruct (Hstep parent rq Hq) as (stq & Hq1 & _).
      destruct (IH heap1 dirty1 parent (set_nStatus stq rq)) as
        (heap' & dirty' & Hrun & Hshape' & Hdirty' & Hall).
      { by eapply parentsBelow_shape. }
      { done. }
      { rewrite Hshape1. simpl.
        assert (shape heap !! p = Some (pprev r, nHeight r)) as Hs
          by (by rewrite shape_lookup, Hp).
        pose proof (below_lt (shape heap) p _ _ (nHeight rq) Hs Hlt). lia. }
      exists heap', dirty'. split; [done|]. split; [congruence|].
      split; [set_solver|].
      intros q rec Hrec.
      destruct (Hstep q rec Hrec) as (st1 & Hrec1 & Hd1 & Heq1 & Hne1).
      destruct (Hall q _ Hrec1) as (st & Hrec' & Hd & Hor & Hanc & Hnanc).
      simpl in *. exists st. rewrite set_nStatus_twice in Hrec'.
      assert (Hiff : (∃ n, walkPrev heap n p = Some q)
                     ↔ q = p ∨ ∃ n, walkPrev heap1 n parent = Some q).
      { split.
        - intros [[|n] Hn]; simpl in Hn; [left; by simplify_eq|right].
          rewrite Hp in Hn. simpl in Hn. rewrite Hprev in Hn. simpl in Hn.
          exists n. by rewrite (walkPrev_shape heap1 heap).
        - intros [->|[n Hn]]; [by exists 0%nat|].
          exists (S n). simpl. rewrite Hp. simpl. rewrite Hprev. simpl.
          by rewrite <- (walkPrev_shape heap1 heap). }
      split; [done|]. split.
      { intros Hst. destruct (decide (st = st1)) as [->|Hne]; [|by apply Hd].
        apply Hdirty', Hd1, Hst. }
      split.
      { destruct (decide (q = p)) as [->|Hne].
        - rewrite (Heq1 eq_refl), cleared_idemp in Hor. right. by destruct Hor.
        - by rewrite (Hne1 Hne) in Hor. }
      split.
      + intros [->|Hanc']%Hiff.
        * rewrite (Heq1 eq_refl), cleared_idemp in Hor. by destruct Hor.
        * rewrite (Hanc Hanc').
          destruct (decide (q = p)) as [->|Hne].
          -- by rewrite (Heq1 eq_refl), cleared_idemp.
          -- by rewrite (Hne1 Hne).
      + intros Hno. assert (q ≠ p) as Hne by (intros ->; apply Hno, Hiff; by left).
        rewrite Hnanc, (Hne1 Hne); [done|].
        intros Hc. apply Hno, Hiff. by right.
    - destruct fuel; simpl.
      all: exists heap1, dirty1; split; [done|]; split; [done|]; split; [done|].
      all: intros q rec Hrec; destruct (Hstep q rec Hrec) as (st & Hrec1 & Hd1 & Heq1 & Hne1);
        exists st; split; [done|]; split; [done|]; split;
        [destruct (decide (q = p)) as [->|Hqp]; [right; by apply Heq1|left; by apply Hne1]|];
        split.
      all: try (intros [[|n] Hn]; simpl in Hn;
                [apply Heq1; by simplify_eq
                |rewrite Hp in Hn; simpl in Hn; by rewrite Hprev in Hn]).
      all: intros Hno; apply Hne1; intros ->; apply Hno; by exists 0%nat. }
  subst heap1 dirty1. by destruct (isFailed r).
Qed.

Lemma reconsiderDescendants_spec (pindex : ptr) (height : Z) (nodes : list (uint256 * ptr)) :
  ∀ (heap : Heap) (dirty : gset ptr),
  (∀ k p, (k, p) ∈ nodes → is_Some (heap !! p)) →
  ∃ heap' dirty',
    reconsiderDescendants nodes pindex height heap dirty = Some (heap', dirty')
    ∧ shape heap' = shape heap
    ∧ dirty ⊆ dirty'
    ∧ ∀ q rec, heap !! q = Some rec →
        ∃ st, heap' !! q = Some (set_nStatus st rec)
          ∧ (st ≠ nStatus rec → q ∈ dirty')
          ∧ (st = nStatus rec ∨ st = cleared (nStatus rec))
          ∧ ((∃ k, (k, q) ∈ nodes) → GetAncestor heap q height = Some pindex →
             st = cleared (nStatus rec))
          ∧ (¬ ((∃ k, (k, q) ∈ nodes) ∧ GetAncestor heap q height = Some pindex) →
             st = nStatus rec).
Proof.
  induction nodes as [|[k0 p] rest IH]; intros heap dirty Hnodes.
  { exists heap, dirty. repeat split; try done.
    intros q rec Hq. exists (nStatus rec). rewrite set_nStatus_same.
    repeat split; try done; [by left|]. intros [k Hk]. by apply elem_of_nil in Hk. }
  simpl. destruct (Hnodes k0 p ltac:(left)) as [r Hp]. rewrite Hp. simpl.
  set (hit := negb (IsValid r) && bool_decide (GetAncestor heap p height = Some pindex)).
  set (heap1 := if hit then <[p := clearFailed r]> heap else heap).
  set (dirty1 := if hit then {[p]} ∪ dirty else dirty).
  assert (Hshape1 : shape heap1 = shape heap)
    by (subst heap1; destruct hit; [by apply shape_clearFailed|done]).
  assert (Hdirty1 : dirty ⊆ dirty1) by (subst dirty1; destruct hit; set_solver).
  assert (Hstep : ∀ q rec, heap !! q = Some rec →
    ∃ st, heap1 !! q = Some (set_nStatus st rec)
      ∧ (st ≠ nStatus rec → q ∈ dirty1)
      ∧ (st = nStatus rec ∨ st = cleared (nStatus rec))
      ∧ (q = p → GetAncestor heap q height = Some pindex → st = cleared (nStatus rec))
      ∧ (¬ (q = p ∧ GetAncestor heap q height = Some pindex) → st = nStatus rec)).
  { intros q rec Hq. subst heap1 dirty1. destruct hit eqn:Hhit.
    - apply andb_true_iff in Hhit as [_ Hanc%bool_decide_eq_true].
      rewrite (clearFailed_lookup heap p q r rec Hp Hq).
      destruct (decide (q = p)) as [->|Hne]; eexists; (split; [done|]).
      + split; [set_solver|]. split; [by right|]. split; [done|].
        intros Hno. exfalso. by apply Hno.
      + split; [done|]. split; [by left|]. split; [done|]. done.
    - exists (nStatus rec). rewrite set_nStatus_same.
      split; [done|]. split; [done|]. split; [by left|]. split; [|done].
      intros -> Hanc. assert (rec = r) as -> by congruence.
      apply andb_false_iff in Hhit as [Hvalid|Hno].
      + symmetry. apply cleared_valid, IsValid_not_failed.
        by destruct (IsValid r).
      + by apply bool_decide_eq_false in Hno. }
  destruct (IH heap1 dirty1) as (heap' & dirty' & Hrun & Hshape' & Hdirty' & Hall).
  { intros k q Hq. destruct (Hnodes k q ltac:(by right)) as [rq Hrq].
    destruct (Hstep q rq Hrq) as (st & -> & _). done. }
  exists heap', dirty'.
  split. { subst heap1 dirty1. by destruct hit. }
  split; [congruence|]. split; [set_solver|].
  intros q rec Hrec.
  destruct (Hstep q rec Hrec) as (st1 & Hrec1 & Hd1 & Hor1 & Heq1 & Hne1).
  destruct (Hall q _ Hrec1) as (st & Hrec' & Hd & Hor & Hanc & Hnanc).
  simpl in *. rewrite set_nStatus_twice in Hrec'.
  rewrite (GetAncestor_shape heap1 heap q height Hshape1) in Hanc, Hnanc.
  exists st. split; [done|]. split.
  { intros Hst. destruct (decide (st = st1)) as [->|Hne]; [|by apply Hd].
    apply Hdirty', Hd1, Hst. }
  split.
  { destruct Hor1 as [->| ->]; [done|]. rewrite cleared_idemp in Hor. right. by destruct Hor. }
  split.
  - intros [k Hk] Hq. apply elem_of_cons in Hk as [Heq|Hin].
    + simplify_eq. rewrite (Heq1 eq_refl Hq), cleared_idemp in Hor. by destruct Hor.
    + rewrite (Hanc (ex_intro _ k Hin) Hq).
      destruct Hor1 as [->| ->]; [done|apply cleared_idemp].
  - intros Hno. rewrite Hnanc, Hne1; [done| |].
    + intros [-> Hq]. apply Hno. split; [|done]. exists k0. left.
    + intros [[k Hk] Hq]. apply Hno. split; [|done]. exists k. by right.
Qed.

(** C8. In an index whose parent pointers lead to records at lower heights
    (I1) and whose map holds records of the heap, [reconsiderBlock] of a
    record [r] returns true and changes nothing but status words: the
    failure flags are cleared on the nodes whose ancestor at the height of
    [r] is [r] and on the records of the parent chain of [r], every other
    status is what it was, and a record whose status changed is in the set
    of records to save again, which loses no member. *)
Theorem reconsiderBlock_clears_exactly (ix : Index) (r : ptr) (rec_r : CBlockIndex) :
  parentsBelow (ix_heap ix) →
  (∀ k p, (k, p) ∈ indexMap ix → is_Some (ix_heap ix !! p)) →
  ix_heap ix !! r = Some rec_r →
  ∃ ix', reconsiderBlock ix r = Some (ix', true)
    ∧ indexMap ix' = indexMap ix
    ∧ setDirtyBlockIndex ix ⊆ setDirtyBlockIndex ix'
    ∧ length (ix_heap ix') = length (ix_heap ix)
    ∧ ∀ q rec, ix_heap ix !! q = Some rec →
        ∃ st, ix_heap ix' !! q = Some (set_nStatus st rec)
          ∧ (descendantOf ix r q ∨ ancestorOf ix r q →
             st = Z.land (nStatus rec) (Z.lnot BLOCK_FAILED_MASK)
             ∧ Z.land st BLOCK_FAILED_MASK = 0)
          ∧ (¬ (descendantOf ix r q ∨ ancestorOf ix r q) → st = nStatus rec)
          ∧ (st ≠ nStatus rec → q ∈ setDirtyBlockIndex ix').
Proof.
  intros Hwf Hmap Hr. unfold reconsiderBlock. rewrite Hr. simpl.
  destruct (reconsiderDescendants_spec r (nHeight rec_r) (indexMap ix)
              (ix_heap ix) (setDirtyBlockIndex ix) Hmap)
    as (heap1 & dirty1 & Hrun1 & Hshape1 & Hdirty1 & Hall1).
  rewrite Hrun1. simpl.
  destruct (Hall1 r rec_r Hr) as (st_r & Hr1 & _).
  destruct (reconsiderAncestors_spec (length heap1) heap1 dirty1 r
              (set_nStatus st_r rec_r))
    as (heap2 & dirty2 & Hrun2 & Hshape2 & Hdirty2 & Hall2).
  { by eapply parentsBelow_shape. }
  { done. }
  { apply below_le_length. }
  rewrite Hrun2. simpl. eexists. split; [done|]. simpl.
  split; [done|]. split; [set_solver|].
  split.
  { rewrite <- (length_fmap (λ r, (pprev r, nHeight r)) heap2).
    rewrite <- (length_fmap (λ r, (pprev r, nHeight r)) (ix_heap ix)).
    fold (shape heap2). fold (shape (ix_heap ix)). congruence. }
  intros q rec Hq.
  destruct (Hall1 q rec Hq) as (st1 & Hq1 & Hd1 & Hor1 & Hdesc & Hndesc).
  destruct (Hall2 q _ Hq1) as (st & Hq2 & Hd2 & Hor2 & Hanc & Hnanc).
  simpl in *. rewrite set_nStatus_twice in Hq2.
  exists st. split; [done|].
  assert (Hwalk : ancestorOf ix r q ↔ ∃ n, walkPrev heap1 n r = Some q).
  { unfold ancestorOf. split; intros [n Hn]; exists n.
    - by rewrite (walkPrev_shape heap1 (ix_heap ix)).
    - by rewrite <- (walkPrev_shape heap1 (ix_heap ix)). }
  assert (Hcleared : descendantOf ix r q ∨ ancestorOf ix r q →
                     st = cleared (nStatus rec)).
  { intros [[Hin (rec_r' & Hr' & Hga)]|Ha].
    - assert (rec_r' = rec_r) as -> by congruence.
      rewrite (Hdesc Hin Hga), cleared_idemp in Hor2. by destruct Hor2.
    - rewrite (Hanc (proj1 Hwalk Ha)).
      destruct Hor1 as [->| ->]; [done|apply cleared_idemp]. }
  split; [|split].
  - intros Hda. split; [by apply Hcleared|].
    rewrite (Hcleared Hda). apply clear_mask_clears.
  - intros Hno. rewrite Hnanc, Hndesc; [done| |].
    + intros [Hin Hga]. apply Hno. left. split; [done|]. by exists rec_r.
    + intros Ha. apply Hno. right. by apply Hwalk.
  - intros Hst. destruct (decide (st = st1)) as [->|Hne]; [|by apply Hd2].
    apply Hdirty2, Hd1, Hst.
Qed.

Lemma reconsiderBlock_clears_exactly_witness :
  ∃ ix', reconsiderBlock failedIndex 1%nat = Some (ix', true)
    ∧ nStatus <$> ix_heap ix' = [3; 2; 2; 34]
    ∧ ∀ q rec, failedHeap !! q = Some rec →
        ∃ st, ix_heap ix' !! q = Some (set_nStatus st rec)
          ∧ (descendantOf failedIndex 1%nat q ∨ ancestorOf failedIndex 1%nat q →
             st = Z.land (nStatus rec) (Z.lnot BLOCK_FAILED_MASK)
             ∧ Z.land st BLOCK_FAILED_MASK = 0)
          ∧ (¬ (descendantOf failedIndex 1%nat q ∨ ancestorOf failedIndex 1%nat q) →
             st = nStatus rec)
          ∧ (st ≠ nStatus rec → q ∈ setDirtyBlockIndex ix').
Proof.
  destruct (reconsiderBlock_clears_exactly failedIndex 1%nat
              (hdr (Some 0%nat) 1 2 (Z.lor 2 BLOCK_FAILED_VALID)))
    as (ix' & Hrun & _ & _ & _ & Hall).
  - intros p r q Hp Hprev.
    destruct p as [|[|[|[|p]]]]; simpl in Hp; inversion Hp; subst r;
      simpl in Hprev; inversion Hprev; subst q; eexists; (split; [reflexivity|]);
      simpl; lia.
  - intros k p Hin. simpl in Hin.
    repeat (apply elem_of_cons in Hin as [Heq|Hin];
            [inversion Heq; subst; eexists; reflexivity|]).
    by apply elem_of_nil in Hin.
  - reflexivity.
  - exists ix'. split; [exact Hrun|]. split; [|exact Hall].
    vm_compute in Hrun. by inversion Hrun.
Defined.

(** * Further properties of the block database *)
(** ** The header index: insertion and lookup *)

Lemma findNode_shift (m : list (uint256 * ptr)) (hash : uint256) (i : nat) :
  findNode m hash i = (λ x, ((x.1 + i)%nat, x.2)) <$> findNode m hash 0.
Proof.
  revert i. induction m as [|[k v] m IH]; intros i; simpl; [done|].
  case_bool_decide; simpl; [done|].
  rewrite (IH (S i)), (IH 1%nat).
  destruct (findNode m hash 0) as [[j w]|]; simpl; [|done].
  do 2 f_equal. lia.
Qed.

Lemma Index_get_cons (k : uint256) (v : ptr) (m : list (uint256 * ptr)) (hash : uint256) :
  Index_get ((k, v) :: m) hash = if decide (k = hash) then Some v else Index_get m hash.
Proof.
  unfold Index_get. simpl. case_bool_decide; destruct (decide (k = hash)); try done.
  rewrite findNode_shift. by destruct (findNode m hash 0) as [[? ?]|].
Qed.

Lemma Index_get_app (m1 m2 : list (uint256 * ptr)) (hash : uint256) :
  Index_get (m1 ++ m2) hash
  = match Index_get m1 hash with Some v => Some v | None => Index_get m2 hash end.
Proof.
  induction m1 as [|[k v] m1 IH]; [done|].
  rewrite <- app_comm_cons, !Index_get_cons. by destruct (decide (k = hash)).
Qed.

Lemma Index_get_None (m : list (uint256 * ptr)) (hash : uint256) :
  Index_get m hash = None ↔ hash ∉ m.*1.
Proof.
  induction m as [|[k v] m IH]; [set_solver|].
  rewrite Index_get_cons. simpl. rewrite not_elem_of_cons, <- IH.
  destruct (decide (k = hash)) as [->|Hne]; split.
  - done.
  - by intros [? _].
  - intros H. split; [congruence|done].
  - by intros [_ ?].
Qed.

Lemma Index_get_Some (m : list (uint256 * ptr)) (hash : uint256) (v : ptr) :
  Index_get m hash = Some v → ∃ a, m !! a = Some (hash, v).
Proof.
  unfold Index_get. destruct (findNode m hash 0) as [[a w]|] eqn:Hf; [|done].
  simpl. intros [= ->]. apply findNode_lookup in Hf as [_ Hf].
  exists (a - 0)%nat. done.
Qed.

Lemma Index_get_NoDup (m : list (uint256 * ptr)) (a : nat) (hash : uint256) (v : ptr) :
  NoDup m.*1 → m !! a = Some (hash, v) → Index_get m hash = Some v.
Proof.
  revert a. induction m as [|[k w] m IH]; intros a Hnd Ha; [done|].
  rewrite Index_get_cons. simpl in Hnd. apply NoDup_cons in Hnd as [Hk Hnd].
  destruct a as [|a]; simpl in Ha.
  - simplify_eq. by rewrite decide_True.
  - rewrite decide_False; [by eapply IH|].
    intros ->. apply Hk. apply list_elem_of_fmap. exists (hash, v).
    split; [done|]. by eapply list_elem_of_lookup_2.
Qed.

Lemma Index_insert_eq (m : list (uint256 * ptr)) (hash : uint256) (index : ptr) :
  Index_insert m hash index
  = match Index_get m hash with
    | Some _ => (m, default 0%nat (fst <$> findNode m hash 0))
    | None => (m ++ [(hash, index)], length m)
    end.
Proof.
  unfold Index_insert, Index_get. by destruct (findNode m hash 0) as [[? ?]|].
Qed.

(** X1.  The laws of the header index map.  After [insert] of a hash, [get]
    of that hash answers the record the map held for it before, or the
    inserted record when it held none, and [get] of every other hash
    answers what it answered before; [exists] holds of the inserted hash,
    and of a hash exactly when [get] finds it; [size] grows by one when the
    hash was new and not at all when it was known; the map is not [empty]
    afterwards, and a map is [empty] exactly when its [size] is 0. *)
Theorem Index_insert_get_laws (m : list (uint256 * ptr)) (hash hash' : uint256)
  (index : ptr) :
  let m' := (Index_insert m hash index).1 in
  Index_get m' hash' = (if decide (hash' = hash)
                        then Some (default index (Index_get m hash))
                        else Index_get m hash')
  ∧ Index_exists m' hash = true
  ∧ (Index_exists m' hash' = true ↔ is_Some (Index_get m' hash'))
  ∧ Index_size m' = Index_size m + (if Index_exists m hash then 0 else 1)
  ∧ Index_empty m' = false
  ∧ (Index_empty m = true ↔ Index_size m = 0).
Proof.
  intros m'. subst m'. rewrite Index_insert_eq.
  assert (Hex : ∀ n h, Index_exists n h = true ↔ is_Some (Index_get n h)).
  { intros n h. unfold Index_exists, Index_get. rewrite bool_decide_eq_true.
    by rewrite fmap_is_Some. }
  destruct (Index_get m hash) as [v|] eqn:Hget; simpl.
  - split. { destruct (decide (hash' = hash)) as [->|]; [done|done]. }
    split. { apply Hex. by rewrite Hget. }
    split; [apply Hex|].
    split. { assert (Index_exists m hash = true) as -> by (apply Hex; by rewrite Hget). lia. }
    split. { unfold Index_empty. apply bool_decide_eq_false. intros ->. done. }
    unfold Index_empty, Index_size. rewrite bool_decide_eq_true.
    destruct m; simpl; [done|]. split; [done|lia].
  - assert (Hnew : Index_get (m ++ [(hash, index)]) hash = Some index).
    { rewrite Index_get_app, Hget, Index_get_cons. by rewrite decide_True. }
    split.
    { destruct (decide (hash' = hash)) as [->|Hne]; [done|].
      rewrite Index_get_app, Index_get_cons, decide_False by done.
      by destruct (Index_get m hash'). }
    split. { apply Hex. by rewrite Hnew. }
    split; [apply Hex|].
    split.
    { assert (Index_exists m hash = false) as ->.
      { apply not_true_is_false. rewrite Hex, Hget. by intros [? ?]. }
      unfold Index_size. rewrite length_app. simpl. lia. }
    split. { unfold Index_empty. apply bool_decide_eq_false. by destruct m. }
    unfold Index_empty, Index_size. rewrite bool_decide_eq_true.
    destruct m; simpl; [done|]. split; [done|lia].
Qed.

Lemma indexWf_get (ix : Index) (hash : uint256) (p : ptr) :
  indexWf ix → Index_get (indexMap ix) hash = Some p →
  ∃ a r, indexMap ix !! a = Some (hash, p) ∧ ix_heap ix !! p = Some r
         ∧ phashBlock r = Some a.
Proof.
  intros [_ Hwf] Hget. apply Index_get_Some in Hget as [a Ha].
  destruct (Hwf a hash p Ha) as (r & Hr & Hph). by exists a, r.
Qed.

Lemma InsertBlockIndex_wf (ix : Index) (hash : uint256) :
  indexWf ix → indexWf (InsertBlockIndex ix hash).1.
Proof.
  intros Hwf. unfold InsertBlockIndex.
  destruct (hash =? 0); [done|].
  destruct (Index_get (indexMap ix) hash) as [p|] eqn:Hget; [done|].
  rewrite Index_insert_eq, Hget. destruct Hwf as [Hnd Hwf].
  split; cbn [fst snd indexMap ix_heap].
  - rewrite fmap_app. simpl. apply NoDup_app. split; [done|].
    split; [|apply NoDup_singleton].
    intros k Hk ->%list_elem_of_singleton. by apply Index_get_None in Hget.
  - intros a k p Ha. apply lookup_app_Some in Ha as [Ha|[Hlen Ha]].
    + destruct (Hwf a k p Ha) as (r & Hr & Hph). exists r. split; [|done].
      by apply lookup_app_l_Some.
    + apply list_lookup_singleton_Some in Ha as [Ha ?]. simplify_eq.
      assert (a = length (indexMap ix)) as -> by lia.
      eexists. split.
      { rewrite lookup_app_r by done. by rewrite Nat.sub_diag. }
      done.
Qed.

(** X2.  [InsertBlockIndex] on an index whose hashes differ and whose
    records point back at their nodes: the null hash gives null and changes
    nothing; any other hash gives a record that [get] of the hash finds
    afterwards and whose [phashBlock] points at the node holding the hash.
    A known hash leaves the index as it was; a new hash gets a blank record
    at the end of the heap and makes the map one larger.  Every hash found
    before is found at the same record afterwards, no record of the heap
    changes, nothing is marked for saving, and the index stays
    well-formed. *)
Theorem InsertBlockIndex_registers (ix : Index) (hash : uint256) :
  indexWf ix →
  let ix' := (InsertBlockIndex ix hash).1 in
  indexWf ix'
  ∧ (hash = 0 → InsertBlockIndex ix hash = (ix, None))
  ∧ (hash ≠ 0 →
     ∃ p a r,
       (InsertBlockIndex ix hash).2 = Some p
       ∧ Index_get (indexMap ix') hash = Some p
       ∧ ix_heap ix' !! p = Some r
       ∧ phashBlock r = Some a
       ∧ indexMap ix' !! a = Some (hash, p)
       ∧ (is_Some (Index_get (indexMap ix) hash) → ix' = ix)
       ∧ (Index_get (indexMap ix) hash = None →
          p = length (ix_heap ix) ∧ r = set_phashBlock (Some a) newBlockIndex
          ∧ Index_size (indexMap ix') = Index_size (indexMap ix) + 1))
  ∧ (∀ h q, Index_get (indexMap ix) h = Some q → Index_get (indexMap ix') h = Some q)
  ∧ (∀ q rq, ix_heap ix !! q = Some rq → ix_heap ix' !! q = Some rq)
  ∧ setDirtyBlockIndex ix' = setDirtyBlockIndex ix.
Proof.
  intros Hwf ix'. split; [by apply InsertBlockIndex_wf|].
  subst ix'. unfold InsertBlockIndex.
  destruct (Z.eqb_spec hash 0) as [->|Hne]; simpl.
  { repeat split; try done. }
  split; [done|].
  destruct (Index_get (indexMap ix) hash) as [p|] eqn:Hget; simpl.
  - split; [|done]. intros _.
    destruct (indexWf_get ix hash p Hwf Hget) as (a & r & Ha & Hr & Hph).
    exists p, a, r. repeat split; done.
  - rewrite Index_insert_eq, Hget. simpl. split; [|split; [|split; [|done]]].
    + intros _. exists (length (ix_heap ix)), (length (indexMap ix)). eexists.
      split; [done|]. split.
      { rewrite Index_get_app, Hget, Index_get_cons. by rewrite decide_True. }
      split. { rewrite lookup_app_r by done. by rewrite Nat.sub_diag. }
      split; [done|]. split.
      { rewrite lookup_app_r by done. by rewrite Nat.sub_diag. }
      split; [by intros [? ?]|]. intros _. split; [done|]. split; [done|].
      unfold Index_size. rewrite length_app. simpl. lia.
    + intros h q Hq. by rewrite Index_get_app, Hq.
    + intros q rq Hq. by apply lookup_app_l_Some.
Qed.

(** ** The files and the heights of the index *)

Lemma collectFileIndexes_spec (heap : Heap) (nodes : list (uint256 * ptr)) :
  ∀ acc : gset Z,
  (∀ k p, (k, p) ∈ nodes → is_Some (heap !! p)) →
  ∃ files, collectFileIndexes heap nodes acc = Some files
    ∧ ∀ n, n ∈ files ↔
        n ∈ acc ∨ ∃ k p r, (k, p) ∈ nodes ∧ heap !! p = Some r
                           ∧ Z.land (nStatus r) BLOCK_HAVE_DATA ≠ 0 ∧ nFile r = n.
Proof.
  induction nodes as [|[k0 p0] rest IH]; intros acc Hheap; simpl.
  { exists acc. split; [done|]. intros n. split; [by left|].
    intros [?|(k & p & r & Hin & _)]; [done|]. by apply elem_of_nil in Hin. }
  destruct (Hheap k0 p0 ltac:(left)) as [r0 Hr0]. rewrite Hr0. simpl.
  destruct (IH (if negb (Z.land (nStatus r0) BLOCK_HAVE_DATA =? 0)
                then {[nFile r0]} ∪ acc else acc)) as (files & Hrun & Hfiles).
  { intros k p Hin. apply (Hheap k p). by right. }
  exists files. split; [done|]. intros n. rewrite Hfiles. split.
  - intros [Hacc|(k & p & r & Hin & Hr & Hst & Hn)].
    + destruct (Z.eqb_spec (Z.land (nStatus r0) BLOCK_HAVE_DATA) 0) as [Hz|Hnz];
        simpl in Hacc; [by left|].
      apply elem_of_union in Hacc as [->%elem_of_singleton|Hacc]; [|by left].
      right. exists k0, p0, r0. repeat split; try done. left.
    + right. exists k, p, r. repeat split; try done. by right.
  - intros [Hacc|(k & p & r & Hin & Hr & Hst & Hn)].
    + left. destruct (negb _); [apply elem_of_union; by right|done].
    + apply elem_of_cons in Hin as [Heq|Hin].
      * assert (p = p0) as -> by congruence. assert (r = r0) as -> by congruence.
        left. destruct (Z.eqb_spec (Z.land (nStatus r0) BLOCK_HAVE_DATA) 0); [done|].
        simpl. apply elem_of_union. left. by apply elem_of_singleton.
      * right. by exists k, p, r.
Qed.

(** X3.  [fileIndexes] returns, when the nodes of the map hold records,
    exactly the file numbers of the records that carry [BLOCK_HAVE_DATA]:
    a number is in the set if and only if some node's record has the flag
    and that [nFile]. *)
Theorem fileIndexes_exactly (ix : Index) :
  (∀ k p, (k, p) ∈ indexMap ix → is_Some (ix_heap ix !! p)) →
  ∃ files, fileIndexes ix = Some files
    ∧ ∀ n, n ∈ files ↔
        ∃ k p r, (k, p) ∈ indexMap ix ∧ ix_heap ix !! p = Some r
                 ∧ Z.land (nStatus r) BLOCK_HAVE_DATA ≠ 0 ∧ nFile r = n.
Proof.
  intros Hheap.
  destruct (collectFileIndexes_spec (ix_heap ix) (indexMap ix) ∅ Hheap)
    as (files & Hrun & Hfiles).
  exists files. split; [done|]. intros n. rewrite Hfiles. set_solver.
Qed.

#[local] Instance pair_le_total : Total pair_le.
Proof. intros [h1 p1] [h2 p2]. unfold pair_le. simpl. lia. Qed.

#[local] Instance pair_le_trans : Transitive pair_le.
Proof. intros [h1 p1] [h2 p2] [h3 p3]. unfold pair_le. simpl. lia. Qed.

#[local] Instance pair_le_antisymm : AntiSymm (=) pair_le.
Proof.
  intros [h1 p1] [h2 p2]. unfold pair_le. simpl. intros H1 H2.
  f_equal; lia.
Qed.

Lemma heightPairs_spec (heap : Heap) (nodes : list (uint256 * ptr)) :
  (∀ k p, (k, p) ∈ nodes → is_Some (heap !! p)) →
  ∃ pairs, heightPairs heap nodes = Some pairs
    ∧ length pairs = length nodes
    ∧ ∀ h p, (h, p) ∈ pairs ↔
        ∃ k r, (k, p) ∈ nodes ∧ heap !! p = Some r ∧ nHeight r = h.
Proof.
  induction nodes as [|[k0 p0] rest IH]; intros Hheap; simpl.
  { exists []. repeat split; try done.
    - by intros ?%elem_of_nil.
    - intros (k & r & ?%elem_of_nil & _). done. }
  destruct (Hheap k0 p0 ltac:(left)) as [r0 Hr0]. rewrite Hr0. simpl.
  destruct IH as (pairs & -> & Hlen & Hpairs).
  { intros k p Hin. apply (Hheap k p). by right. }
  simpl. eexists. split; [done|]. split; [simpl; by rewrite Hlen|].
  intros h p. rewrite elem_of_cons, Hpairs. split.
  - intros [Heq|(k & r & Hin & Hr & Hh)].
    + simplify_eq. exists k0, r0. repeat split; try done. left.
    + exists k, r. repeat split; try done. by right.
  - intros (k & r & Hin & Hr & Hh). apply elem_of_cons in Hin as [Heq|Hin].
    + left. congruence.
    + right. by exists k, r.
Qed.

(** X4.  [allByHeight] returns one pair (height, record) for every node of
    the map, as many pairs as the map has nodes, in ascending order of
    height (and of address at equal heights); it is the only sorted
    arrangement of these pairs, and in an index whose parents stand at
    lower heights every record comes after its parent when the parent is
    in the map. *)
Theorem allByHeight_sorted (ix : Index) :
  (∀ k p, (k, p) ∈ indexMap ix → is_Some (ix_heap ix !! p)) →
  ∃ l, allByHeight ix = Some l
    ∧ Z.of_nat (length l) = Index_size (indexMap ix)
    ∧ (∀ h p, (h, p) ∈ l ↔
         ∃ k r, (k, p) ∈ indexMap ix ∧ ix_heap ix !! p = Some r ∧ nHeight r = h)
    ∧ (∀ i j a b, (i < j)%nat → l !! i = Some a → l !! j = Some b → a.1 ≤ b.1)
    ∧ (∀ l' pairs, heightPairs (ix_heap ix) (indexMap ix) = Some pairs →
         l' ≡ₚ pairs → Sorted pair_le l' → l' = l)
    ∧ (parentsBelow (ix_heap ix) →
       ∀ j h p r q, l !! j = Some (h, p) → ix_heap ix !! p = Some r →
         pprev r = Some q → (∃ k, (k, q) ∈ indexMap ix) →
         ∃ i hq, (i < j)%nat ∧ l !! i = Some (hq, q)).
Proof.
  intros Hheap. unfold allByHeight.
  destruct (heightPairs_spec (ix_heap ix) (indexMap ix) Hheap)
    as (pairs & Hrun & Hlen & Hpairs).
  rewrite Hrun. simpl. eexists. split; [done|].
  pose proof (merge_sort_Permutation pair_le pairs) as Hperm.
  pose proof (StronglySorted_merge_sort pair_le pairs) as Hsorted.
  set (l := merge_sort pair_le pairs) in *.
  assert (Hmem : ∀ h p, (h, p) ∈ l ↔
            ∃ k r, (k, p) ∈ indexMap ix ∧ ix_heap ix !! p = Some r ∧ nHeight r = h).
  { intros h p. by rewrite Hperm. }
  assert (Horder : ∀ i j a b, (i < j)%nat → l !! i = Some a → l !! j = Some b
                              → pair_le a b).
  { clearbody l. clear -Hsorted. induction Hsorted as [|x l Hs IH Hall];
      intros i j a b Hij Ha Hb; [done|].
    destruct j as [|j]; [lia|]. simpl in Hb. destruct i as [|i]; simpl in Ha.
    - simplify_eq. rewrite Forall_forall in Hall. apply Hall.
      by eapply list_elem_of_lookup_2.
    - apply (IH i j); (done || lia). }
  split. { rewrite Hperm, Hlen. done. }
  split; [done|]. split.
  { intros i j a b Hij Ha Hb. specialize (Horder i j a b Hij Ha Hb).
    unfold pair_le in Horder. lia. }
  split.
  { intros l' pairs' Hp' Hperm' Hs'. assert (pairs' = pairs) as -> by congruence.
    apply (Sorted_unique pair_le); [done|by apply StronglySorted_Sorted|].
    by rewrite Hperm', Hperm. }
  intros Hwf j h p r q Hj Hr Hprev [k Hk].
  destruct (Hwf p r q Hr Hprev) as (rq & Hrq & Hlt).
  assert (Hq : (nHeight rq, q) ∈ l) by (apply Hmem; by exists k, rq).
  apply list_elem_of_lookup in Hq as [i Hi].
  assert (Hh : h = nHeight r).
  { apply list_elem_of_lookup_2 in Hj. apply Hmem in Hj as (k' & r' & _ & Hr' & Hh).
    congruence. }
  exists i, (nHeight rq). split; [|done].
  destruct (decide (i < j)%nat) as [|Hge]; [done|exfalso].
  destruct (decide (i = j)) as [->|Hne].
  - rewrite Hi in Hj. simplify_eq. lia.
  - specialize (Horder j i _ _ ltac:(lia) Hj Hi). unfold pair_le in Horder.
    simpl in Horder. lia.
Qed.
(** ** Appending a valid header *)

Lemma skipFailed_valid (heap : Heap) (fuel : nat) (p : ptr) (r : CBlockIndex) :
  heap !! p = Some r → isFailed r = false → skipFailed heap fuel p = Some p.
Proof. intros Hp Hv. destruct fuel; simpl; by rewrite Hp; simpl; rewrite Hv. Qed.

Lemma findExtendedTip_spec (heap : Heap) (block : ptr) (tips : list ptr) :
  (∀ tip, tip ∈ tips → is_Some (heap !! tip)) →
  ∀ i : nat,
  (findExtendedTip heap block tips i = Some None
   ∧ ∀ tip t, tip ∈ tips → heap !! tip = Some t
              → GetAncestor heap block (nHeight t) ≠ Some tip)
  ∨ ∃ j tip t,
      findExtendedTip heap block tips i = Some (Some ((i + j)%nat, tip))
      ∧ tips !! j = Some tip ∧ heap !! tip = Some t
      ∧ GetAncestor heap block (nHeight t) = Some tip.
Proof.
  induction tips as [|tip0 tips IH]; intros Hheap i; simpl.
  { left. split; [done|]. by intros tip t ?%elem_of_nil. }
  destruct (Hheap tip0 ltac:(left)) as [t0 Ht0]. rewrite Ht0. simpl.
  case_bool_decide as Hanc.
  - right. exists 0%nat, tip0, t0. by rewrite Nat.add_0_r.
  - assert (Hrest : ∀ tip, tip ∈ tips → is_Some (heap !! tip))
      by (intros tip Hin; apply Hheap; by right).
    destruct (IH Hrest (S i))
      as [[Hrun Hnone]|(j & tip & t & Hrun & Hj & Ht & Hext)].
    + left. split; [done|]. intros tip t [->|Hin]%elem_of_cons Ht.
      * congruence.
      * by apply (Hnone tip t).
    + right. exists (S j), tip, t. split; [|done].
      rewrite Hrun. do 3 f_equal. lia.
Qed.

Lemma scanTips_valid (heap : Heap) (b : ptr) (r : CBlockIndex) (chain : CChain)
  (tips : list ptr) :
  heap !! b = Some r →
  ∀ kept : list ptr,
  scanTips heap b (nHeight r) true tips (mkTipScan kept b false false chain false)
  = Some (if bool_decide (Exists (λ tip, GetAncestor heap tip (nHeight r) = Some b) tips)
          then ScanReturnFalse (kept ++ tips) chain
          else ScanDone (mkTipScan (kept ++ tips) b false false chain false)).
Proof.
  intros Hb. induction tips as [|tip tips IH]; intros kept;
    cbn [scanTips ts_kept ts_validPrev ts_modified ts_alreadyContains ts_chain
         ts_modifyingMainChain].
  { rewrite bool_decide_eq_false_2, app_nil_r; [done|]. by intros ?%Exists_nil. }
  destruct (decide (GetAncestor heap tip (nHeight r) = Some b)) as [Hanc|Hanc].
  - rewrite (bool_decide_eq_true_2 _ Hanc).
    rewrite bool_decide_eq_true_2; [done|]. by left.
  - rewrite (bool_decide_eq_false_2 _ Hanc), Hb. cbn [mbind option_bind].
    rewrite (bool_decide_eq_false_2 _ Hanc).
    rewrite IH, <- app_assoc. cbn [app]. f_equal.
    destruct (decide (Exists (λ tip, GetAncestor heap tip (nHeight r) = Some b) tips))
      as [Hex|Hex].
    + rewrite !bool_decide_eq_true_2; [done|by right|done].
    + rewrite !bool_decide_eq_false_2; [done| |done].
      by intros [?|?]%Exists_cons.
Qed.

(** X5.  A header without failure flag, with its hash set, that the tree
    already holds, on the main chain, or below a tip while it extends no
    tip, is refused by [appendHeader]: the call returns false and leaves
    the tips, the main chain and the best header as they are, and so does
    a second call. *)
Theorem appendHeader_known_header_is_noop (heap : Heap) (d : ChainSet) (b : ptr)
  (r : CBlockIndex) :
  heap !! b = Some r → is_Some (phashBlock r) → isFailed r = false →
  Chain_Contains heap (headersChain d) b = true
  ∨ ((∀ tip, tip ∈ headerChainTips d → is_Some (heap !! tip))
     ∧ (∀ tip t, tip ∈ headerChainTips d → heap !! tip = Some t
                 → GetAncestor heap b (nHeight t) ≠ Some tip)
     ∧ ∃ tip, tip ∈ headerChainTips d ∧ GetAncestor heap tip (nHeight r) = Some b) →
  appendHeader heap d b = Some (d, false)
  ∧ (r' ← appendHeader heap d b; appendHeader heap r'.1 b) = Some (d, false).
Proof.
  intros Hb [a Ha] Hvalid Hknown.
  assert (Hrun : appendHeader heap d b = Some (d, false)).
  { unfold appendHeader. rewrite Hb. simpl. rewrite Ha. simpl. rewrite Hvalid. simpl.
    destruct (Chain_Contains heap (headersChain d) b) eqn:Hcontains; [done|].
    destruct Hknown as [?|(Hheap & Hnoext & tip & Htip & Hanc)]; [done|].
    rewrite (skipFailed_valid heap _ b r Hb Hvalid). simpl.
    destruct (findExtendedTip_spec heap b (headerChainTips d) Hheap 0)
      as [[-> _]|(j & tip' & t' & _ & Hj & Ht' & Hext)].
    - simpl. rewrite (scanTips_valid heap b r _ _ Hb).
      rewrite bool_decide_eq_true_2.
      + simpl. by destruct d.
      + apply Exists_exists. by exists tip.
    - exfalso. apply (Hnoext tip' t'); [by eapply list_elem_of_lookup_2|done|done]. }
  split; [done|]. rewrite Hrun. simpl. done.
Qed.

Lemma firstExtended_unique (heap : Heap) (b : ptr) (tips : list ptr) (i j : nat)
  (x y : ptr) :
  firstExtended heap b tips i x → firstExtended heap b tips j y → i = j ∧ x = y.
Proof.
  intros (Hi & Hx & Hfi) (Hj & Hy & Hfj).
  destruct (Nat.lt_trichotomy i j) as [Hlt|[->|Hlt]].
  - by destruct (Hfj i x Hlt Hi).
  - split; [done|congruence].
  - by destruct (Hfi j y Hlt Hj).
Qed.

Lemma findExtendedTip_first (heap : Heap) (block : ptr) (tips : list ptr) :
  (∀ tip, tip ∈ tips → is_Some (heap !! tip)) →
  ∀ i : nat,
  (findExtendedTip heap block tips i = Some None
   ∧ ∀ tip, tip ∈ tips → ¬ extendsTip heap block tip)
  ∨ ∃ j tip,
      findExtendedTip heap block tips i = Some (Some ((i + j)%nat, tip))
      ∧ firstExtended heap block tips j tip.
Proof.
  induction tips as [|tip0 tips IH]; intros Hheap i; simpl.
  { left. split; [done|]. by intros tip ?%elem_of_nil. }
  destruct (Hheap tip0 ltac:(left)) as [t0 Ht0]. rewrite Ht0. simpl.
  case_bool_decide as Hanc.
  - right. exists 0%nat, tip0. rewrite Nat.add_0_r. split; [done|].
    split; [done|]. split; [by exists t0|]. intros j tip' Hj. lia.
  - assert (Hno : ¬ extendsTip heap block tip0).
    { intros (t & Ht & Hext). congruence. }
    assert (Hrest : ∀ tip, tip ∈ tips → is_Some (heap !! tip))
      by (intros tip Hin; apply Hheap; by right).
    destruct (IH Hrest (S i)) as [[Hrun Hnone]|(j & tip & Hrun & Hj & Hext & Hfirst)].
    + left. split; [done|]. intros tip [->|Hin]%elem_of_cons; [done|by apply Hnone].
    + right. exists (S j), tip. split; [rewrite Hrun; do 3 f_equal; lia|].
      split; [done|]. split; [done|].
      intros [|j'] tip' Hlt Hl; simpl in Hl; [by injection Hl as <-|].
      apply (Hfirst j' tip'); [lia|done].
Qed.

(** X6.  In a state whose tips are records of the heap, whose main tip, if
    there is one, is a record at a height of at least 0, and which has no
    tips when it has no main chain: a header without failure flag that is
    on no tip's chain and not on the main chain becomes a tip.
    [appendHeader] returns, and the new tips are the old ones with the
    header appended at the end, less the first of the tips that the header
    extends; when it extends none, no tip is removed.  The main chain and
    the best header move to the header, and the call returns true, exactly
    when there was no main chain, or the removed tip was the main tip, or
    the header carries strictly more work than the main tip; in every
    other case they stay as they are and the call returns false. *)
Theorem appendHeader_new_header (heap : Heap) (d : ChainSet) (b : ptr) (r : CBlockIndex) :
  heap !! b = Some r → is_Some (phashBlock r) → isFailed r = false →
  (∀ tip, tip ∈ headerChainTips d → is_Some (heap !! tip)) →
  (∀ tip, tip ∈ headerChainTips d → GetAncestor heap tip (nHeight r) ≠ Some b) →
  Chain_Contains heap (headersChain d) b = false →
  (headersChain d = None → headerChainTips d = []) →
  (∀ m, headersChain d = Some m → ∃ rm, heap !! m = Some rm ∧ 0 ≤ nHeight rm) →
  let moves :=
    headersChain d = None
    ∨ (∃ i m, headersChain d = Some m ∧ firstExtended heap b (headerChainTips d) i m)
    ∨ (∃ m rm, headersChain d = Some m ∧ heap !! m = Some rm
               ∧ nChainWork rm < nChainWork r) in
  ∃ d' changed rest,
    appendHeader heap d b = Some (d', changed)
    ∧ headerChainTips d' = rest ++ [b]
    ∧ ((∀ tip, tip ∈ headerChainTips d → ¬ extendsTip heap b tip) →
       rest = headerChainTips d)
    ∧ (∀ i tip, firstExtended heap b (headerChainTips d) i tip →
       rest = delete i (headerChainTips d))
    ∧ (moves →
       headersChain d' = Some b ∧ pindexBestHeader d' = Some b ∧ changed = true)
    ∧ (¬ moves →
       headersChain d' = headersChain d ∧ pindexBestHeader d' = pindexBestHeader d
       ∧ changed = false).
Proof.
  intros Hb [a Ha] Hvalid Hheap Hnew Hcontains Hnone Hmain moves.
  unfold appendHeader. rewrite Hb. simpl. rewrite Ha. simpl. rewrite Hvalid. simpl.
  rewrite Hcontains. rewrite (skipFailed_valid heap _ b r Hb Hvalid). simpl.
  destruct (findExtendedTip_first heap b (headerChainTips d) Hheap 0)
    as [[-> Hnoext]|(j & tip & -> & Hfirst)]; simpl.
  - rewrite (scanTips_valid heap b r _ _ Hb).
    rewrite bool_decide_eq_false_2.
    2:{ intros (tip & Hin & Hanc)%Exists_exists. by apply (Hnew tip). }
    assert (Hrest : ∀ i tip, firstExtended heap b (headerChainTips d) i tip →
                    headerChainTips d = delete i (headerChainTips d)).
    { intros i tip (Hi & Hext & _). apply list_elem_of_lookup_2 in Hi.
      by destruct (Hnoext tip Hi). }
    simpl. destruct (headersChain d) as [m|] eqn:Hchain; simpl.
    + destruct (Hmain m eq_refl) as (rm & Hrm & Hh). rewrite Hrm. simpl.
      destruct (Z.eqb_spec (nHeight rm) (-1)) as [?|_]; [lia|].
      unfold electMainChain. simpl. rewrite Hrm, Hb. simpl.
      destruct (Z.ltb_spec (nChainWork rm) (nChainWork r)) as [Hwork|Hwork].
      * eexists _, _, _. split; [done|]. simpl. split; [done|]. split; [done|].
        split; [done|]. split; [done|]. intros Hno. destruct Hno.
        right. right. by exists m, rm.
      * eexists _, _, _. split; [done|]. simpl. split; [done|]. split; [done|].
        split; [done|]. split; [|done].
        intros [?|[(i & m' & _ & Hi & Hext & _)|(m' & rm' & [= <-] & Hrm' & Hlt)]];
          [done| |].
        -- apply list_elem_of_lookup_2 in Hi. by destruct (Hnoext m' Hi).
        -- assert (rm' = rm) as -> by congruence. lia.
    + eexists _, _, _. split; [done|]. simpl. split; [done|]. split; [done|].
      split; [done|]. split; [done|]. intros Hno. destruct Hno. by left.
  - assert (Hin : tip ∈ headerChainTips d)
      by (destruct Hfirst as (Hj & _); by apply list_elem_of_lookup_2 in Hj).
    assert (Hnoall : (∀ tip0, tip0 ∈ headerChainTips d → ¬ extendsTip heap b tip0) →
                     delete j (headerChainTips d) = headerChainTips d).
    { intros Hno. destruct Hfirst as (_ & Hext & _). by destruct (Hno tip Hin). }
    assert (Hrest : ∀ i tip0, firstExtended heap b (headerChainTips d) i tip0 →
                    delete j (headerChainTips d) = delete i (headerChainTips d)).
    { intros i tip0 Hi. by destruct (firstExtended_unique _ _ _ _ _ _ _ Hfirst Hi) as [-> _]. }
    destruct (headersChain d) as [m|] eqn:Hchain.
    2:{ rewrite (Hnone eq_refl) in Hin. by apply elem_of_nil in Hin. }
    destruct (Hmain m eq_refl) as (rm & Hrm & Hh). simpl.
    destruct (decide (tip = m)) as [->|Hne].
    + rewrite bool_decide_eq_true_2 by done.
      eexists _, _, _. split; [done|]. simpl. split; [done|]. split; [done|].
      split; [done|]. split; [done|]. intros Hno. destruct Hno.
      right. left. by exists j, m.
    + rewrite bool_decide_eq_false_2 by (unfold Chain_Tip; congruence).
      unfold electMainChain. simpl. rewrite Hrm, Hb. simpl.
      destruct (Z.ltb_spec (nChainWork rm) (nChainWork r)) as [Hwork|Hwork].
      * eexists _, _, _. split; [done|]. simpl. split; [done|]. split; [done|].
        split; [done|]. split; [done|]. intros Hno. destruct Hno.
        right. right. by exists m, rm.
      * eexists _, _, _. split; [done|]. simpl. split; [done|]. split; [done|].
        split; [done|]. split; [|done].
        intros [?|[(i & m' & [= <-] & Hi)|(m' & rm' & [= <-] & Hrm' & Hlt)]];
          [done| |].
        -- by destruct (firstExtended_unique _ _ _ _ _ _ _ Hfirst Hi) as [_ ?].
        -- assert (rm' = rm) as -> by congruence. lia.
Qed.

Lemma scanTips_invalid (heap : Heap) (b : ptr) (h : Z) (tips : list ptr) :
  ∀ (acc : TipScan) (out : ScanOutcome),
  scanTips heap b h false tips acc = Some out →
  ∃ acc', out = ScanDone acc'
    ∧ (ts_modified acc' = false → ts_kept acc' = ts_kept acc ++ tips)
    ∧ (ts_alreadyContains acc' = true → ts_alreadyContains acc = true ∨ ts_kept acc' ≠ [])
    ∧ (ts_kept acc ≠ [] → ts_kept acc' ≠ [])
    ∧ (ts_modified acc = true → ts_modified acc' = true)
    ∧ (ts_chain acc ≠ None → ts_chain acc' ≠ None)
    ∧ (tips = [] → acc' = acc).
Proof.
  induction tips as [|tip tips IH]; intros acc out Hrun; simpl in Hrun.
  { simplify_eq. eexists. split; [done|]. rewrite app_nil_r. by repeat split; auto. }
  destruct (bool_decide (GetAncestor heap tip h = Some b)).
  - apply IH in Hrun as (acc' & -> & Hmod & Hal & Hkept & Hmono & Hchain & _). simpl in *.
    exists acc'. split; [done|].
    split. { intros Hm. rewrite (Hmono eq_refl) in Hm. done. }
    split; [done|]. split; [done|]. split; [auto|]. split; [|done].
    intros Hc. apply Hchain. by destruct (Chain_Contains _ _ _).
  - destruct (heap !! ts_validPrev acc) as [vp|]; [|done]. simpl in Hrun.
    destruct (bool_decide (GetAncestor heap tip (nHeight vp) = Some (ts_validPrev acc))).
    + destruct (heap !! tip) as [t|]; [|done]. simpl in Hrun.
      apply IH in Hrun as (acc' & -> & Hmod & Hal & Hkept & Hmono & Hchain & _). simpl in *.
      exists acc'. split; [done|].
      split. { intros Hm. rewrite (Hmod Hm), <- app_assoc. done. }
      split. { intros _. right. apply Hkept. by destruct (ts_kept acc). }
      split. { intros _. apply Hkept. by destruct (ts_kept acc). }
      done.
    + apply IH in Hrun as (acc' & -> & Hmod & Hal & Hkept & Hmono & Hchain & _). simpl in *.
      exists acc'. split; [done|].
      split. { intros Hm. rewrite (Hmod Hm), <- app_assoc. done. }
      split; [done|].
      split. { intros _. apply Hkept. by destruct (ts_kept acc). }
      done.
Qed.

Lemma electMainChain_inv (heap : Heap) (tips : list ptr) (chain : CChain)
  (best : option ptr) (validPrev block : ptr) (m : bool) (d' : ChainSet) (c : bool) :
  electMainChain heap tips chain best validPrev block m = Some (d', c) →
  chain ≠ None
  ∧ headerChainTips d' = tips
  ∧ headersChain d' ≠ None
  ∧ (pindexBestHeader d' = best ∨ pindexBestHeader d' = Some block).
Proof.
  unfold electMainChain. destruct chain as [tip|]; [|done]. simpl.
  destruct (heap !! tip) as [t|]; [|done]. simpl.
  destruct (heap !! validPrev) as [vp|]; [|done]. simpl.
  destruct (nChainWork t <? nChainWork vp); intros [= <- <-]; simpl; auto.
Qed.

Lemma appendHeader_settles (heap : Heap) (d d' : ChainSet) (b : ptr) (c : bool) :
  d = emptyChainSet ∨ tipsSettled d →
  appendHeader heap d b = Some (d', c) →
  tipsSettled d'.
Proof.
  intros Hd. unfold appendHeader.
  destruct (heap !! b) as [r|] eqn:Hb; [|done]. simpl.
  destruct (phashBlock r) as [a|]; [|done]. simpl.
  destruct (negb (negb (isFailed r)) && bool_decide (pprev r = None)); [done|].
  destruct (isFailed r) eqn:Hfailed; simpl.
  - (* a failed record *)
    destruct (pprev r) as [start|]; [|done]. simpl.
    destruct (skipFailed heap (length heap) start) as [validPrev|]; [|done]. simpl.
    destruct (findExtendedTip heap b (headerChainTips d) 0) as [[[i tip]|]|]; [| |done];
      simpl.
    + destruct (bool_decide (Some tip = Chain_Tip (headersChain d))).
      * intros [= <- <-]. repeat split; simpl; try done. by destruct (delete i _).
      * intros (Hsome & Htips & Hchain & Hbest)%electMainChain_inv.
        destruct Hd as [->|(_ & Hbst & _)]; [done|].
        split; [done|]. split. { by destruct Hbest as [->| ->]. }
        rewrite Htips. by destruct (delete i _).
    + destruct (scanTips heap b (nHeight r) false (headerChainTips d) _) as [out|] eqn:Hscan;
        [|done]. simpl.
      apply scanTips_invalid in Hscan as (acc' & -> & Hmod & Hal & _ & _ & _ & Hnil).
      simpl in *.
      destruct (Chain_Height heap (ts_chain acc')) as [h|]; [|done]. simpl.
      intros (Hsome & Htips & Hchain & Hbest)%electMainChain_inv.
      destruct Hd as [->|(Hc & Hbst & Ht)].
      { rewrite (Hnil eq_refl) in Hsome. done. }
      split; [done|]. split. { by destruct Hbest as [->| ->]. }
      rewrite Htips. destruct (ts_modified acc') eqn:Hm; simpl.
      * destruct (ts_alreadyContains acc') eqn:Hc'; simpl.
        -- by destruct (Hal eq_refl).
        -- by destruct (ts_kept acc').
      * by rewrite (Hmod eq_refl).
  - (* a valid record *)
    destruct (Chain_Contains heap (headersChain d) b) eqn:Hcontains.
    { intros [= <- <-]. destruct Hd as [->|?]; [|done].
      unfold Chain_Contains in Hcontains. rewrite Hb in Hcontains. done. }
    rewrite (skipFailed_valid heap _ b r Hb Hfailed). simpl.
    destruct (findExtendedTip heap b (headerChainTips d) 0) as [[[i tip]|]|]; [| |done];
      simpl.
    + destruct (bool_decide (Some tip = Chain_Tip (headersChain d))).
      * intros [= <- <-]. repeat split; simpl; try done. by destruct (delete i _).
      * intros (Hsome & Htips & Hchain & Hbest)%electMainChain_inv.
        destruct Hd as [->|(_ & Hbst & _)]; [done|].
        split; [done|]. split. { by destruct Hbest as [->| ->]. }
        rewrite Htips. by destruct (delete i _).
    + rewrite (scanTips_valid heap b r _ _ Hb). simpl.
      destruct (bool_decide (Exists _ (headerChainTips d))) eqn:Hex; simpl.
      * intros [= <- <-]. destruct Hd as [->|?]; [|by destruct d].
        apply bool_decide_eq_true in Hex. by apply Exists_nil in Hex.
      * destruct (Chain_Height heap (headersChain d)) as [h|]; [|done]. simpl.
        destruct (h =? -1).
        -- intros [= <- <-]. repeat split; simpl; try done.
           by destruct (headerChainTips d).
        -- intros (Hsome & Htips & Hchain & Hbest)%electMainChain_inv.
           destruct Hd as [->|(_ & Hbst & _)]; [done|].
           split; [done|]. split. { by destruct Hbest as [->| ->]. }
           rewrite Htips. by destruct (headerChainTips d).
Qed.

(** X7.  After any non-empty run of [appendHeader] calls that starts from
    the empty state and in which every call returns, there is a main tip, a
    best header and at least one tip.  On the empty state [appendHeader]
    does not return for a header that carries a failure flag: the call
    stops at one of its assertions, the one on the parent of the header or
    the one on the main tip, or in the walk along the failed ancestors of
    the header. *)
Theorem appendHeaders_leave_a_main_tip (heap : Heap) (b : ptr) (blocks : list ptr)
  (d : ChainSet) :
  appendHeaders heap emptyChainSet (b :: blocks) = Some d →
  tipsSettled d
  ∧ ∀ block, (∃ r, heap !! block = Some r ∧ isFailed r = true) →
      appendHeader heap emptyChainSet block = None.
Proof.
  intros Hrun. split.
  - assert (Hgen : ∀ bs d0, tipsSettled d0 → appendHeaders heap d0 bs = Some d
                            → tipsSettled d).
    { induction bs as [|b1 bs IH]; intros d0 Hd0 Hbs; simpl in Hbs; [by simplify_eq|].
      destruct (appendHeader heap d0 b1) as [[d1 c]|] eqn:Hstep; [|done].
      simpl in Hbs. apply (IH d1); [|done].
      eapply appendHeader_settles; [by right|done]. }
    simpl in Hrun.
    destruct (appendHeader heap emptyChainSet b) as [[d1 c]|] eqn:Hstep; [|done].
    simpl in Hrun. apply (Hgen blocks d1); [|done].
    eapply appendHeader_settles; [by left|done].
  - intros block (r & Hr & Hfailed).
    destruct (appendHeader heap emptyChainSet block) as [[d1 c]|] eqn:Hstep; [|done].
    exfalso. revert Hstep. unfold appendHeader. rewrite Hr. simpl.
    destruct (phashBlock r); [|done]. simpl. rewrite Hfailed. simpl.
    destruct (bool_decide (pprev r = None)); [done|].
    destruct (pprev r) as [start|]; [|done]. simpl.
    destruct (skipFailed heap (length heap) start); [|done]. simpl.
    unfold electMainChain. done.
Qed.

(** ** The file mapper *)

(** X8.  [mapFile] fails with an out-of-range error for a negative file
    index.  For any other index it stops at the assertion of the deleter
    exactly when it maps the file afresh and the mapping that then leaves
    the history of open files, referenced from nowhere else, names a slot
    outside its vector ([cleanupStops]); otherwise it returns.  A call that
    returns changes neither the files on disk, nor the block directories,
    nor the file infos, nor the last file number, nor the set of dirty
    files; a slot vector changes its length only when it is too short for
    the file and grows to [fileIndex + 10]; the slot of the file holds the
    returned mapping; every other slot keeps its content, except that the
    slot of the mapping whose deleter ran is reset to null when it still
    held that mapping ([slotAfterCleanup]); the history of open files stays
    within ten entries and within the slot vectors; and a second call
    returns the same mapping without changing the store again.  When the
    slot held a live mapping the store is unchanged.  When it held none,
    the mapping is a new one of the file found by [getFilepathForIndex], at
    its current size, writable unless the file is read-only or a block file
    other than the last one, and it enters the history, which the oldest
    of ten entries leaves; a missing file gives no mapping. *)
Theorem mapFile_frame (s : FileStore) (fileIndex : Z) (type : BlockType) :
  (fileIndex < 0 → mapFile s fileIndex type = Err OutOfRange)
  ∧ (0 ≤ fileIndex →
     if cleanupStops s type fileIndex
     then mapFile s fileIndex type = Err AssertionFailure
     else
       ∃ s1 buf,
         mapFile s fileIndex type = Ok (s1, buf)
         ∧ mapFile s1 fileIndex type = Ok (s1, buf)
         ∧ slots s1 type !! Z.to_nat fileIndex = Some buf
         ∧ disk s1 = disk s ∧ blocksDataDirs s1 = blocksDataDirs s
         ∧ vinfoBlockFile s1 = vinfoBlockFile s ∧ nLastBlockFile s1 = nLastBlockFile s
         ∧ setDirtyFileInfo s1 = setDirtyFileInfo s
         ∧ (∀ t, length (slots s1 t) = length (slots (grownStore s type fileIndex) t))
         ∧ Z.of_nat (length (slots (grownStore s type fileIndex) type))
           = (if Z.of_nat (length (slots s type)) <=? fileIndex
              then fileIndex + 10 else Z.of_nat (length (slots s type)))
         ∧ (∀ other, other ≠ type →
              slots (grownStore s type fileIndex) other = slots s other)
         ∧ (∀ t j, (t, j) ≠ (type, Z.to_nat fileIndex) →
              slots s1 t !! j
              = slotAfterCleanup (dropped s type fileIndex)
                  (grownStore s type fileIndex) t j)
         ∧ ((length (fileHistory s) ≤ 10)%nat → (length (fileHistory s1) ≤ 10)%nat)
         ∧ (historyInRange s → historyInRange s1)
         ∧ match slots s type !! Z.to_nat fileIndex with
           | Some (Some df) => buf = Some df ∧ s1 = s
           | _ =>
               buf = freshMapping s type fileIndex <$> blockFile s type fileIndex
               ∧ fileHistory s1
                 = match blockFile s type fileIndex with
                   | Some f => historyWith s (freshMapping s type fileIndex f)
                   | None => fileHistory s
                   end
           end).
Proof.
  split; [apply mapFile_negative|].
  intros Hidx. destruct (cleanupStops s type fileIndex) eqn:Hstop.
  { by apply mapFile_stops. }
  destruct (mapFile_returns s fileIndex type Hidx Hstop) as (s1 & buf & Hrun).
  destruct (mapFile_history _ _ _ _ _ Hrun) as [Hrange Hten].
  destruct (mapFile_effect _ _ _ _ _ Hrun)
    as (_ & _ & Hslot & Hdisk & Hdirs & Hv & Hlast & Hd & _ & Hlen & Hslots & Hcase).
  exists s1, buf. split; [done|]. split.
  { apply mapFile_again; [done|done|]. intros ->.
    unfold blockFile, resolved. rewrite Hdisk, Hdirs.
    fold (resolved s type fileIndex). fold (blockFile s type fileIndex).
    destruct (slots s type !! Z.to_nat fileIndex) as [[df|]|];
      destruct Hcase as [Hbuf _]; [done|..];
      by destruct (blockFile s type fileIndex). }
  repeat (split; [done|]).
  split. { rewrite slots_grownStore, decide_True by done.
           by apply length_grownSlots. }
  split. { intros other Hne. by rewrite slots_grownStore, decide_False. }
  by repeat (split; [done|]).
Qed.

(** X9.  [getFilepathForIndex] without [fFindHarder] answers the path in
    the data directory.  With it, it answers that path when the file
    exists there, and otherwise the path in the first block directory, in
    the order of the configuration, that holds the file; when no directory
    holds the file it falls back to the path in the data directory.  The
    answered path exists exactly when the file exists in the data directory
    or in one of the block directories. *)
Theorem getFilepathForIndex_search (d : Disk) (dirs : list string) (fileIndex : Z)
  (prefix : BlockType) :
  let primary := mkPath DataDir prefix fileIndex in
  let alt := λ dir, mkPath (BlockDataDir dir) prefix fileIndex in
  let found := getFilepathForIndex d dirs fileIndex prefix true in
  getFilepathForIndex d dirs fileIndex prefix false = primary
  ∧ (fileExists d primary = true → found = primary)
  ∧ (fileExists d primary = false →
     ∀ k dir, dirs !! k = Some dir → fileExists d (alt dir) = true →
       (∀ j dir', dirs !! j = Some dir' → (j < k)%nat → fileExists d (alt dir') = false) →
       found = alt dir)
  ∧ (fileExists d found = false → found = primary)
  ∧ (fileExists d found = true
     ↔ fileExists d primary = true ∨ ∃ dir, dir ∈ dirs ∧ fileExists d (alt dir) = true).
Proof.
  intros primary alt found. subst found. unfold getFilepathForIndex. fold primary.
  split; [done|].
  destruct (fileExists d primary) eqn:Hprim; simpl.
  { split; [done|]. split; [done|]. split; [by rewrite Hprim|].
    rewrite Hprim. split; [by left|done]. }
  split; [done|].
  destruct (list_find _ dirs) as [[k dir]|] eqn:Hfind.
  - apply list_find_Some in Hfind as (Hk & Hex & Hfirst). fold (alt dir) in *.
    split.
    { intros _ k' dir' Hk' Hex' Hfirst'.
      destruct (Nat.lt_trichotomy k k') as [Hlt|[->|Hgt]].
      - by rewrite (Hfirst' k dir Hk Hlt) in Hex.
      - congruence.
      - by destruct (Hfirst k' dir' Hk' Hgt). }
    split; [by rewrite Hex|].
    split; [|done]. intros _. right. exists dir.
    split; [by eapply list_elem_of_lookup_2|done].
  - apply list_find_None in Hfind. rewrite Forall_forall in Hfind.
    split.
    { intros _ k dir Hk Hex _. destruct (Hfind dir); [by eapply list_elem_of_lookup_2|done]. }
    split; [done|]. rewrite Hprim. split; [done|].
    intros [?|(dir & Hin & Hex)]; [done|]. by destruct (Hfind dir).
Qed.
(** ** Reading blocks and whole files *)

Lemma peek_inv (d : Disk) (df : DataFile) (off len : Z) (bytes : list byte) :
  peek d df off len = Ok bytes →
  ∃ f, d (df_path df) = Some f
    ∧ 0 ≤ off ∧ 0 ≤ len ∧ off + len ≤ df_filesize df ∧ off + len ≤ fileLength f
    ∧ bytes = slice off len (f_bytes f).
Proof.
  unfold peek. destruct (d (df_path df)) as [f|]; [|done].
  destruct (Z.leb_spec 0 off); [|done]. destruct (Z.leb_spec 0 len); [|done].
  destruct (Z.leb_spec (off + len) (df_filesize df)); [|done].
  destruct (Z.leb_spec (off + len) (fileLength f)); [|done].
  simpl. intros [= <-]. by exists f.
Qed.

Lemma u32_le (x : Z) : 0 ≤ x → u32 x ≤ x.
Proof. intros. unfold u32. apply Z.mod_le; lia. Qed.

Lemma length_slice (off len : Z) (bytes : list byte) :
  0 ≤ off → 0 ≤ len → off + len ≤ Z.of_nat (length bytes) →
  Z.of_nat (length (slice off len bytes)) = len.
Proof.
  intros. unfold slice. rewrite length_take, length_drop. lia.
Qed.

Lemma viewBytes_range (d : Disk) (df : DataFile) (f : DiskFile) (a b : Z) :
  d (df_path df) = Some f → 0 ≤ a ≤ b → b ≤ fileLength f →
  viewBytes d (mkConstBuffer (Some df) a b) = Some (slice a (b - a) (f_bytes f)).
Proof.
  intros Hf Hab Hb. unfold viewBytes. simpl. rewrite Hf. simpl.
  destruct (Z.leb_spec 0 a); [|lia]. destruct (Z.leb_spec a b); [|lia].
  by destruct (Z.leb_spec b (fileLength f)); [|lia].
Qed.

(** X10.  Whenever [loadUndoBlock] returns a view, the position is at least
    4, the view starts at the position and spans the length declared in the
    four bytes before it, the 32 bytes behind the view lie inside the file
    and are the double hash of the given block hash followed by the bytes
    of the view, and the files on disk are unchanged. *)
Theorem loadUndoBlock_authenticated (env : Env) (s s1 : FileStore) (pos : CDiskBlockPos)
  (origBlockHash : uint256) (v : ConstBuffer) :
  loadUndoBlock env s pos origBlockHash = Ok (s1, v) →
  ∃ df f payload,
    cb_buffer v = Some df
    ∧ disk s1 = disk s
    ∧ disk s (df_path df) = Some f
    ∧ 4 ≤ pos_nPos pos
    ∧ cb_begin v = pos_nPos pos
    ∧ cb_end v = pos_nPos pos + le32toh (slice (pos_nPos pos - 4) 4 (f_bytes f))
    ∧ cb_end v + 32 ≤ fileLength f
    ∧ viewBytes (disk s1) v = Some payload
    ∧ payload = slice (cb_begin v) (cb_end v - cb_begin v) (f_bytes f)
    ∧ slice (cb_end v) 32 (f_bytes f)
      = uint256_bytes (Hash256 env (uint256_bytes origBlockHash ++ payload)).
Proof.
  unfold loadUndoBlock, loadBlock.
  destruct (Z.ltb_spec (pos_nPos pos) 4) as [|H4]; [done|].
  destruct (mapFile s (pos_nFile pos) RevertBlock) as [[s2 [df|]]|] eqn:Hmap; simpl; try done.
  apply mapFile_inv in Hmap as (_ & _ & Hdisk & _).
  destruct (df_filesize df <=? pos_nPos pos); [done|].
  destruct (peek (disk s2) df (pos_nPos pos - 4) 4) as [size|] eqn:Hsize; [|done]. simpl.
  destruct (df_filesize df <? _); [done|]. simpl.
  destruct (peek (disk s2) df (pos_nPos pos) (le32toh size)) as [payload|] eqn:Hpay;
    [|done]. simpl.
  destruct (peek (disk s2) df (pos_nPos pos + le32toh size) 32) as [sum|] eqn:Hsum;
    [|done]. simpl.
  case_bool_decide as Hcmp; [done|]. intros [= <- <-].
  apply peek_inv in Hsize as (f & Hf & _ & _ & _ & _ & ->).
  apply peek_inv in Hpay as (f' & Hf' & _ & Hdecl & _ & _ & ->).
  apply peek_inv in Hsum as (f'' & Hf'' & _ & _ & _ & Hend & ->).
  assert (f' = f) as -> by congruence. assert (f'' = f) as -> by congruence.
  set (declared := le32toh (slice (pos_nPos pos - 4) 4 (f_bytes f))) in *.
  exists df, f, (slice (pos_nPos pos) declared (f_bytes f)). simpl.
  split; [done|]. split; [done|]. split; [by rewrite <- Hdisk|].
  split; [done|]. split; [done|]. split; [done|]. split; [done|].
  split. { rewrite (viewBytes_range _ df f) by (done || lia). do 2 f_equal. lia. }
  split. { f_equal. lia. }
  done.
Qed.

(** X11.  [loadBlockFile] of a file index whose slot is consistent: a
    missing file gives the empty (invalid) view, without an error; an
    existing file gives a valid view that starts at offset 0 and ends one
    byte before the end of the file, so it shows all bytes of the file but
    the last one, unless the mapping of the file stops at the assertion of
    a deleter ([cleanupStops]).  The files on disk are unchanged. *)
Theorem loadBlockFile_view (s : FileStore) (fileIndex : Z) :
  0 ≤ fileIndex →
  slotConsistent s ForwardBlock fileIndex →
  match blockFile s ForwardBlock fileIndex with
  | None =>
      ∃ s1, loadBlockFile s fileIndex = Ok (s1, emptyBuffer)
        ∧ isValid emptyBuffer = false ∧ disk s1 = disk s
  | Some f =>
      if cleanupStops s ForwardBlock fileIndex
      then loadBlockFile s fileIndex = Err AssertionFailure
      else
        ∃ s1 v, loadBlockFile s fileIndex = Ok (s1, v)
          ∧ isValid v = true ∧ disk s1 = disk s
          ∧ cb_begin v = 0 ∧ cb_end v = fileLength f - 1
          ∧ (0 < fileLength f →
             viewBytes (disk s1) v = Some (take (length (f_bytes f) - 1) (f_bytes f)))
  end.
Proof.
  intros Hidx Hslot. unfold loadBlockFile.
  destruct (cleanupStops s ForwardBlock fileIndex) eqn:Hstop.
  { destruct (blockFile s ForwardBlock fileIndex) as [f|] eqn:Hf.
    - by rewrite mapFile_stops.
    - by rewrite cleanupStops_missing in Hstop. }
  destruct (mapFile_mapped s fileIndex ForwardBlock Hidx Hslot Hstop)
    as (s1 & buf & -> & Hdisk & Hbuf). simpl.
  destruct (blockFile s ForwardBlock fileIndex) as [f|] eqn:Hf.
  - destruct Hbuf as (df & -> & Hpath & Hsize).
    eexists _, _. split; [done|]. simpl. rewrite Hsize.
    repeat (split; [done|]). intros Hpos.
    unfold blockFile in Hf. rewrite <- Hpath, <- Hdisk in Hf.
    rewrite (viewBytes_range _ df f) by (done || lia).
    unfold slice. rewrite drop_0. do 2 f_equal. unfold fileLength. lia.
  - subst buf. by exists s1.
Qed.

Lemma u32_wrapped (x : Z) : 2 ^ 32 ≤ x < 2 ^ 33 → u32 x = x - 2 ^ 32.
Proof.
  intros Hx. unfold u32.
  replace x with ((x - 2 ^ 32) + 1 * 2 ^ 32) at 1 by lia.
  rewrite Z_mod_plus_full. apply Z.mod_small. lia.
Qed.

(** X12.  When the length declared before a position is so large that the
    32-bit sum of position and length wraps around, [loadBlock] of a block
    does not report [BlockBiggerThanFile]: unless the mapping of the file
    stops at the assertion of a deleter ([cleanupStops]), it returns a view
    that ends behind the end of the file, whose bytes cannot be read. *)
Theorem loadBlock_length_wraps (env : Env) (s : FileStore) (pos : CDiskBlockPos)
  (f : DiskFile) :
  0 ≤ pos_nFile pos →
  slotConsistent s ForwardBlock (pos_nFile pos) →
  blockFile s ForwardBlock (pos_nFile pos) = Some f →
  fileLength f < 2 ^ 32 →
  4 ≤ pos_nPos pos < fileLength f →
  2 ^ 32 ≤ pos_nPos pos + le32toh (slice (pos_nPos pos - 4) 4 (f_bytes f)) →
  if cleanupStops s ForwardBlock (pos_nFile pos)
  then loadBlock env s pos ForwardBlock None = Err AssertionFailure
  else
    ∃ s1 v,
      loadBlock env s pos ForwardBlock None = Ok (s1, v)
      ∧ cb_begin v = pos_nPos pos
      ∧ cb_end v = pos_nPos pos + le32toh (slice (pos_nPos pos - 4) 4 (f_bytes f))
      ∧ fileLength f < cb_end v
      ∧ viewBytes (disk s1) v = None.
Proof.
  intros Hidx Hslot Hf Hsmall Hpos Hwrap.
  destruct (cleanupStops s ForwardBlock (pos_nFile pos)) eqn:Hstop.
  { unfold loadBlock. destruct (Z.ltb_spec (pos_nPos pos) 4); [lia|].
    by rewrite mapFile_stops. }
  destruct (mapFile_mapped s (pos_nFile pos) ForwardBlock Hidx Hslot Hstop)
    as (s1 & buf & Hmap & Hdisk & Hbuf).
  rewrite Hf in Hbuf. destruct Hbuf as (df & -> & Hpath & Hsize).
  unfold blockFile in Hf. rewrite <- Hpath, <- Hdisk in Hf.
  pose proof (le32toh_range (slice (pos_nPos pos - 4) 4 (f_bytes f))) as Hdecl.
  set (declared := le32toh (slice (pos_nPos pos - 4) 4 (f_bytes f))) in *.
  unfold loadBlock. destruct (Z.ltb_spec (pos_nPos pos) 4); [lia|].
  rewrite Hmap. simpl. rewrite Hsize.
  destruct (Z.leb_spec (fileLength f) (pos_nPos pos)); [lia|].
  rewrite (peek_in_file _ _ f) by (done || lia). simpl. fold declared.
  rewrite Z.add_0_r, u32_wrapped by lia.
  destruct (Z.ltb_spec (fileLength f) (pos_nPos pos + declared - 2 ^ 32)); [lia|].
  eexists _, _. split; [done|]. simpl. repeat (split; [done || lia|]).
  unfold viewBytes. simpl. rewrite Hf. simpl.
  destruct (Z.leb_spec (pos_nPos pos + declared) (fileLength f)); [lia|].
  by rewrite !andb_false_r.
Qed.

Lemma loadBlock_length_wraps_witness :
  ∃ s1 v,
    loadBlock plainEnv (storeWithBlk0 hugeLengthFile) (mkPos 0 8) ForwardBlock None
    = Ok (s1, v)
    ∧ cb_begin v = 8
    ∧ cb_end v = 8 + le32toh (slice (8 - 4) 4 hugeLengthFile)
    ∧ fileLength (mkDiskFile hugeLengthFile false) < cb_end v
    ∧ viewBytes (disk s1) v = None.
Proof.
  apply (loadBlock_length_wraps plainEnv (storeWithBlk0 hugeLengthFile) (mkPos 0 8)
           (mkDiskFile hugeLengthFile false)).
  - simpl. lia.
  - intros df Hdf. vm_compute in Hdf. discriminate Hdf.
  - reflexivity.
  - vm_compute. reflexivity.
  - vm_compute. split; [discriminate|reflexivity].
  - vm_compute. discriminate.
Defined.

(** ** The reindex scan *)

Lemma memchr_spec (bytes : list byte) (c : byte) (n k : nat) :
  memchr bytes c n = Some k → (k < n)%nat ∧ bytes !! k = Some c.
Proof.
  revert bytes k. induction n as [|n IH]; intros [|b bytes] k; simpl; try done.
  case_bool_decide as Hb.
  - intros [= <-]. split; [lia|]. by rewrite Hb.
  - destruct (memchr bytes c n) as [k'|] eqn:Hm; [|done]. simpl. intros [= <-].
    destruct (IH bytes k' Hm). split; [lia|done].
Qed.

Lemma framesFrom_weaken (env : Env) (bytes : list byte) (nFile lo lo' : Z)
  (l : list CDiskBlockPos) :
  lo' ≤ lo → framesFrom env bytes nFile lo l → framesFrom env bytes nFile lo' l.
Proof.
  intros Hle. destruct l as [|p rest]; [done|]. simpl.
  intros (q & ? & ? & ? & ? & ? & ?). exists q. repeat split; try done; lia.
Qed.

Lemma lookup_slice_one (bytes : list byte) (off : Z) (k : nat) (c : byte) (len : Z) :
  0 ≤ off → slice off len bytes !! k = Some c →
  slice (off + Z.of_nat k) 1 bytes = [c].
Proof.
  intros Hoff Hk. unfold slice in *.
  apply lookup_take_Some in Hk as [Hk _]. rewrite lookup_drop in Hk.
  replace (Z.to_nat (off + Z.of_nat k)) with (Z.to_nat off + k)%nat by lia.
  change (Z.to_nat 1) with 1%nat.
  rewrite (drop_S _ c) by done. done.
Qed.

Lemma mappedSize_ge (n : Z) : n ≤ mappedSize n < n + PAGE_SIZE.
Proof.
  unfold mappedSize, PAGE_SIZE.
  pose proof (Z.div_mod (n + 4096 - 1) 4096 ltac:(lia)).
  pose proof (Z.mod_pos_bound (n + 4096 - 1) 4096 ltac:(lia)). lia.
Qed.

(** The bytes of a mapping behind the end of the file are zero. *)
Lemma slice_mapped (bytes : list byte) (off : Z) (n : nat) :
  0 ≤ off →
  off + 4 ≤ Z.of_nat (length bytes) + 3 →
  (length bytes ≤ n)%nat →
  off + 4 ≤ Z.of_nat n →
  slice off 4 (resize n x00 bytes) = slice off 4 (bytes ++ replicate 3 x00).
Proof.
  intros Hoff Hend Hlen Hn. rewrite resize_ge by done. unfold slice.
  apply list_eq. intros i. change (Z.to_nat 4) with 4%nat.
  destruct (decide (i < 4)%nat) as [Hi|Hi].
  - rewrite !lookup_take_lt, !lookup_drop by done.
    destruct (decide (Z.to_nat off + i < length bytes)%nat) as [Hin|Hout].
    + by rewrite !lookup_app_l by done.
    + rewrite !lookup_app_r by lia. rewrite !lookup_replicate_2 by lia. done.
  - by rewrite !lookup_take_ge by lia.
Qed.

Lemma peek_err (d : Disk) (df : DataFile) (off len : Z) (e : Failure) :
  peek d df off len = Err e → e = MemoryFault.
Proof.
  unfold peek. destruct (d (df_path df)); [|by intros [= <-]].
  destruct (_ && _); [done|by intros [= <-]].
Qed.

(** The loop of the scan over a mapping of the whole file: the positions
    it submits, and the only way in which it does not return. *)
Lemma scanBlockFile_spec (env : Env) (d : Disk) (df : DataFile) (f : DiskFile)
  (nFile : Z) :
  d (df_path df) = Some f →
  df_filesize df = fileLength f →
  ∀ (fuel : nat) (buf : Z) (st : ScanState),
  0 ≤ buf →
  fileLength f - 1 - buf < Z.of_nat fuel →
  match scanBlockFile env d df nFile (fileLength f - 1) fuel buf st with
  | Ok st' =>
      ∃ new,
        sc_added st' = sc_added st ++ new
        ∧ sc_nBlocks st' = sc_nBlocks st + Z.of_nat (length new)
        ∧ (new = [] → sc_nSize st' = sc_nSize st)
        ∧ framesFrom env (f_bytes f) nFile buf new
  | Err e => e = MemoryFault ∧ mappedSize (fileLength f) < fileLength f + 3
  end.
Proof.
  intros Hf Hsize.
  assert (Hnone : ∀ buf st,
            ∃ new : list CDiskBlockPos,
              sc_added st = sc_added st ++ new
              ∧ sc_nBlocks st = sc_nBlocks st + Z.of_nat (length new)
              ∧ (new = [] → sc_nSize st = sc_nSize st)
              ∧ framesFrom env (f_bytes f) nFile buf new).
  { intros buf st. exists []. rewrite app_nil_r. repeat split; (done || simpl; lia). }
  induction fuel as [|fuel IH]; intros buf st Hbuf Hfuel; simpl.
  { destruct (Z.ltb_spec buf (fileLength f - 1)); [lia|]. apply Hnone. }
  destruct (Z.ltb_spec buf (fileLength f - 1)) as [Hlt|Hge]; [|apply Hnone].
  assert (Hq : 0 ≤ (fileLength f - 1 - buf) / 4 ≤ fileLength f - 1 - buf).
  { split; [apply Z.div_pos; lia|]. apply Z.div_le_upper_bound; lia. }
  rewrite (peek_ok d df f) by (done || lia). simpl.
  destruct (memchr _ _ _) as [k|] eqn:Hk; [|apply Hnone].
  apply memchr_spec in Hk as [Hkn Hk].
  apply (lookup_slice_one _ buf k) in Hk; [|done].
  assert (Hread : buf + Z.of_nat k + 4 + 4 ≤ fileLength f + 3).
  { pose proof (Z.mul_div_le (fileLength f - 1 - buf) 4 ltac:(lia)). lia. }
  pose proof (mappedSize_ge (fileLength f)) as Hmapped.
  unfold readMapped. rewrite Hf, Hsize.
  destruct (Z.leb_spec 0 (buf + Z.of_nat k + 4)); [|lia].
  destruct (Z.leb_spec (buf + Z.of_nat k + 4 + 4) (mappedSize (fileLength f)))
    as [Hin|Hout]; simpl; [|split; [done|lia]].
  rewrite slice_mapped by (unfold fileLength in *; lia).
  set (blockSize := le32toh (slice (buf + Z.of_nat k + 4) 4 (f_bytes f ++ replicate 3 x00))).
  pose proof (le32toh_range (slice (buf + Z.of_nat k + 4) 4 (f_bytes f ++ replicate 3 x00)))
    as Hrange. fold blockSize in Hrange.
  destruct (Z.ltb_spec blockSize 80) as [Hsmall|Hbig].
  - specialize (IH (buf + Z.of_nat k + 4) st ltac:(lia) ltac:(lia)).
    destruct (scanBlockFile _ _ _ _ _ _ _ _) as [st'|e]; [|done].
    destruct IH as (new & Hadd & Hn & Hsz & Hframes).
    exists new. repeat split; try done.
    eapply framesFrom_weaken; [|done]. lia.
  - match goal with
    | |- context [scanBlockFile _ _ _ _ _ _ ?b ?st1] =>
        specialize (IH b st1 ltac:(lia) ltac:(lia))
    end.
    destruct (scanBlockFile _ _ _ _ _ _ _ _) as [st'|e]; [|done].
    destruct IH as (new & Hadd & Hn & Hsz & Hframes).
    simpl in *. eexists (_ :: new). rewrite <- app_assoc in Hadd.
    split; [done|]. split; [simpl; lia|]. split; [done|].
    simpl. exists (buf + Z.of_nat k + 4 + 4). simpl.
    replace (buf + Z.of_nat k + 4 + 4 - 8) with (buf + Z.of_nat k) by lia.
    replace (buf + Z.of_nat k + 4 + 4 - 4) with (buf + Z.of_nat k + 4) by lia.
    fold blockSize. unfold fileLength in *. repeat split; try done; lia.
Qed.

Lemma foundBlockFile_effect (s : FileStore) (index blocks size : Z) :
  0 ≤ index →
  ∃ s',
    foundBlockFile s index blocks size = Ok s'
    ∧ nLastBlockFile s' = Z.max (nLastBlockFile s) index
    ∧ vinfoBlockFile s' !! Z.to_nat index
      = Some (mkFileInfo blocks size
                (nUndoSize (default newFileInfo (vinfoBlockFile s !! Z.to_nat index))))
    ∧ (∀ j, j ≠ Z.to_nat index → (j < length (vinfoBlockFile s))%nat →
         vinfoBlockFile s' !! j = vinfoBlockFile s !! j)
    ∧ (∀ j info, j ≠ Z.to_nat index → (length (vinfoBlockFile s) ≤ j)%nat →
         vinfoBlockFile s' !! j = Some info → info = newFileInfo)
    ∧ Z.max (nLastBlockFile s) index < Z.of_nat (length (vinfoBlockFile s'))
    ∧ (length (vinfoBlockFile s) ≤ length (vinfoBlockFile s'))%nat
    ∧ disk s' = disk s ∧ blocksDataDirs s' = blocksDataDirs s
    ∧ datafiles s' = datafiles s ∧ revertDatafiles s' = revertDatafiles s
    ∧ fileHistory s' = fileHistory s
    ∧ setDirtyFileInfo s' = setDirtyFileInfo s.
Proof.
  intros Hidx. unfold foundBlockFile.
  set (last := if nLastBlockFile s <? index then index else nLastBlockFile s).
  assert (Hlast : last = Z.max (nLastBlockFile s) index)
    by (subst last; destruct (Z.ltb_spec (nLastBlockFile s) index); lia).
  set (vinfo := if Z.of_nat (length (vinfoBlockFile s)) <=? last
                then resize (Z.to_nat (last + 1)) newFileInfo (vinfoBlockFile s)
                else vinfoBlockFile s).
  assert (Hlen : last < Z.of_nat (length vinfo)
                 ∧ (length (vinfoBlockFile s) ≤ length vinfo)%nat).
  { subst vinfo. destruct (Z.leb_spec (Z.of_nat (length (vinfoBlockFile s))) last).
    - rewrite length_resize. lia.
    - lia. }
  assert (Hold : ∀ j, (j < length (vinfoBlockFile s))%nat
                      → vinfo !! j = vinfoBlockFile s !! j).
  { intros j Hj. subst vinfo.
    destruct (Z.leb_spec (Z.of_nat (length (vinfoBlockFile s))) last); [|done].
    by rewrite lookup_resize by lia. }
  assert (Hnew : ∀ j info, (length (vinfoBlockFile s) ≤ j)%nat → vinfo !! j = Some info
                           → info = newFileInfo).
  { intros j info Hj Hl. subst vinfo.
    destruct (Z.leb_spec (Z.of_nat (length (vinfoBlockFile s))) last).
    - apply lookup_lt_Some in Hl as Hlt. rewrite length_resize in Hlt.
      rewrite lookup_resize_new in Hl by lia. by simplify_eq.
    - apply lookup_lt_Some in Hl. lia. }
  destruct Hlen as [Hlen Hgrow].
  assert (Hcur : ∃ info, vinfo !! Z.to_nat index = Some info
                   ∧ nUndoSize info
                     = nUndoSize (default newFileInfo (vinfoBlockFile s !! Z.to_nat index))).
  { destruct (lookup_lt_is_Some_2 vinfo (Z.to_nat index)) as [info Hinfo]; [lia|].
    exists info. split; [done|].
    destruct (decide (Z.to_nat index < length (vinfoBlockFile s))%nat).
    - rewrite <- Hold by done. by rewrite Hinfo.
    - rewrite (lookup_ge_None_2 (vinfoBlockFile s)) by lia.
      by rewrite (Hnew (Z.to_nat index) info) by (done || lia). }
  destruct Hcur as (info & Hinfo & Hundo).
  unfold fileInfoAt. destruct (Z.ltb_spec index 0); [lia|]. rewrite Hinfo. simpl.
  eexists. split; [done|]. simpl. rewrite length_insert.
  split; [done|]. split. { rewrite list_lookup_insert_eq by lia. by rewrite Hundo. }
  split. { intros j Hne Hj. rewrite list_lookup_insert_ne by done. by apply Hold. }
  split. { intros j info' Hne Hj. rewrite list_lookup_insert_ne by done. by apply Hnew. }
  split; [lia|]. done.
Qed.

(** X13.  [foundBlockFile] with a negative index is an invalid access.
    With any other index it returns: the last file number becomes the
    larger of the old one and the index, the file infos reach beyond it,
    the info of the file gets the given number of blocks and size and keeps
    its undo size (0 for a new info), every other info is unchanged, infos
    added to the vector are empty, and neither the disk nor the set of
    dirty files changes. *)
Theorem foundBlockFile_registers (s : FileStore) (index blocks size : Z) :
  (index < 0 → foundBlockFile s index blocks size = Err MemoryFault)
  ∧ (0 ≤ index →
     ∃ s',
       foundBlockFile s index blocks size = Ok s'
       ∧ nLastBlockFile s' = Z.max (nLastBlockFile s) index
       ∧ vinfoBlockFile s' !! Z.to_nat index
         = Some (mkFileInfo blocks size
                   (nUndoSize (default newFileInfo (vinfoBlockFile s !! Z.to_nat index))))
       ∧ (∀ j, j ≠ Z.to_nat index → (j < length (vinfoBlockFile s))%nat →
            vinfoBlockFile s' !! j = vinfoBlockFile s !! j)
       ∧ (∀ j info, j ≠ Z.to_nat index → (length (vinfoBlockFile s) ≤ j)%nat →
            vinfoBlockFile s' !! j = Some info → info = newFileInfo)
       ∧ Z.max (nLastBlockFile s) index < Z.of_nat (length (vinfoBlockFile s'))
       ∧ disk s' = disk s
       ∧ setDirtyFileInfo s' = setDirtyFileInfo s).
Proof.
  split.
  - intros Hneg. unfold foundBlockFile, fileInfoAt.
    by destruct (Z.ltb_spec index 0); [|lia].
  - intros Hidx.
    destruct (foundBlockFile_effect s index blocks size Hidx)
      as (s' & Hrun & Hlast & Hinfo & Hold & Hnew & Hlen & _ & Hdisk & _ & _ & _ & _ & Hd).
    by exists s'.
Qed.

Lemma loadBlockFile_effect (s : FileStore) (fileIndex : Z) :
  0 ≤ fileIndex →
  slotConsistent s ForwardBlock fileIndex →
  if cleanupStops s ForwardBlock fileIndex
  then loadBlockFile s fileIndex = Err AssertionFailure
  else
    ∃ s1 v,
      loadBlockFile s fileIndex = Ok (s1, v)
      ∧ mapFile s fileIndex ForwardBlock = Ok (s1, cb_buffer v)
      ∧ disk s1 = disk s ∧ blocksDataDirs s1 = blocksDataDirs s
      ∧ vinfoBlockFile s1 = vinfoBlockFile s ∧ nLastBlockFile s1 = nLastBlockFile s
      ∧ setDirtyFileInfo s1 = setDirtyFileInfo s
      ∧ match blockFile s ForwardBlock fileIndex with
        | None => v = emptyBuffer
        | Some f => ∃ df, v = mkConstBuffer (Some df) 0 (fileLength f - 1)
                      ∧ disk s (df_path df) = Some f
                      ∧ df_filesize df = fileLength f
        end.
Proof.
  intros Hidx Hslot. unfold loadBlockFile.
  destruct (cleanupStops s ForwardBlock fileIndex) eqn:Hstop.
  { by rewrite mapFile_stops. }
  destruct (mapFile_mapped s fileIndex ForwardBlock Hidx Hslot Hstop)
    as (s1 & buf & Hmap & Hdisk & Hbuf).
  destruct (mapFile_effect _ _ _ _ _ Hmap) as (_ & _ & _ & _ & Hdirs & Hv & Hlast & Hd & _).
  rewrite Hmap. simpl.
  destruct (blockFile s ForwardBlock fileIndex) as [f|] eqn:Hf.
  - destruct Hbuf as (df & -> & Hpath & Hsize).
    eexists _, _. split; [done|]. repeat (split; [done|]).
    exists df. rewrite Hsize. split; [done|].
    unfold blockFile in Hf. by rewrite Hpath.
  - subst buf. eexists _, _. split; [done|]. done.
Qed.

#[local] Arguments scanBlockFile : simpl never.

(** X14.  [LoadExternalBlockFile] never runs out of the iterations the model
    grants its loop.  For a missing file it returns false, submits nothing
    and leaves the infos alone.  For an existing file it stops when the
    mapping of the file stops at the assertion of a deleter
    ([cleanupStops]), and it faults only when a length is read behind the
    last page of the mapping, which takes a file that ends less than three
    bytes before the end of a page; in every other case it returns true and
    leaves the disk unchanged.  Every submitted position stands eight bytes
    behind a byte of the file equal to the first byte of the magic, after
    the frame of the position submitted before it, and the four bytes
    before it declare a length of at least 80; these four bytes are read
    without a test against the end of the file, so that a position can lie
    up to three bytes behind the last byte of the file.  When positions
    were submitted, the info of the file records their number, keeps its
    undo size, and the last file number is raised to the file. *)
Theorem LoadExternalBlockFile_positions (env : Env) (s : FileStore) (pos : CDiskBlockPos) :
  0 ≤ pos_nFile pos →
  slotConsistent s ForwardBlock (pos_nFile pos) →
  LoadExternalBlockFile env s pos ≠ Err OutOfFuel
  ∧ match blockFile s ForwardBlock (pos_nFile pos) with
    | None =>
        ∃ s1, LoadExternalBlockFile env s pos = Ok (s1, [], false)
          ∧ disk s1 = disk s ∧ vinfoBlockFile s1 = vinfoBlockFile s
          ∧ nLastBlockFile s1 = nLastBlockFile s
    | Some f =>
        if cleanupStops s ForwardBlock (pos_nFile pos)
        then LoadExternalBlockFile env s pos = Err AssertionFailure
        else
          match LoadExternalBlockFile env s pos with
          | Err e => e = MemoryFault ∧ mappedSize (fileLength f) < fileLength f + 3
          | Ok (s', added, loaded) =>
              loaded = true
              ∧ disk s' = disk s
              ∧ framesFrom env (f_bytes f) (pos_nFile pos) 0 added
              ∧ (added = [] → vinfoBlockFile s' = vinfoBlockFile s
                              ∧ nLastBlockFile s' = nLastBlockFile s)
              ∧ (added ≠ [] →
                 ∃ info, vinfoBlockFile s' !! Z.to_nat (pos_nFile pos) = Some info
                   ∧ nBlocks info = Z.of_nat (length added)
                   ∧ nUndoSize info
                     = nUndoSize (default newFileInfo
                                    (vinfoBlockFile s !! Z.to_nat (pos_nFile pos)))
                   ∧ nLastBlockFile s' = Z.max (nLastBlockFile s) (pos_nFile pos))
          end
    end.
Proof.
  intros Hidx Hslot. unfold LoadExternalBlockFile.
  pose proof (loadBlockFile_effect s (pos_nFile pos) Hidx Hslot) as Hload.
  destruct (cleanupStops s ForwardBlock (pos_nFile pos)) eqn:Hstop.
  { rewrite Hload. simpl. split; [done|].
    destruct (blockFile s ForwardBlock (pos_nFile pos)) as [f|] eqn:Hf; [done|].
    by rewrite cleanupStops_missing in Hstop. }
  destruct Hload as (s1 & v & -> & _ & Hdisk & Hdirs & Hv & Hlast & Hd & Hview). simpl.
  destruct (blockFile s ForwardBlock (pos_nFile pos)) as [f|] eqn:Hf.
  2:{ subst v. simpl. split; [done|]. by exists s1. }
  destruct Hview as (df & -> & Hdf & Hsize). simpl. rewrite <- Hdisk in Hdf.
  pose proof (scanBlockFile_spec env (disk s1) df f (pos_nFile pos) Hdf Hsize
                (S (Z.to_nat (fileLength f - 1))) 0 (mkScanState [] 0 0)
                ltac:(lia) ltac:(lia)) as Hscan.
  destruct (scanBlockFile env (disk s1) df (pos_nFile pos) (fileLength f - 1)
              (S (Z.to_nat (fileLength f - 1))) 0 (mkScanState [] 0 0)) as [st|e];
    simpl.
  2:{ destruct Hscan as [-> ?]. done. }
  destruct Hscan as (new & Hadd & Hn & _ & Hframes).
  simpl in Hadd, Hn. rewrite Hadd.
  destruct (Z.ltb_spec 0 (sc_nBlocks st)) as [Hpos|Hzero].
  - destruct (foundBlockFile_effect s1 (pos_nFile pos) (sc_nBlocks st) (sc_nSize st) Hidx)
      as (s2 & -> & Hlast2 & Hinfo2 & _ & _ & _ & _ & Hdisk2 & _).
    simpl. split; [done|].
    split; [done|]. split; [congruence|]. split; [done|].
    split. { intros ->. simpl in Hn. lia. }
    intros _. eexists. split; [done|]. simpl. rewrite Hv, Hlast2, Hlast. split; [lia|done].
  - simpl. split; [done|].
    split; [done|]. split; [done|]. split; [done|].
    split; [done|]. intros Hne. destruct new; [done|]. simpl in Hn. lia.
Qed.





(** ** Writing: what a write changes and what it leaves alone *)

Lemma getFilepathForIndex_nil (d : Disk) (fileIndex : Z) (prefix : BlockType)
  (harder : bool) :
  getFilepathForIndex d [] fileIndex prefix harder = mkPath DataDir prefix fileIndex.
Proof. unfold getFilepathForIndex. simpl. by destruct (harder && _). Qed.

Lemma selectFile_shape (s s1 : FileStore) (blockSize posFile nFile : Z)
  (type : BlockType) (newFile : bool) :
  0 ≤ nLastBlockFile s →
  vinfoBlockFile s = [] ∨ Z.of_nat (length (vinfoBlockFile s)) = nLastBlockFile s + 1 →
  selectFile s blockSize type posFile = Ok (s1, newFile, nFile) →
  ∃ (k : nat) (last : Z),
    s1 = set_vinfo (vinfoBlockFile s ++ replicate k newFileInfo) last s
    ∧ nLastBlockFile s ≤ last
    ∧ Z.of_nat (length (vinfoBlockFile s) + k) = last + 1
    ∧ nFile ≤ last
    ∧ (newFile = true → 0 ≤ nFile → Z.of_nat (length (vinfoBlockFile s)) ≤ nFile)
    ∧ (newFile = false → k = 0%nat ∧ last = nLastBlockFile s)
    ∧ (type = ForwardBlock → nFile = last)
    ∧ (type = RevertBlock → nFile = posFile ∧ last = Z.max (nLastBlockFile s) posFile).
Proof.
  intros Hlast Hshape. unfold selectFile.
  destruct (Z.leb_spec (Z.of_nat (length (vinfoBlockFile s))) (nLastBlockFile s)) as [Hle|Hgt].
  - destruct Hshape as [Hnil|Hlen]; [|lia]. simpl.
    intros (-> & -> & -> & Hn & _)%selectFile_asserts.
    exists (Z.to_nat (nLastBlockFile s + 1)), (nLastBlockFile s).
    rewrite Hnil. simpl. split; [by rewrite resize_nil|].
    split; [lia|]. split; [lia|]. split; [done|]. split; [intros; lia|].
    split; [done|]. destruct type; simpl in *; split; try done. intros _. split; [done|lia].
  - assert (Hlen : Z.of_nat (length (vinfoBlockFile s)) = nLastBlockFile s + 1).
    { destruct Hshape as [Hnil|?]; [|done]. rewrite Hnil in Hgt. simpl in Hgt. lia. }
    destruct type; simpl.
    + destruct (fileInfoAt (vinfoBlockFile s) (nLastBlockFile s)) as [info|]; [|done].
      simpl.
      destruct (MAX_BLOCKFILE_SIZE <? u32 (nSize info + blockSize + 8)); simpl;
        intros (-> & -> & -> & Hn & _)%selectFile_asserts.
      * exists 1%nat, (nLastBlockFile s + 1). split.
        { f_equal. rewrite resize_ge by lia. do 2 f_equal. lia. }
        split; [lia|]. split; [lia|]. split; [done|]. split; [intros; lia|].
        split; [done|]. done.
      * exists 0%nat, (nLastBlockFile s). rewrite app_nil_r. split; [done|].
        split; [lia|]. split; [lia|]. split; [done|]. split; [done|]. done.
    + destruct (Z.ltb_spec (nLastBlockFile s) posFile); simpl;
        intros (-> & -> & -> & Hn & _)%selectFile_asserts.
      * exists (Z.to_nat (Z.max (nLastBlockFile s + 1) posFile + 1)
                - length (vinfoBlockFile s))%nat,
               (Z.max (nLastBlockFile s + 1) posFile).
        split. { f_equal. rewrite resize_ge by lia. done. }
        split; [lia|]. split; [lia|]. split; [done|]. split; [intros; lia|].
        split; [done|]. split; [done|]. intros _. split; [done|lia].
      * exists 0%nat, (nLastBlockFile s). rewrite app_nil_r. split; [done|].
        split; [lia|]. split; [lia|]. split; [done|]. split; [done|].
        split; [done|]. split; [done|]. intros _. split; [done|lia].
Qed.

Lemma createFile_effect (d d2 : Disk) (path : Path) (n : Z) :
  createFile d path n = Ok d2 →
  ∀ q, d2 q = if decide (q = path)
              then Some (mkDiskFile (replicate (Z.to_nat n) x00) false)
              else d q.
Proof.
  assert (Hnew : resize_file (disk_set d path (mkDiskFile [] false)) path n = Ok d2 →
    ∀ q, d2 q = if decide (q = path)
                then Some (mkDiskFile (replicate (Z.to_nat n) x00) false)
                else d q).
  { unfold resize_file. rewrite disk_set_same. simpl. intros [= <-] q.
    unfold disk_set. destruct (decide (q = path)); [|done].
    simpl. by rewrite resize_nil. }
  unfold createFile. destruct (d path) as [f|]; [|done].
  by destruct (f_readonly f).
Qed.

Lemma growFile_bytes (env : Env) (nFile : Z) (type : BlockType) (need : Z) (fuel : nat) :
  ∀ (s s4 : FileStore) (df df4 : DataFile) (f : DiskFile),
  blocksDataDirs s = [] →
  0 ≤ nFile →
  slots s type !! Z.to_nat nFile = Some (Some df) →
  df_path df = mkPath DataDir type nFile →
  disk s (df_path df) = Some f →
  df_filesize df = fileLength f →
  growFile env fuel s nFile type need df = Ok (s4, df4) →
  ∃ f4 (k : nat),
    df_path df4 = df_path df
    ∧ disk s4 (df_path df) = Some f4
    ∧ df_filesize df4 = fileLength f4
    ∧ need < df_filesize df4
    ∧ f_bytes f4 = f_bytes f ++ replicate k x00
    ∧ (∀ q, q ≠ df_path df → disk s4 q = disk s q)
    ∧ slots s4 type !! Z.to_nat nFile = Some (Some df4)
    ∧ (∀ t j x, (t, j) ≠ (type, Z.to_nat nFile) → slots s4 t !! j = Some (Some x) →
         slots s t !! j = Some (Some x))
    ∧ (historyInRange s → historyInRange s4)
    ∧ blocksDataDirs s4 = [] ∧ vinfoBlockFile s4 = vinfoBlockFile s
    ∧ nLastBlockFile s4 = nLastBlockFile s ∧ setDirtyFileInfo s4 = setDirtyFileInfo s.
Proof.
  induction fuel as [|fuel IH]; intros s s4 df df4 f Hdirs Hidx Hslot Hpath Hf Hsize;
    rewrite growFile_unfold;
    destruct (Z.leb_spec (df_filesize df) need) as [Hgrow|Hfits]; try done.
  1,3: intros [= <- <-]; exists f, 0%nat; rewrite app_nil_r; by repeat (split; [done || lia|]).
  apply lookup_lt_Some in Hslot as Hlt.
  unfold fileHasGrown.
  destruct (Z.leb_spec 0 nFile); [|lia].
  destruct (Z.ltb_spec nFile (Z.of_nat (length (slots s type)))); [|lia]. simpl.
  set (s1 := set_slots type (<[Z.to_nat nFile:=None]> (slots s type)) s).
  destruct (disk_set_slots s type (<[Z.to_nat nFile:=None]> (slots s type)))
    as (Hd1 & Hdirs1 & Hlast1). fold s1 in Hd1, Hdirs1, Hlast1.
  destruct (fileHistory_set_slots s type (<[Z.to_nat nFile:=None]> (slots s type)))
    as (Hh1 & Hv1 & Hdirty1). fold s1 in Hh1, Hv1, Hdirty1.
  rewrite Hdirs, getFilepathForIndex_nil, <- Hpath.
  unfold resize_file. rewrite Hd1, Hf.
  destruct (f_readonly f); [done|]. simpl.
  set (f' := mkDiskFile
               (resize (Z.to_nat (df_filesize df + chunkSize type)) x00 (f_bytes f)) false).
  set (s2 := set_disk (disk_set (disk s) (df_path df) f') s1).
  assert (Hchunk : 0 < chunkSize type) by (by destruct type).
  assert (Hbytes' : f_bytes f' = f_bytes f ++ replicate (Z.to_nat (chunkSize type)) x00).
  { unfold f'. simpl. unfold fileLength in Hsize. rewrite resize_ge by lia.
    do 2 f_equal. lia. }
  assert (Hslot2 : slots s2 type !! Z.to_nat nFile = Some None).
  { unfold s2, s1. destruct type; simpl; by rewrite list_lookup_insert_eq. }
  assert (Hlive2 : ∀ t j x, (t, j) ≠ (type, Z.to_nat nFile) →
            slots s2 t !! j = Some (Some x) → slots s t !! j = Some (Some x)).
  { intros t j x Hne. unfold s2, s1.
    destruct type, t; simpl; try done;
      (rewrite list_lookup_insert_ne; [done|congruence]). }
  assert (Hhist2 : historyInRange s → historyInRange s2).
  { apply historyInRange_mono; [by destruct type|].
    intros t. unfold s2, s1. destruct type, t; simpl; by rewrite ?length_insert. }
  destruct (mapFile s2 nFile type) as [[s3 buf]|e] eqn:Hmap; [|done]. simpl.
  destruct (mapFile_history _ _ _ _ _ Hmap) as [Hhist3 _].
  pose proof (λ t j x, mapFile_keeps_live _ _ _ _ t _ j x Hmap) as Hlive3.
  destruct (mapFile_effect _ _ _ _ _ Hmap)
    as (_ & _ & Hslot3 & Hd3 & Hdirs3 & Hv3 & Hlast3 & Hdirty3 & _ & _ & _ & Hbuf).
  rewrite Hslot2 in Hbuf. destruct Hbuf as [Hbuf _].
  assert (Hres : resolved s2 type nFile = df_path df).
  { unfold resolved, s2. simpl. by rewrite Hdirs1, Hdirs, getFilepathForIndex_nil. }
  assert (Hblock : blockFile s2 type nFile = Some f').
  { unfold blockFile. rewrite Hres. unfold s2. simpl. apply disk_set_same. }
  rewrite Hblock in Hbuf. simpl in Hbuf. subst buf.
  set (df' := freshMapping s2 type nFile f') in *.
  assert (Hp' : df_path df' = df_path df) by exact Hres.
  assert (Hs' : df_filesize df' = fileLength f') by reflexivity.
  clearbody df'.
  match goal with |- (if ?b then _ else _) = _ → _ => destruct b; [|done] end.
  intros Hrun. eapply (IH s3 s4 _ df4 f') in Hrun; cycle 1.
  - rewrite Hdirs3. unfold s2. simpl. by rewrite Hdirs1.
  - done.
  - done.
  - by rewrite Hp'.
  - rewrite Hp', Hd3. unfold s2. simpl. apply disk_set_same.
  - done.
  - rewrite Hp' in Hrun.
    destruct Hrun as (f4 & k & Hp4 & Hf4 & Hsz4 & Hneed & Hb4 & Hq4 & Hs4 & Hl4 & Hh4 & Hdirs4
                      & Hv4 & Hlast4 & Hdirty4).
    exists f4, (Z.to_nat (chunkSize type) + k)%nat.
    split; [done|]. split; [done|]. split; [done|]. split; [done|].
    split. { rewrite Hb4, Hbytes', <- app_assoc. f_equal. by rewrite replicate_add. }
    split.
    { intros q Hq. rewrite Hq4, Hd3 by done. unfold s2. simpl.
      by rewrite disk_set_other. }
    split; [done|].
    split.
    { intros t j x Hj Hx. apply Hl4 in Hx; [|done]. apply Hlive3 in Hx; [|done].
      by apply Hlive2. }
    split. { intros Hh. by apply Hh4, Hhist3, Hhist2. }
    split; [done|]. rewrite Hv4, Hlast4, Hdirty4, Hv3, Hlast3, Hdirty3.
    unfold s2. simpl. by rewrite Hv1, Hlast1, Hdirty1.
Qed.

Lemma slice_app_l (o n : Z) (l1 l2 : list byte) :
  0 ≤ o → 0 ≤ n → o + n ≤ Z.of_nat (length l1) →
  slice o n (l1 ++ l2) = slice o n l1.
Proof.
  intros Ho Hn Hle. unfold slice.
  rewrite drop_app_le by lia. rewrite take_app_le; [done|].
  rewrite length_drop. lia.
Qed.

Lemma storeBlock_effect (env : Env) (s3 s' : FileStore) (nFile : Z) (type : BlockType)
  (info : CBlockFileInfo) (df : DataFile) (f : DiskFile) (block : list byte)
  (blockHash : option uint256) (pos : CDiskBlockPos) (view : ConstBuffer) :
  blocksDataDirs s3 = [] → 0 ≤ nFile →
  slots s3 type !! Z.to_nat nFile = Some (Some df) →
  df_path df = mkPath DataDir type nFile →
  disk s3 (df_path df) = Some f →
  df_filesize df = fileLength f →
  0 ≤ usedSize type info →
  usedSize type info + Z.of_nat (length block) + 40 < 2 ^ 32 →
  storeBlock env s3 nFile type info df block blockHash = Ok (s', pos, view) →
  ∃ df4 f',
    pos = mkPos nFile (usedSize type info + 8)
    ∧ view = mkConstBuffer (Some df4) (usedSize type info + 8)
               (usedSize type info + 8 + Z.of_nat (length block))
    ∧ df_path df4 = df_path df
    ∧ slots s' type !! Z.to_nat nFile = Some (Some df4)
    ∧ disk s' (df_path df) = Some f'
    ∧ df_filesize df4 = fileLength f'
    ∧ usedSize type info + 8 + Z.of_nat (length block) + checksumLength type < fileLength f'
    ∧ fileLength f ≤ fileLength f'
    ∧ (∀ o n, 0 ≤ o → 0 ≤ n → o + n ≤ usedSize type info → o + n ≤ fileLength f →
         slice o n (f_bytes f') = slice o n (f_bytes f))
    ∧ slice (usedSize type info) 4 (f_bytes f') = MessageStart env
    ∧ slice (usedSize type info + 4) 4 (f_bytes f') = htole32 (Z.of_nat (length block))
    ∧ slice (usedSize type info + 8) (Z.of_nat (length block)) (f_bytes f') = block
    ∧ slice (usedSize type info + 8 + Z.of_nat (length block)) (checksumLength type)
        (f_bytes f')
      = checksumBytes env type blockHash block
    ∧ (type = RevertBlock → is_Some blockHash)
    ∧ (∀ q, q ≠ df_path df → disk s' q = disk s3 q)
    ∧ (∀ t j x, (t, j) ≠ (type, Z.to_nat nFile) → slots s' t !! j = Some (Some x) →
         slots s3 t !! j = Some (Some x))
    ∧ (historyInRange s3 → historyInRange s')
    ∧ blocksDataDirs s' = []
    ∧ vinfoBlockFile s'
      = <[Z.to_nat nFile := infoAfterWrite type (Z.of_nat (length block)) info]>
          (vinfoBlockFile s3)
    ∧ nLastBlockFile s' = nLastBlockFile s3
    ∧ setDirtyFileInfo s' = {[nFile]} ∪ setDirtyFileInfo s3.
Proof.
  intros Hdirs Hidx Hslot Hpath Hf Hsize Hp0 Hfit H. unfold storeBlock in H.
  assert (Hpe : (if bool_decide (type = ForwardBlock) then nSize info else nUndoSize info)
               = usedSize type info) by (by destruct type).
  assert (Hce : (if bool_decide (type = ForwardBlock) then 0 else 32) = checksumLength type)
    by (by destruct type).
  rewrite !Hpe, ?Hce in H. clear Hpe Hce.
  set (p := usedSize type info) in *.
  set (bs := Z.of_nat (length block)) in *.
  assert (Hbs : 0 ≤ bs) by (subst bs; lia).
  assert (Hcl : 0 ≤ checksumLength type ≤ 32) by (destruct type; simpl; lia).
  rewrite (u32_small (p + bs + 8 + checksumLength type)) in H by lia.
  rewrite (u32_small (p + 8)) in H by lia.
  destruct (growFile env growFuel s3 nFile type _ df) as [[s4 df4]|] eqn:Hgrow; [|done].
  simpl in H.
  apply (growFile_bytes env nFile type _ growFuel s3 s4 df df4 f) in Hgrow
    as (f4 & k & Hp4 & Hf4 & Hsz4 & Hneed & Hb4 & Hq4 & Hs4 & Hl4 & Hh4 & Hdirs4
        & Hv4 & Hlast4 & Hdirty4); try done.
  rewrite <- Hp4 in Hf4.
  destruct (poke (disk s4) df4 p (MessageStart env)) as [d5|] eqn:Hpoke5; [|done].
  simpl in H.
  destruct (poke d5 df4 (p + 4) (htole32 bs)) as [d6|] eqn:Hpoke6; [|done]. simpl in H.
  destruct (poke d6 df4 (p + 4 + 4) block) as [d7|] eqn:Hpoke7; [|done]. simpl in H.
  apply poke_inv in Hpoke5 as (f4' & Hf4' & _ & _ & Hin5 & ->).
  assert (f4' = f4) as -> by congruence.
  apply poke_inv in Hpoke6 as (f5 & Hf5 & _ & _ & Hin6 & ->).
  apply poke_inv in Hpoke7 as (f6 & Hf6 & _ & _ & Hin7 & ->).
  rewrite disk_set_same in Hf5. injection Hf5 as <-.
  rewrite disk_set_same in Hf6. injection Hf6 as <-.
  unfold fileLength in Hin5, Hin6, Hin7, Hsz4, Hneed. simpl in Hin6, Hin7, H.
  rewrite length_MessageStart in Hin5.
  rewrite ?length_htole32 in Hin6.
  rewrite length_splice in Hin6 by (rewrite ?length_MessageStart; lia).
  rewrite !length_splice in Hin7
    by (rewrite ?length_splice; rewrite ?length_MessageStart, ?length_htole32; lia).
  set (b5 := splice p (MessageStart env) (f_bytes f4)) in *.
  set (b6 := splice (p + 4) (htole32 bs) b5) in *.
  set (b7 := splice (p + 4 + 4) block b6) in *.
  assert (Hlen5 : length b5 = length (f_bytes f4))
    by (apply length_splice; rewrite ?length_MessageStart; lia).
  assert (Hlen6 : length b6 = length (f_bytes f4))
    by (subst b6; rewrite length_splice; rewrite ?length_htole32; lia).
  assert (Hlen7 : length b7 = length (f_bytes f4))
    by (subst b7; rewrite length_splice; fold bs; lia).
  assert (Hmagic : slice p 4 b7 = MessageStart env).
  { subst b7 b6. rewrite slice_splice_before by (fold bs; lia).
    rewrite slice_splice_before by (rewrite ?length_htole32; lia).
    subst b5. apply slice_splice_at; rewrite ?length_MessageStart; lia. }
  assert (Hsize7 : slice (p + 4) 4 b7 = htole32 bs).
  { subst b7 b6. rewrite slice_splice_before by (fold bs; lia).
    apply slice_splice_at; rewrite ?length_htole32; lia. }
  assert (Hblock7 : slice (p + 8) bs b7 = block).
  { subst b7. replace (p + 8) with (p + 4 + 4) by lia.
    apply slice_splice_at; fold bs; lia. }
  assert (Hlen4 : (length (f_bytes f) ≤ length (f_bytes f4))%nat)
    by (rewrite Hb4, length_app; lia).
  assert (Hprefix7 : ∀ o n, 0 ≤ o → 0 ≤ n → o + n ≤ p → o + n ≤ fileLength f →
                     slice o n b7 = slice o n (f_bytes f)).
  { intros o n Ho Hn Hop Hof. unfold fileLength in Hof. subst b7 b6 b5.
    rewrite slice_splice_before by (fold bs; lia).
    rewrite slice_splice_before by (rewrite ?length_htole32; lia).
    rewrite slice_splice_before by (rewrite ?length_MessageStart; lia).
    rewrite Hb4. by apply slice_app_l. }
  clearbody b7. clearbody b6. clearbody b5.
  assert (Hother : ∀ (d : Disk) (g : DiskFile) q, q ≠ df_path df →
            disk_set d (df_path df4) g q = d q).
  { intros d g q Hq. rewrite Hp4. by apply disk_set_other. }
  destruct type; simpl in H.
  - injection H as <- <- <-. subst p. simpl in *.
    exists df4, (mkDiskFile b7 (f_readonly f4)).
    split; [done|]. split; [f_equal; lia|]. split; [done|]. split; [done|].
    split; [by rewrite <- Hp4, disk_set_same|].
    split; [unfold fileLength; simpl; lia|].
    split; [unfold fileLength; simpl; lia|].
    split; [unfold fileLength; simpl; lia|].
    split; [done|]. split; [done|]. split; [done|]. split; [done|].
    split; [done|]. split; [done|].
    split. { intros q Hq. rewrite !Hother by done. by apply Hq4. }
    split; [exact Hl4|]. split; [exact Hh4|]. split; [done|].
    rewrite Hv4, Hlast4, Hdirty4. split; [|done].
    f_equal. unfold AddBlock. simpl. f_equal. apply u32_small. lia.
  - destruct blockHash as [h|]; [|done]. simpl in H.
    destruct (poke _ df4 (p + 4 + 4 + bs) _) as [d8|] eqn:Hpoke8; [|done]. simpl in H.
    apply poke_inv in Hpoke8 as (f7 & Hf7 & _ & _ & Hin8 & ->).
    rewrite disk_set_same in Hf7. injection Hf7 as <-.
    unfold fileLength in Hin8. simpl in Hin8.
    rewrite ?length_uint256_bytes in Hin8. rewrite Hlen7 in Hin8.
    injection H as <- <- <-. subst p. simpl in *.
    eexists df4, (mkDiskFile _ (f_readonly f4)).
    split; [done|]. split; [f_equal; lia|]. split; [done|]. split; [done|].
    split; [by rewrite <- Hp4, disk_set_same|].
    split; [unfold fileLength; simpl; rewrite length_splice;
            rewrite ?length_uint256_bytes; lia|].
    split; [unfold fileLength; simpl; rewrite length_splice;
            rewrite ?length_uint256_bytes; lia|].
    split; [unfold fileLength; simpl; rewrite length_splice;
            rewrite ?length_uint256_bytes; lia|].
    split.
    { intros o n Ho Hn Hop Hof. simpl.
      rewrite slice_splice_before by (rewrite ?length_uint256_bytes; lia).
      by apply Hprefix7. }
    simpl.
    split; [rewrite slice_splice_before by (rewrite ?length_uint256_bytes; lia); done|].
    split; [rewrite slice_splice_before by (rewrite ?length_uint256_bytes; lia); done|].
    split; [rewrite slice_splice_before by (rewrite ?length_uint256_bytes; lia); done|].
    split.
    { replace (nUndoSize info + 8 + bs) with (nUndoSize info + 4 + 4 + bs) by lia.
      apply slice_splice_at; rewrite ?length_uint256_bytes; lia. }
    split; [eauto|].
    split. { intros q Hq. rewrite !Hother by done. by apply Hq4. }
    split; [exact Hl4|]. split; [exact Hh4|]. split; [done|].
    rewrite Hv4, Hlast4, Hdirty4. split; [|done].
    f_equal. f_equal. rewrite !u32_small; rewrite ?u32_small; lia.
Qed.

Lemma storeInv_slotConsistent (s : FileStore) (type : BlockType) (i : Z) :
  storeInv s → 0 ≤ i →
  resolved s type i = mkPath DataDir type i ∧ slotConsistent s type i.
Proof.
  intros (Hdirs & _ & _ & Hslots) Hi.
  assert (Hres : resolved s type i = mkPath DataDir type i)
    by (unfold resolved; by rewrite Hdirs, getFilepathForIndex_nil).
  split; [done|]. intros df Hdf.
  destruct (Hslots type _ df Hdf) as (Hpath & Hf & _).
  rewrite Z2Nat.id in Hpath by done. by rewrite Hres.
Qed.

Lemma cleanupStops_live (s : FileStore) (type : BlockType) (fileIndex : Z) (df : DataFile) :
  slots s type !! Z.to_nat fileIndex = Some (Some df) →
  cleanupStops s type fileIndex = false.
Proof. intros Hl. unfold cleanupStops, dropped. by rewrite Hl. Qed.

Lemma storeInv_mapFile (s s1 : FileStore) (type : BlockType) (nFile : Z)
  (buf : option DataFile) :
  storeInv s →
  mapFile s nFile type = Ok (s1, buf) →
  disk s1 = disk s
  ∧ match disk s (mkPath DataDir type nFile) with
    | Some f => ∃ df, buf = Some df ∧ df_path df = mkPath DataDir type nFile
                      ∧ df_filesize df = fileLength f
    | None => buf = None
    end.
Proof.
  intros Hinv Hmap. pose proof (mapFile_nonneg _ _ _ _ _ Hmap) as Hidx.
  destruct (storeInv_slotConsistent s type nFile Hinv Hidx) as [Hres Hcons].
  destruct (mapFile_consistent s s1 nFile type buf Hcons Hmap) as (Hdisk & Hbuf).
  unfold blockFile in Hbuf. rewrite Hres in Hbuf.
  split; [done|].
  destruct (disk s (mkPath DataDir type nFile)) as [f|]; [|done].
  destruct Hbuf as (df & -> & Hpath & Hsize). exists df. by rewrite Hpath.
Qed.

Lemma loadBlock_frame_result (env : Env) (s : FileStore) (type : BlockType)
  (nFile nPos : Z) (f : DiskFile) (payload : list byte) (blockHash : option uint256) :
  storeInv s → 0 ≤ nFile →
  disk s (mkPath DataDir type nFile) = Some f →
  4 ≤ nPos < fileLength f →
  le32toh (slice (nPos - 4) 4 (f_bytes f)) = Z.of_nat (length payload) →
  slice nPos (Z.of_nat (length payload)) (f_bytes f) = payload →
  nPos + Z.of_nat (length payload) + match blockHash with Some _ => 32 | None => 0 end
    ≤ fileLength f →
  nPos + Z.of_nat (length payload) + match blockHash with Some _ => 32 | None => 0 end
    < 2 ^ 32 →
  cleanupStops s type nFile = false →
  ∃ s1 v, viewBytes (disk s1) v = Some payload
    ∧ loadBlock env s (mkPos nFile nPos) type blockHash
      = match blockHash with
        | None => Ok (s1, v)
        | Some h =>
            if negb (bool_decide (type = RevertBlock)) then Err AssertionFailure
            else if bool_decide
                      (slice (nPos + Z.of_nat (length payload)) 32 (f_bytes f)
                       ≠ uint256_bytes (Hash256 env (uint256_bytes h ++ payload)))
                 then Err ChecksumMismatch
                 else Ok (s1, v)
        end.
Proof.
  intros Hinv Hidx Hf Hpos Hlen Hpay Hend Hwrap Hstop.
  destruct (mapFile_returns s nFile type Hidx Hstop) as (s1 & buf & Hmap).
  destruct (storeInv_mapFile s s1 type nFile buf Hinv Hmap) as (Hdisk & Hbuf).
  rewrite Hf in Hbuf. destruct Hbuf as (df & -> & Hpath & Hsize).
  assert (Hf1 : disk s1 (df_path df) = Some f) by (by rewrite Hdisk, Hpath).
  set (bs := Z.of_nat (length payload)) in *.
  assert (Hbs : 0 ≤ bs) by (unfold bs; lia).
  exists s1, (mkConstBuffer (Some df) nPos (nPos + bs)). split.
  { rewrite (viewBytes_range _ df f) by (done || destruct blockHash; lia).
    rewrite <- Hpay. do 2 f_equal. lia. }
  unfold loadBlock. simpl. destruct (Z.ltb_spec nPos 4); [lia|].
  rewrite Hmap. simpl. rewrite Hsize.
  destruct (Z.leb_spec (fileLength f) nPos); [lia|].
  rewrite (peek_in_file _ _ f) by (done || lia). simpl.
  rewrite Hlen. fold bs.
  destruct blockHash as [h|].
  - rewrite u32_small by lia.
    destruct (Z.ltb_spec (fileLength f) (nPos + bs + 32)); [lia|].
    destruct (negb (bool_decide (type = RevertBlock))); [done|].
    rewrite (peek_in_file _ _ f) by (done || lia). simpl.
    rewrite (peek_in_file _ _ f) by (done || lia). simpl.
    by rewrite Hpay.
  - rewrite u32_small by lia.
    by destruct (Z.ltb_spec (fileLength f) (nPos + bs + 0)); [lia|].
Qed.

Lemma loadBlock_reads_frame (env : Env) (s : FileStore) (type : BlockType)
  (nFile nPos : Z) (f : DiskFile) (payload : list byte) (blockHash : option uint256) :
  storeInv s → 0 ≤ nFile →
  disk s (mkPath DataDir type nFile) = Some f →
  4 ≤ nPos < fileLength f →
  le32toh (slice (nPos - 4) 4 (f_bytes f)) = Z.of_nat (length payload) →
  slice nPos (Z.of_nat (length payload)) (f_bytes f) = payload →
  nPos + Z.of_nat (length payload) + match blockHash with Some _ => 32 | None => 0 end
    ≤ fileLength f →
  nPos + Z.of_nat (length payload) + match blockHash with Some _ => 32 | None => 0 end
    < 2 ^ 32 →
  match blockHash with
  | None => True
  | Some h =>
      type = RevertBlock
      ∧ slice (nPos + Z.of_nat (length payload)) 32 (f_bytes f)
        = uint256_bytes (Hash256 env (uint256_bytes h ++ payload))
  end →
  cleanupStops s type nFile = false →
  ∃ s1 v, loadBlock env s (mkPos nFile nPos) type blockHash = Ok (s1, v)
    ∧ viewBytes (disk s1) v = Some payload.
Proof.
  intros Hinv Hidx Hf Hpos Hlen Hpay Hend Hwrap Hhash Hstop.
  destruct (loadBlock_frame_result env s type nFile nPos f payload blockHash)
    as (s1 & v & Hview & ->); try done.
  exists s1, v. split; [|done].
  destruct blockHash as [h|]; [|done]. destruct Hhash as [-> ->]. simpl.
  by rewrite bool_decide_false by (by intros []).
Qed.

Lemma loadBlock_ok_inv (env : Env) (s s1 : FileStore) (type : BlockType)
  (nFile nPos : Z) (payload : list byte) (blockHash : option uint256) (v : ConstBuffer) :
  storeInv s → 0 ≤ nFile →
  loadBlock env s (mkPos nFile nPos) type blockHash = Ok (s1, v) →
  viewBytes (disk s1) v = Some payload →
  ∃ f, disk s (mkPath DataDir type nFile) = Some f
    ∧ 4 ≤ nPos < fileLength f
    ∧ le32toh (slice (nPos - 4) 4 (f_bytes f)) = Z.of_nat (length payload)
    ∧ slice nPos (Z.of_nat (length payload)) (f_bytes f) = payload
    ∧ nPos + Z.of_nat (length payload) + match blockHash with Some _ => 32 | None => 0 end
      ≤ fileLength f
    ∧ match blockHash with
      | None => True
      | Some h =>
          type = RevertBlock
          ∧ slice (nPos + Z.of_nat (length payload)) 32 (f_bytes f)
            = uint256_bytes (Hash256 env (uint256_bytes h ++ payload))
      end.
Proof.
  intros Hinv Hidx Hload Hview.
  unfold loadBlock in Hload. simpl in Hload.
  destruct (Z.ltb_spec nPos 4) as [|H4]; [done|].
  destruct (mapFile s nFile type) as [[s2 buf]|] eqn:Hmap; [|done].
  destruct (storeInv_mapFile s s2 type nFile buf Hinv Hmap) as (Hdisk & Hbuf).
  simpl in Hload.
  destruct (disk s (mkPath DataDir type nFile)) as [f|] eqn:Hf; [|by subst buf].
  destruct Hbuf as (df & -> & Hpath & Hsize). rewrite Hsize in Hload.
  destruct (Z.leb_spec (fileLength f) nPos); [done|].
  assert (Hf2 : disk s2 (df_path df) = Some f) by (by rewrite Hdisk, Hpath).
  rewrite (peek_in_file _ _ f) in Hload by (done || lia). simpl in Hload.
  pose proof (le32toh_range (slice (nPos - 4) 4 (f_bytes f))) as Hdecl.
  set (declared := le32toh (slice (nPos - 4) 4 (f_bytes f))) in *.
  destruct (fileLength f <? _); [done|].
  assert (Hpayload : s1 = s2 → v = mkConstBuffer (Some df) nPos (nPos + declared) →
            declared = Z.of_nat (length payload)
            ∧ slice nPos (Z.of_nat (length payload)) (f_bytes f) = payload
            ∧ nPos + Z.of_nat (length payload) ≤ fileLength f).
  { intros -> ->. unfold viewBytes in Hview. simpl in Hview. rewrite Hf2 in Hview.
    simpl in Hview. destruct (Z.leb_spec 0 nPos); [|done].
    destruct (Z.leb_spec nPos (nPos + declared)); [|done].
    destruct (Z.leb_spec (nPos + declared) (fileLength f)); [|done].
    simpl in Hview. injection Hview as <-.
    replace (nPos + declared - nPos) with declared by lia.
    rewrite length_slice by (unfold fileLength in *; lia). done. }
  exists f. split; [done|]. split; [lia|].
  destruct blockHash as [h|].
  - destruct type; [done|]. simpl in Hload.
    destruct (peek (disk s2) df nPos declared) as [pl|] eqn:Hpl; [|done]. simpl in Hload.
    destruct (peek (disk s2) df (nPos + declared) 32) as [sum|] eqn:Hsum; [|done].
    simpl in Hload. case_bool_decide as Hcmp; [done|]. injection Hload as <- <-.
    destruct Hpayload as (Hd & Hpay & Hend); [done..|].
    apply peek_inv in Hpl as (f1 & Hf1 & _ & _ & _ & _ & ->).
    apply peek_inv in Hsum as (f3 & Hf3 & _ & _ & _ & Hend32 & ->).
    assert (f1 = f) as -> by congruence. assert (f3 = f) as -> by congruence.
    rewrite Hd in *. rewrite Hpay in Hcmp.
    split; [done|]. split; [done|]. split; [lia|]. split; [done|].
    destruct (decide (slice (nPos + Z.of_nat (length payload)) 32 (f_bytes f)
                      = uint256_bytes (Hash256 env (uint256_bytes h ++ payload))));
      [done|by destruct Hcmp].
  - injection Hload as <- <-. destruct Hpayload as (Hd & Hpay & Hend); [done..|].
    split; [done|]. split; [done|]. split; [lia|]. done.
Qed.

Lemma writeBlock_effect (env : Env) (s s' : FileStore) (block : list byte)
  (pos0 pos : CDiskBlockPos) (type : BlockType) (blockHash : option uint256)
  (view : ConstBuffer) :
  storeInv s →
  sizesFit s (Z.of_nat (length block)) →
  writeBlock env s block pos0 type blockHash = Ok (s', pos, view) →
  ∃ (df4 : DataFile) (f' : DiskFile) (k : nat) (info : CBlockFileInfo),
    storeInv s'
    ∧ info = default newFileInfo (vinfoBlockFile s !! Z.to_nat (pos_nFile pos))
    ∧ 0 ≤ pos_nFile pos
    ∧ pos_nPos pos = usedSize type info + 8
    ∧ 0 ≤ usedSize type info
    ∧ usedSize type info + Z.of_nat (length block) + 40 < 2 ^ 32
    ∧ Z.of_nat (length block) < MAX_BLOCKFILE_SIZE - 8
    ∧ (type = ForwardBlock →
       pos_nFile pos = nLastBlockFile s'
       ∧ nSize info + Z.of_nat (length block) + 8 ≤ MAX_BLOCKFILE_SIZE)
    ∧ (type = RevertBlock →
       pos_nFile pos = pos_nFile pos0
       ∧ nLastBlockFile s' = Z.max (nLastBlockFile s) (pos_nFile pos0))
    ∧ nLastBlockFile s ≤ nLastBlockFile s'
    ∧ view = mkConstBuffer (Some df4) (usedSize type info + 8)
               (usedSize type info + 8 + Z.of_nat (length block))
    ∧ df_path df4 = mkPath DataDir type (pos_nFile pos)
    ∧ slots s' type !! Z.to_nat (pos_nFile pos) = Some (Some df4)
    ∧ disk s' (mkPath DataDir type (pos_nFile pos)) = Some f'
    ∧ df_filesize df4 = fileLength f'
    ∧ usedSize type info + 8 + Z.of_nat (length block) + checksumLength type < fileLength f'
    ∧ slice (usedSize type info) 4 (f_bytes f') = MessageStart env
    ∧ slice (usedSize type info + 4) 4 (f_bytes f') = htole32 (Z.of_nat (length block))
    ∧ slice (usedSize type info + 8) (Z.of_nat (length block)) (f_bytes f') = block
    ∧ slice (usedSize type info + 8 + Z.of_nat (length block)) (checksumLength type)
        (f_bytes f')
      = checksumBytes env type blockHash block
    ∧ (type = RevertBlock → is_Some blockHash)
    ∧ (∀ q, q ≠ mkPath DataDir type (pos_nFile pos) → disk s' q = disk s q)
    ∧ (∀ f o n, disk s (mkPath DataDir type (pos_nFile pos)) = Some f →
         0 ≤ o → 0 ≤ n → o + n ≤ usedSize type info → o + n ≤ fileLength f →
         slice o n (f_bytes f') = slice o n (f_bytes f))
    ∧ vinfoBlockFile s'
      = <[Z.to_nat (pos_nFile pos) := infoAfterWrite type (Z.of_nat (length block)) info]>
          (vinfoBlockFile s ++ replicate k newFileInfo)
    ∧ (Z.to_nat (pos_nFile pos) < length (vinfoBlockFile s) + k)%nat
    ∧ setDirtyFileInfo s' = {[pos_nFile pos]} ∪ setDirtyFileInfo s
    ∧ (historyInRange s → historyInRange s').
Proof.
  intros Hinv Hfit H. pose proof Hinv as (Hdirs & Hlast & Hshape & Hslots).
  unfold writeBlock in H.
  destruct (Z.ltb_spec (Z.of_nat (length block)) (MAX_BLOCKFILE_SIZE - 8)) as [Hsize|];
    [|done]. simpl in H.
  destruct (selectFile s _ type (pos_nFile pos0)) as [[[s1 newFile] nFile]|] eqn:Hsel;
    [|done]. simpl in H.
  destruct (fileInfoAt (vinfoBlockFile s1) nFile) as [info|] eqn:Hinfo; [|done].
  simpl in H.
  pose proof (selectFile_info _ _ _ _ _ _ _ _ Hsel Hinfo) as Hdefault.
  assert (Hfull : type = ForwardBlock → newFile = false →
                  nSize info + Z.of_nat (length block) + 8 ≤ MAX_BLOCKFILE_SIZE
                  ∨ ¬ (0 ≤ nSize info ∧ nSize info + Z.of_nat (length block) + 40 < 2 ^ 32)).
  { intros -> ->. revert Hsel. unfold selectFile. simpl.
    destruct (Z.of_nat (length (vinfoBlockFile s)) <=? nLastBlockFile s); simpl.
    { by intros (_ & ? & _)%selectFile_asserts. }
    destruct (fileInfoAt (vinfoBlockFile s) (nLastBlockFile s)) as [info0|] eqn:Hinfo0;
      [|done]. simpl.
    destruct (Z.ltb_spec MAX_BLOCKFILE_SIZE (u32 (nSize info0 + Z.of_nat (length block) + 8)))
      as [|Hle]; simpl; intros (-> & ? & -> & _)%selectFile_asserts; [done|].
    simpl in Hinfo. rewrite Hinfo0 in Hinfo. injection Hinfo as ->.
    destruct (decide (0 ≤ nSize info
                      ∧ nSize info + Z.of_nat (length block) + 40 < 2 ^ 32)) as [Hr|];
      [|by right].
    left. rewrite u32_small in Hle by lia. done. }
  apply selectFile_shape in Hsel
    as (k & last & -> & Hlast1 & Hlen1 & Hn & Hnew & Hkeep & Hfwd & Hrev); [|done|done].
  apply fileInfoAt_inv in Hinfo as [Hidx Hlook]. simpl in Hlook, H.
  assert (Hnth : (Z.to_nat nFile < length (vinfoBlockFile s) + k)%nat).
  { apply lookup_lt_Some in Hlook. by rewrite length_app, length_replicate in Hlook. }
  (* the counters of the chosen file do not wrap *)
  assert (Hb : 0 ≤ nSize info ∧ 0 ≤ nUndoSize info
               ∧ nSize info + Z.of_nat (length block) + 40 < 2 ^ 32
               ∧ nUndoSize info + Z.of_nat (length block) + 40 < 2 ^ 32).
  { apply list_elem_of_lookup_2, elem_of_app in Hlook as [Hin|Hin].
    - unfold sizesFit in Hfit. rewrite Forall_forall in Hfit. by apply Hfit.
    - apply elem_of_replicate in Hin as [-> _]. simpl.
      unfold MAX_BLOCKFILE_SIZE in Hsize. change (2 ^ 32) with 4294967296. lia. }
  assert (Hp0 : 0 ≤ usedSize type info
                ∧ usedSize type info + Z.of_nat (length block) + 40 < 2 ^ 32)
    by (destruct type; simpl; lia).
  (* a file that is created has no live mapping *)
  set (create := newFile || negb (bool_decide (type = ForwardBlock))
                            && (nUndoSize info =? 0)) in *.
  assert (Hnolive : create = true → ∀ df, slots s type !! Z.to_nat nFile ≠ Some (Some df)).
  { intros Hc df Hdf. destruct (Hslots type _ df Hdf) as (_ & _ & info0 & Hinfo0 & Hused).
    rewrite Hinfo0 in Hdefault. simpl in Hdefault. subst info0.
    subst create. apply orb_true_iff in Hc as [->|Hc].
    - specialize (Hnew eq_refl Hidx). apply lookup_lt_Some in Hinfo0. lia.
    - apply andb_true_iff in Hc as [Ht Hz]. apply Z.eqb_eq in Hz.
      destruct type; [done|]. simpl in Hused. lia. }
  assert (Hused0 : create = true → usedSize type info = 0).
  { intros Hc. subst create. apply orb_true_iff in Hc as [->|Hc].
    - specialize (Hnew eq_refl Hidx). rewrite lookup_ge_None_2 in Hdefault by lia.
      simpl in Hdefault. subst info. by destruct type.
    - apply andb_true_iff in Hc as [Ht Hz]. apply Z.eqb_eq in Hz. by destruct type. }
  rewrite Hdirs, getFilepathForIndex_nil in H.
  set (P := mkPath DataDir type nFile) in *.
  destruct (if create then _ else _) as [d2|] eqn:Hcreate; [|done]. simpl in H.
  assert (Hd2 : ∀ q, q ≠ P → d2 q = disk s q).
  { intros q Hq. destruct create.
    - rewrite (createFile_effect _ _ _ _ Hcreate). by rewrite decide_False.
    - by injection Hcreate as <-. }
  assert (HdP : create = false → d2 = disk s).
  { intros Hc. rewrite Hc in Hcreate. by injection Hcreate as <-. }
  set (s2 := set_disk d2 _) in *.
  destruct (mapFile s2 nFile type) as [[s3 buf]|] eqn:Hmap; [|done].
  destruct (mapFile_history _ _ _ _ _ Hmap) as [Hhist3 _].
  pose proof (λ t j x, mapFile_keeps_live _ _ _ _ t _ j x Hmap) as Hlive3.
  pose proof (mapFile_buf _ _ _ _ _ Hmap) as Hbuf.
  destruct (mapFile_effect _ _ _ _ _ Hmap)
    as (_ & _ & Hslot3 & Hd3 & Hdirs3 & Hv3 & Hlast3 & Hdirty3 & _).
  simpl in H. destruct buf as [df|]; [|done].
  destruct (df_writable df); [|done]. simpl in H.
  assert (Hdf : df_path df = P ∧ ∃ f, d2 P = Some f ∧ df_filesize df = fileLength f
                ∧ (create = false → disk s P = Some f)).
  { destruct Hbuf as [(x & Hx & [= <-])|[_ Hbuf]].
    - assert (Hc : create = false).
      { destruct create eqn:Hc; [|done]. by destruct (Hnolive eq_refl df). }
      destruct (Hslots type _ df Hx) as (Hpath & (f & Hf & Hsz) & _).
      rewrite Z2Nat.id in Hpath by done. fold P in Hpath. split; [done|].
      exists f. rewrite (HdP Hc), <- Hpath. by repeat split.
    - assert (Hres : resolved s2 type nFile = P)
        by (unfold resolved; simpl; by rewrite Hdirs, getFilepathForIndex_nil).
      unfold blockFile in Hbuf. rewrite Hres in Hbuf. simpl in Hbuf.
      destruct (d2 P) as [f|] eqn:Hf; [|done]. simpl in Hbuf. injection Hbuf as ->.
      split; [exact Hres|]. exists f. split; [done|]. split; [done|].
      intros Hc. by rewrite <- (HdP Hc). }
  destruct Hdf as (Hpath & f & Hf & Hsz & Hforig).
  apply (storeBlock_effect env s3 s' nFile type info df f) in H
    as (df4 & f' & -> & -> & Hp4 & Hs4 & Hf' & Hsz' & Hend' & Hgrow' & Hprefix & Hmagic
        & Hsize' & Hblock & Hsum & Hhash & Hq' & Hl' & Hh' & Hdirs' & Hv' & Hlast' & Hdirty');
    try done; try lia.
  2:{ by rewrite Hdirs3. }
  2:{ rewrite Hd3, Hpath. done. }
  rewrite Hpath in Hp4, Hf', Hq'. simpl.
  assert (Hlast2 : nLastBlockFile s' = last) by (by rewrite Hlast', Hlast3).
  assert (Hvinfo : vinfoBlockFile s'
            = <[Z.to_nat nFile := infoAfterWrite type (Z.of_nat (length block)) info]>
                (vinfoBlockFile s ++ replicate k newFileInfo))
    by (by rewrite Hv', Hv3).
  assert (Hdisk' : ∀ q, q ≠ P → disk s' q = disk s q).
  { intros q Hq. rewrite Hq', Hd3 by done. simpl. by apply Hd2. }
  exists df4, f', k, info.
  split.
  { (* the invariant *)
    split; [done|]. split; [lia|].
    split. { right. rewrite Hvinfo, length_insert, length_app, length_replicate. lia. }
    assert (Hkeepinfo : ∀ (i : nat) info0, i ≠ Z.to_nat nFile →
              vinfoBlockFile s !! i = Some info0 → vinfoBlockFile s' !! i = Some info0).
    { intros i info0 Hne Hi. rewrite Hvinfo, list_lookup_insert_ne by done.
      by apply lookup_app_l_Some. }
    assert (Hwritten : vinfoBlockFile s' !! Z.to_nat nFile
              = Some (infoAfterWrite type (Z.of_nat (length block)) info)).
    { rewrite Hvinfo. apply list_lookup_insert_eq.
      by rewrite length_app, length_replicate. }
    intros type' i df' Hdf'.
    assert (Hold : (type' = type ∧ i = Z.to_nat nFile ∧ df' = df4)
                   ∨ ((type' ≠ type ∨ i ≠ Z.to_nat nFile)
                      ∧ slots s type' !! i = Some (Some df'))).
    { destruct (decide ((type', i) = (type, Z.to_nat nFile))) as [[= -> ->]|Hne].
      - left. rewrite Hs4 in Hdf'. by simplify_eq.
      - right. split.
        { destruct (decide (type' = type)) as [->|]; [|by left].
          right. congruence. }
        apply Hl' in Hdf'; [|done]. apply Hlive3 in Hdf'; [|done].
        revert Hdf'. by destruct type'. }
    destruct Hold as [(-> & -> & ->)|[Hdiff Hdf0]].
    - rewrite Z2Nat.id by done. split; [done|]. split.
      { rewrite Hp4. by exists f'. }
      eexists. split; [done|]. destruct type; simpl; lia.
    - destruct (Hslots type' i df' Hdf0) as (Hpath0 & (f0 & Hf0 & Hsz0) & info0 & Hinfo0 & Hused0').
      split; [done|]. split.
      { exists f0. split; [|done]. rewrite Hdisk'; [done|].
        rewrite Hpath0. unfold P. intros [= -> Heq]. destruct Hdiff as [?|Hi]; [done|].
        apply Hi. lia. }
      destruct (decide (i = Z.to_nat nFile)) as [->|Hni].
      + rewrite Hinfo0 in Hdefault. simpl in Hdefault. subst info0.
        eexists. split; [done|]. destruct Hdiff as [Ht|?]; [|done].
        by destruct type, type'.
      + exists info0. split; [by apply Hkeepinfo|done]. }
  split; [done|]. split; [done|]. split; [done|]. split; [lia|]. split; [lia|].
  split; [done|].
  split.
  { intros ->. split; [by rewrite Hlast2, (Hfwd eq_refl)|].
    destruct newFile eqn:Hnf.
    - assert (Hz : usedSize ForwardBlock info = 0) by (by apply Hused0).
      simpl in Hz. unfold MAX_BLOCKFILE_SIZE in *. lia.
    - destruct (Hfull eq_refl eq_refl) as [?|Hno]; [done|]. destruct Hno. lia. }
  split. { intros ->. destruct (Hrev eq_refl) as [-> ->]. by rewrite Hlast2. }
  split; [lia|]. split; [done|]. split; [done|]. split; [done|]. split; [done|].
  split; [done|]. split; [done|]. split; [done|]. split; [done|]. split; [done|].
  split; [done|]. split; [done|]. split; [done|].
  split.
  { intros f0 o n Hf0 Ho Hn0 Hop Hof.
    destruct create eqn:Hc.
    - rewrite (Hused0 eq_refl) in Hop. assert (n = 0) as -> by lia.
      unfold slice. by rewrite !take_0.
    - assert (f0 = f) as ->
        by (specialize (Hforig eq_refl); unfold P in Hforig; congruence).
      by apply Hprefix. }
  split; [done|]. split; [done|].
  split; [by rewrite Hdirty', Hdirty3|].
  intros Hh. apply Hh', Hhist3.
  revert Hh. apply historyInRange_mono; [done|]. intros t. by destruct t.
Qed.

(** ** Where a block is written *)




Lemma storeInv_noSlots (d : Disk) (v : list CBlockFileInfo) (last : Z) (g : gset Z)
  (u : DataFile → bool) :
  0 ≤ last →
  v = [] ∨ Z.of_nat (length v) = last + 1 →
  storeInv (mkFileStore d [] [] [] [] v last g u).
Proof.
  intros Hlast Hv. split; [done|]. split; [done|]. split; [done|].
  intros type i df Hdf. by destruct type, i.
Qed.




(** X16.  In a node without additional block directories whose live
    mappings are consistent ([storeInv]) and whose 32-bit counters do not
    wrap, a successful [writeBlock] keeps that invariant, keeps the history
    of open files within the slot vectors if it was, changes no file but
    the one it writes to, and keeps every stored block readable: a block
    or undo block that [loadBlock] read before the write, and that ends
    within the used size recorded for its file, is read with the same
    bytes after the write, unless the mapping of its file stops at the
    assertion of a deleter ([cleanupStops]). *)
Theorem writeBlock_keeps_stored_blocks (env : Env) (s s' : FileStore) (block : list byte)
  (pos0 pos : CDiskBlockPos) (type : BlockType) (blockHash : option uint256)
  (view : ConstBuffer) :
  storeInv s →
  sizesFit s (Z.of_nat (length block)) →
  writeBlock env s block pos0 type blockHash = Ok (s', pos, view) →
  storeInv s'
  ∧ (historyInRange s → historyInRange s')
  ∧ (∀ q, q ≠ mkPath DataDir type (pos_nFile pos) → disk s' q = disk s q)
  ∧ ∀ (type1 : BlockType) (pos1 : CDiskBlockPos) (hash1 : option uint256)
      (s1 : FileStore) (v1 : ConstBuffer) (payload1 : list byte),
      0 ≤ pos_nFile pos1 →
      loadBlock env s pos1 type1 hash1 = Ok (s1, v1) →
      viewBytes (disk s1) v1 = Some payload1 →
      pos_nPos pos1 + Z.of_nat (length payload1)
        + match hash1 with Some _ => 32 | None => 0 end
      ≤ usedSize type1
          (default newFileInfo (vinfoBlockFile s !! Z.to_nat (pos_nFile pos1))) →
      if cleanupStops s' type1 (pos_nFile pos1)
      then loadBlock env s' pos1 type1 hash1 = Err AssertionFailure
      else ∃ s2 v2, loadBlock env s' pos1 type1 hash1 = Ok (s2, v2)
             ∧ viewBytes (disk s2) v2 = Some payload1.
Proof.
  intros Hinv Hfit Hwrite.
  destruct (writeBlock_effect env s s' block pos0 pos type blockHash view Hinv Hfit Hwrite)
    as (df4 & f' & k & info & Hinv' & Hinfo & Hidx & Hpos & Hused & Hwrap & _ & _ & _ & _
        & _ & _ & _ & Hf' & _ & Hend & _ & _ & _ & _ & _ & Hother & Hprefix & _ & _ & _
        & Hhist).
  split; [done|]. split; [done|]. split; [done|].
  intros type1 [nFile1 nPos1] hash1 s1 v1 payload1 Hidx1 Hload Hview Hin. simpl in *.
  destruct (loadBlock_ok_inv env s s1 type1 nFile1 nPos1 payload1 hash1 v1 Hinv Hidx1
              Hload Hview) as (f & Hf & Hpos1 & Hlen & Hpay & Hend1 & Hhash).
  destruct (cleanupStops s' type1 nFile1) eqn:Hstop.
  { unfold loadBlock. simpl. destruct (Z.ltb_spec nPos1 4); [lia|].
    by rewrite mapFile_stops. }
  set (extra := match hash1 with Some _ => 32 | None => 0 end) in *.
  assert (Hextra : 0 ≤ extra ≤ 32) by (subst extra; destruct hash1; lia).
  set (info1 := default newFileInfo (vinfoBlockFile s !! Z.to_nat nFile1)) in *.
  assert (Hwrap1 : usedSize type1 info1 < 2 ^ 32).
  { subst info1. destruct (vinfoBlockFile s !! Z.to_nat nFile1) as [i1|] eqn:Hi1; simpl.
    - unfold sizesFit in Hfit. rewrite Forall_forall in Hfit.
      apply list_elem_of_lookup_2, Hfit in Hi1. destruct type1; simpl; lia.
    - by destruct type1. }
  destruct (decide (mkPath DataDir type1 nFile1 = mkPath DataDir type (pos_nFile pos)))
    as [Heq|Hne].
  - injection Heq as -> ->. subst info1. rewrite <- Hinfo in Hin, Hwrap1.
    assert (Hcl : 0 ≤ checksumLength type) by (destruct type; simpl; lia).
    apply (loadBlock_reads_frame env s' type (pos_nFile pos) nPos1 f'); try done; try lia.
    + rewrite (Hprefix f) by (done || lia). done.
    + rewrite (Hprefix f) by (done || lia). done.
    + destruct hash1 as [h|]; [|done]. destruct Hhash as [Ht Hsum]. split; [done|].
      rewrite (Hprefix f) by (done || subst extra; lia). done.
  - apply (loadBlock_reads_frame env s' type1 nFile1 nPos1 f); try done; try lia.
    by rewrite Hother.
Qed.

(** X17.  The bookkeeping of a successful [writeBlock], under [storeInv]
    and without wrapping counters: the info of the written file counts one
    more block and [blockSize + 8] more bytes for a block, [blockSize + 40]
    more undo bytes for an undo block; the info of every other file is
    unchanged and infos added to the vector are empty; the vector reaches
    exactly to the last file number, which never decreases; the written
    file, and no other, is added to the dirty files; no block file is
    recorded with more than [MAX_BLOCKFILE_SIZE] bytes if none was before;
    and the file on disk is longer than the used size recorded for it. *)
Theorem writeBlock_bookkeeping (env : Env) (s s' : FileStore) (block : list byte)
  (pos0 pos : CDiskBlockPos) (type : BlockType) (blockHash : option uint256)
  (view : ConstBuffer) :
  storeInv s →
  sizesFit s (Z.of_nat (length block)) →
  writeBlock env s block pos0 type blockHash = Ok (s', pos, view) →
  let n := Z.to_nat (pos_nFile pos) in
  let info := default newFileInfo (vinfoBlockFile s !! n) in
  vinfoBlockFile s' !! n = Some (infoAfterWrite type (Z.of_nat (length block)) info)
  ∧ (∀ i info0, i ≠ n → vinfoBlockFile s !! i = Some info0 →
       vinfoBlockFile s' !! i = Some info0)
  ∧ (∀ i, (length (vinfoBlockFile s) ≤ i < length (vinfoBlockFile s'))%nat → i ≠ n →
       vinfoBlockFile s' !! i = Some newFileInfo)
  ∧ Z.of_nat (length (vinfoBlockFile s')) = nLastBlockFile s' + 1
  ∧ nLastBlockFile s ≤ nLastBlockFile s'
  ∧ setDirtyFileInfo s' = {[pos_nFile pos]} ∪ setDirtyFileInfo s
  ∧ (Forall (λ i, nSize i ≤ MAX_BLOCKFILE_SIZE) (vinfoBlockFile s) →
     Forall (λ i, nSize i ≤ MAX_BLOCKFILE_SIZE) (vinfoBlockFile s'))
  ∧ ∃ f', disk s' (mkPath DataDir type (pos_nFile pos)) = Some f'
      ∧ usedSize type (infoAfterWrite type (Z.of_nat (length block)) info)
        < fileLength f'.
Proof.
  intros Hinv Hfit Hwrite n info.
  destruct (writeBlock_effect env s s' block pos0 pos type blockHash view Hinv Hfit Hwrite)
    as (df4 & f' & k & info1 & Hinv' & Hinfo & Hidx & Hpos & Hused & Hwrap & _ & Hfwd & _
        & Hlast & _ & _ & _ & Hf' & _ & Hend & _ & _ & _ & _ & _ & _ & _ & Hvinfo & Hn
        & Hdirty & _).
  fold n in Hinfo, Hvinfo, Hn. fold info in Hinfo. subst info1.
  destruct Hinv' as (_ & _ & Hshape' & _).
  split. { rewrite Hvinfo. apply list_lookup_insert_eq.
           by rewrite length_app, length_replicate. }
  split. { intros i info0 Hne Hi. rewrite Hvinfo, list_lookup_insert_ne by done.
           by apply lookup_app_l_Some. }
  split. { intros i [Hlo Hhi] Hne. rewrite Hvinfo, list_lookup_insert_ne by done.
           rewrite Hvinfo, length_insert, length_app, length_replicate in Hhi.
           rewrite lookup_app_r by done. apply lookup_replicate_2. lia. }
  split. { destruct Hshape' as [Hnil|]; [|done].
           rewrite Hvinfo in Hnil. apply (f_equal length) in Hnil.
           rewrite length_insert, length_app, length_replicate in Hnil. simpl in Hnil. lia. }
  split; [done|]. split; [done|].
  split.
  { intros Hcap. rewrite Hvinfo. apply Forall_insert.
    - apply Forall_app. split; [done|]. apply Forall_replicate.
      unfold MAX_BLOCKFILE_SIZE. simpl. lia.
    - destruct type; simpl.
      + destruct (Hfwd eq_refl) as [_ ?]. lia.
      + subst info. destruct (vinfoBlockFile s !! n) as [i0|] eqn:Hi0; simpl.
        * rewrite Forall_forall in Hcap. apply list_elem_of_lookup_2 in Hi0.
          by apply Hcap.
        * unfold MAX_BLOCKFILE_SIZE. lia. }
  exists f'. split; [done|]. destruct type; simpl in *; lia.
Qed.

(** X18.  [writeUndoBlock] refuses an empty undo block with an assertion
    failure.  A successful call, under [storeInv] and without wrapping
    counters, writes into the revert file with the given index, at the end
    of its used undo bytes, raises the last file number to that index if
    it was smaller, and adds [blockSize + 40] to the undo size of the
    file, leaving its block count and size.  Afterwards [loadUndoBlock] at
    the returned position returns the written bytes for every block hash
    whose checksum over the bytes equals the one of the hash used for
    writing, and fails with [ChecksumMismatch] for every other hash. *)
Theorem writeUndoBlock_then_load (env : Env) (s : FileStore) (blockHash : uint256)
  (fileIndex : Z) :
  writeUndoBlock env s [] blockHash fileIndex = Err AssertionFailure
  ∧ ∀ (s' : FileStore) (block : list byte) (pos : CDiskBlockPos) (view : ConstBuffer),
      storeInv s →
      sizesFit s (Z.of_nat (length block)) →
      writeUndoBlock env s block blockHash fileIndex = Ok (s', pos, view) →
      let info := default newFileInfo (vinfoBlockFile s !! Z.to_nat fileIndex) in
      pos = mkPos fileIndex (nUndoSize info + 8)
      ∧ 0 ≤ fileIndex
      ∧ nLastBlockFile s' = Z.max (nLastBlockFile s) fileIndex
      ∧ vinfoBlockFile s' !! Z.to_nat fileIndex
        = Some (mkFileInfo (nBlocks info) (nSize info)
                  (nUndoSize info + Z.of_nat (length block) + 40))
      ∧ ∀ h : uint256,
          (uint256_bytes (Hash256 env (uint256_bytes h ++ block))
           = uint256_bytes (Hash256 env (uint256_bytes blockHash ++ block)) →
           ∃ s2 v, loadUndoBlock env s' pos h = Ok (s2, v)
             ∧ viewBytes (disk s2) v = Some block)
          ∧ (uint256_bytes (Hash256 env (uint256_bytes h ++ block))
             ≠ uint256_bytes (Hash256 env (uint256_bytes blockHash ++ block)) →
             loadUndoBlock env s' pos h = Err ChecksumMismatch).
Proof.
  split; [done|].
  intros s' block pos view Hinv Hfit Hwrite info. unfold writeUndoBlock in Hwrite.
  destruct (0 <? Z.of_nat (length block)); [|done]. simpl in Hwrite.
  destruct (writeBlock_effect env s s' block _ pos RevertBlock _ view Hinv Hfit Hwrite)
    as (df4 & f' & k & info1 & Hinv' & Hinfo & Hidx & Hpos & Hused & Hwrap & _ & _ & Hrev
        & _ & _ & _ & Hs4 & Hf' & _ & Hend & _ & Hlen & Hblock & Hsum & _ & _ & _ & Hvinfo
        & Hn & _).
  destruct (Hrev eq_refl) as [Hfile Hlast]. simpl in Hfile, Hlast.
  destruct pos as [nFile nPos]. simpl in *. subst nFile. fold info in Hinfo. subst info1.
  split; [by rewrite Hpos|]. split; [done|]. split; [done|].
  split. { rewrite Hvinfo, list_lookup_insert_eq
             by (by rewrite length_app, length_replicate).
           do 2 f_equal. lia. }
  intros h.
  destruct (loadBlock_frame_result env s' RevertBlock fileIndex nPos f' block (Some h))
    as (s2 & v & Hview & Hload); try done; try lia.
  { rewrite Hpos. replace (nUndoSize info + 8 - 4) with (nUndoSize info + 4) by lia.
    rewrite Hlen. apply le32toh_htole32. lia. }
  { by rewrite Hpos. }
  { by apply (cleanupStops_live _ _ _ df4). }
  unfold loadUndoBlock. rewrite Hload. simpl. rewrite Hpos, Hsum.
  split; intros Hh.
  - rewrite bool_decide_false by (by intros []). eauto.
  - rewrite bool_decide_true; [done|]. by intros ?.
Qed.

(** ** Loading the rows of the block index *)

Lemma indexWf_inj (ix : Index) (h1 h2 : uint256) (p : ptr) :
  indexWf ix →
  Index_get (indexMap ix) h1 = Some p → Index_get (indexMap ix) h2 = Some p → h1 = h2.
Proof.
  intros Hwf H1 H2.
  destruct (indexWf_get ix h1 p Hwf H1) as (a1 & r1 & Ha1 & Hr1 & Hp1).
  destruct (indexWf_get ix h2 p Hwf H2) as (a2 & r2 & Ha2 & Hr2 & Hp2).
  assert (r1 = r2) as -> by congruence. assert (a1 = a2) as -> by congruence.
  congruence.
Qed.

Lemma InsertBlockIndex_effect (ix : Index) (hash : uint256) :
  indexWf ix → hash ≠ 0 →
  ∃ ix' p, InsertBlockIndex ix hash = (ix', Some p)
    ∧ indexWf ix'
    ∧ setDirtyBlockIndex ix' = setDirtyBlockIndex ix
    ∧ Index_get (indexMap ix') hash = Some p
    ∧ (∀ h, h ≠ hash → Index_get (indexMap ix') h = Index_get (indexMap ix) h)
    ∧ (∀ h q, Index_get (indexMap ix) h = Some q → Index_get (indexMap ix') h = Some q)
    ∧ (∀ q rq, ix_heap ix !! q = Some rq → ix_heap ix' !! q = Some rq)
    ∧ match Index_get (indexMap ix) hash with
      | Some _ => ix' = ix
      | None => ix_heap ix' !! p
                = Some (set_phashBlock (Some (length (indexMap ix))) newBlockIndex)
      end.
Proof.
  intros Hwf Hne. pose proof (InsertBlockIndex_wf ix hash Hwf) as Hwf'.
  revert Hwf'. unfold InsertBlockIndex.
  destruct (Z.eqb_spec hash 0) as [|_]; [done|].
  destruct (Index_get (indexMap ix) hash) as [p|] eqn:Hget; simpl.
  - intros _. exists ix, p. split; [done|]. split; [done|]. by repeat split.
  - rewrite Index_insert_eq, Hget. simpl. intros Hwf'.
    eexists _, _. split; [done|]. split; [done|]. simpl. split; [done|].
    split. { rewrite Index_get_app, Hget, Index_get_cons. by rewrite decide_True. }
    split. { intros h Hh. rewrite Index_get_app, Index_get_cons.
             rewrite decide_False by done. by destruct (Index_get (indexMap ix) h). }
    split. { intros h q Hq. by rewrite Index_get_app, Hq. }
    split. { intros q rq Hq. by apply lookup_app_l_Some. }
    rewrite lookup_app_r by done. by rewrite Nat.sub_diag.
Qed.

Lemma loadRecord_again (old : CBlockIndex) (prev : option ptr) (di : CDiskBlockIndex) :
  loadRecord (loadRecord old prev di) prev di = loadRecord old prev di.
Proof. done. Qed.

Ltac loadRows_stays :=
  eexists _, _, _; split; [done|]; split; [done|]; split; [done|]; split; [done|];
  split; [done|]; split; [by left|]; split; [congruence|];
  intros ? Hnone; by apply elem_of_nil in Hnone.

Lemma loadRows_spec (rows : list Row) :
  ∀ (ix : Index) (maxFile : Z),
  indexWf ix →
  Forall (λ di, dbi_hash di ≠ 0) (blockRows rows) →
  NoDup (dbi_hash <$> blockRows rows) →
  ∃ ix' m ok,
    loadRows rows ix maxFile = Some (ix', m, ok)
    ∧ indexWf ix'
    ∧ setDirtyBlockIndex ix' = setDirtyBlockIndex ix
    ∧ (∀ h q, Index_get (indexMap ix) h = Some q → Index_get (indexMap ix') h = Some q)
    ∧ (∀ h q r, Index_get (indexMap ix) h = Some q → h ∉ dbi_hash <$> blockRows rows →
         ix_heap ix !! q = Some r → ix_heap ix' !! q = Some r)
    ∧ (∀ h, is_Some (Index_get (indexMap ix') h) →
         is_Some (Index_get (indexMap ix) h)
         ∨ ∃ di, di ∈ blockRows rows ∧ (h = dbi_hash di ∨ h = dbi_hashPrev di))
    ∧ (∀ h q, Index_get (indexMap ix) h = None → Index_get (indexMap ix') h = Some q →
         h ∉ dbi_hash <$> blockRows rows →
         ∃ a, ix_heap ix' !! q = Some (set_phashBlock (Some a) newBlockIndex))
    ∧ (∀ di, di ∈ blockRows rows →
         ∃ p r, Index_get (indexMap ix') (dbi_hash di) = Some p
           ∧ ix_heap ix' !! p = Some r
           ∧ r = loadRecord r
                   (if dbi_hashPrev di =? 0 then None
                    else Index_get (indexMap ix') (dbi_hashPrev di)) di).
Proof.
  induction rows as [|row rows IH]; intros ix maxFile Hwf Hnz Hnd.
  { simpl. loadRows_stays. }
  simpl in Hnz, Hnd |- *.
  destruct (row_key row) as [[c k]|] eqn:Hkey; [|loadRows_stays].
  destruct (row_value row) as [di|] eqn:Hval.
  2:{ case_bool_decide; loadRows_stays. }
  case_bool_decide as Hc; [|loadRows_stays].
  apply Forall_cons in Hnz as [Hhash Hnz]. rewrite fmap_cons in Hnd.
  apply NoDup_cons in Hnd as [Hfresh Hnd].
  destruct (InsertBlockIndex_effect ix (dbi_hash di) Hwf Hhash)
    as (ix1 & p & -> & Hwf1 & Hdirty1 & Hget1 & Hsame1 & Hmono1 & Hheap1 & Hnew1).
  simpl.
  assert (Hins2 : ∃ ix2 prev, InsertBlockIndex ix1 (dbi_hashPrev di) = (ix2, prev)
            ∧ indexWf ix2
            ∧ setDirtyBlockIndex ix2 = setDirtyBlockIndex ix1
            ∧ prev = (if dbi_hashPrev di =? 0 then None
                      else Index_get (indexMap ix2) (dbi_hashPrev di))
            ∧ (dbi_hashPrev di ≠ 0 → is_Some prev)
            ∧ (∀ h, h ≠ dbi_hashPrev di →
                 Index_get (indexMap ix2) h = Index_get (indexMap ix1) h)
            ∧ (∀ h q, Index_get (indexMap ix1) h = Some q →
                 Index_get (indexMap ix2) h = Some q)
            ∧ (∀ q rq, ix_heap ix1 !! q = Some rq → ix_heap ix2 !! q = Some rq)
            ∧ (∀ q, Index_get (indexMap ix1) (dbi_hashPrev di) = None →
                 Index_get (indexMap ix2) (dbi_hashPrev di) = Some q →
                 ∃ a, ix_heap ix2 !! q = Some (set_phashBlock (Some a) newBlockIndex))).
  { destruct (Z.eqb_spec (dbi_hashPrev di) 0) as [Hz|Hnz2].
    - exists ix1, None. unfold InsertBlockIndex. rewrite Hz. simpl.
      split; [done|]. split; [done|]. split; [done|]. split; [done|]. split; [done|].
      split; [done|]. split; [done|]. split; [done|]. intros q Hn Hs. congruence.
    - destruct (InsertBlockIndex_effect ix1 (dbi_hashPrev di) Hwf1 Hnz2)
        as (ix2 & pp & -> & Hwf2 & Hdirty2 & Hget2 & Hsame2 & Hmono2 & Hheap2 & Hnew2).
      exists ix2, (Some pp). split; [done|]. split; [done|].
      split; [done|]. split; [done|]. split; [done|]. split; [done|]. split; [done|].
      split; [done|].
      intros q Hn Hs. rewrite Hn in Hnew2. assert (q = pp) as -> by congruence. eauto. }
  destruct Hins2 as (ix2 & prev & -> & Hwf2 & Hdirty2 & Hprev & Hsome & Hsame2 & Hmono2 & Hheap2
                     & Hnew2).
  assert (Hget2 : Index_get (indexMap ix2) (dbi_hash di) = Some p) by (by apply Hmono2).
  destruct (indexWf_get ix2 _ p Hwf2 Hget2) as (a0 & old & Ha0 & Hold & Hph).
  rewrite Hold. simpl.
  set (rec := loadRecord old prev di).
  set (ix3 := mkIndex (<[p := rec]> (ix_heap ix2)) (indexMap ix2) (setDirtyBlockIndex ix2)).
  assert (Hwf3 : indexWf ix3).
  { destruct Hwf2 as [Hnd2 Hall2]. split; [done|]. intros a h q Ha. simpl in *.
    destruct (Hall2 a h q Ha) as (r & Hr & Hpr).
    destruct (decide (q = p)) as [->|Hqp].
    - exists rec. split; [apply list_lookup_insert_eq; by eapply lookup_lt_Some|].
      assert (r = old) as -> by congruence. done.
    - exists r. by rewrite list_lookup_insert_ne. }
  assert (Hother3 : ∀ h q r, h ≠ dbi_hash di → Index_get (indexMap ix2) h = Some q →
            ix_heap ix2 !! q = Some r → ix_heap ix3 !! q = Some r).
  { intros h q r Hh Hq Hr. simpl. rewrite list_lookup_insert_ne; [done|].
    intros <-. apply Hh. by apply (indexWf_inj ix2 h (dbi_hash di) p). }
  destruct (IH ix3 (Z.max (dbi_nFile di) maxFile) Hwf3 Hnz Hnd)
    as (ix' & m & ok & -> & Hwf' & Hdirty' & Hmono' & Hkeep' & Hdom' & Hblank' & Hrows').
  exists ix', m, ok. split; [done|]. split; [done|].
  split. { rewrite Hdirty'. simpl. by rewrite Hdirty2, Hdirty1. }
  split. { intros h q Hq. by apply Hmono', Hmono2, Hmono1. }
  split.
  { intros h q r Hq Hh Hr. apply not_elem_of_cons in Hh as [Hh1 Hh2].
    apply (Hkeep' h q r); [by apply Hmono2, Hmono1|done|].
    apply (Hother3 h q r); [done|by apply Hmono2, Hmono1|by apply Hheap2, Hheap1]. }
  split.
  { intros h Hh. destruct (Hdom' h Hh) as [Hin|(di' & Hdi' & Hor)].
    - destruct (decide (h = dbi_hash di)) as [->|Hh1].
      { right. exists di. split; [left|by left]. }
      destruct (decide (h = dbi_hashPrev di)) as [->|Hh2].
      { right. exists di. split; [left|by right]. }
      left. simpl in Hin. by rewrite Hsame2, Hsame1 in Hin.
    - right. exists di'. split; [by right|done]. }
  split.
  { intros h q Hnone Hq Hh. apply not_elem_of_cons in Hh as [Hh1 Hh2].
    destruct (Index_get (indexMap ix3) h) as [q3|] eqn:Hq3.
    - assert (q3 = q) as -> by (apply Hmono' in Hq3; congruence).
      simpl in Hq3.
      assert (Hn1 : Index_get (indexMap ix1) h = None) by (by rewrite Hsame1).
      assert (h = dbi_hashPrev di) as ->.
      { destruct (decide (h = dbi_hashPrev di)); [done|].
        rewrite Hsame2 in Hq3 by done. congruence. }
      destruct (Hnew2 q Hn1 Hq3) as [a Ha].
      exists a. apply (Hkeep' (dbi_hashPrev di) q); [done|done|].
      by apply (Hother3 (dbi_hashPrev di)).
    - by apply (Hblank' h q). }
  intros di' Hdi'. apply elem_of_cons in Hdi' as [->|Hdi']; [|by apply Hrows'].
  exists p, rec. split; [by apply Hmono'|].
  assert (Hrec : ix_heap ix' !! p = Some rec).
  { apply (Hkeep' (dbi_hash di)); [done|done|].
    simpl. apply list_lookup_insert_eq. by eapply lookup_lt_Some. }
  split; [done|].
  assert (Hp' : prev = (if dbi_hashPrev di =? 0 then None
                        else Index_get (indexMap ix') (dbi_hashPrev di))).
  { destruct (Z.eqb_spec (dbi_hashPrev di) 0) as [|Hnz2]; [done|].
    destruct (Hsome Hnz2) as [pp ->]. symmetry. by apply Hmono'. }
  rewrite <- Hp'. done.
Qed.

Lemma loadRows_nonzero (rows : list Row) :
  ∀ (ix : Index) (maxFile : Z),
  is_Some (loadRows rows ix maxFile) → Forall (λ di, dbi_hash di ≠ 0) (blockRows rows).
Proof.
  induction rows as [|row rows IH]; intros ix maxFile; simpl; [done|].
  destruct (row_key row) as [[c k]|]; [|done].
  destruct (row_value row) as [di|]; [|done].
  case_bool_decide; [|done].
  unfold InsertBlockIndex at 1.
  destruct (Z.eqb_spec (dbi_hash di) 0) as [|Hnz]; [by intros [? ?]|].
  destruct (match Index_get (indexMap ix) (dbi_hash di) with Some p => _ | None => _ end)
    as [ix1 [p|]]; [|by intros [? ?]].
  simpl. destruct (InsertBlockIndex ix1 (dbi_hashPrev di)) as [ix2 prev].
  destruct (ix_heap ix2 !! p) as [old|]; [|by intros [? ?]]. simpl.
  intros Hrest. constructor; [done|]. by eapply IH.
Qed.

(** X19.  When [CacheAllBlockInfos] returns on an index that is
    well-formed, for rows whose block hashes differ: no loaded row has the
    null hash; the hash of every loaded row is found in the index, at a
    record that holds the height, file, positions, header fields, status
    and transaction count of the row, and whose parent pointer is the
    record found for the row's previous hash (null for the null hash).
    Hashes found before are still found at the same record, records of
    hashes without a row are unchanged, a hash is found afterwards only if
    it was found before or is the hash or the previous hash of a row, a
    previous hash without a row of its own gets a blank record, and no
    record is marked for saving. *)
Theorem CacheAllBlockInfos_restores_rows (db db' : DB) (rows : list Row) (ok : bool) :
  indexWf (db_index db) →
  NoDup (dbi_hash <$> blockRows rows) →
  CacheAllBlockInfos db rows = Some (db', ok) →
  let ix := db_index db in
  let ix' := db_index db' in
  indexWf ix'
  ∧ (∀ di, di ∈ blockRows rows →
       dbi_hash di ≠ 0
       ∧ ∃ p r, Index_get (indexMap ix') (dbi_hash di) = Some p
           ∧ ix_heap ix' !! p = Some r
           ∧ r = loadRecord r
                   (if dbi_hashPrev di =? 0 then None
                    else Index_get (indexMap ix') (dbi_hashPrev di)) di)
  ∧ (∀ h q, Index_get (indexMap ix) h = Some q → Index_get (indexMap ix') h = Some q)
  ∧ (∀ h q r, Index_get (indexMap ix) h = Some q → h ∉ dbi_hash <$> blockRows rows →
       ix_heap ix !! q = Some r → ix_heap ix' !! q = Some r)
  ∧ (∀ h, is_Some (Index_get (indexMap ix') h) →
       is_Some (Index_get (indexMap ix) h)
       ∨ ∃ di, di ∈ blockRows rows ∧ (h = dbi_hash di ∨ h = dbi_hashPrev di))
  ∧ (∀ h q, Index_get (indexMap ix) h = None → Index_get (indexMap ix') h = Some q →
       h ∉ dbi_hash <$> blockRows rows →
       ∃ a, ix_heap ix' !! q = Some (set_phashBlock (Some a) newBlockIndex))
  ∧ setDirtyBlockIndex ix' = setDirtyBlockIndex ix.
Proof.
  intros Hwf Hnd Hrun ix ix'. unfold CacheAllBlockInfos in Hrun.
  destruct (loadRows rows (db_index db) 0) as [[[ix1 m1] ok1]|] eqn:Hrows; [|done].
  assert (Hnz : Forall (λ di, dbi_hash di ≠ 0) (blockRows rows)).
  { apply (loadRows_nonzero rows (db_index db) 0). by rewrite Hrows. }
  destruct (loadRows_spec rows (db_index db) 0 Hwf Hnz Hnd)
    as (ix2 & m & ok2 & Hrows2 & Hwf' & Hdirty & Hmono & Hkeep & Hdom & Hblank & Hall).
  rewrite Hrows in Hrows2. injection Hrows2 as <- <- <-.
  assert (ix' = ix1) as ->.
  { subst ix'. simpl in Hrun. destruct ok1; simpl in Hrun.
    - destruct (appendAll _ _ _); [|done]. simpl in Hrun. by injection Hrun as <- <-.
    - by injection Hrun as <- <-. }
  split; [done|]. split.
  { intros di Hdi. split; [|by apply Hall].
    rewrite Forall_forall in Hnz. by apply Hnz. }
  done.
Qed.

(** ** Reconsidering a block again *)

Lemma reconsiderBlock_spec (ix : Index) (r : ptr) (rec_r : CBlockIndex) :
  parentsBelow (ix_heap ix) →
  (∀ k p, (k, p) ∈ indexMap ix → is_Some (ix_heap ix !! p)) →
  ix_heap ix !! r = Some rec_r →
  ∃ ix', reconsiderBlock ix r = Some (ix', true)
    ∧ indexMap ix' = indexMap ix
    ∧ shape (ix_heap ix') = shape (ix_heap ix)
    ∧ ∀ q rec, ix_heap ix !! q = Some rec →
        ∃ st, ix_heap ix' !! q = Some (set_nStatus st rec)
          ∧ (st = nStatus rec ∨ st = cleared (nStatus rec))
          ∧ (descendantOf ix r q ∨ ancestorOf ix r q → st = cleared (nStatus rec))
          ∧ (¬ (descendantOf ix r q ∨ ancestorOf ix r q) → st = nStatus rec).
Proof.
  intros Hwf Hmap Hr. unfold reconsiderBlock. rewrite Hr. simpl.
  destruct (reconsiderDescendants_spec r (nHeight rec_r) (indexMap ix)
              (ix_heap ix) (setDirtyBlockIndex ix) Hmap)
    as (heap1 & dirty1 & Hrun1 & Hshape1 & Hdirty1 & Hall1).
  rewrite Hrun1. simpl.
  destruct (Hall1 r rec_r Hr) as (st_r & Hr1 & _).
  destruct (reconsiderAncestors_spec (length heap1) heap1 dirty1 r
              (set_nStatus st_r rec_r))
    as (heap2 & dirty2 & Hrun2 & Hshape2 & Hdirty2 & Hall2).
  { by eapply parentsBelow_shape. }
  { done. }
  { apply below_le_length. }
  rewrite Hrun2. simpl. eexists. split; [done|]. simpl.
  split; [done|]. split; [congruence|].
  intros q rec Hq.
  destruct (Hall1 q rec Hq) as (st1 & Hq1 & Hd1 & Hor1 & Hdesc & Hndesc).
  destruct (Hall2 q _ Hq1) as (st & Hq2 & Hd2 & Hor2 & Hanc & Hnanc).
  simpl in *. rewrite set_nStatus_twice in Hq2.
  exists st. split; [done|].
  assert (Hwalk : ancestorOf ix r q ↔ ∃ n, walkPrev heap1 n r = Some q).
  { unfold ancestorOf. split; intros [n Hn]; exists n.
    - by rewrite (walkPrev_shape heap1 (ix_heap ix)).
    - by rewrite <- (walkPrev_shape heap1 (ix_heap ix)). }
  split; [|split].
  - destruct Hor1 as [->| ->]; [done|]. rewrite cleared_idemp in Hor2. right.
    by destruct Hor2.
  - intros [[Hin (rec_r' & Hr' & Hga)]|Ha].
    + assert (rec_r' = rec_r) as -> by congruence.
      rewrite (Hdesc Hin Hga), cleared_idemp in Hor2. by destruct Hor2.
    + rewrite (Hanc (proj1 Hwalk Ha)).
      destruct Hor1 as [->| ->]; [done|apply cleared_idemp].
  - intros Hno. rewrite Hnanc, Hndesc; [done| |].
    + intros [Hin Hga]. apply Hno. left. split; [done|]. by exists rec_r.
    + intros Ha. apply Hno. right. by apply Hwalk.
Qed.

(** X20.  In an index whose parents stand at lower heights and whose nodes
    hold records, [reconsiderBlock] of a record, run a second time,
    returns true and changes no record of the heap and no node of the map;
    the first run keeps the parent pointers and heights, so every ancestor
    lookup answers as before. *)
Theorem reconsiderBlock_again_changes_nothing (ix : Index) (r : ptr)
  (rec_r : CBlockIndex) :
  parentsBelow (ix_heap ix) →
  (∀ k p, (k, p) ∈ indexMap ix → is_Some (ix_heap ix !! p)) →
  ix_heap ix !! r = Some rec_r →
  ∃ ix1 ix2,
    reconsiderBlock ix r = Some (ix1, true)
    ∧ reconsiderBlock ix1 r = Some (ix2, true)
    ∧ ix_heap ix2 = ix_heap ix1
    ∧ indexMap ix2 = indexMap ix1
    ∧ parentsBelow (ix_heap ix1)
    ∧ (∀ q h, GetAncestor (ix_heap ix1) q h = GetAncestor (ix_heap ix) q h).
Proof.
  intros Hwf Hmap Hr.
  destruct (reconsiderBlock_spec ix r rec_r Hwf Hmap Hr)
    as (ix1 & Hrun1 & Hmap1 & Hshape1 & Hall1).
  assert (Hwf1 : parentsBelow (ix_heap ix1)) by (by eapply parentsBelow_shape).
  assert (Hlen : length (ix_heap ix1) = length (ix_heap ix)).
  { rewrite <- (length_fmap (λ r, (pprev r, nHeight r)) (ix_heap ix1)).
    rewrite <- (length_fmap (λ r, (pprev r, nHeight r)) (ix_heap ix)).
    fold (shape (ix_heap ix1)). fold (shape (ix_heap ix)). congruence. }
  assert (Hvalid1 : ∀ k p, (k, p) ∈ indexMap ix1 → is_Some (ix_heap ix1 !! p)).
  { intros k p Hin. rewrite Hmap1 in Hin. destruct (Hmap k p Hin) as [rp Hp].
    destruct (Hall1 p rp Hp) as (st & -> & _). done. }
  destruct (Hall1 r rec_r Hr) as (st_r & Hr1 & _).
  destruct (reconsiderBlock_spec ix1 r _ Hwf1 Hvalid1 Hr1)
    as (ix2 & Hrun2 & Hmap2 & Hshape2 & Hall2).
  exists ix1, ix2. split; [done|]. split; [done|].
  split; [|split; [done|split; [done|]]].
  2:{ intros q h. by apply GetAncestor_shape. }
  apply list_eq. intros q.
  destruct (ix_heap ix !! q) as [rec|] eqn:Hq.
  - destruct (Hall1 q rec Hq) as (st1 & Hq1 & Hor1 & Hyes1 & Hno1).
    destruct (Hall2 q _ Hq1) as (st2 & Hq2 & Hor2 & Hyes2 & Hno2).
    rewrite Hq2, Hq1. simpl in *. rewrite set_nStatus_twice. do 2 f_equal.
    destruct (decide (st2 = st1)) as [|Hne]; [done|]. exfalso.
    destruct Hor2 as [|Hst2]; [done|].
    assert (Hsame : descendantOf ix1 r q ∨ ancestorOf ix1 r q
                    → descendantOf ix r q ∨ ancestorOf ix r q).
    { intros [[Hin (rr & Hrr & Hga)]|[n Hn]].
      - left. split; [by rewrite <- Hmap1|]. exists rec_r. split; [done|].
        assert (rr = set_nStatus st_r rec_r) as -> by congruence. simpl in Hga.
        by rewrite <- (GetAncestor_shape (ix_heap ix1) (ix_heap ix)).
      - right. exists n. by rewrite <- (walkPrev_shape (ix_heap ix1) (ix_heap ix)). }
    assert (Htouched : ¬ (descendantOf ix1 r q ∨ ancestorOf ix1 r q)).
    { intros Ht. apply Hne. rewrite Hst2, (Hyes1 (Hsame Ht)). apply cleared_idemp. }
    by apply Hno2 in Htouched.
  - apply lookup_ge_None in Hq. rewrite !(proj2 (lookup_ge_None _ _)); [done|lia|].
    rewrite <- Hlen in Hq. 
    rewrite <- (length_fmap (λ r, (pprev r, nHeight r)) (ix_heap ix2)).
    fold (shape (ix_heap ix2)). rewrite Hshape2. unfold shape. by rewrite length_fmap.
Qed.

(** ** The reindexing state across a restart *)

Lemma setReindexing_agrees (cur : ReindexingState * option Z) (state : ReindexingState) :
  DB_reindexing cur.2 = cur.1 →
  (setReindexing cur state).1 = state
  ∧ DB_reindexing (setReindexing cur state).2 = state.
Proof.
  intros Hagree. unfold setReindexing. case_bool_decide as Heq.
  - by rewrite Hagree, Heq.
  - by destruct state.
Qed.

(** X21.  The reindexing state survives a restart.  Modelled from the spec:
    the entry of the database under the key [R].  After any sequence of
    [setReindexing] calls on a node started from an entry, the state a
    node started from the resulting entry takes is the state in memory,
    which is the state of the last call (the state at start when there was
    no call); the entry is absent exactly in the state [NoReindex], and
    without a call the entry is untouched. *)
Theorem reindexing_survives_restart (flag : option Z) (states : list ReindexingState) :
  let run := foldl setReindexing (DB_reindexing flag, flag) states in
  DB_reindexing run.2 = run.1
  ∧ run.1 = default (DB_reindexing flag) (last states)
  ∧ (run.2 = None ↔ run.1 = NoReindex)
  ∧ (states = [] → run.2 = flag).
Proof.
  simpl.
  assert (Hinv : ∀ cur, DB_reindexing cur.2 = cur.1 →
            DB_reindexing (foldl setReindexing cur states).2
            = (foldl setReindexing cur states).1
            ∧ (foldl setReindexing cur states).1 = default cur.1 (last states)).
  { induction states as [|st states IH]; intros cur Hcur; simpl; [done|].
    destruct (setReindexing_agrees cur st Hcur) as [H1 H2].
    destruct (IH (setReindexing cur st)) as [IH1 IH2]; [congruence|].
    split; [done|]. rewrite IH2, H1, last_cons. by destruct (last states). }
  destruct (Hinv (DB_reindexing flag, flag) eq_refl) as [H1 H2].
  split; [done|]. split; [done|]. split; [|by intros ->].
  rewrite <- H1. destruct (foldl _ _ _).2 as [z|]; simpl; [|done].
  by destruct (z =? 1).
Qed.

(** ** A file that has grown *)

(** X22.  [fileHasGrown] and [revertFileHasGrown] fail their assertion for
    an index outside the slot vector.  Inside it they drop the mapping of
    the file and change nothing else, neither the disk nor the infos nor
    any other slot, and the next [mapFile] of the file, unless it stops at
    the assertion of a deleter ([cleanupStops]), makes a new mapping of
    the file found by [getFilepathForIndex] at its current size, whatever
    size the dropped mapping had recorded, so that the slot is consistent
    with the disk afterwards; a missing file gives no mapping. *)
Theorem fileHasGrown_remaps (s : FileStore) (type : BlockType) (fileIndex : Z) :
  (¬ (0 ≤ fileIndex < Z.of_nat (length (slots s type))) →
   fileHasGrown s type fileIndex = Err AssertionFailure)
  ∧ (0 ≤ fileIndex < Z.of_nat (length (slots s type)) →
     ∃ s1,
       fileHasGrown s type fileIndex = Ok s1
       ∧ disk s1 = disk s
       ∧ vinfoBlockFile s1 = vinfoBlockFile s
       ∧ slots s1 type = <[Z.to_nat fileIndex := None]> (slots s type)
       ∧ (∀ other, other ≠ type → slots s1 other = slots s other)
       ∧ if cleanupStops s1 type fileIndex
         then mapFile s1 fileIndex type = Err AssertionFailure
         else
           ∃ s2 buf,
             mapFile s1 fileIndex type = Ok (s2, buf)
             ∧ buf = (λ f, mkDataFile (resolved s type fileIndex) (fileLength f)
                             (negb (bool_decide (type = ForwardBlock)
                                    && negb (fileIndex =? nLastBlockFile s))
                              && negb (f_readonly f))
                             (freshId s1))
                     <$> blockFile s type fileIndex
             ∧ slotConsistent s2 type fileIndex).
Proof.
  unfold fileHasGrown. split.
  - intros Hout. destruct (Z.leb_spec 0 fileIndex); [|done].
    destruct (Z.ltb_spec fileIndex (Z.of_nat (length (slots s type)))); [lia|done].
  - intros [Hlo Hhi]. destruct (Z.leb_spec 0 fileIndex); [|lia].
    destruct (Z.ltb_spec fileIndex (Z.of_nat (length (slots s type)))); [|lia]. simpl.
    set (s1 := set_slots type _ s).
    assert (Hslots1 : slots s1 type = <[Z.to_nat fileIndex := None]> (slots s type))
      by (subst s1; by destruct type).
    assert (Hdisk1 : disk s1 = disk s) by (subst s1; by destruct type).
    assert (Hdirs1 : blocksDataDirs s1 = blocksDataDirs s) by (subst s1; by destruct type).
    assert (Hlast1 : nLastBlockFile s1 = nLastBlockFile s) by (subst s1; by destruct type).
    assert (Hres1 : resolved s1 type fileIndex = resolved s type fileIndex)
      by (unfold resolved; by rewrite Hdisk1, Hdirs1).
    exists s1. split; [done|]. split; [done|].
    split; [subst s1; by destruct type|]. split; [done|].
    split. { intros other Hother. subst s1. by destruct type, other. }
    destruct (cleanupStops s1 type fileIndex) eqn:Hstop.
    { by apply mapFile_stops. }
    destruct (mapFile_returns s1 fileIndex type Hlo Hstop) as (s2 & buf & Hmap).
    pose proof (mapFile_buf _ _ _ _ _ Hmap) as Hbuf.
    destruct (mapFile_effect _ _ _ _ _ Hmap) as (_ & _ & Hslot2 & Hdisk2 & Hdirs2 & _).
    assert (Hnone : slots s1 type !! Z.to_nat fileIndex = Some None).
    { rewrite Hslots1. apply list_lookup_insert_eq. lia. }
    destruct Hbuf as [(df & Hdf & _)|[_ Hbuf]]; [congruence|].
    unfold blockFile, freshMapping in Hbuf. rewrite Hres1, Hdisk1, Hlast1 in Hbuf.
    exists s2, buf. split; [done|]. split; [done|].
    intros df Hdf. rewrite Hslot2 in Hdf. injection Hdf as Hdf. rewrite Hbuf in Hdf.
    unfold resolved. rewrite Hdisk2, Hdirs2, Hdisk1, Hdirs1. fold (resolved s type fileIndex).
    destruct (disk s (resolved s type fileIndex)) as [f|] eqn:Hf; [|done].
    simpl in Hdf. injection Hdf as <-. simpl. split; [done|]. by exists f.
Qed.

(** ** Instances *)

Lemma indexWf_emptyIndex : indexWf emptyIndex.
Proof. split; [constructor|]. intros a k p Ha. by destruct a. Qed.

Lemma indexWf_twoHashes : indexWf twoHashes.
Proof. do 2 apply InsertBlockIndex_wf. apply indexWf_emptyIndex. Qed.

Lemma failedIndex_valid :
  ∀ k p, (k, p) ∈ indexMap failedIndex → is_Some (ix_heap failedIndex !! p).
Proof.
  intros k p Hin. simpl in Hin.
  repeat (apply elem_of_cons in Hin as [Heq|Hin];
          [inversion Heq; subst; eexists; reflexivity|]).
  by apply elem_of_nil in Hin.
Qed.

Lemma failedHeap_parentsBelow : parentsBelow failedHeap.
Proof.
  intros p r q Hp Hprev.
  destruct p as [|[|[|[|p]]]]; simpl in Hp; inversion Hp; subst r;
    simpl in Hprev; inversion Hprev; subst q; eexists; (split; [reflexivity|]);
    simpl; lia.
Qed.

Lemma noSlots_consistent (d : Disk) (type : BlockType) :
  slotsConsistent (set_disk d emptyStore) type.
Proof. intros i _ df Hdf. by destruct type, (Z.to_nat i). Qed.

Lemma InsertBlockIndex_registers_witness :
  ∃ p, (InsertBlockIndex twoHashes 12).2 = Some p
    ∧ Index_get (indexMap (InsertBlockIndex twoHashes 12).1) 12 = Some p
    ∧ Index_get (indexMap (InsertBlockIndex twoHashes 12).1) 10 = Some 0%nat.
Proof.
  destruct (InsertBlockIndex_registers twoHashes 12 indexWf_twoHashes)
    as (_ & _ & Hnew & Hkeep & _).
  destruct (Hnew ltac:(discriminate)) as (p & a & r & Hp & Hget & _).
  exists p. split; [exact Hp|]. split; [exact Hget|].
  apply Hkeep. reflexivity.
Defined.

Lemma fileIndexes_exactly_witness :
  ∃ files, fileIndexes failedIndex = Some files
    ∧ ∀ n, n ∈ files ↔
        ∃ k p r, (k, p) ∈ indexMap failedIndex ∧ ix_heap failedIndex !! p = Some r
                 ∧ Z.land (nStatus r) BLOCK_HAVE_DATA ≠ 0 ∧ nFile r = n.
Proof. exact (fileIndexes_exactly failedIndex failedIndex_valid). Defined.

Lemma allByHeight_sorted_witness :
  ∃ l, allByHeight failedIndex = Some l
    ∧ Z.of_nat (length l) = 4
    ∧ ∀ i j a b, (i < j)%nat → l !! i = Some a → l !! j = Some b → a.1 ≤ b.1.
Proof.
  destruct (allByHeight_sorted failedIndex failedIndex_valid)
    as (l & Hl & Hlen & _ & Hsorted & _).
  exists l. split; [exact Hl|]. split; [exact Hlen|exact Hsorted].
Defined.

Lemma appendHeader_known_header_is_noop_witness :
  appendHeader forkHeap tipC 2%nat = Some (tipC, false)
  ∧ (r' ← appendHeader forkHeap tipC 2%nat; appendHeader forkHeap r'.1 2%nat)
    = Some (tipC, false).
Proof.
  apply (appendHeader_known_header_is_noop forkHeap tipC 2%nat (hdr (Some 0%nat) 1 2 0)).
  - reflexivity.
  - eexists. reflexivity.
  - reflexivity.
  - left. vm_compute. reflexivity.
Defined.

Lemma appendHeader_new_header_witness :
  ∃ d' changed,
    appendHeader forkHeap tipsAB 3%nat = Some (d', changed)
    ∧ headerChainTips d' = [1%nat; 3%nat]
    ∧ headersChain d' = Some 3%nat
    ∧ changed = true.
Proof.
  destruct (appendHeader_new_header forkHeap tipsAB 3%nat (hdr (Some 2%nat) 2 3 0))
    as (d' & changed & rest & Hrun & Htips & _ & Hrest & Hmoves & _).
  - reflexivity.
  - eexists. reflexivity.
  - reflexivity.
  - intros tip Hin. repeat (apply elem_of_cons in Hin as [->|Hin]; [eexists; reflexivity|]).
    by apply elem_of_nil in Hin.
  - intros tip Hin.
    repeat (apply elem_of_cons in Hin as [->|Hin]; [vm_compute; discriminate|]).
    by apply elem_of_nil in Hin.
  - vm_compute. reflexivity.
  - discriminate.
  - intros m Hm. inversion Hm. subst m. eexists. split; [reflexivity|]. simpl. lia.
  - exists d', changed. split; [exact Hrun|].
    assert (Hfirst : firstExtended forkHeap 3%nat (headerChainTips tipsAB) 1%nat 2%nat).
    { split; [reflexivity|]. split; [eexists; split; reflexivity|].
      intros [|j] tip' Hlt Hl; [|lia]. injection Hl as <-.
      intros (t & Ht & Hext). injection Ht as <-. vm_compute in Hext. discriminate Hext. }
    rewrite Htips, (Hrest 1%nat 2%nat Hfirst).
    split; [reflexivity|].
    destruct Hmoves as (Hchain & _ & Hchanged); [|by split].
    right. right. exists 1%nat, (hdr (Some 0%nat) 1 2 0).
    split; [reflexivity|]. split; [reflexivity|]. simpl. lia.
Defined.

Lemma appendHeaders_leave_a_main_tip_witness :
  ∃ d, appendHeaders forkHeap emptyChainSet [0%nat; 1%nat; 3%nat] = Some d
    ∧ tipsSettled d.
Proof.
  destruct (appendHeaders forkHeap emptyChainSet [0%nat; 1%nat; 3%nat]) as [d|] eqn:Hrun;
    [|vm_compute in Hrun; discriminate Hrun].
  exists d. split; [reflexivity|].
  exact (proj1 (appendHeaders_leave_a_main_tip forkHeap 0%nat [1%nat; 3%nat] d Hrun)).
Defined.

Lemma mapFile_frame_witness :
  (∃ s1 df,
     mapFile fullHistoryStore 10 ForwardBlock = Ok (s1, Some df)
     ∧ mapFile s1 10 ForwardBlock = Ok (s1, Some df)
     ∧ df = mkDataFile (blk 10) 1 true 10
     ∧ slots s1 ForwardBlock !! 10%nat = Some (Some df)
     ∧ slots fullHistoryStore ForwardBlock !! 0%nat = Some (Some (mappingOf 0))
     ∧ slots s1 ForwardBlock !! 0%nat = Some None
     ∧ slots s1 ForwardBlock !! 1%nat = Some (Some (mappingOf 1))
     ∧ length (slots s1 ForwardBlock) = 20%nat
     ∧ (length (fileHistory s1) ≤ 10)%nat)
  ∧ mapFile strandedStore 0 ForwardBlock = Err AssertionFailure.
Proof.
  split.
  - pose proof (proj2 (mapFile_frame fullHistoryStore 10 ForwardBlock) ltac:(lia)) as H.
    assert (Hgo : cleanupStops fullHistoryStore ForwardBlock 10 = false)
      by (vm_compute; reflexivity).
    rewrite Hgo in H.
    destruct H as (s1 & buf & H1 & H2 & H3 & _ & _ & _ & _ & _ & Hlen & _ & _ & Hslots
                   & Hten & _ & Hcase).
    assert (Hbuf : buf = Some (mkDataFile (blk 10) 1 true 10))
      by (destruct Hcase as [Hbuf _]; rewrite Hbuf; vm_compute; reflexivity).
    exists s1, (mkDataFile (blk 10) 1 true 10). rewrite Hbuf in H1, H2, H3.
    split; [exact H1|]. split; [exact H2|]. split; [reflexivity|]. split; [exact H3|].
    split; [reflexivity|].
    split; [rewrite (Hslots ForwardBlock 0%nat) by discriminate; vm_compute; reflexivity|].
    split; [rewrite (Hslots ForwardBlock 1%nat) by discriminate; vm_compute; reflexivity|].
    split; [rewrite Hlen; vm_compute; reflexivity|].
    apply Hten. vm_compute. lia.
  - pose proof (proj2 (mapFile_frame strandedStore 0 ForwardBlock) ltac:(lia)) as H.
    assert (Hstop : cleanupStops strandedStore ForwardBlock 0 = true)
      by (vm_compute; reflexivity).
    rewrite Hstop in H. exact H.
Defined.

Lemma loadUndoBlock_authenticated_witness :
  ∃ s1 v df f,
    loadUndoBlock plainEnv (storeWithRev0 undoFrameFile) (mkPos 0 8) 5 = Ok (s1, v)
    ∧ cb_buffer v = Some df
    ∧ disk (storeWithRev0 undoFrameFile) (df_path df) = Some f
    ∧ viewBytes (disk s1) v = Some (slice (cb_begin v) (cb_end v - cb_begin v) (f_bytes f))
    ∧ slice (cb_end v) 32 (f_bytes f)
      = uint256_bytes
          (Hash256 plainEnv
             (uint256_bytes 5 ++ slice (cb_begin v) (cb_end v - cb_begin v) (f_bytes f))).
Proof.
  destruct (loadUndoBlock plainEnv (storeWithRev0 undoFrameFile) (mkPos 0 8) 5)
    as [[s1 v]|e] eqn:Hload; [|vm_compute in Hload; discriminate Hload].
  destruct (loadUndoBlock_authenticated plainEnv _ s1 (mkPos 0 8) 5 v Hload)
    as (df & f & payload & Hdf & _ & Hf & _ & _ & _ & _ & Hview & Hpay & Hsum).
  exists s1, v, df, f. split; [reflexivity|]. split; [exact Hdf|]. split; [exact Hf|].
  rewrite <- Hpay. split; [exact Hview|exact Hsum].
Defined.

Lemma loadBlockFile_view_witness :
  (∃ s1 v,
    loadBlockFile (storeWithBlk0 oneFrameFile) 0 = Ok (s1, v)
    ∧ isValid v = true
    ∧ cb_begin v = 0 ∧ cb_end v = 95)
  ∧ loadBlockFile strandedStore 0 = Err AssertionFailure.
Proof.
  split.
  - destruct (loadBlockFile_view (storeWithBlk0 oneFrameFile) 0 ltac:(reflexivity)
                (noSlots_consistent _ ForwardBlock 0 ltac:(reflexivity)))
      as (s1 & v & Hrun & Hvalid & _ & Hbegin & Hend & _).
    exists s1, v. split; [exact Hrun|]. split; [exact Hvalid|]. split; [exact Hbegin|].
    exact Hend.
  - assert (Hslot : slotConsistent strandedStore ForwardBlock 0)
      by (intros df Hdf; discriminate Hdf).
    exact (loadBlockFile_view strandedStore 0 ltac:(reflexivity) Hslot).
Defined.

Lemma foundBlockFile_registers_witness :
  ∃ s', foundBlockFile undoStore 2 7 700 = Ok s'
    ∧ nLastBlockFile s' = 2
    ∧ vinfoBlockFile s' !! 2%nat = Some (mkFileInfo 7 700 0)
    ∧ vinfoBlockFile s' !! 0%nat = Some (mkFileInfo 1 98 10).
Proof.
  destruct (proj2 (foundBlockFile_registers undoStore 2 7 700) ltac:(discriminate))
    as (s' & Hrun & Hlast & Hinfo & Hold & _).
  exists s'. split; [exact Hrun|]. split; [exact Hlast|]. split; [exact Hinfo|].
  rewrite (Hold 0%nat); [reflexivity|discriminate|simpl; lia].
Defined.

Lemma LoadExternalBlockFile_positions_witness :
  ∃ s',
    LoadExternalBlockFile plainEnv (storeWithBlk0 shortFrameFile) (mkPos 0 0)
    = Ok (s', [mkPos 0 8], true)
    ∧ framesFrom plainEnv shortFrameFile 0 0 [mkPos 0 8]
    ∧ disk s' = disk (storeWithBlk0 shortFrameFile)
    ∧ nLastBlockFile s' = 0.
Proof.
  assert (H : match LoadExternalBlockFile plainEnv (storeWithBlk0 shortFrameFile)
                      (mkPos 0 0) with
              | Err e => e = MemoryFault ∧ mappedSize 6 < 6 + 3
              | Ok (s', added, loaded) =>
                  loaded = true
                  ∧ disk s' = disk (storeWithBlk0 shortFrameFile)
                  ∧ framesFrom plainEnv shortFrameFile 0 0 added
                  ∧ (added = [] → vinfoBlockFile s' = [] ∧ nLastBlockFile s' = 0)
                  ∧ (added ≠ [] →
                     ∃ info, vinfoBlockFile s' !! 0%nat = Some info
                       ∧ nBlocks info = Z.of_nat (length added)
                       ∧ nUndoSize info = 0
                       ∧ nLastBlockFile s' = Z.max 0 0)
              end).
  { exact (proj2 (LoadExternalBlockFile_positions plainEnv (storeWithBlk0 shortFrameFile)
                    (mkPos 0 0) ltac:(reflexivity)
                    (noSlots_consistent _ ForwardBlock 0 ltac:(reflexivity)))). }
  destruct (LoadExternalBlockFile plainEnv (storeWithBlk0 shortFrameFile) (mkPos 0 0))
    as [[[s' added] loaded]|e] eqn:Hrun; [|vm_compute in Hrun; discriminate Hrun].
  assert (added = [mkPos 0 8]) as -> by (vm_compute in Hrun; congruence).
  destruct H as (-> & Hdisk & Hframes & _ & Hinfo).
  exists s'. split; [reflexivity|]. split; [exact Hframes|]. split; [exact Hdisk|].
  destruct (Hinfo ltac:(discriminate)) as (info & _ & _ & _ & Hlast). exact Hlast.
Defined.


Lemma storeInv_blkStore : storeInv blkStore.
Proof. apply storeInv_noSlots; [done|by right]. Qed.

Lemma storeInv_undoStore : storeInv undoStore.
Proof. apply storeInv_noSlots; [done|by right]. Qed.

Lemma writeBlock_keeps_stored_blocks_witness :
  ∃ s' pos view,
    writeBlock plainEnv blkStore somePayload (mkPos 0 0) ForwardBlock None
    = Ok (s', pos, view)
    ∧ storeInv s'
    ∧ ∀ q, q ≠ mkPath DataDir ForwardBlock (pos_nFile pos) → disk s' q = disk blkStore q.
Proof.
  destruct (writeBlock plainEnv blkStore somePayload (mkPos 0 0) ForwardBlock None)
    as [[[s' pos] view]|e] eqn:Hwrite; [|vm_compute in Hwrite; discriminate Hwrite].
  destruct (writeBlock_keeps_stored_blocks plainEnv blkStore s' somePayload (mkPos 0 0)
              pos ForwardBlock None view storeInv_blkStore sizesFit_blkStore Hwrite)
    as (Hinv & _ & Hother & _).
  exists s', pos, view. split; [reflexivity|]. split; [exact Hinv|exact Hother].
Defined.

Lemma writeBlock_bookkeeping_witness :
  ∃ s' pos view,
    writeBlock plainEnv blkStore somePayload (mkPos 0 0) ForwardBlock None
    = Ok (s', pos, view)
    ∧ vinfoBlockFile s' !! Z.to_nat (pos_nFile pos)
      = Some (infoAfterWrite ForwardBlock (Z.of_nat (length somePayload))
                (default newFileInfo (vinfoBlockFile blkStore !! Z.to_nat (pos_nFile pos))))
    ∧ Z.of_nat (length (vinfoBlockFile s')) = nLastBlockFile s' + 1
    ∧ setDirtyFileInfo s' = {[pos_nFile pos]} ∪ setDirtyFileInfo blkStore.
Proof.
  destruct (writeBlock plainEnv blkStore somePayload (mkPos 0 0) ForwardBlock None)
    as [[[s' pos] view]|e] eqn:Hwrite; [|vm_compute in Hwrite; discriminate Hwrite].
  destruct (writeBlock_bookkeeping plainEnv blkStore s' somePayload (mkPos 0 0)
              pos ForwardBlock None view storeInv_blkStore sizesFit_blkStore Hwrite)
    as (Hinfo & _ & _ & Hlen & _ & Hdirty & _).
  exists s', pos, view. split; [reflexivity|]. split; [exact Hinfo|].
  split; [exact Hlen|exact Hdirty].
Defined.

Lemma writeUndoBlock_then_load_witness :
  ∃ s' view,
    writeUndoBlock plainEnv undoStore someUndo 5 0 = Ok (s', mkPos 0 18, view)
    ∧ (∃ s2 v, loadUndoBlock plainEnv s' (mkPos 0 18) 5 = Ok (s2, v)
         ∧ viewBytes (disk s2) v = Some someUndo)
    ∧ loadUndoBlock plainEnv s' (mkPos 0 18) 6 = Err ChecksumMismatch.
Proof.
  destruct (writeUndoBlock plainEnv undoStore someUndo 5 0)
    as [[[s' pos] view]|e] eqn:Hwrite; [|vm_compute in Hwrite; discriminate Hwrite].
  destruct (proj2 (writeUndoBlock_then_load plainEnv undoStore 5 0) s' someUndo pos view
              storeInv_undoStore sizesFit_undoStore Hwrite)
    as (-> & _ & _ & _ & Hload).
  exists s', view. split; [reflexivity|]. split.
  - apply (proj1 (Hload 5)). reflexivity.
  - apply (proj2 (Hload 6)). vm_compute. discriminate.
Defined.

Lemma CacheAllBlockInfos_restores_rows_witness :
  ∃ db' p q r,
    CacheAllBlockInfos emptyDB twoRows = Some (db', true)
    ∧ Index_get (indexMap (db_index db')) 21 = Some p
    ∧ Index_get (indexMap (db_index db')) 20 = Some q
    ∧ ix_heap (db_index db') !! p = Some r
    ∧ pprev r = Some q ∧ nHeight r = 1 ∧ nDataPos r = 106.
Proof.
  destruct (CacheAllBlockInfos emptyDB twoRows) as [[db' ok]|] eqn:Hrun;
    [|vm_compute in Hrun; discriminate Hrun].
  assert (ok = true) as -> by (vm_compute in Hrun; congruence).
  destruct (CacheAllBlockInfos_restores_rows emptyDB db' twoRows true indexWf_emptyIndex)
    as (_ & Hrows & _); [|exact Hrun|].
  { simpl. repeat constructor; set_solver. }
  destruct (Hrows (mkDiskBlockIndex 21 20 1 0 106 0 1 0 0 0 0 0 1) ltac:(simpl; left))
    as (_ & p & r & Hp & Hr & Hrec).
  destruct (Hrows (mkDiskBlockIndex 20 0 0 0 8 0 1 0 0 0 0 0 1)
              ltac:(simpl; right; left)) as (_ & q & rq & Hq & _).
  simpl in Hrec, Hq, Hp. rewrite Hq in Hrec.
  exists db', p, q, r. split; [reflexivity|]. split; [exact Hp|]. split; [exact Hq|].
  split; [exact Hr|]. rewrite Hrec. simpl. repeat split.
Defined.

Lemma reconsiderBlock_again_changes_nothing_witness :
  ∃ ix1 ix2,
    reconsiderBlock failedIndex 1%nat = Some (ix1, true)
    ∧ reconsiderBlock ix1 1%nat = Some (ix2, true)
    ∧ ix_heap ix2 = ix_heap ix1
    ∧ nStatus <$> ix_heap ix1 = [3; 2; 2; 34].
Proof.
  destruct (reconsiderBlock_again_changes_nothing failedIndex 1%nat
              (hdr (Some 0%nat) 1 2 (Z.lor 2 BLOCK_FAILED_VALID))
              failedHeap_parentsBelow failedIndex_valid eq_refl)
    as (ix1 & ix2 & Hrun1 & Hrun2 & Hheap & _).
  exists ix1, ix2. split; [exact Hrun1|]. split; [exact Hrun2|]. split; [exact Hheap|].
  vm_compute in Hrun1. by inversion Hrun1.
Defined.

Lemma fileHasGrown_remaps_witness :
  (∃ s0, mapFile staleStore 0 ForwardBlock = Ok (s0, Some (mkDataFile (blk 0) 100 true 0)))
  ∧ ∃ s1 s2,
      fileHasGrown staleStore ForwardBlock 0 = Ok s1
      ∧ mapFile s1 0 ForwardBlock = Ok (s2, Some (mkDataFile (blk 0) 200 true 1)).
Proof.
  split; [eexists; vm_compute; reflexivity|].
  destruct (proj2 (fileHasGrown_remaps staleStore ForwardBlock 0)
              ltac:(split; [reflexivity|reflexivity]))
    as (s1 & Hgrown & _ & _ & _ & _ & Hmap).
  assert (Hs1 : s1 = set_slots ForwardBlock [None] staleStore)
    by (vm_compute in Hgrown; injection Hgrown as <-; reflexivity).
  assert (Hgo : cleanupStops s1 ForwardBlock 0 = false)
    by (rewrite Hs1; vm_compute; reflexivity).
  rewrite Hgo in Hmap. destruct Hmap as (s2 & buf & Hmap & Hbuf & _).
  exists s1, s2. split; [exact Hgrown|]. rewrite Hmap, Hbuf, Hs1. reflexivity.
Defined.
